(* ===== verification/_CoqProject ===== *)
-Q . S2P
Prelude.v
Types.v
Utils.v
Printf.v
Ipc.v
Float32.v
Page.v
BTree.v
BTreeFile.v
BTreeAlloc.v
Wal.v
LockManager.v
TxnManager.v
TxnWorld.v
PageMap.v
BufferPool.v
PageStore.v
DataFiles.v
Table.v
TableSpec.v
TableHistory.v
Calls.v
Codec.v
Platform.v
Lifecycle.v
StorageTests.v
EventMgr.v
Protocol.v
Auth.v
Reports.v
Booking.v
Server.v
Threads.v
Connections.v
Logger.v
Client.v
Conform.v
Access.v
BookingSafety.v
Ledger.v
BookingLive.v
BookingSpec.v
PlatformRuns.v
Restart.v
Tickets.v
ThreadPool.v
TcpServer.v
Handler.v
Whole.v
