(* ===== verification/Prelude.v ===== *)
(** * Event Ticketing Platform: a verification library

    The program is a TCP server that sells seats.  Clients send text commands;
    a listening thread hands connections to a thread pool; a connection parses
    its commands, tests the permissions of its session and calls the booking
    engine, the event manager, the accounts or the reports.  These work on five
    tables, each a file of slotted pages behind a buffer pool with a B+ tree
    index, and log every change; bookings lock seats through a transaction
    manager over a lock manager.  The library follows these layers from the
    bottom up.  Paths are relative to src/.

    ** Files and sources

    - Prelude.v: machine integers, byte buffers, transition systems that
      inevitably reach a goal, and shared lemmas, tactics and hints.
    - Types.v: common/types.h, common/config.h.  Utils.v: common/utils.c.
      Printf.v, Float32.v: the output formats and the binary32 floats the
      program uses.
    - Storage (server/storage/).  Page.v: page.c.  BTree.v, BTreeFile.v: btree.c
      in memory and on disk; BTreeAlloc.v: its insertion when memory runs out.
      Wal.v: wal.c.  PageMap.v, BufferPool.v:
      buffer_pool.c, its hash map apart.  PageStore.v: the interface (a class of
      page operations with their laws) through which tables see the pool, and
      the pool as its instance.  Table.v, TableSpec.v, TableHistory.v: table.c,
      its operations, their specification as finite maps, and histories.
      DataFiles.v: opening and closing the files of page.c behind a pool.
      StorageTests.v: tests/test_storage.c, run on these definitions.
    - Transactions (server/txn/).  LockManager.v: lock_manager.c.  TxnManager.v:
      txn_manager.c.  TxnWorld.v: both as booking uses them, a map from locked
      records to their owners.
    - Business logic.  Calls.v: programs of table and transaction calls, the
      common language of what follows.  EventMgr.v: core/event_mgr.c.  Auth.v:
      auth/auth.c.  Reports.v: core/reports.c.  Booking.v:
      core/booking_engine.c.  Protocol.v: auth/rbac.c, protocol/parser.c.
      Ipc.v: ipc/stats.c, ipc/notifier.c.  Server.v: the commands of main.c and
      the loop of a connection.  Connections.v: all connections of main.c's
      client_handler over the session pool and the statistics.  Handler.v: one
      client_handler, from byte to byte of a client that is not known in advance,
      with its time-outs and its tests of g_shutdown.  Logger.v: ipc/logger.c.
    - Requests together.  Threads.v: any number of connections and requests,
      interleaved call by call, a program logic for them, and the class [Serves]
      of predicates that go through every command.  Access.v, BookingSafety.v,
      BookingLive.v: the instances that show who may do what, that no seat is
      sold twice, that every request is answered.  Ledger.v: one more instance,
      that records only change in the permitted ways and that answers stay true.
      BookingSpec.v: what booking and
      cancelling do when alone, and what goes wrong outside these bounds.
    - The business on the storage.  Codec.v: the records of Calls.v as bytes.
      Platform.v: main.c's server_context_t, the tables, log, transactions and
      locks on which a call of Calls.v is carried out, and what it means to
      represent a world.  Conform.v: every request keeps to the contract of the
      calls (fields fit, transactions begin and end).  PlatformRuns.v: runs of
      requests on the platform.  Lifecycle.v: server_init and server_shutdown of
      main.c, from the files of the data directory and back.  Restart.v: lives of
      the server, one after the other.  Tickets.v: the history of a server through
      calls, arrivals and restarts.
    - client/client.c and the options of both programs: Client.v.
    - Network (server/network/).  ThreadPool.v: thread_pool.c.  TcpServer.v:
      tcp_server.c over it, with the signal handler of main.c.  Whole.v: the
      listening thread, the workers, the handlers of Handler.v on the storage, their
      clients and the signal handler in one machine.

    State is a [Record] per component named after the C structure, and each
    operation is a function on it, or, where threads meet inside an operation, a
    step of a relation whose steps are the critical sections of the code.  A call
    that can fail in the environment takes its outcome from a schedule (pread,
    pwrite, write), from a fault flag (table and log writes under Calls.v), or from
    a nondeterministic step (malloc, accept, pthread_create, spurious wake-ups).
    accept() fails by itself only when the listening socket is shut down, and a
    read() or write() of a connection ends by itself only by its time-out; what a
    client does is a step of its own, which no progress theorem waits for.

    ** What the theorems show

    - The business: in every interleaving no seat has two confirmed bookings
      (BookingSafety.v) and no request waits for ever (BookingLive.v); booking,
      cancelling and creating an event do exactly what their specification says
      and otherwise report the error and change nothing (BookingSpec.v,
      EventMgr.v); whatever a client sends, only calls its role permits are made
      (Access.v).
    - The whole program: every run of requests on bytes and pages is a run on the
      abstract tables (PlatformRuns.v); a stop and a start keep every record, the
      server always comes up again, and from a new data directory, through any
      number of lives, no seat is ever booked twice and every request is answered
      (Restart.v).  A booking confirmed to a client is there at every later moment of
      that history, with its user, event and seats, and no record is ever changed
      but in the permitted ways (Tickets.v).
    - Connections: sessions are private to their connections and counted exactly
      (Connections.v); once its input has arrived the client sends the lines typed
      and QUIT, shows all it reads from the server, and ends, at the latest when
      select has reported once for each line (Client.v); the log file holds the lines
      whole and in order in every interleaving, and, when nobody is still logging at
      the destruction, as main.c has it, every line (Logger.v).
    - Parsing and accounts: a line is its words, cut into pieces of 255 bytes where
      they are longer, commands round trip, long lines are rejected whole, the permission matrix is the role hierarchy, login
      accepts what registration stored, the session array is a finite map.
    - Storage: the index, the page map and a whole table refine finite maps over
      any history; the index does so through failing allocations and frees what
      it holds; the index file and the record layouts round trip; opening any
      index file, however corrupt, ends, and what it ends in is known; recovery
      replays exactly the records logged before the first failed write, survives
      truncation, and rebuilds a table; the buffer pool is coherent and evicts in
      LRU order; flushing is durable.
    - Locks and transactions: exclusion, no lost wake-up, two phases, isolation,
      durability of commits, nothing left locked at rest.
    - Network: tasks run once and in order, the pool and the server finish what
      they accepted and shut down, sockets are bounded in number and owned by
      exactly one thread.  Composed with the business (Whole.v): a server told to
      stop comes to its end in every schedule by steps of its own threads, with every
      handler returned, whether or not its client ever sends or reads another byte;
      and such a run is a life in the sense of Restart.v.

    Bookings are proved over Calls.v, where a table is a finite map and a lock has
    one owner; requests and their programs are checked once against the contracts
    of Conform.v.  Platform.v carries each call out on table.c (TableHistory.v),
    txn_manager.c and lock_manager.c (TxnWorld.v) and shows that it does what
    Calls.v says, so that every theorem over Calls.v is one over bytes and pages
    (platform_refines_world).  Restart.v composes this with Lifecycle.v, and Tickets.v
    with Ledger.v.

    ** Bounds and fuel

    Integers are [Z] with the wrap-around of their C type written out ([wrap] in
    this file).  Recursions that are not structural take fuel: the binary search in
    a node (the width of its interval), the scan along the leaves (their number),
    reading an index file (the file's length plus one, and BTreeFile.v shows that it never runs
    out), the scan of the log (a record is at least a header long, so the
    length of the log is enough), probing in the page map (its capacity), the
    lines of a connection (a line takes at least its newline), and printing a
    number (twenty digits, which hold 64 bits).

    The identifiers of records are 32 bits wide, the numbers of transactions too,
    and those of log records 64.  [represents room] leaves room for that many more
    calls.  Over all lives together Restart.v allows LIFETIME = 2^32 - 2 calls, at
    LOG_SHARE = 130 log records for each call or stop (a stop aborts up to 128
    transactions).  Behind that the counters wrap round and ids are given twice.

    ** What is not modelled

    - The system calls of sockets, pipes, shared memory and message queues, time()
      and strftime: what they return is a parameter or a step of the environment.
      The advisory lock on the data files is not waited for and stops nobody.
    - The server never calls wal_recover: the theorems on recovery are about that
      function, and Restart.v is about servers that were stopped; what a killed
      server forgets is an example there.
    - Write-back failures while requests run (BufferPool.v has them; a life in
      Restart.v does not), allocation failure except in the thread pool, the
      listening thread, the logger and the B+ tree (BTreeAlloc.v; not while an
      index file is read), and freeing memory elsewhere.
    - lock_mgr_destroy, auth_destroy and the like, which only free, and the
      functions that only allocate a structure and store its arguments.
    - The shell and Python scripts beside the program (tests/test_workflows.py and
      the build).
    - Printing and reading floats ([libc] in Server.v, with what other threads have
      counted when the statistics are copied), and the padding bytes of the index
      file, are parameters.
    - Under Threads.v a connection is the program of the bytes its client sends until
      the server stops reading, whatever they are; when it reads them, with its
      time-outs, is in Handler.v, which shows that every run of handlers is a run of
      such programs.  What a write that times out loses is in [send_all] of
      Connections.v.
    - Two short pairs of steps are one in the model: running = 0 and shutdown() of
      the signal handler, and counting a connection and creating (or removing) its
      session. *)

From stdpp Require Import base tactics numbers list list_numbers gmap.
From Stdlib Require Import ZArith Lia.

#[local] Open Scope Z_scope.

(** ** Machine integers *)

Declare Scope etp_scope.
Delimit Scope etp_scope with etp.

(** [wrap w z] is the value an unsigned [w]-bit C object holds after [z] was
    stored into it. *)
Definition wrap (w z : Z) : Z := z mod 2 ^ w.
Abbreviation u8 := (wrap 8).
Abbreviation u16 := (wrap 16).
Abbreviation u32 := (wrap 32).
Abbreviation u64 := (wrap 64).

(** ** Byte buffers *)

(** Bytes are integers; [byte_ok] is the range an [uint8_t] has. *)
Abbreviation bytes := (list Z).
Definition byte_ok (b : Z) : Prop := 0 <= b < 256.

(** [slice off n l]: the [n] elements read from offset [off] (memcpy out of a
    buffer).  [blit off src dst]: [src] copied into [dst] at offset [off]. *)
Definition slice {A} (off n : nat) (l : list A) : list A := take n (drop off l).
Definition blit {A} (off : nat) (src dst : list A) : list A :=
  take off dst ++ src ++ drop (off + length src) dst.

(** Little-endian integers, the byte order of the target. *)
Fixpoint le_enc (n : nat) (z : Z) : bytes :=
  match n with
  | O => []
  | S n' => z mod 256 :: le_enc n' (z / 256)
  end.
Fixpoint le_dec (l : bytes) : Z :=
  match l with
  | [] => 0
  | b :: l' => b + 256 * le_dec l'
  end.

(** Reading and writing an [n]-byte integer field of a packed structure. *)
Definition rd (n off : nat) (p : bytes) : Z := le_dec (slice off n p).
Definition wr (n off : nat) (v : Z) (p : bytes) : bytes := blit off (le_enc n v) p.

(** [zeros n]: what [calloc]/[memset 0] leave. *)
Definition zeros (n : nat) : bytes := replicate n 0.

(** ** Automation *)

Create HintDb etp.
Create Rewrite HintDb etp_len.

(** Case analysis on the head boolean test or match of the goal. *)
Ltac case_step :=
  match goal with
  | |- context [if ?b then _ else _] => destruct b eqn:?
  | |- context [match ?x with _ => _ end] => destruct x eqn:?
  end.

(** Turns boolean integer tests in the context into propositions. *)
Ltac bool_to_prop :=
  repeat match goal with
  | H : (_ <? _) = true |- _ => apply Z.ltb_lt in H
  | H : (_ <? _) = false |- _ => apply Z.ltb_ge in H
  | H : (_ <=? _) = true |- _ => apply Z.leb_le in H
  | H : (_ <=? _) = false |- _ => apply Z.leb_gt in H
  | H : (_ >=? _) = _ |- _ => rewrite Z.geb_leb in H
  | H : (_ >? _) = _ |- _ => rewrite Z.gtb_ltb in H
  | H : (_ =? _) = true |- _ => apply Z.eqb_eq in H
  | H : (_ =? _) = false |- _ => apply Z.eqb_neq in H
  | H : (_ && _)%bool = true |- _ => apply andb_true_iff in H; destruct H
  | H : (_ && _)%bool = false |- _ => apply andb_false_iff in H
  | H : (_ || _)%bool = true |- _ => apply orb_true_iff in H
  | H : (_ || _)%bool = false |- _ => apply orb_false_iff in H; destruct H
  | H : negb _ = true |- _ => apply negb_true_iff in H
  | H : negb _ = false |- _ => apply negb_false_iff in H
  end.

(** Length goals: normalise with the [etp_len] equations, then arithmetic. *)
Ltac len := autorewrite with etp_len in *; cbn [length] in *; try lia.

(** ** Machine integers: lemmas *)

Lemma wrap_range w z : 0 <= w -> 0 <= wrap w z < 2 ^ w.
Proof. intros. apply Z.mod_pos_bound. by apply Z.pow_pos_nonneg. Qed.

Lemma wrap_small w z : 0 <= z < 2 ^ w -> wrap w z = z.
Proof. apply Z.mod_small. Qed.

Lemma wrap_idem w z : wrap w (wrap w z) = wrap w z.
Proof. apply Z.mod_mod_divide. apply Z.divide_refl. Qed.

Lemma u16_small z : 0 <= z < 65536 -> u16 z = z.
Proof. exact (wrap_small 16 z). Qed.
Lemma u32_small z : 0 <= z < 4294967296 -> u32 z = z.
Proof. exact (wrap_small 32 z). Qed.
Lemma u64_small z : 0 <= z < 18446744073709551616 -> u64 z = z.
Proof. exact (wrap_small 64 z). Qed.

(** ** Slices and blits *)

Section buffers.
Context {A : Type}.
Implicit Types (l src dst : list A) (off n i : nat).

Lemma length_slice off n l :
  length (slice off n l) = Nat.min n (length l - off)%nat.
Proof. unfold slice. rewrite length_take, length_drop. lia. Qed.

Lemma length_blit off src dst :
  (off + length src <= length dst)%nat -> length (blit off src dst) = length dst.
Proof.
  intros. unfold blit. rewrite !length_app, length_take, length_drop. lia.
Qed.

Lemma lookup_slice off n l i :
  slice off n l !! i = if decide (i < n)%nat then l !! (off + i)%nat else None.
Proof. unfold slice. rewrite lookup_take. case_decide; [|done]. by rewrite lookup_drop. Qed.

Lemma lookup_blit off src dst i :
  (off + length src <= length dst)%nat ->
  blit off src dst !! i =
    if decide (off <= i < off + length src)%nat then src !! (i - off)%nat else dst !! i.
Proof.
  intros Hb. unfold blit. case_decide as Hi.
  - rewrite lookup_app_r by (rewrite length_take; lia).
    rewrite length_take, Nat.min_l by lia. rewrite lookup_app_l by lia. done.
  - destruct (decide (i < off)%nat).
    + rewrite lookup_app_l by (rewrite length_take; lia). by rewrite lookup_take_lt by lia.
    + rewrite lookup_app_r by (rewrite length_take; lia).
      rewrite length_take, Nat.min_l by lia. rewrite lookup_app_r by lia.
      rewrite lookup_drop. f_equal. lia.
Qed.

Lemma slice_blit_same off src dst :
  (off + length src <= length dst)%nat -> slice off (length src) (blit off src dst) = src.
Proof.
  intros Hb. apply list_eq. intros i. rewrite lookup_slice. case_decide.
  - rewrite lookup_blit by done. rewrite decide_True by lia. f_equal. lia.
  - symmetry. apply lookup_ge_None. lia.
Qed.

Lemma slice_blit_disjoint off off' n src dst :
  (off + length src <= length dst)%nat ->
  (off' + n <= off)%nat \/ (off + length src <= off')%nat ->
  slice off' n (blit off src dst) = slice off' n dst.
Proof.
  intros Hb Hd. apply list_eq. intros i. rewrite !lookup_slice. case_decide; [|done].
  rewrite lookup_blit by done. rewrite decide_False by lia. done.
Qed.

Lemma slice_all l : slice 0 (length l) l = l.
Proof. unfold slice. rewrite drop_0. by rewrite firstn_all. Qed.

Lemma slice_app_l off n l1 l2 :
  (off + n <= length l1)%nat -> slice off n (l1 ++ l2) = slice off n l1.
Proof.
  intros. unfold slice. rewrite drop_app_le by lia. rewrite take_app_le; [done|].
  rewrite length_drop. lia.
Qed.

Lemma slice_app_r off n l1 l2 :
  (length l1 <= off)%nat -> slice off n (l1 ++ l2) = slice (off - length l1) n l2.
Proof. intros. unfold slice. by rewrite drop_app_ge. Qed.

Lemma Forall_slice (P : A -> Prop) off n l : Forall P l -> Forall P (slice off n l).
Proof. intros. unfold slice. by apply Forall_take, Forall_drop. Qed.

Lemma Forall_blit (P : A -> Prop) off src dst :
  Forall P src -> Forall P dst -> Forall P (blit off src dst).
Proof.
  intros. unfold blit. apply Forall_app; split; [by apply Forall_take|].
  apply Forall_app; split; [done|]. by apply Forall_drop.
Qed.

Lemma blit_id off l dst :
  (off + length l <= length dst)%nat -> slice off (length l) dst = l ->
  blit off l dst = dst.
Proof.
  intros Hb Hs. apply list_eq. intros i. rewrite lookup_blit by done.
  case_decide; [|done]. rewrite <- Hs at 1. rewrite lookup_slice.
  rewrite decide_True by lia. f_equal. lia.
Qed.

(** Writing inside a record in place is writing the modified record back. *)
Lemma blit_in_slice off off2 n src l :
  (off + n <= length l)%nat -> (off2 + length src <= n)%nat ->
  blit off (blit off2 src (slice off n l)) l = blit (off + off2) src l.
Proof.
  intros Hl Hs. assert (Hsl : length (slice off n l) = n) by (rewrite length_slice; lia).
  apply list_eq. intros i.
  rewrite !lookup_blit; rewrite ?length_blit, ?Hsl by lia; try lia.
  rewrite lookup_slice.
  repeat case_decide; try lia; try done; f_equal; lia.
Qed.

End buffers.

(** Two splits of one list at the same threshold are the same split. *)
Lemma app_inj_pivot_le (t : Z) (a b c d : list Z) :
  a ++ b = c ++ d -> Forall (fun k => k <= t) a -> Forall (fun k => t < k) b ->
  Forall (fun k => k <= t) c -> Forall (fun k => t < k) d -> a = c.
Proof.
  revert c. induction a as [|x a IH]; intros [|y c] Heq Ha Hb Hc Hd; cbn in *; [done|..].
  - subst b. apply Forall_cons in Hb as [? _]. apply Forall_cons in Hc as [? _]. lia.
  - subst d. apply Forall_cons in Ha as [? _]. apply Forall_cons in Hd as [? _]. lia.
  - injection Heq as -> Heq. apply Forall_cons in Ha as [? Ha]. apply Forall_cons in Hc as [? Hc].
    f_equal. by apply IH.
Qed.

Lemma elem_of_zip_l {A B} (l : list A) (k : list B) x y : (x, y) ∈ zip l k -> x ∈ l.
Proof. intros H. by apply elem_of_zip_with in H as (? & ? & [= -> ->] & ? & ?). Qed.

Lemma Forall_sublist_of {A} (P : A -> Prop) (l1 l2 : list A) :
  l1 `sublist_of` l2 -> Forall P l2 -> Forall P l1.
Proof. induction 1; intros Hf; [constructor|apply Forall_cons in Hf as [? ?]..]; auto. Qed.

Lemma list_insert_app_middle {A} (l1 l2 : list A) x y i :
  i = length l1 -> <[i := y]> (l1 ++ x :: l2) = l1 ++ y :: l2.
Proof. intros ->. rewrite insert_app_r_alt by lia. by rewrite Nat.sub_diag. Qed.

Lemma NoDup_app_middle {A} (l1 l2 : list A) x : NoDup (l1 ++ x :: l2) -> x ∉ l1 ++ l2.
Proof. rewrite <- Permutation_middle. by intros [? _]%NoDup_cons. Qed.

(** ** Little-endian fields: lemmas *)

Lemma length_le_enc n z : length (le_enc n z) = n.
Proof. revert z. induction n; intros; cbn; auto. Qed.

Lemma le_enc_ok n z : Forall byte_ok (le_enc n z).
Proof.
  revert z. induction n; intros; cbn; constructor; auto.
  unfold byte_ok. apply Z.mod_pos_bound. lia.
Qed.

Lemma le_dec_enc n z : le_dec (le_enc n z) = wrap (8 * Z.of_nat n) z.
Proof.
  unfold wrap. revert z. induction n as [|n IH]; intros z.
  - cbn. by rewrite Z.mod_1_r.
  - cbn [le_enc le_dec]. rewrite IH.
    replace (8 * Z.of_nat (S n)) with (8 + 8 * Z.of_nat n) by lia.
    rewrite Z.pow_add_r by lia. change (2 ^ 8) with 256.
    rewrite Z.rem_mul_r; [done|lia|]. apply Z.pow_pos_nonneg; lia.
Qed.

Lemma le_dec_bound l : Forall byte_ok l -> 0 <= le_dec l < 2 ^ (8 * Z.of_nat (length l)).
Proof.
  induction 1 as [|b l Hb Hl IH]; cbn [le_dec length]; [cbn; lia|].
  replace (8 * Z.of_nat (S (length l))) with (8 + 8 * Z.of_nat (length l)) by lia.
  rewrite Z.pow_add_r by lia. change (2 ^ 8) with 256. unfold byte_ok in Hb. lia.
Qed.

Lemma le_enc_dec l : Forall byte_ok l -> le_enc (length l) (le_dec l) = l.
Proof.
  induction 1 as [|b l Hb Hl IH]; [done|]. cbn [le_dec length le_enc].
  unfold byte_ok in Hb. rewrite (Z.mul_comm 256), Z.mod_add, Z.div_add by lia.
  rewrite Z.mod_small, Z.div_small by lia. by rewrite Z.add_0_l, IH.
Qed.

Lemma le_enc_wrap n z : le_enc n (wrap (8 * Z.of_nat n) z) = le_enc n z.
Proof.
  rewrite <- le_dec_enc. pose proof (le_enc_dec (le_enc n z) (le_enc_ok n z)) as H.
  by rewrite length_le_enc in H.
Qed.

Lemma length_wr n off v p : (off + n <= length p)%nat -> length (wr n off v p) = length p.
Proof. intros. apply length_blit. by rewrite length_le_enc. Qed.

Lemma rd_wr_same n off v p :
  (off + n <= length p)%nat -> rd n off (wr n off v p) = wrap (8 * Z.of_nat n) v.
Proof.
  intros. unfold rd, wr. rewrite <- le_dec_enc. f_equal.
  rewrite <- (length_le_enc n v) at 1. apply slice_blit_same. by rewrite length_le_enc.
Qed.

Lemma slice_wr_disjoint n off m off' v p :
  (off + n <= length p)%nat -> (off' + m <= off)%nat \/ (off + n <= off')%nat ->
  slice off' m (wr n off v p) = slice off' m p.
Proof. intros. apply slice_blit_disjoint; by rewrite length_le_enc. Qed.

Lemma rd_wr_disjoint n off m off' v p :
  (off + n <= length p)%nat -> (off' + m <= off)%nat \/ (off + n <= off')%nat ->
  rd m off' (wr n off v p) = rd m off' p.
Proof. intros. unfold rd. by rewrite slice_wr_disjoint. Qed.

Lemma rd_blit_disjoint m off off' src p :
  (off + length src <= length p)%nat ->
  (off' + m <= off)%nat \/ (off + length src <= off')%nat ->
  rd m off' (blit off src p) = rd m off' p.
Proof. intros. unfold rd. by rewrite slice_blit_disjoint. Qed.

Lemma Forall_wr n off v p : Forall byte_ok p -> Forall byte_ok (wr n off v p).
Proof. intros. apply Forall_blit; [apply le_enc_ok|done]. Qed.

Lemma rd_bound n off p :
  Forall byte_ok p -> (off + n <= length p)%nat -> 0 <= rd n off p < 2 ^ (8 * Z.of_nat n).
Proof.
  intros Hp Hl. unfold rd.
  pose proof (le_dec_bound (slice off n p) (Forall_slice _ _ _ _ Hp)) as Hb.
  rewrite length_slice, Nat.min_l in Hb by lia. done.
Qed.

Lemma zeros_ok n : Forall byte_ok (zeros n).
Proof. apply Forall_replicate. unfold byte_ok. lia. Qed.

Lemma length_zeros n : length (zeros n) = n.
Proof. apply length_replicate. Qed.

Lemma rd_zeros n off m : rd n off (zeros m) = 0.
Proof.
  unfold rd, slice, zeros. rewrite drop_replicate, take_replicate.
  generalize (Nat.min n (m - off))%nat. induction n0; cbn; lia.
Qed.

#[export] Hint Rewrite @length_app @length_take @length_drop @length_insert
  @length_replicate length_zeros @length_fmap length_le_enc @length_slice : etp_len.
#[export] Hint Resolve le_enc_ok zeros_ok Forall_wr Forall_slice Forall_blit : etp.
#[global] Arguments le_enc : simpl never.
#[global] Arguments le_dec : simpl never.
#[global] Arguments slice : simpl never.
#[global] Arguments blit : simpl never.
#[global] Arguments rd : simpl never.
#[global] Arguments wr : simpl never.
#[global] Arguments zeros : simpl never.
#[global] Arguments wrap : simpl never.

(** ** Reassembling a buffer from its fields *)

Lemma le_enc_rd n off p :
  Forall byte_ok p -> (off + n <= length p)%nat -> le_enc n (rd n off p) = slice off n p.
Proof.
  intros Hp Hl. unfold rd.
  replace n with (length (slice off n p)) at 1 by (rewrite length_slice; lia).
  apply le_enc_dec. by apply Forall_slice.
Qed.

Lemma slice_drop {A} off n (l : list A) : slice off n l ++ drop (off + n) l = drop off l.
Proof.
  unfold slice. rewrite <- (take_drop n (drop off l)) at 2. by rewrite drop_drop.
Qed.

Lemma slice_to_end {A} off n (l : list A) :
  length l = (off + n)%nat -> slice off n l = drop off l.
Proof. intros Hl. unfold slice. apply take_ge. rewrite length_drop. lia. Qed.

(** [reassemble]: closes [field ++ field ++ ... = b] goals. *)
Ltac reassemble b :=
  repeat rewrite (le_enc_rd _ _ b) by (first [assumption | lia]);
  repeat first
    [ rewrite slice_drop
    | match goal with
      | |- context [slice ?a ?n b ++ slice ?c ?m b] =>
          rewrite (slice_to_end c m b) by lia; cbn [Nat.add]; change c with (a + n)%nat
      | |- context [slice ?a ?n b ++ drop ?c b] => change c with (a + n)%nat
      end ];
  try done.

(** ** Transition systems *)

(** [P] holds after finitely many steps, whichever steps are taken, and until then
    a step is possible. *)
Inductive inevitable {S} (step : S -> S -> Prop) (P : S -> Prop) (s : S) : Prop :=
  | inevitable_now : P s -> inevitable step P s
  | inevitable_later : (exists s', step s s') -> (forall s', step s s' -> inevitable step P s') -> inevitable step P s.

(** Every step goes down a well-founded order, and no state but a goal is stuck. *)
Lemma inevitable_acc {S} (step : S -> S -> Prop) (P I : S -> Prop) (R : S -> S -> Prop) :
  (forall s s', I s -> step s s' -> I s' /\ R s' s) -> (forall s, I s -> P s \/ exists s', step s s') ->
  forall s, Acc R s -> I s -> inevitable step P s.
Proof.
  intros Hstep Hgo s Hacc. induction Hacc as [s _ IH]. intros Hs.
  destruct (Hgo s Hs) as [HP|Hex]; [by apply inevitable_now|].
  apply inevitable_later; [done|]. intros s' Hst. destruct (Hstep s s' Hs Hst). by apply IH.
Qed.

Lemma inevitable_mono {S} (step : S -> S -> Prop) (P Q : S -> Prop) s :
  (forall x, P x -> Q x) -> inevitable step P s -> inevitable step Q s.
Proof.
  intros H. induction 1 as [s HP|s Hex _ IH]; [by apply inevitable_now, H|by apply inevitable_later].
Qed.

(** The same where a part of the steps, [own], is enough to get there: the others
    may come in between, but they are never waited for. *)
Inductive inevitable_by {S} (own step : S -> S -> Prop) (P : S -> Prop) (s : S) : Prop :=
  | inevitable_by_now : P s -> inevitable_by own step P s
  | inevitable_by_later : (exists s', own s s') -> (forall s', step s s' -> inevitable_by own step P s') -> inevitable_by own step P s.

Lemma inevitable_by_acc {S} (own step : S -> S -> Prop) (P I : S -> Prop) (R : S -> S -> Prop) :
  (forall s s', I s -> step s s' -> I s' /\ R s' s) -> (forall s, I s -> P s \/ exists s', own s s') ->
  forall s, Acc R s -> I s -> inevitable_by own step P s.
Proof.
  intros Hstep Hgo s Hacc. induction Hacc as [s _ IH]. intros Hs.
  destruct (Hgo s Hs) as [HP|Hex]; [by apply inevitable_by_now|].
  apply inevitable_by_later; [done|]. intros s' Hst. destruct (Hstep s s' Hs Hst). by apply IH.
Qed.

Lemma inevitable_by_mono {S} (own step : S -> S -> Prop) (P Q : S -> Prop) s :
  (forall x, P x -> Q x) -> inevitable_by own step P s -> inevitable_by own step Q s.
Proof.
  intros H. induction 1 as [s HP|s Hex _ IH]; [by apply inevitable_by_now, H|by apply inevitable_by_later].
Qed.

(** ** Lists of threads *)

Definition total {A} (f : A -> nat) (l : list A) : nat := sum_list (f <$> l).

Lemma insert_split {A} (l : list A) i x y : l !! i = Some x ->
  exists l1 l2, l = l1 ++ x :: l2 /\ <[i := y]> l = l1 ++ y :: l2.
Proof.
  intros Hi. exists (take i l), (drop (S i) l). split; [by rewrite take_drop_middle|].
  apply insert_take_drop. by apply lookup_lt_Some in Hi.
Qed.

Lemma total_app {A} (f : A -> nat) l1 l2 : total f (l1 ++ l2) = (total f l1 + total f l2)%nat.
Proof. unfold total. by rewrite fmap_app, sum_list_with_app. Qed.

Lemma total_insert {A} (f : A -> nat) l i x y : l !! i = Some x ->
  (total f (<[i := y]> l) + f x = total f l + f y)%nat.
Proof.
  intros Hi. destruct (insert_split l i x y Hi) as (l1 & l2 & -> & ->). rewrite !total_app. cbn. lia.
Qed.

Lemma total_zero {A} (f : A -> nat) l : total f l = 0%nat -> forall x, x ∈ l -> f x = 0%nat.
Proof.
  induction l as [|y l IH]; cbn; intros E x; [by intros ?%elem_of_nil|].
  intros [->|Hx]%elem_of_cons; [|apply IH; [|done]]; unfold total in *; cbn in *; lia.
Qed.

Lemma total_pos {A} (f : A -> nat) l : total f l <> 0%nat -> exists i x, l !! i = Some x /\ f x <> 0%nat.
Proof.
  induction l as [|y l IH]; cbn; intros E; [done|]. destruct (decide (f y = 0%nat)) as [Ey|Hy]; [|by exists 0%nat, y].
  destruct IH as (i & x & Hi & Hx); [unfold total in *; cbn in *; lia|]. by exists (S i), x.
Qed.
