(* ===== verification/Types.v ===== *)
(** * Shared types (common/types.h, common/config.h)

    Result codes, enumerations, and the five packed table records with their
    on-disk byte layout.  A record is a [Record] of its fields (integers at
    their declared width, character arrays as byte lists of the declared
    length) together with [*_bytes], the packed little-endian image the C
    compiler lays out, and [*_of_bytes], the field reads of a cast pointer. *)

From stdpp Require Import base tactics numbers list.
From Stdlib Require Import ZArith Lia.
From S2P Require Import Prelude.

#[local] Open Scope Z_scope.

(** ** Constants of config.h *)

Definition PAGE_SIZE : Z := 4096.
Definition PAGE_HEADER_SIZE : Z := 16.
Definition BUFFER_POOL_FRAMES : Z := 64.
Definition BTREE_DEFAULT_ORDER : Z := 128.
Definition MAX_CONNECTIONS : Z := 100.
Definition MAX_CMD_LENGTH : Z := 1024.
Definition MAX_USERNAME_LEN : Z := 31.
Definition MAX_PASSWORD_LEN : Z := 64.
Definition MAX_SEAT_ROWS : Z := 26.
Definition MAX_SEATS_PER_ROW : Z := 100.
Definition MAX_SEATS_PER_BOOKING : Z := 10.

(** ** Invalid values *)

Definition INVALID_PAGE_ID : Z := 0xFFFFFFFF.
Definition INVALID_TXN_ID : Z := 0.
Definition INVALID_LSN : Z := 0.

(** A record pointer: page and slot. *)
Record record_ptr := RecordPtr { rp_page_id : Z; rp_slot_id : Z }.

#[export] Instance record_ptr_eq_dec : EqDecision record_ptr.
Proof. solve_decision. Defined.

Definition record_ptr_ok (r : record_ptr) : Prop :=
  0 <= rp_page_id r < 2 ^ 32 /\ 0 <= rp_slot_id r < 2 ^ 16.

(** ** Enumerations *)

Definition ROLE_GUEST : Z := 0.
Definition ROLE_CUSTOMER : Z := 1.
Definition ROLE_ORGANIZER : Z := 2.
Definition ROLE_ADMIN : Z := 3.

Definition SEAT_AVAILABLE : Z := 0.
Definition SEAT_LOCKED : Z := 1.
Definition SEAT_BOOKED : Z := 2.

Definition EVENT_ACTIVE : Z := 0.
Definition EVENT_CANCELLED : Z := 1.

Definition BOOKING_CONFIRMED : Z := 0.
Definition BOOKING_CANCELLED : Z := 1.

Definition TABLE_USERS : Z := 0.
Definition TABLE_EVENTS : Z := 1.
Definition TABLE_SEATS : Z := 2.
Definition TABLE_BOOKINGS : Z := 3.
Definition TABLE_BOOKING_SEATS : Z := 4.
Definition TABLE_COUNT : Z := 5.

Definition WAL_INSERT : Z := 1.
Definition WAL_UPDATE : Z := 2.
Definition WAL_DELETE : Z := 3.
Definition WAL_COMMIT : Z := 4.
Definition WAL_ABORT : Z := 5.
Definition WAL_CHECKPOINT : Z := 6.

Inductive lock_mode := LOCK_SHARED | LOCK_EXCLUSIVE.

#[export] Instance lock_mode_eq_dec : EqDecision lock_mode.
Proof. solve_decision. Defined.

(** ** Result codes *)

Inductive etp_result_t :=
  | ETP_OK | ETP_ERR_GENERIC | ETP_ERR_NOT_FOUND | ETP_ERR_DUPLICATE
  | ETP_ERR_FULL | ETP_ERR_IO | ETP_ERR_LOCK_CONFLICT | ETP_ERR_AUTH
  | ETP_ERR_PERMISSION | ETP_ERR_INVALID_ARG | ETP_ERR_TXN_ABORT
  | ETP_ERR_NO_MEMORY | ETP_ERR_CORRUPTION | ETP_ERR_SEAT_UNAVAIL
  | ETP_ERR_ALREADY_EXISTS.

#[export] Instance etp_result_eq_dec : EqDecision etp_result_t.
Proof. solve_decision. Defined.

Definition etp_result_code (r : etp_result_t) : Z :=
  match r with
  | ETP_OK => 0 | ETP_ERR_GENERIC => -1 | ETP_ERR_NOT_FOUND => -2
  | ETP_ERR_DUPLICATE => -3 | ETP_ERR_FULL => -4 | ETP_ERR_IO => -5
  | ETP_ERR_LOCK_CONFLICT => -6 | ETP_ERR_AUTH => -7 | ETP_ERR_PERMISSION => -8
  | ETP_ERR_INVALID_ARG => -9 | ETP_ERR_TXN_ABORT => -10 | ETP_ERR_NO_MEMORY => -11
  | ETP_ERR_CORRUPTION => -12 | ETP_ERR_SEAT_UNAVAIL => -13
  | ETP_ERR_ALREADY_EXISTS => -14
  end.

(** ** Record sizes and table names *)

Definition USER_RECORD_SIZE : Z := 128.
Definition EVENT_RECORD_SIZE : Z := 192.
Definition SEAT_RECORD_SIZE : Z := 32.
Definition BOOKING_RECORD_SIZE : Z := 64.
Definition BOOKING_SEAT_RECORD_SIZE : Z := 16.

(** [etp_record_size]: 0 outside the enumeration. *)
Definition etp_record_size (table : Z) : Z :=
  if (0 <=? table) && (table <? TABLE_COUNT) then
    default 0 ([USER_RECORD_SIZE; EVENT_RECORD_SIZE; SEAT_RECORD_SIZE;
                BOOKING_RECORD_SIZE; BOOKING_SEAT_RECORD_SIZE] !! Z.to_nat table)
  else 0.

(** ** The packed records *)

Record user_record := UserRecord {
  u_user_id : Z; u_username : bytes; u_password_hash : bytes; u_role : Z;
  u_created_at : Z; u_is_deleted : Z; u_pad : bytes }.

Record event_record := EventRecord {
  e_event_id : Z; e_name : bytes; e_venue : bytes; e_event_date : bytes;
  e_event_time : bytes; e_organizer_id : Z; e_total_rows : Z;
  e_seats_per_row : Z; e_price : Z; e_status : Z; e_is_deleted : Z;
  e_pad : bytes }.

Record seat_record := SeatRecord {
  s_seat_id : Z; s_event_id : Z; s_row_label : Z; s_seat_number : Z;
  s_status : Z; s_booked_by : Z; s_is_deleted : Z; s_pad : bytes }.

Record booking_record := BookingRecord {
  b_booking_id : Z; b_user_id : Z; b_event_id : Z; b_seat_count : Z;
  b_total_amount : Z; b_status : Z; b_booked_at : Z; b_is_deleted : Z;
  b_pad : bytes }.

Record booking_seat_record := BookingSeatRecord {
  bs_booking_id : Z; bs_seat_id : Z; bs_is_deleted : Z; bs_junction_id : Z;
  bs_pad : bytes }.

(** ** Their byte images

    [int64_t] fields hold the two's complement image of the signed value;
    [float] fields hold the IEEE single image as a 32-bit integer. *)

Definition user_bytes (r : user_record) : bytes :=
  le_enc 4 (u_user_id r) ++ u_username r ++ u_password_hash r ++
  le_enc 1 (u_role r) ++ le_enc 8 (u_created_at r) ++
  le_enc 1 (u_is_deleted r) ++ u_pad r.

Definition event_bytes (r : event_record) : bytes :=
  le_enc 4 (e_event_id r) ++ e_name r ++ e_venue r ++ e_event_date r ++
  e_event_time r ++ le_enc 4 (e_organizer_id r) ++ le_enc 2 (e_total_rows r) ++
  le_enc 2 (e_seats_per_row r) ++ le_enc 4 (e_price r) ++
  le_enc 1 (e_status r) ++ le_enc 1 (e_is_deleted r) ++ e_pad r.

Definition seat_bytes (r : seat_record) : bytes :=
  le_enc 4 (s_seat_id r) ++ le_enc 4 (s_event_id r) ++ le_enc 1 (s_row_label r) ++
  le_enc 2 (s_seat_number r) ++ le_enc 1 (s_status r) ++
  le_enc 4 (s_booked_by r) ++ le_enc 1 (s_is_deleted r) ++ s_pad r.

Definition booking_bytes (r : booking_record) : bytes :=
  le_enc 4 (b_booking_id r) ++ le_enc 4 (b_user_id r) ++ le_enc 4 (b_event_id r) ++
  le_enc 2 (b_seat_count r) ++ le_enc 4 (b_total_amount r) ++
  le_enc 1 (b_status r) ++ le_enc 8 (b_booked_at r) ++
  le_enc 1 (b_is_deleted r) ++ b_pad r.

Definition booking_seat_bytes (r : booking_seat_record) : bytes :=
  le_enc 4 (bs_booking_id r) ++ le_enc 4 (bs_seat_id r) ++
  le_enc 1 (bs_is_deleted r) ++ le_enc 4 (bs_junction_id r) ++ bs_pad r.

Definition user_of_bytes (b : bytes) : user_record :=
  {| u_user_id := rd 4 0 b; u_username := slice 4 32 b;
     u_password_hash := slice 36 65 b; u_role := rd 1 101 b;
     u_created_at := rd 8 102 b; u_is_deleted := rd 1 110 b;
     u_pad := slice 111 17 b |}.

Definition event_of_bytes (b : bytes) : event_record :=
  {| e_event_id := rd 4 0 b; e_name := slice 4 64 b; e_venue := slice 68 64 b;
     e_event_date := slice 132 11 b; e_event_time := slice 143 6 b;
     e_organizer_id := rd 4 149 b; e_total_rows := rd 2 153 b;
     e_seats_per_row := rd 2 155 b; e_price := rd 4 157 b;
     e_status := rd 1 161 b; e_is_deleted := rd 1 162 b;
     e_pad := slice 163 29 b |}.

Definition seat_of_bytes (b : bytes) : seat_record :=
  {| s_seat_id := rd 4 0 b; s_event_id := rd 4 4 b; s_row_label := rd 1 8 b;
     s_seat_number := rd 2 9 b; s_status := rd 1 11 b; s_booked_by := rd 4 12 b;
     s_is_deleted := rd 1 16 b; s_pad := slice 17 15 b |}.

Definition booking_of_bytes (b : bytes) : booking_record :=
  {| b_booking_id := rd 4 0 b; b_user_id := rd 4 4 b; b_event_id := rd 4 8 b;
     b_seat_count := rd 2 12 b; b_total_amount := rd 4 14 b;
     b_status := rd 1 18 b; b_booked_at := rd 8 19 b; b_is_deleted := rd 1 27 b;
     b_pad := slice 28 36 b |}.

Definition booking_seat_of_bytes (b : bytes) : booking_seat_record :=
  {| bs_booking_id := rd 4 0 b; bs_seat_id := rd 4 4 b; bs_is_deleted := rd 1 8 b;
     bs_junction_id := rd 4 9 b; bs_pad := slice 13 3 b |}.

(** Well-formed records: each field within its declared C type. *)
Definition bytes_ok (n : nat) (b : bytes) : Prop := length b = n /\ Forall byte_ok b.
Definition uint_ok (w z : Z) : Prop := 0 <= z < 2 ^ w.

Definition user_ok (r : user_record) : Prop :=
  uint_ok 32 (u_user_id r) /\ bytes_ok 32 (u_username r) /\
  bytes_ok 65 (u_password_hash r) /\ uint_ok 8 (u_role r) /\
  uint_ok 64 (u_created_at r) /\ uint_ok 8 (u_is_deleted r) /\ bytes_ok 17 (u_pad r).

Definition event_ok (r : event_record) : Prop :=
  uint_ok 32 (e_event_id r) /\ bytes_ok 64 (e_name r) /\ bytes_ok 64 (e_venue r) /\
  bytes_ok 11 (e_event_date r) /\ bytes_ok 6 (e_event_time r) /\
  uint_ok 32 (e_organizer_id r) /\ uint_ok 16 (e_total_rows r) /\
  uint_ok 16 (e_seats_per_row r) /\ uint_ok 32 (e_price r) /\
  uint_ok 8 (e_status r) /\ uint_ok 8 (e_is_deleted r) /\ bytes_ok 29 (e_pad r).

Definition seat_ok (r : seat_record) : Prop :=
  uint_ok 32 (s_seat_id r) /\ uint_ok 32 (s_event_id r) /\ uint_ok 8 (s_row_label r) /\
  uint_ok 16 (s_seat_number r) /\ uint_ok 8 (s_status r) /\ uint_ok 32 (s_booked_by r) /\
  uint_ok 8 (s_is_deleted r) /\ bytes_ok 15 (s_pad r).

Definition booking_ok (r : booking_record) : Prop :=
  uint_ok 32 (b_booking_id r) /\ uint_ok 32 (b_user_id r) /\ uint_ok 32 (b_event_id r) /\
  uint_ok 16 (b_seat_count r) /\ uint_ok 32 (b_total_amount r) /\ uint_ok 8 (b_status r) /\
  uint_ok 64 (b_booked_at r) /\ uint_ok 8 (b_is_deleted r) /\ bytes_ok 36 (b_pad r).

Definition booking_seat_ok (r : booking_seat_record) : Prop :=
  uint_ok 32 (bs_booking_id r) /\ uint_ok 32 (bs_seat_id r) /\
  uint_ok 8 (bs_is_deleted r) /\ uint_ok 32 (bs_junction_id r) /\ bytes_ok 3 (bs_pad r).

(** ** The offset of [is_deleted], and of the primary key (table.c) *)

Definition get_deleted_flag_offset (table : Z) : nat :=
  if table =? TABLE_USERS then 110%nat
  else if table =? TABLE_EVENTS then 162%nat
  else if table =? TABLE_SEATS then 16%nat
  else if table =? TABLE_BOOKINGS then 27%nat
  else if table =? TABLE_BOOKING_SEATS then 8%nat
  else 0%nat.

Definition is_record_deleted (table : Z) (record : bytes) : bool :=
  negb (rd 1 (get_deleted_flag_offset table) record =? 0).

Definition mark_record_deleted (table : Z) (record : bytes) : bytes :=
  wr 1 (get_deleted_flag_offset table) 1 record.

Definition key_offset (table : Z) : nat :=
  if table =? TABLE_BOOKING_SEATS then 9%nat else 0%nat.

(** ** Round trips *)

(** Reading a field of a concatenation: skip whole chunks, then take one. *)
Lemma slice_skip {A} (off n : nat) (l1 l2 : list A) k :
  length l1 = k -> (k <= off)%nat -> slice off n (l1 ++ l2) = slice (off - k) n l2.
Proof. intros <- ?. by apply slice_app_r. Qed.

Lemma slice_here {A} n (l1 l2 : list A) : length l1 = n -> slice 0 n (l1 ++ l2) = l1.
Proof. intros <-. rewrite slice_app_l by lia. apply slice_all. Qed.

Lemma slice_end {A} n (l : list A) : length l = n -> slice 0 n l = l.
Proof. intros <-. apply slice_all. Qed.

Lemma rd_skip n off l1 l2 k :
  length l1 = k -> (k <= off)%nat -> rd n off (l1 ++ l2) = rd n (off - k) l2.
Proof. intros. unfold rd. by rewrite (slice_skip _ _ _ _ k). Qed.

Lemma rd_here n z l : uint_ok (8 * Z.of_nat n) z -> rd n 0 (le_enc n z ++ l) = z.
Proof.
  intros. unfold rd. rewrite slice_here by apply length_le_enc.
  rewrite le_dec_enc. by apply wrap_small.
Qed.

(** Walks through a record image, chunk by chunk. *)
Ltac skip_chunks :=
  repeat first
    [ rewrite rd_here by (first [assumption | done])
    | rewrite slice_here by (first [assumption | done])
    | rewrite slice_end by (first [assumption | done])
    | erewrite rd_skip by (first [eassumption | apply length_le_enc | lia])
    | erewrite slice_skip by (first [eassumption | apply length_le_enc | lia])
    | progress cbn [Nat.sub] ].

Lemma user_of_bytes_bytes r : user_ok r -> user_of_bytes (user_bytes r) = r.
Proof.
  destruct r. intros (?&[? _]&[? _]&?&?&?&[? _]). cbn in *.
  unfold user_of_bytes, user_bytes. cbn. f_equal; skip_chunks; done.
Qed.

Lemma event_of_bytes_bytes r : event_ok r -> event_of_bytes (event_bytes r) = r.
Proof.
  destruct r. intros (?&[? _]&[? _]&[? _]&[? _]&?&?&?&?&?&?&[? _]). cbn in *.
  unfold event_of_bytes, event_bytes. cbn. f_equal; skip_chunks; done.
Qed.

Lemma seat_of_bytes_bytes r : seat_ok r -> seat_of_bytes (seat_bytes r) = r.
Proof.
  destruct r. intros (?&?&?&?&?&?&?&[? _]). cbn in *.
  unfold seat_of_bytes, seat_bytes. cbn. f_equal; skip_chunks; done.
Qed.

Lemma booking_of_bytes_bytes r : booking_ok r -> booking_of_bytes (booking_bytes r) = r.
Proof.
  destruct r. intros (?&?&?&?&?&?&?&?&[? _]). cbn in *.
  unfold booking_of_bytes, booking_bytes. cbn. f_equal; skip_chunks; done.
Qed.

Lemma booking_seat_of_bytes_bytes r :
  booking_seat_ok r -> booking_seat_of_bytes (booking_seat_bytes r) = r.
Proof.
  destruct r. intros (?&?&?&?&[? _]). cbn in *.
  unfold booking_seat_of_bytes, booking_seat_bytes. cbn.
  f_equal; skip_chunks; done.
Qed.

(** The other direction: a decoded record re-encodes to the bytes it was read
    from, so a read-modify-write changes the modified fields only. *)
Lemma seat_bytes_of_bytes b : bytes_ok 32 b -> seat_bytes (seat_of_bytes b) = b.
Proof. intros [Hl Hb]. unfold seat_bytes, seat_of_bytes. cbn. reassemble b. Qed.

Lemma booking_bytes_of_bytes b : bytes_ok 64 b -> booking_bytes (booking_of_bytes b) = b.
Proof. intros [Hl Hb]. unfold booking_bytes, booking_of_bytes. cbn. reassemble b. Qed.

(** ** Record layouts *)

(** What the storage layer relies on for one record type. *)
Record layout (R : Type) := Layout {
  ly_table : Z;
  ly_enc : R -> bytes;
  ly_dec : bytes -> R;
  ly_ok : R -> Prop;
  ly_key : R -> Z;
  ly_deleted : R -> Z }.
Arguments Layout {R}. Arguments ly_table {R}. Arguments ly_enc {R}. Arguments ly_dec {R}.
Arguments ly_ok {R}. Arguments ly_key {R}. Arguments ly_deleted {R}.

Definition user_layout := Layout TABLE_USERS user_bytes user_of_bytes user_ok u_user_id u_is_deleted.
Definition event_layout := Layout TABLE_EVENTS event_bytes event_of_bytes event_ok e_event_id e_is_deleted.
Definition seat_layout := Layout TABLE_SEATS seat_bytes seat_of_bytes seat_ok s_seat_id s_is_deleted.
Definition booking_layout :=
  Layout TABLE_BOOKINGS booking_bytes booking_of_bytes booking_ok b_booking_id b_is_deleted.
Definition booking_seat_layout :=
  Layout TABLE_BOOKING_SEATS booking_seat_bytes booking_seat_of_bytes booking_seat_ok
    bs_junction_id bs_is_deleted.

Definition layout_law {R} (L : layout R) : Prop :=
  forall r, ly_ok L r ->
    Z.of_nat (length (ly_enc L r)) = etp_record_size (ly_table L) /\ Forall byte_ok (ly_enc L r) /\
    ly_dec L (ly_enc L r) = r /\
    rd 4 (key_offset (ly_table L)) (ly_enc L r) = ly_key L r /\
    is_record_deleted (ly_table L) (ly_enc L r) = negb (ly_deleted L r =? 0).

(** The key and the flag are fields the decoder reads. *)
Lemma layout_intro {R} (L : layout R) :
  (forall r, ly_ok L r -> Z.of_nat (length (ly_enc L r)) = etp_record_size (ly_table L) /\
     Forall byte_ok (ly_enc L r)) ->
  (forall r, ly_ok L r -> ly_dec L (ly_enc L r) = r) ->
  (forall b, ly_key L (ly_dec L b) = rd 4 (key_offset (ly_table L)) b) ->
  (forall b, ly_deleted L (ly_dec L b) = rd 1 (get_deleted_flag_offset (ly_table L)) b) ->
  layout_law L.
Proof.
  intros Hl Hd Hk Hdel r Hr. destruct (Hl r Hr) as [H1 H2]. split; [done|]. split; [done|].
  split; [by apply Hd|]. unfold is_record_deleted. rewrite <- Hk, <- Hdel. by rewrite !Hd.
Qed.

Ltac image_size :=
  intros r Hr; cbn [ly_ok ly_enc ly_table user_layout event_layout seat_layout booking_layout
                    booking_seat_layout] in *;
  unfold user_bytes, event_bytes, seat_bytes, booking_bytes, booking_seat_bytes,
    user_ok, event_ok, seat_ok, booking_ok, booking_seat_ok in *;
  repeat match goal with
    | H : _ /\ _ |- _ => destruct H
    | H : bytes_ok _ _ |- _ => destruct H
    end;
  (split; [rewrite !length_app, ?length_le_enc;
           repeat match goal with H : length _ = _ |- _ => rewrite H; clear H end; reflexivity
          |rewrite !Forall_app; repeat split; try assumption; apply le_enc_ok]).

Lemma user_layout_law : layout_law user_layout.
Proof. apply layout_intro; [image_size|apply user_of_bytes_bytes|done|done]. Qed.

Lemma event_layout_law : layout_law event_layout.
Proof. apply layout_intro; [image_size|apply event_of_bytes_bytes|done|done]. Qed.

Lemma seat_layout_law : layout_law seat_layout.
Proof. apply layout_intro; [image_size|apply seat_of_bytes_bytes|done|done]. Qed.

Lemma booking_layout_law : layout_law booking_layout.
Proof. apply layout_intro; [image_size|apply booking_of_bytes_bytes|done|done]. Qed.

Lemma booking_seat_layout_law : layout_law booking_seat_layout.
Proof. apply layout_intro; [image_size|apply booking_seat_of_bytes_bytes|done|done]. Qed.

(** The five packed record formats.  Every record with in-range fields is
    encoded to exactly the size of its table's slots, decodes back to itself,
    and carries its primary key and its soft-delete flag at the offsets the
    table layer reads them from. *)
Theorem record_layouts :
  layout_law user_layout /\ layout_law event_layout /\ layout_law seat_layout /\
  layout_law booking_layout /\ layout_law booking_seat_layout.
Proof.
  split; [apply user_layout_law|]. split; [apply event_layout_law|].
  split; [apply seat_layout_law|]. split; [apply booking_layout_law|apply booking_seat_layout_law].
Qed.
