(* ===== verification/Utils.v ===== *)
(** * Utilities (common/utils.c)

    The pure parts: the password hash and its hexadecimal image, the id
    counters, bounded string copy, trimming and the result strings.  A C string
    is the list of its bytes before the terminating NUL; [cstr] reads one out of
    a buffer.  Logging is in Logger.v; the file-system
    checks are functions of what stat and mkdir say. *)

From stdpp Require Import base tactics numbers list strings.
From Stdlib Require Import ZArith Lia.
From S2P Require Import Prelude Types.

#[local] Open Scope Z_scope.

(** ** C strings *)

(** The string at the front of a buffer. *)
Fixpoint cstr (b : bytes) : bytes :=
  match b with
  | [] => []
  | c :: b' => if c =? 0 then [] else c :: cstr b'
  end.

(** A string: bytes, none of them NUL. *)
Definition str_ok (s : bytes) : Prop := Forall (fun c => 0 < c < 256) s.

(** The bytes of a literal. *)
Definition lit (s : String.string) : bytes :=
  map (fun c => Z.of_nat (Ascii.nat_of_ascii c)) (String.list_ascii_of_string s).

(** strcmp's answer to equality. *)
Definition strcmp_eq (a b : bytes) : bool := bool_decide (a = b).

(** ** Password hashing *)

Definition djb2_step (hash c : Z) : Z := Z.lxor (u64 (u64 (Z.shiftl hash 5) + hash)) c.

Definition djb2_hash (str : bytes) (seed : Z) : Z := fold_left djb2_step str seed.

(** One digit of "%lx", and "%016lx". *)
Definition hex_digit (d : Z) : Z := if d <? 10 then 48 + d else 87 + d.

Fixpoint hex (n : nat) (z : Z) : bytes :=
  match n with
  | O => []
  | S n' => hex n' (z / 16) ++ [hex_digit (z mod 16)]
  end.

(** The contents of [hash_out], NUL included; a buffer of less than 33 bytes
    gets the empty string. *)
Definition etp_hash_password (password : bytes) (hash_size : Z) : bytes :=
  if hash_size <? 33 then (if 0 <? hash_size then [0] else [])
  else hex 16 (djb2_hash password 5381) ++ hex 16 (djb2_hash password 7919) ++ [0].

Definition etp_verify_password (password stored_hash : bytes) : bool :=
  strcmp_eq (cstr (etp_hash_password password 65)) stored_hash.

(** ** Id counters *)

(** [g_next_ids]: one 32-bit counter per table. *)
Definition g_next_ids : list Z := [1; 1; 1; 1; 1].

Definition table_in_range (table : Z) : bool := (0 <=? table) && (table <? TABLE_COUNT).

Definition etp_next_id (ids : list Z) (table : Z) : list Z * Z :=
  if table_in_range table then
    let id := nth (Z.to_nat table) ids 0 in
    (<[Z.to_nat table := u32 (id + 1)]> ids, id)
  else (ids, 0).

Definition etp_set_next_id (ids : list Z) (table next : Z) : list Z :=
  if table_in_range table then <[Z.to_nat table := next]> ids else ids.

Definition etp_peek_next_id (ids : list Z) (table : Z) : Z :=
  if table_in_range table then nth (Z.to_nat table) ids 0 else 0.

(** ** Strings *)

(** What [dst] holds from its start on, and the length returned. *)
Definition etp_strlcpy (src : bytes) (size : nat) : bytes * nat :=
  let src_len := length src in
  if (0 <? size)%nat then
    let copy_len := if (size <=? src_len)%nat then (size - 1)%nat else src_len in
    (take copy_len src ++ [0], src_len)
  else ([], src_len).

(** etp_strlcpy into a zeroed array of [size] bytes. *)
Definition strlcpy_field (src : bytes) (size : nat) : bytes :=
  blit 0 (fst (etp_strlcpy src size)) (zeros size).

(** isspace in the C locale. *)
Definition isspace (c : Z) : bool := (c =? 32) || ((9 <=? c) && (c <=? 13)).

Fixpoint skip_space (s : bytes) : bytes :=
  match s with
  | [] => []
  | c :: s' => if isspace c then skip_space s' else s
  end.

(** The backwards loop of etp_trim never passes the first byte of the rest. *)
Fixpoint drop_trailing (s : bytes) : bytes :=
  match s with
  | [] => []
  | c :: s' =>
      match drop_trailing s' with
      | [] => if isspace c then [] else [c]
      | t => c :: t
      end
  end.

Definition etp_trim (str : bytes) : bytes :=
  match skip_space str with
  | [] => []
  | c :: s' => c :: drop_trailing s'
  end.

(** ** Names *)

(** ** The file system *)

(** What stat says of a path that exists. *)
Record file_stat := FileStat { st_is_dir : bool; st_size : Z }.

Definition EEXIST : Z := 17.

(** [mkdir]: its errno, [None] when it works. *)
Definition etp_ensure_dir (stat : option file_stat) (mkdir : option Z) : Z :=
  match stat with
  | Some st => if st_is_dir st then 0 else -1
  | None => match mkdir with Some errno => if negb (errno =? EEXIST) then -1 else 0 | None => 0 end
  end.

Definition etp_file_exists (stat : option file_stat) : bool := bool_decide (is_Some stat).
Definition etp_file_size (stat : option file_stat) : Z := match stat with Some st => st_size st | None => -1 end.

Definition etp_result_str (code : etp_result_t) : String.string :=
  match code with
  | ETP_OK => "OK" | ETP_ERR_GENERIC => "Generic error" | ETP_ERR_NOT_FOUND => "Not found"
  | ETP_ERR_DUPLICATE => "Duplicate entry" | ETP_ERR_FULL => "Storage full" | ETP_ERR_IO => "I/O error"
  | ETP_ERR_LOCK_CONFLICT => "Lock conflict" | ETP_ERR_AUTH => "Authentication failed"
  | ETP_ERR_PERMISSION => "Permission denied" | ETP_ERR_INVALID_ARG => "Invalid argument"
  | ETP_ERR_TXN_ABORT => "Transaction aborted" | ETP_ERR_NO_MEMORY => "Out of memory"
  | ETP_ERR_CORRUPTION => "Data corruption detected" | ETP_ERR_SEAT_UNAVAIL => "Seat unavailable"
  | ETP_ERR_ALREADY_EXISTS => "Already exists"
  end%string.

(** ** Lemmas *)

Lemma cstr_app s rest : str_ok s -> cstr (s ++ 0 :: rest) = s.
Proof.
  induction 1 as [|c s Hc Hs IH]; [done|]. cbn. destruct (Z.eqb_spec c 0); [lia|]. by rewrite IH.
Qed.

Lemma cstr_all s : str_ok s -> cstr s = s.
Proof. induction 1 as [|c s Hc _ IH]; [done|]. cbn. destruct (Z.eqb_spec c 0); [lia|]. by rewrite IH. Qed.

Lemma cstr_ok b : Forall byte_ok b -> str_ok (cstr b).
Proof.
  induction 1 as [|c b Hc Hb IH]; [constructor|]. cbn. destruct (Z.eqb_spec c 0); [constructor|].
  constructor; [unfold byte_ok in Hc; lia|done].
Qed.

Lemma hex_digit_range d : 0 <= d < 16 -> 48 <= hex_digit d < 58 \/ 97 <= hex_digit d < 103.
Proof. intros. unfold hex_digit. destruct (Z.ltb_spec d 10); lia. Qed.

Lemma length_hex n z : length (hex n z) = n.
Proof. revert z. induction n; intros; cbn; [done|]. rewrite length_app, IHn. cbn. lia. Qed.

Lemma hex_ok n z : Forall (fun c => 48 <= c < 58 \/ 97 <= c < 103) (hex n z).
Proof.
  revert z. induction n as [|n IH]; intros z; cbn; [constructor|].
  apply Forall_app. split; [done|]. constructor; [|constructor]. apply hex_digit_range, Z.mod_pos_bound. lia.
Qed.

(** Hexadecimal images of the same length are equal for equal values only. *)
Lemma hex_inj n x y : 0 <= x < 16 ^ Z.of_nat n -> 0 <= y < 16 ^ Z.of_nat n -> hex n x = hex n y -> x = y.
Proof.
  revert x y. induction n as [|n IH]; intros x y Hx Hy; [cbn in *; lia|].
  rewrite Nat2Z.inj_succ, Z.pow_succ_r in * by lia. cbn [hex]. intros H.
  apply app_inj_2 in H as [H1 H2]; [|done]. injection H2 as H2.
  assert (x / 16 = y / 16).
  { apply IH; [| |done]; (split; [apply Z.div_pos; lia|apply Z.div_lt_upper_bound; lia]). }
  assert (x mod 16 = y mod 16).
  { pose proof (Z.mod_pos_bound x 16 ltac:(lia)). pose proof (Z.mod_pos_bound y 16 ltac:(lia)).
    unfold hex_digit in H2. destruct (Z.ltb_spec (x mod 16) 10), (Z.ltb_spec (y mod 16) 10); lia. }
  rewrite (Z.div_mod x 16), (Z.div_mod y 16) by lia. congruence.
Qed.

Lemma skip_space_suffix s : exists l, s = l ++ skip_space s /\ Forall (fun c => isspace c = true) l.
Proof.
  induction s as [|c s (l & Hl & Hf)]; cbn; [by exists []|]. destruct (isspace c) eqn:E.
  - exists (c :: l). split; [cbn; congruence|by constructor].
  - by exists [].
Qed.

Lemma drop_trailing_prefix s : exists r, s = drop_trailing s ++ r /\ Forall (fun c => isspace c = true) r.
Proof.
  induction s as [|c s (r & Hr & Hf)]; cbn; [by exists []|].
  destruct (drop_trailing s) as [|t ts] eqn:E.
  - cbn in Hr. subst r. destruct (isspace c) eqn:Ec; [exists (c :: s); split; [done|by constructor]|by exists s].
  - exists r. split; [cbn; by rewrite Hr at 1|done].
Qed.

Lemma drop_trailing_last s c : last (drop_trailing s) = Some c -> isspace c = false.
Proof.
  induction s as [|x s IH]; [done|]. cbn [drop_trailing]. destruct (drop_trailing s) as [|t ts] eqn:E.
  - destruct (isspace x) eqn:Ex; [done|]. by intros [= <-].
  - intros H. apply IH. by rewrite last_cons_cons in H.
Qed.

Lemma skip_space_first s c t : skip_space s = c :: t -> isspace c = false.
Proof.
  induction s as [|x s IH]; [done|]. cbn. destruct (isspace x) eqn:E; [done|]. by intros [= <- <-].
Qed.

(** The counter handed out, and the counters afterwards. *)
Lemma next_id_spec ids table id : ids !! Z.to_nat table = Some id -> table_in_range table = true ->
  etp_next_id ids table = (<[Z.to_nat table := u32 (id + 1)]> ids, id).
Proof. intros Hid Ht. unfold etp_next_id. rewrite Ht. by rewrite (nth_lookup_Some _ _ _ _ Hid). Qed.

Lemma djb2_range s : forall seed, str_ok s -> 0 <= seed < 2 ^ 64 -> 0 <= djb2_hash s seed < 2 ^ 64.
Proof.
  induction s as [|c s IH]; intros seed Hs Hseed; [done|]. apply Forall_cons in Hs as [Hc Hs].
  cbn. apply IH; [done|]. unfold djb2_step. pose proof (wrap_range 64 (u64 (Z.shiftl seed 5) + seed) ltac:(lia)) as [H1 H2].
  set (h := u64 _) in *. split; [apply Z.lxor_nonneg; lia|].
  destruct (Z.eq_dec (Z.lxor h c) 0) as [->|Hne]; [lia|]. apply Z.log2_lt_pow2.
  { pose proof (proj2 (Z.lxor_nonneg h c)). lia. }
  pose proof (Z.log2_lxor h c ltac:(lia) ltac:(lia)) as Hl.
  assert (Z.log2 c < 64) by (destruct (decide (c = 0)) as [->|]; [cbn; lia|apply Z.log2_lt_pow2; lia]).
  assert (Z.log2 h < 64) by (destruct (decide (h = 0)) as [->|]; [cbn; lia|apply Z.log2_lt_pow2; lia]).
  lia.
Qed.

(** The stored hash of a password is a string of 32 digits. *)
Lemma cstr_hash p : cstr (etp_hash_password p 65) = hex 16 (djb2_hash p 5381) ++ hex 16 (djb2_hash p 7919).
Proof.
  unfold etp_hash_password. cbn [Z.ltb Z.compare Pos.compare Pos.compare_cont]. rewrite app_assoc. apply cstr_app.
  apply Forall_app; split; (eapply Forall_impl; [apply hex_ok|cbn; lia]).
Qed.

(** ** Properties *)

(** Password verification.  A password is accepted against the stored hash
    of another exactly when their two 64-bit hashes agree: the hexadecimal image
    loses nothing, so the right password is always accepted and a wrong one only
    on a collision of both hashes. *)
Theorem verify_password_iff p q : str_ok p -> str_ok q ->
  etp_verify_password p (cstr (etp_hash_password q 65)) = true <->
  djb2_hash p 5381 = djb2_hash q 5381 /\ djb2_hash p 7919 = djb2_hash q 7919.
Proof.
  intros Hp Hq. unfold etp_verify_password, strcmp_eq. rewrite bool_decide_eq_true, !cstr_hash. split.
  - intros H. apply app_inj_1 in H as [H1 H2]; [|by rewrite !length_hex].
    pose proof (djb2_range p 5381 Hp ltac:(lia)). pose proof (djb2_range q 5381 Hq ltac:(lia)).
    pose proof (djb2_range p 7919 Hp ltac:(lia)). pose proof (djb2_range q 7919 Hq ltac:(lia)).
    split; [apply (hex_inj 16)|apply (hex_inj 16)]; done.
  - by intros [-> ->].
Qed.

Lemma verify_password_iff_witness :
  etp_verify_password (lit "secret") (cstr (etp_hash_password (lit "secret") 65)) = true /\
  etp_verify_password (lit "Secret") (cstr (etp_hash_password (lit "secret") 65)) = false.
Proof.
  assert (H1 : str_ok (lit "secret")) by (repeat constructor).
  assert (H2 : str_ok (lit "Secret")) by (repeat constructor). split.
  - apply (verify_password_iff _ _ H1 H1). split; reflexivity.
  - apply not_true_iff_false. intros H. apply (verify_password_iff _ _ H2 H1) in H as [H _]. vm_compute in H. discriminate.
Defined.

(** etp_trim removes exactly the surrounding white space: the result is a
    middle part of the string, what is cut on either side is white space, and the
    result neither starts nor ends with white space. *)
Theorem trim_spec s :
  exists l r, s = l ++ etp_trim s ++ r /\
    Forall (fun c => isspace c = true) l /\ Forall (fun c => isspace c = true) r /\
    (forall c, head (etp_trim s) = Some c -> isspace c = false) /\
    (forall c, last (etp_trim s) = Some c -> isspace c = false).
Proof.
  destruct (skip_space_suffix s) as (l & Hl & Hlf). unfold etp_trim. destruct (skip_space s) as [|c t] eqn:E.
  - exists l, []. split; [by rewrite !app_nil_r in *|]. repeat split; try done.
  - pose proof (skip_space_first _ _ _ E) as Hc. destruct (drop_trailing_prefix t) as (r & Hr & Hrf).
    exists l, r. split; [by rewrite Hl at 1; rewrite Hr at 1|]. split; [done|]. split; [done|].
    split; [by intros ? [= <-]|]. intros x Hx. destruct (drop_trailing t) as [|y ys] eqn:Et.
    + cbn in Hx. by injection Hx as <-.
    + rewrite last_cons_cons in Hx. apply (drop_trailing_last t). by rewrite Et.
Qed.

(** etp_strlcpy never writes more than [size] bytes, always terminates the
    copy, copies the longest prefix that fits and returns the source's length. *)
Theorem strlcpy_spec src size : str_ok src -> (0 < size)%nat ->
  let '(dst, n) := etp_strlcpy src size in
  (length dst <= size)%nat /\ last dst = Some 0 /\ cstr dst = take (size - 1) src /\ n = length src.
Proof.
  intros Hs Hpos. unfold etp_strlcpy. destruct (Nat.ltb_spec 0 size); [|lia].
  set (k := if (size <=? length src)%nat then _ else _).
  assert (Hk : take k src = take (size - 1) src /\ (k <= size - 1)%nat /\ (k <= length src)%nat).
  { unfold k. destruct (Nat.leb_spec size (length src)); [split; [done|lia]|].
    rewrite firstn_all, take_ge by lia. split; [done|lia]. }
  destruct Hk as (-> & Hk1 & Hk2). split; [rewrite length_app, length_take; cbn; lia|].
  split; [by rewrite last_snoc|]. split; [|done]. apply cstr_app. by apply Forall_take.
Qed.

Lemma strlcpy_spec_witness :
  cstr (fst (etp_strlcpy (lit "Madison Square") 8)) = lit "Madison" /\
  snd (etp_strlcpy (lit "Madison Square") 8) = 14%nat.
Proof.
  assert (Hs : str_ok (lit "Madison Square")) by (repeat constructor).
  pose proof (strlcpy_spec (lit "Madison Square") 8 Hs ltac:(lia)) as H.
  destruct (etp_strlcpy (lit "Madison Square") 8) as [dst n]. destruct H as (_ & _ & H1 & H2).
  cbn [fst snd]. split; [rewrite H1; reflexivity|rewrite H2; reflexivity].
Defined.
