(* ===== verification/Printf.v ===== *)
(** * Formatted output

    What the program uses of printf: unsigned and signed decimals, padded strings,
    and the truncation of snprintf. *)

From stdpp Require Import base tactics numbers list.
From Stdlib Require Import ZArith Lia.
From S2P Require Import Prelude.

#[local] Open Scope Z_scope.

(** The decimal digits of an unsigned 64-bit number. *)
Fixpoint digits (fuel : nat) (z : Z) : bytes :=
  match fuel with
  | O => []
  | S fuel' => (if z <? 10 then [] else digits fuel' (z / 10)) ++ [48 + z mod 10]
  end.
Definition dec (z : Z) : bytes := if z <? 0 then 45 :: digits 20 (- z) else digits 20 z.

(** "%-ns", and "%-n.ns". *)
Definition pad (n : nat) (s : bytes) : bytes := s ++ replicate (n - length s) 32.
Definition pad_cut (n : nat) (s : bytes) : bytes := pad n (take n s).

(** What snprintf leaves of [text] in a buffer of [size] bytes, NUL not shown. *)
Definition snprintf (size : Z) (text : bytes) : bytes := take (Z.to_nat (size - 1)) text.

(** "%02d". *)
Definition dec02 (z : Z) : bytes := if (0 <=? z) && (z <? 10) then 48 :: dec z else dec z.

Lemma digits_length fuel : forall k z, (1 <= k)%nat -> 0 <= z < 10 ^ Z.of_nat k -> (length (digits fuel z) <= k)%nat.
Proof.
  induction fuel as [|fuel IH]; intros k z Hk Hz; cbn [digits]; [cbn; lia|]. rewrite length_app. cbn [length].
  destruct (z <? 10) eqn:E; bool_to_prop; [cbn; lia|]. destruct k as [|[|k]]; [lia|cbn in Hz; lia|].
  enough (length (digits fuel (z / 10)) <= S k)%nat by lia. apply IH; [lia|]. split; [apply Z.div_pos; lia|].
  apply Z.div_lt_upper_bound; [lia|]. rewrite <- Z.pow_succ_r by lia.
  replace (Z.succ (Z.of_nat (S k))) with (Z.of_nat (S (S k))) by lia. apply Hz.
Qed.

(** A 32-bit number takes at most ten digits. *)
Lemma dec_u32_length z : 0 <= z < 2 ^ 32 -> (length (dec z) <= 10)%nat.
Proof.
  intros Hz. unfold dec. destruct (z <? 0) eqn:E; bool_to_prop; [lia|]. apply digits_length; lia.
Qed.
