(* ===== verification/Ipc.v ===== *)
(** * Statistics and notifications (server/ipc/stats.c, server/ipc/notifier.c)

    The counters in shared memory with the atomic additions every stats_ function
    makes, their text, the notifications of the message queue, and the kernel's
    objects behind both. *)

From stdpp Require Import base tactics numbers list strings.
From Stdlib Require Import ZArith Lia.
From S2P Require Import Prelude Types Utils Printf.

#[local] Open Scope Z_scope.

(** ** Statistics *)

Record server_stats := ServerStats {
  active_connections : Z; total_connections : Z; total_requests : Z; failed_requests : Z;
  total_bookings : Z; cancelled_bookings : Z; total_events : Z; active_events : Z;
  buffer_pool_hits : Z; buffer_pool_misses : Z; locks_acquired : Z; lock_contentions : Z;
  server_start_time : Z; last_request_time : Z }.

(** shm_stats_create at time [now]. *)
Definition stats_zero (now : Z) : server_stats := ServerStats 0 0 0 0 0 0 0 0 0 0 0 0 now 0.

Inductive counter :=
  | ActiveConnections | TotalConnections | TotalRequests | FailedRequests | TotalBookings | CancelledBookings
  | TotalEvents | ActiveEvents | BufferHits | BufferMisses | LocksAcquired | LockContentions.
#[export] Instance counter_eq_dec : EqDecision counter.
Proof. solve_decision. Defined.

Definition counter_width (c : counter) : Z := match c with TotalRequests | FailedRequests => 64 | _ => 32 end.

Definition get_counter (c : counter) (s : server_stats) : Z :=
  match c with
  | ActiveConnections => active_connections s | TotalConnections => total_connections s
  | TotalRequests => total_requests s | FailedRequests => failed_requests s
  | TotalBookings => total_bookings s | CancelledBookings => cancelled_bookings s
  | TotalEvents => total_events s | ActiveEvents => active_events s
  | BufferHits => buffer_pool_hits s | BufferMisses => buffer_pool_misses s
  | LocksAcquired => locks_acquired s | LockContentions => lock_contentions s
  end.

Definition set_counter (c : counter) (v : Z) (s : server_stats) : server_stats :=
  let f d := if decide (c = d) then v else get_counter d s in
  ServerStats (f ActiveConnections) (f TotalConnections) (f TotalRequests) (f FailedRequests)
    (f TotalBookings) (f CancelledBookings) (f TotalEvents) (f ActiveEvents)
    (f BufferHits) (f BufferMisses) (f LocksAcquired) (f LockContentions)
    (server_start_time s) (last_request_time s).

(** [__atomic_add_fetch] and [__atomic_sub_fetch] of one, and [__atomic_store] of the
    time: one step of a thread each. *)
Inductive stats_op := AtomicAdd (c : counter) | AtomicSub (c : counter) | StoreTime (now : Z).

Definition stats_step (s : server_stats) (op : stats_op) : server_stats :=
  match op with
  | AtomicAdd c => set_counter c (wrap (counter_width c) (get_counter c s + 1)) s
  | AtomicSub c => set_counter c (wrap (counter_width c) (get_counter c s - 1)) s
  | StoreTime now =>
      ServerStats (active_connections s) (total_connections s) (total_requests s) (failed_requests s)
        (total_bookings s) (cancelled_bookings s) (total_events s) (active_events s) (buffer_pool_hits s)
        (buffer_pool_misses s) (locks_acquired s) (lock_contentions s) (server_start_time s) now
  end.

Definition stats_inc_connections : list stats_op := [AtomicAdd ActiveConnections; AtomicAdd TotalConnections].
Definition stats_dec_connections : list stats_op := [AtomicSub ActiveConnections].
Definition stats_inc_requests : list stats_op := [AtomicAdd TotalRequests].
Definition stats_inc_failed_requests : list stats_op := [AtomicAdd FailedRequests].
Definition stats_inc_bookings : list stats_op := [AtomicAdd TotalBookings].
Definition stats_inc_cancelled_bookings : list stats_op := [AtomicAdd CancelledBookings].
Definition stats_inc_events : list stats_op := [AtomicAdd TotalEvents; AtomicAdd ActiveEvents].
Definition stats_inc_buffer_hits : list stats_op := [AtomicAdd BufferHits].
Definition stats_inc_buffer_misses : list stats_op := [AtomicAdd BufferMisses].
Definition stats_inc_locks : list stats_op := [AtomicAdd LocksAcquired].
Definition stats_inc_lock_contentions : list stats_op := [AtomicAdd LockContentions].
Definition stats_update_last_request (now : Z) : list stats_op := [StoreTime now].

(** The text of the statistics at time [now] in a buffer of [buf_size] bytes. *)
Definition stats_format (s : server_stats) (now buf_size : Z) : bytes :=
  let uptime := now - server_start_time s in
  let hours := uptime ÷ 3600 in
  let mins := Z.rem uptime 3600 ÷ 60 in
  let secs := Z.rem uptime 60 in
  let two label x mid y tail := lit "║ " ++ lit label ++ dec x ++ lit mid ++ dec y ++ lit tail ++ [10] in
  snprintf buf_size
    (lit "╔════════════════════════════════════════╗" ++ [10] ++
     lit "║        Server Statistics               ║" ++ [10] ++
     lit "╠════════════════════════════════════════╣" ++ [10] ++
     lit "║ Uptime:          " ++ dec02 hours ++ lit ":" ++ dec02 mins ++ lit ":" ++ dec02 secs ++ lit "             ║" ++ [10] ++
     two "Connections:     " (active_connections s) " active / " (total_connections s) " total   " ++
     two "Requests:        " (total_requests s) " total / " (failed_requests s) " failed  " ++
     two "Bookings:        " (total_bookings s) " confirmed / " (cancelled_bookings s) " cancelled" ++
     two "Events:          " (active_events s) " active / " (total_events s) " total   " ++
     two "Buffer Pool:     " (buffer_pool_hits s) " hits / " (buffer_pool_misses s) " misses    " ++
     two "Locks:           " (locks_acquired s) " acquired / " (lock_contentions s) " contentions" ++
     lit "╚════════════════════════════════════════╝" ++ [10]).

(** ** Notifications *)

Definition NOTIFY_BOOKING_CONFIRMED : Z := 1.
Definition NOTIFY_BOOKING_CANCELLED : Z := 2.
Definition NOTIFY_EVENT_CREATED : Z := 3.
Definition NOTIFY_SYSTEM_ALERT : Z := 4.

Record notification_msg := NotificationMsg { mtype : Z; payload : bytes }.

Definition PAYLOAD_SIZE : Z := 256.

(** The notifier while it is not destroyed: its flag and the kernel's queue. *)
Record notifier := Notifier { nt_running : bool; nt_queue : list notification_msg }.

(** [accepts]: msgsnd finds room in the queue; otherwise the message is dropped. *)
Definition send_notification (n : notifier) (accepts : bool) (type : Z) (text : bytes) : notifier :=
  if negb (nt_running n) then n
  else
    let msg := NotificationMsg type (cstr (fst (etp_strlcpy text (Z.to_nat PAYLOAD_SIZE)))) in
    if accepts then Notifier (nt_running n) (nt_queue n ++ [msg]) else n.

Definition booking_confirmed_text (booking_id user_id event_id num_seats : Z) : bytes :=
  snprintf 256 (lit "Booking #" ++ dec booking_id ++ lit " confirmed: user " ++ dec user_id ++ lit " booked " ++
                dec num_seats ++ lit " seats for event " ++ dec event_id).
Definition booking_cancelled_text (booking_id user_id : Z) : bytes :=
  snprintf 256 (lit "Booking #" ++ dec booking_id ++ lit " cancelled by user " ++ dec user_id).
Definition event_created_text (event_id : Z) (event_name : bytes) : bytes :=
  snprintf 256 (lit "New event created: '" ++ event_name ++ lit "' (ID: " ++ dec event_id ++ lit ")").

Definition notify_booking_confirmed (n : notifier) (accepts : bool) (booking_id user_id event_id num_seats : Z) : notifier :=
  send_notification n accepts NOTIFY_BOOKING_CONFIRMED (booking_confirmed_text booking_id user_id event_id num_seats).
Definition notify_booking_cancelled (n : notifier) (accepts : bool) (booking_id user_id : Z) : notifier :=
  send_notification n accepts NOTIFY_BOOKING_CANCELLED (booking_cancelled_text booking_id user_id).
Definition notify_event_created (n : notifier) (accepts : bool) (event_id : Z) (event_name : bytes) : notifier :=
  send_notification n accepts NOTIFY_EVENT_CREATED (event_created_text event_id event_name).
Definition notify_system_alert (n : notifier) (accepts : bool) (message : bytes) : notifier :=
  send_notification n accepts NOTIFY_SYSTEM_ALERT message.

(** One turn of the consumer thread: msgrcv takes the oldest message, which is logged. *)
Definition type_str (t : Z) : bytes :=
  if t =? NOTIFY_BOOKING_CONFIRMED then lit "BOOKING_CONFIRMED" else if t =? NOTIFY_BOOKING_CANCELLED then lit "BOOKING_CANCELLED"
  else if t =? NOTIFY_EVENT_CREATED then lit "EVENT_CREATED" else if t =? NOTIFY_SYSTEM_ALERT then lit "SYSTEM_ALERT"
  else lit "UNKNOWN".
Definition consume (n : notifier) : option (bytes * notifier) :=
  match nt_queue n with
  | msg :: rest => if nt_running n then Some (lit "notifier: [" ++ type_str (mtype msg) ++ lit "] " ++ payload msg, Notifier true rest) else None
  | [] => None
  end.
Definition notifier_destroy (n : notifier) : notifier := Notifier false [].

(** ** The kernel's objects *)

(** The segment with key ETP_SHM_KEY and the queue with key ETP_MSG_KEY, if they exist:
    they outlive a process that does not remove them. *)
Record kernel := Kernel { kn_segment : option server_stats; kn_queue : option (list notification_msg) }.

(** The mapped statistics, and the kernel; the flags say whether calloc, shmget and
    shmat succeed.  [None] is NULL. *)
Definition shm_stats_create (calloc_ok shmget_ok shmat_ok : bool) (now : Z) (k : kernel) : option server_stats * kernel :=
  if negb calloc_ok then (None, k)
  else if negb shmget_ok then (None, k)
  else if negb shmat_ok then (None, Kernel None (kn_queue k))
  else (Some (stats_zero now), Kernel (Some (stats_zero now)) (kn_queue k)).

Definition shm_stats_destroy (k : kernel) : kernel := Kernel None (kn_queue k).

(** msgget opens a queue that exists with what is in it. *)
Definition notifier_create (calloc_ok msgget_ok thread_ok : bool) (k : kernel) : option notifier * kernel :=
  if negb calloc_ok then (None, k)
  else if negb msgget_ok then (None, k)
  else
    let queue := default [] (kn_queue k) in
    if negb thread_ok then (None, Kernel (kn_segment k) None)
    else (Some (Notifier true queue), Kernel (kn_segment k) (Some queue)).

(** The messages a killed server left in the queue reach the consumer of the next one. *)
Example stale_notifications :
  let left := Kernel None (Some [NotificationMsg NOTIFY_SYSTEM_ALERT (lit "disk full")]) in
  (notifier_create true true true left).1 ≫= consume = Some (lit "notifier: [SYSTEM_ALERT] disk full", Notifier true []).
Proof. by vm_compute. Qed.

(** ** What a command counts and sends *)

Inductive effect :=
  | StatRequests | StatFailedRequests | StatBookings | StatCancelled | StatEvents
  | NotifyBooked (booking_id user_id event_id num_seats : Z) | NotifyCancelled (booking_id user_id : Z)
  | NotifyEvent (event_id : Z) (name : bytes).

(** The atomic steps an effect makes at time [now] on the statistics. *)
Definition effect_stats (now : Z) (e : effect) : list stats_op :=
  match e with
  | StatRequests => stats_inc_requests ++ stats_update_last_request now
  | StatFailedRequests => stats_inc_failed_requests
  | StatBookings => stats_inc_bookings
  | StatCancelled => stats_inc_cancelled_bookings
  | StatEvents => stats_inc_events
  | _ => []
  end.

(** What an effect does to the notifier. *)
Definition effect_notify (accepts : bool) (n : notifier) (e : effect) : notifier :=
  match e with
  | NotifyBooked b u ev k => notify_booking_confirmed n accepts b u ev k
  | NotifyCancelled b u => notify_booking_cancelled n accepts b u
  | NotifyEvent ev name => notify_event_created n accepts ev name
  | _ => n
  end.

(** ** Counting is exact, in any order *)

Definition op_delta (c : counter) (op : stats_op) : Z :=
  match op with
  | AtomicAdd d => if decide (c = d) then 1 else 0
  | AtomicSub d => if decide (c = d) then -1 else 0
  | StoreTime _ => 0
  end.
Definition delta (c : counter) (ops : list stats_op) : Z := foldr (fun op z => op_delta c op + z) 0 ops.

Lemma get_set_counter c d v s : get_counter c (set_counter d v s) = if decide (d = c) then v else get_counter c s.
Proof. by destruct c. Qed.

Lemma stats_step_counter c s op : 0 <= get_counter c s < 2 ^ counter_width c ->
  get_counter c (stats_step s op) = wrap (counter_width c) (get_counter c s + op_delta c op).
Proof.
  intros Hs. assert (E : get_counter c s = wrap (counter_width c) (get_counter c s + 0)) by (rewrite Z.add_0_r; by rewrite wrap_small).
  destruct op as [d|d|now]; cbn [stats_step op_delta]; rewrite ?get_set_counter.
  - destruct (decide (d = c)) as [->|Hd]; [by rewrite decide_True|]. by rewrite decide_False by congruence.
  - destruct (decide (d = c)) as [->|Hd]; [by rewrite decide_True|]. by rewrite decide_False by congruence.
  - rewrite <- E. by destruct c.
Qed.

Lemma counter_width_pos c : 0 <= counter_width c.
Proof. by destruct c. Qed.

(** After any atomic steps of any threads a counter holds what was counted, modulo
    its width: no update is lost. *)
Theorem counters_exact c ops : forall s, 0 <= get_counter c s < 2 ^ counter_width c ->
  get_counter c (foldl stats_step s ops) = wrap (counter_width c) (get_counter c s + delta c ops).
Proof.
  induction ops as [|op ops IH]; intros s Hs; cbn [foldl delta foldr]; [rewrite Z.add_0_r; by rewrite wrap_small|].
  rewrite IH, stats_step_counter by (try done; rewrite stats_step_counter by done; apply wrap_range, counter_width_pos).
  unfold wrap. rewrite Z.add_mod_idemp_l by (pose proof (counter_width_pos c); lia). f_equal. unfold delta. lia.
Qed.

Lemma delta_perm c ops ops' : ops ≡ₚ ops' -> delta c ops = delta c ops'.
Proof. unfold delta. induction 1; cbn; lia. Qed.

(** So the order in which the threads' updates reach the memory does not matter. *)
Theorem counters_any_order c ops ops' s : ops ≡ₚ ops' -> 0 <= get_counter c s < 2 ^ counter_width c ->
  get_counter c (foldl stats_step s ops) = get_counter c (foldl stats_step s ops').
Proof. intros E Hs. by rewrite !counters_exact, (delta_perm c _ _ E). Qed.

(** ** Booking notifications are never cut *)

Lemma snprintf_all size text : Z.of_nat (length text) < size -> snprintf size text = text.
Proof. intros Hl. unfold snprintf. apply take_ge. lia. Qed.

Lemma booking_text_whole booking_id user_id event_id num_seats :
  0 <= booking_id < 2 ^ 32 -> 0 <= user_id < 2 ^ 32 -> 0 <= event_id < 2 ^ 32 -> 0 <= num_seats < 2 ^ 32 ->
  booking_confirmed_text booking_id user_id event_id num_seats =
  lit "Booking #" ++ dec booking_id ++ lit " confirmed: user " ++ dec user_id ++ lit " booked " ++
  dec num_seats ++ lit " seats for event " ++ dec event_id.
Proof.
  intros Hb Hu He Hn. apply snprintf_all. rewrite !length_app.
  pose proof (dec_u32_length _ Hb). pose proof (dec_u32_length _ Hu). pose proof (dec_u32_length _ He). pose proof (dec_u32_length _ Hn).
  change (length (lit "Booking #")) with 9%nat. change (length (lit " confirmed: user ")) with 17%nat.
  change (length (lit " booked ")) with 8%nat. change (length (lit " seats for event ")) with 17%nat. lia.
Qed.

(** A deleted event stays counted as active, since no function takes it off the
    counter, and the server never counts buffer pool accesses or locks. *)
Example never_counted now e : Forall (fun op => op <> AtomicSub ActiveEvents /\ op <> AtomicAdd BufferHits /\
    op <> AtomicAdd BufferMisses /\ op <> AtomicAdd LocksAcquired /\ op <> AtomicAdd LockContentions) (effect_stats now e).
Proof. destruct e; repeat constructor; done. Qed.

(** ** The statistics of a connection *)

(** What client_handler counts for a connection that had these effects. *)
Definition connection_stats (now : Z) (eff : list effect) : list stats_op :=
  stats_inc_connections ++ concat (effect_stats now <$> eff) ++ stats_dec_connections.

Lemma delta_app c l1 l2 : delta c (l1 ++ l2) = delta c l1 + delta c l2.
Proof. unfold delta. induction l1 as [|op l1 IH]; cbn; [done|]. rewrite IH. lia. Qed.

(** A connection that has ended is not counted as active, and was counted once. *)
Theorem connections_balance now eff :
  delta ActiveConnections (connection_stats now eff) = 0 /\ delta TotalConnections (connection_stats now eff) = 1.
Proof.
  unfold connection_stats. rewrite !delta_app.
  assert (H : forall c, c = ActiveConnections \/ c = TotalConnections -> delta c (concat (effect_stats now <$> eff)) = 0).
  { intros c Hc. induction eff as [|e eff IH]; [done|]. cbn [fmap list_fmap concat]. rewrite delta_app, IH.
    by destruct Hc as [-> | ->], e. }
  by rewrite !H by auto.
Qed.
