(* ===== verification/Float32.v ===== *)
(** * Single-precision floats (the [float] fields of common/types.h)

    A [float] is its 32-bit image; arithmetic is IEEE 754 binary32 with rounding
    to nearest even, on the Standard Library's [spec_float]. *)

From stdpp Require Import base tactics numbers.
From Stdlib Require Import ZArith Lia SpecFloat.
From S2P Require Import Prelude.

#[local] Open Scope Z_scope.

Definition f32_decode (z : Z) : spec_float :=
  let s := Z.testbit z 31 in
  let e := Z.land (Z.shiftr z 23) 255 in
  let m := Z.land z 8388607 in
  if e =? 255 then (if m =? 0 then S754_infinity s else S754_nan)
  else if e =? 0 then (if m =? 0 then S754_zero s else S754_finite s (Z.to_pos m) (-149))
  else S754_finite s (Z.to_pos (m + 8388608)) (e - 150).

Definition sign_bit (s : bool) : Z := if s then 2147483648 else 0.

Definition f32_encode (f : spec_float) : Z :=
  match f with
  | S754_zero s => sign_bit s
  | S754_infinity s => sign_bit s + 2139095040
  | S754_nan => 2143289344
  | S754_finite s m e =>
      if Z.pos m <? 8388608 then sign_bit s + Z.pos m
      else sign_bit s + Z.shiftl (e + 150) 23 + (Z.pos m - 8388608)
  end.

(** [(float)n], and the product of a float and an int. *)
Definition f32_of_int (n : Z) : spec_float := binary_normalize 24 128 n 0 false.
Definition f32_mul_int (z n : Z) : Z := f32_encode (SFmul 24 128 (f32_decode z) (f32_of_int n)).
Definition f32_add (x y : Z) : Z := f32_encode (SFadd 24 128 (f32_decode x) (f32_decode y)).

Definition f32_isfinite (z : Z) : bool := negb (Z.land (Z.shiftr z 23) 255 =? 255).
(** [x < 0]. *)
Definition f32_negative (z : Z) : bool := SFltb (f32_decode z) (S754_zero false).

(** The three parts of an image. *)
Lemma f32_parts z : 0 <= z < 2 ^ 32 ->
  z = sign_bit (Z.testbit z 31) + Z.land (Z.shiftr z 23) 255 * 8388608 + Z.land z 8388607 /\
  0 <= Z.land (Z.shiftr z 23) 255 < 256 /\ 0 <= Z.land z 8388607 < 8388608.
Proof.
  intros Hz. change 255 with (Z.ones 8). change 8388607 with (Z.ones 23). rewrite !Z.land_ones by lia.
  assert (Hs : sign_bit (Z.testbit z 31) = z / 2147483648 * 2147483648).
  { pose proof (Z.testbit_spec' z 31 ltac:(lia)) as Ht. change (2 ^ 31) with 2147483648 in Ht.
    assert (Hq : 0 <= z / 2147483648 < 2) by (split; [apply Z.div_pos; lia|apply Z.div_lt_upper_bound; lia]).
    rewrite Z.mod_small in Ht by lia. unfold sign_bit. destruct (Z.testbit z 31); cbn in Ht; lia. }
  rewrite Hs, Z.shiftr_div_pow2 by lia. change (2 ^ 23) with 8388608. change (2 ^ 8) with 256.
  pose proof (Z.mod_pos_bound (z / 8388608) 256 ltac:(lia)). pose proof (Z.mod_pos_bound z 8388608 ltac:(lia)).
  split; [|lia]. pose proof (Z.div_mod z 8388608 ltac:(lia)). pose proof (Z.div_mod (z / 8388608) 256 ltac:(lia)) as Hd.
  rewrite Z.div_div in Hd by lia. change (8388608 * 256) with 2147483648 in Hd. lia.
Qed.

(** Every image but the NaNs survives decoding and encoding. *)
Lemma f32_encode_decode z : 0 <= z < 2 ^ 32 -> f32_decode z <> S754_nan -> f32_encode (f32_decode z) = z.
Proof.
  intros Hz. destruct (f32_parts z Hz) as (Heq & He & Hm). unfold f32_decode.
  set (s := Z.testbit z 31) in *. set (e := Z.land (Z.shiftr z 23) 255) in *. set (m := Z.land z 8388607) in *.
  intros Hnan. destruct (Z.eqb_spec e 255) as [E|E]; [destruct (Z.eqb_spec m 0) as [M|M]; [|done]|
    destruct (Z.eqb_spec e 0) as [E0|E0]; [destruct (Z.eqb_spec m 0) as [M|M]|]]; cbn [f32_encode].
  - rewrite Heq, E, M. lia.
  - rewrite Heq, E0, M. lia.
  - rewrite Z2Pos.id by lia. destruct (Z.ltb_spec m 8388608); [|lia]. rewrite Heq, E0. lia.
  - rewrite Z2Pos.id by lia. destruct (Z.ltb_spec (m + 8388608) 8388608); [lia|].
    rewrite Z.shiftl_mul_pow2 by lia. change (2 ^ 23) with 8388608. lia.
Qed.

(** ** Results of operations fit 32 bits *)

(** What rounding to 24 bits leaves. *)
Definition bounded (f : spec_float) : Prop :=
  match f with S754_finite _ m e => Z.pos m < 16777216 /\ -149 <= e <= 104 | _ => True end.

Lemma digits2_bound p : Z.pos p < 2 ^ Z.pos (digits2_pos p).
Proof.
  induction p as [p IH|p IH|]; cbn [digits2_pos]; [| |done]; rewrite Pos2Z.inj_succ, Z.pow_succ_r by lia; lia.
Qed.

Lemma shr_1_half r : 0 <= shr_m r -> shr_m (shr_1 r) = shr_m r / 2.
Proof.
  destruct r as [[|[p|p|]|p] a b]; cbn [shr_m shr_1]; intros H; try lia; Z.div_mod_to_equations; lia.
Qed.

Lemma shr_iter p : forall r, 0 <= shr_m r -> shr_m (iter_pos shr_1 p r) = shr_m r / 2 ^ Z.pos p.
Proof.
  induction p as [p IH|p IH|]; intros r Hr; cbn [iter_pos].
  - pose proof (shr_1_half r Hr) as H1. assert (0 <= shr_m (shr_1 r)) by (rewrite H1; apply Z.div_pos; lia).
    assert (0 <= shr_m (iter_pos shr_1 p (shr_1 r))) by (rewrite IH by done; apply Z.div_pos; lia).
    rewrite !IH, H1, !Z.div_div by lia. f_equal. rewrite <- Z.pow_add_r, <- (Z.pow_succ_r 2) by lia. f_equal. lia.
  - assert (0 <= shr_m (iter_pos shr_1 p r)) by (rewrite IH by done; apply Z.div_pos; lia).
    rewrite !IH, Z.div_div by lia. rewrite <- Z.pow_add_r by lia. f_equal. f_equal. lia.
  - by apply shr_1_half.
Qed.

Lemma shr_fexp_bound m e l r e' : 0 <= m -> shr_fexp 24 128 m e l = (r, e') -> 0 <= shr_m r < 16777216 /\ (0 < shr_m r -> -149 <= e').
Proof.
  intros Hm. unfold shr_fexp. assert (Hl : shr_m (shr_record_of_loc m l) = m) by (by destruct l as [|[]]).
  assert (Hd : m < 2 ^ Zdigits2 m /\ 0 <= Zdigits2 m).
  { destruct m as [|p|p]; cbn [Zdigits2]; [done| |lia]. split; [apply digits2_bound|lia]. }
  unfold fexp, SpecFloat.emin. set (n := Z.max _ _ - e). unfold shr. destruct n as [|p|p] eqn:En; intros [= <- <-]; rewrite ?shr_iter, ?Hl by lia.
  - split; [|lia]. assert (2 ^ Zdigits2 m <= 2 ^ 24) by (apply Z.pow_le_mono_r; lia). lia.
  - split; [|lia]. split; [apply Z.div_pos; lia|]. apply Z.div_lt_upper_bound; [lia|].
    assert (2 ^ Zdigits2 m <= 2 ^ (Z.pos p + 24)) by (apply Z.pow_le_mono_r; lia). rewrite Z.pow_add_r in * by lia. lia.
  - split; [|lia]. assert (2 ^ Zdigits2 m <= 2 ^ 24) by (apply Z.pow_le_mono_r; lia). lia.
Qed.

Lemma round_aux_bounded s m e l : 0 <= m -> bounded (binary_round_aux 24 128 s m e l).
Proof.
  intros Hm. unfold binary_round_aux. destruct (shr_fexp 24 128 m e l) as [r1 e1] eqn:E1.
  pose proof (shr_fexp_bound _ _ _ _ _ Hm E1) as [H1 _].
  assert (H2 : 0 <= round_nearest_even (shr_m r1) (loc_of_shr_record r1)).
  { unfold round_nearest_even. repeat case_match; lia. }
  destruct (shr_fexp 24 128 _ e1 loc_Exact) as [r2 e2] eqn:E2. pose proof (shr_fexp_bound _ _ _ _ _ H2 E2) as [H3 H4].
  destruct (shr_m r2) as [|p|p]; cbn [bounded]; try done. destruct (Z.leb_spec e2 (128 - 24)); [|done]. cbn. lia.
Qed.

Lemma mul_bounded x y : bounded (SFmul 24 128 x y).
Proof. destruct x, y; try done. by apply round_aux_bounded. Qed.

Lemma f32_encode_range f : bounded f -> 0 <= f32_encode f < 2 ^ 32.
Proof.
  assert (Hs : forall s, sign_bit s = 0 \/ sign_bit s = 2147483648) by (intros []; auto).
  destruct f as [s|s| |s m e]; cbn [bounded f32_encode]; intros H; try (destruct (Hs s) as [-> | ->]; lia); [lia|].
  destruct (Z.ltb_spec (Z.pos m) 8388608); [destruct (Hs s) as [-> | ->]; lia|].
  rewrite Z.shiftl_mul_pow2 by lia. change (2 ^ 23) with 8388608. destruct (Hs s) as [-> | ->]; lia.
Qed.

Lemma f32_mul_int_range x n : 0 <= f32_mul_int x n < 2 ^ 32.
Proof. apply f32_encode_range, mul_bounded. Qed.

Example f32_mul_example : f32_mul_int 0x42480000 3 = 0x43160000. (* 50.0f * 3 = 150.0f *)
Proof. vm_compute. reflexivity. Qed.
