(* ===== verification/Page.v ===== *)
(** * Page I/O (server/storage/page.c)

    [disk] is the operating system's side: the bytes of each open data file
    and a schedule of outcomes for the coming pread/pwrite calls (an empty
    schedule means they succeed).  A page buffer is its 4096 bytes; the header
    fields are read and written at their packed offsets.  [page_slots] is the
    abstract view, the list of records in slot order. *)

From stdpp Require Import base tactics numbers list gmap.
From Stdlib Require Import ZArith Lia.
From S2P Require Import Prelude Types.

#[local] Open Scope Z_scope.

(** The length of a page buffer. *)
Abbreviation PLEN := (Z.to_nat 4096).

(** ** Files *)

Record disk := Disk { d_files : gmap Z bytes; d_faults : list bool }.

(** One system call's outcome, [true] for success. *)
Definition io_tick (d : disk) : bool * disk :=
  match d_faults d with
  | [] => (true, d)
  | b :: fs => (b, {| d_files := d_files d; d_faults := fs |})
  end.

(** pread of [PAGE_SIZE] bytes; a short read is zero-filled. *)
Definition page_read (fd page_id : Z) (d : disk) : disk * option bytes :=
  if fd <? 0 then (d, None)
  else
    let '(ok, d1) := io_tick d in
    match d_files d1 !! fd with
    | None => (d1, None)
    | Some f =>
        if ok then
          let data := slice (Z.to_nat (page_id * PAGE_SIZE)) PLEN f in
          (d1, Some (data ++ zeros (PLEN - length data)))
        else (d1, None)
    end.

(** pwrite of [PAGE_SIZE] bytes; a write past the end leaves a hole of zeros. *)
Definition page_write (fd page_id : Z) (buf : bytes) (d : disk) : disk * bool :=
  if fd <? 0 then (d, false)
  else
    let '(ok, d1) := io_tick d in
    match d_files d1 !! fd with
    | None => (d1, false)
    | Some f =>
        if ok then
          let off := Z.to_nat (page_id * PAGE_SIZE) in
          let f' := blit off buf (f ++ zeros (off + PLEN - length f)) in
          ({| d_files := <[fd := f']> (d_files d1); d_faults := d_faults d1 |}, true)
        else (d1, false)
    end.

Definition page_get_count (fd : Z) (d : disk) : Z :=
  if fd <? 0 then 0
  else
    match d_files d !! fd with
    | None => 0
    | Some f => u32 (Z.of_nat (length f) / PAGE_SIZE)
    end.

(** ** Page header *)

Definition h_page_id (p : bytes) : Z := rd 4 0 p.
Definition h_record_count (p : bytes) : Z := rd 2 4 p.
Definition h_free_space_offset (p : bytes) : Z := rd 2 6 p.
Definition h_record_size (p : bytes) : Z := rd 2 8 p.
Definition h_flags (p : bytes) : Z := rd 2 10 p.

Definition PAGE_FLAG_DIRTY : Z := 1.
Definition PAGE_FLAG_HAS_DELETED : Z := 2.

Definition record_offset (slot_id record_size : Z) : Z :=
  u32 (PAGE_HEADER_SIZE + u32 (slot_id * record_size)).

Definition page_init_header (page_id record_size : Z) : bytes :=
  let p0 := zeros PLEN in
  let p1 := wr 4 0 page_id p0 in
  let p2 := wr 2 4 0 p1 in
  let p3 := wr 2 6 PAGE_HEADER_SIZE p2 in
  let p4 := wr 2 8 record_size p3 in
  let p5 := wr 2 10 0 p4 in
  wr 4 12 0 p5.

Definition page_alloc (fd record_size : Z) (d : disk) : disk * Z :=
  if (fd <? 0) || (record_size =? 0) then (d, INVALID_PAGE_ID)
  else
    let new_id := page_get_count fd d in
    let '(d1, ok) := page_write fd new_id (page_init_header new_id record_size) d in
    if ok then (d1, new_id) else (d1, INVALID_PAGE_ID).

(** ** Record operations on a page buffer *)

Definition page_get_max_records (record_size : Z) : Z :=
  if record_size =? 0 then 0 else u16 ((PAGE_SIZE - PAGE_HEADER_SIZE) / record_size).

Definition page_get_record_count (p : bytes) : Z := h_record_count p.

Definition page_is_full (p : bytes) : bool :=
  page_get_max_records (h_record_size p) <=? h_record_count p.

(** memcpy of [record_size] bytes of [record] into the slot. *)
Definition slot_write (slot_id : Z) (record p : bytes) : bytes :=
  let rs := h_record_size p in
  blit (Z.to_nat (record_offset slot_id rs)) (take (Z.to_nat rs) record) p.

Definition page_insert_record (p record : bytes) : bytes * Z :=
  let max_records := page_get_max_records (h_record_size p) in
  if max_records <=? h_record_count p then (p, -1)
  else
    let slot := h_record_count p in
    let p1 := slot_write slot record p in
    let p2 := wr 2 4 (h_record_count p1 + 1) p1 in
    let p3 := wr 2 6 (PAGE_HEADER_SIZE + h_record_count p2 * h_record_size p2) p2 in
    let p4 := wr 2 10 (Z.lor (h_flags p3) PAGE_FLAG_DIRTY) p3 in
    (p4, slot).

(** The pointer returned is into the buffer; the model returns the bytes. *)
Definition page_get_record (p : bytes) (slot_id : Z) : option bytes :=
  if h_record_count p <=? slot_id then None
  else
    let rs := h_record_size p in
    Some (slice (Z.to_nat (record_offset slot_id rs)) (Z.to_nat rs) p).

Definition page_update_record (p : bytes) (slot_id : Z) (record : bytes) : bytes * Z :=
  if h_record_count p <=? slot_id then (p, -1)
  else
    let p1 := slot_write slot_id record p in
    (wr 2 10 (Z.lor (h_flags p1) PAGE_FLAG_DIRTY) p1, 0).

Definition page_delete_record (p : bytes) (slot_id : Z) : bytes * Z :=
  if h_record_count p <=? slot_id then (p, -1)
  else
    let p1 := wr 1 (Z.to_nat (record_offset slot_id (h_record_size p))) 1 p in
    (wr 2 10 (Z.lor (h_flags p1) (Z.lor PAGE_FLAG_DIRTY PAGE_FLAG_HAS_DELETED)) p1, 0).

(** ** Abstract view and invariant *)

(** The records of a page, in slot order. *)
Definition page_slots (p : bytes) : list bytes :=
  (fun i => slice (16 + i * Z.to_nat (h_record_size p)) (Z.to_nat (h_record_size p)) p)
    <$> seq 0 (Z.to_nat (h_record_count p)).

(** A page of [rs]-byte records as every operation leaves it. *)
Record page_wf (rs : Z) (p : bytes) : Prop := PageWf {
  wf_length : length p = PLEN;
  wf_bytes : Forall byte_ok p;
  wf_rs : h_record_size p = rs;
  wf_rs_pos : 0 < rs <= 4080;
  wf_count : h_record_count p <= 4080 / rs;
  wf_free : h_free_space_offset p = 16 + h_record_count p * rs }.

(** ** Header fields survive writes outside them *)

Lemma page_len_wr n off v p :
  length p = PLEN -> (off + n <= PLEN)%nat -> length (wr n off v p) = PLEN.
Proof. intros Hl ?. rewrite length_wr; lia. Qed.

Lemma page_len_blit off (src p : bytes) :
  length p = PLEN -> (off + length src <= PLEN)%nat ->
  length (blit off src p) = PLEN.
Proof. intros Hl ?. rewrite length_blit; lia. Qed.

Lemma length_page_init pid rs : length (page_init_header pid rs) = PLEN.
Proof.
  unfold page_init_header. repeat (apply page_len_wr; [|lia]). apply length_zeros.
Qed.

(** Solves length side conditions of nested field writes. *)
Ltac page_len :=
  lazymatch goal with
  | |- length (wr _ _ _ _) = PLEN => apply page_len_wr; [page_len | lia]
  | |- length (blit _ _ _) = PLEN => apply page_len_blit; [page_len | lia]
  | |- length (zeros _) = PLEN => apply length_zeros
  | |- length (page_init_header _ _) = PLEN => apply length_page_init
  | |- _ => assumption
  end.
Ltac plen :=
  lazymatch goal with
  | |- (_ <= length ?p)%nat =>
      let H := fresh in assert (H : length p = PLEN) by page_len; rewrite H; lia
  | |- _ => lia
  end.

Lemma page_init_bytes pid rs : Forall byte_ok (page_init_header pid rs).
Proof. unfold page_init_header. auto 10 with etp. Qed.

Lemma max_records_eq rs : 0 < rs <= 4080 -> page_get_max_records rs = 4080 / rs.
Proof.
  intros. unfold page_get_max_records. destruct (Z.eqb_spec rs 0); [lia|].
  change (PAGE_SIZE - PAGE_HEADER_SIZE) with 4080. apply u16_small.
  split; [apply Z.div_pos; lia|]. apply Z.div_lt_upper_bound; nia.
Qed.

(** Slot offsets do not wrap and stay inside the page. *)
Lemma record_offset_eq slot rs :
  0 < rs <= 4080 -> 0 <= slot < 4080 / rs ->
  record_offset slot rs = 16 + slot * rs /\ 16 + slot * rs + rs <= 4096.
Proof.
  intros Hrs Hs. assert ((slot + 1) * rs <= 4080).
  { transitivity (4080 / rs * rs); [nia|]. rewrite Z.mul_comm. apply Z.mul_div_le. lia. }
  unfold record_offset, PAGE_HEADER_SIZE. rewrite !u32_small by (try rewrite u32_small; nia). nia.
Qed.

Lemma page_count_range rs p : page_wf rs p -> 0 <= h_record_count p < 65536.
Proof. intros [Hl Hb _ _ _ _]. apply (rd_bound 2 4 p Hb). lia. Qed.

Lemma length_page_slots p : length (page_slots p) = Z.to_nat (h_record_count p).
Proof. unfold page_slots. by rewrite length_fmap, length_seq. Qed.

Lemma page_slots_lookup p i :
  (i < Z.to_nat (h_record_count p))%nat ->
  page_slots p !! i =
    Some (slice (16 + i * Z.to_nat (h_record_size p)) (Z.to_nat (h_record_size p)) p).
Proof. intros. unfold page_slots. rewrite list_lookup_fmap, lookup_seq_lt by done. done. Qed.

(** Reads a header field through pending field and slot writes. *)
Ltac hdr :=
  repeat first
    [ rewrite rd_wr_same by plen
    | rewrite rd_wr_disjoint by plen
    | rewrite rd_blit_disjoint by plen
    | rewrite slice_wr_disjoint by plen
    | rewrite slice_blit_disjoint by plen ].
Ltac hdr_fields :=
  unfold h_page_id, h_record_count, h_free_space_offset, h_record_size, h_flags in *.

(** No record layout has its deletion flag in byte 0. *)
Lemma deleted_flag_not_first table v (r : bytes) :
  length r = Z.to_nat (etp_record_size table) -> 0 < etp_record_size table ->
  rd 1 (get_deleted_flag_offset table) (wr 1 0 v r) = rd 1 (get_deleted_flag_offset table) r.
Proof.
  intros Hl Hpos. apply rd_wr_disjoint.
  - lia.
  - right. unfold etp_record_size in Hpos. unfold get_deleted_flag_offset.
    repeat case_match; try lia. unfold TABLE_COUNT, TABLE_USERS, TABLE_EVENTS, TABLE_SEATS,
      TABLE_BOOKINGS, TABLE_BOOKING_SEATS in *. bool_to_prop. lia.
Qed.

Section page.
Context (rs : Z).
Implicit Types (p record : bytes).

Lemma slot_write_eq p slot record :
  page_wf rs p -> 0 <= slot < 4080 / rs -> length record = Z.to_nat rs ->
  let off := (16 + Z.to_nat slot * Z.to_nat rs)%nat in
  slot_write slot record p = blit off record p /\ (off + length record <= PLEN)%nat.
Proof.
  intros [Hl Hb Hrs Hpos _ _] Hs Hrec. cbn.
  destruct (record_offset_eq slot rs) as [He Hle]; [done..|].
  unfold slot_write. rewrite Hrs, He, take_ge by lia. split; [f_equal; nia | nia].
Qed.

Lemma page_get_record_slots p slot :
  page_wf rs p -> 0 <= slot ->
  page_get_record p slot = page_slots p !! Z.to_nat slot.
Proof.
  intros Hwf Hs. pose proof (page_count_range _ _ Hwf) as Hc. destruct Hwf.
  unfold page_get_record. destruct (Z.leb_spec (h_record_count p) slot).
  - symmetry. apply lookup_ge_None. rewrite length_page_slots. lia.
  - rewrite page_slots_lookup by lia. rewrite wf_rs0.
    destruct (record_offset_eq slot rs) as [-> _]; [lia..|]. repeat f_equal. nia.
Qed.

(** Overwriting slot [slot] of a page, whatever is then written in the header
    outside [record_count] and [record_size]. *)
Lemma page_slots_overwrite p p' slot record :
  page_wf rs p -> 0 <= slot < h_record_count p -> length record = Z.to_nat rs ->
  h_record_count p' = h_record_count p -> h_record_size p' = rs ->
  (forall off n, (16 <= off)%nat ->
     slice off n p' = slice off n (blit (16 + Z.to_nat slot * Z.to_nat rs) record p)) ->
  page_slots p' = <[Z.to_nat slot := record]> (page_slots p).
Proof.
  intros Hwf Hs Hrec Hc Hr Hsl.
  destruct (slot_write_eq p slot record) as [_ Hle]; [done| destruct Hwf; lia | done |].
  destruct Hwf. apply list_eq. intros i.
  destruct (decide (i < Z.to_nat (h_record_count p))%nat) as [Hi|Hi].
  - rewrite page_slots_lookup by (rewrite Hc; lia). rewrite Hr, Hsl by lia.
    destruct (decide (i = Z.to_nat slot)) as [->|Hne].
    + rewrite list_lookup_insert_eq by (rewrite length_page_slots; lia).
      f_equal. rewrite <- Hrec. apply slice_blit_same. lia.
    + rewrite list_lookup_insert_ne by done. rewrite page_slots_lookup by lia.
      rewrite wf_rs0. f_equal. apply slice_blit_disjoint; [lia|]. rewrite Hrec. nia.
  - rewrite !lookup_ge_None_2; [done|..]; autorewrite with etp_len;
      rewrite ?length_page_slots; lia.
Qed.

Lemma page_is_full_iff p :
  page_wf rs p -> page_is_full p = true <-> h_record_count p = 4080 / rs.
Proof.
  intros []. unfold page_is_full. rewrite wf_rs0, max_records_eq by done.
  rewrite Z.leb_le. lia.
Qed.

Lemma page_init_wf pid : 0 < rs <= 4080 -> page_wf rs (page_init_header pid rs).
Proof.
  intros. split; [apply length_page_init | apply page_init_bytes | | done | |].
  - hdr_fields. unfold page_init_header. hdr. apply u16_small. lia.
  - hdr_fields. unfold page_init_header. hdr. cbn. apply Z.div_pos; lia.
  - hdr_fields. unfold page_init_header. hdr. cbn. done.
Qed.

Lemma page_init_slots pid : page_slots (page_init_header pid rs) = [].
Proof.
  unfold page_slots. hdr_fields. unfold page_init_header.
  replace (rd 2 4 _) with 0; [done|]. symmetry. hdr. done.
Qed.

(** Header of a page after its slot area and flags were rewritten. *)
Lemma page_wf_flags p flags slot record :
  page_wf rs p -> 0 <= slot < h_record_count p -> length record = Z.to_nat rs ->
  Forall byte_ok record ->
  page_wf rs (wr 2 10 flags (slot_write slot record p)) /\
  page_slots (wr 2 10 flags (slot_write slot record p)) =
    <[Z.to_nat slot := record]> (page_slots p) /\
  h_record_count (wr 2 10 flags (slot_write slot record p)) = h_record_count p.
Proof.
  intros Hwf Hs Hrec Hok.
  destruct (slot_write_eq p slot record) as [-> Hle]; [done| destruct Hwf; lia | done |].
  pose proof Hwf as [Hl Hb Hrs Hpos Hc Hf]. set (off := (16 + _)%nat) in *.
  set (p' := wr _ _ _ _).
  assert (Hlen : length p' = PLEN) by (unfold p'; page_len).
  assert (Hc' : h_record_count p' = h_record_count p) by (unfold p'; hdr_fields; by hdr).
  assert (Hr' : h_record_size p' = rs) by (unfold p'; hdr_fields; by hdr).
  assert (Hf' : h_free_space_offset p' = h_free_space_offset p)
    by (unfold p'; hdr_fields; by hdr).
  split; [|split; [|done]].
  - split; rewrite ?Hc', ?Hf'; try done. unfold p'. auto with etp.
  - apply (page_slots_overwrite p p'); try done.
    intros. unfold p'. by hdr.
Qed.

Lemma page_update_spec p slot record :
  page_wf rs p -> 0 <= slot < h_record_count p -> length record = Z.to_nat rs ->
  Forall byte_ok record ->
  exists p', page_update_record p slot record = (p', 0) /\ page_wf rs p' /\
    page_slots p' = <[Z.to_nat slot := record]> (page_slots p).
Proof.
  intros Hwf Hs Hrec Hok. unfold page_update_record.
  destruct (Z.leb_spec (h_record_count p) slot); [lia|].
  eexists. split; [done|].
  edestruct page_wf_flags as (?&?&?); [exact Hwf|exact Hs|exact Hrec|exact Hok|].
  split; eassumption.
Qed.

Lemma page_insert_spec p record :
  page_wf rs p -> page_is_full p = false -> length record = Z.to_nat rs ->
  Forall byte_ok record ->
  exists p', page_insert_record p record = (p', h_record_count p) /\ page_wf rs p' /\
    page_slots p' = page_slots p ++ [record] /\ h_page_id p' = h_page_id p.
Proof.
  intros Hwf Hfull Hrec Hok. pose proof (page_count_range _ _ Hwf) as Hcr.
  unfold page_is_full in Hfull. apply Z.leb_gt in Hfull.
  unfold page_insert_record. destruct (Z.leb_spec (page_get_max_records (h_record_size p)) (h_record_count p)); [lia|].
  pose proof Hwf as [Hl Hb Hrs Hpos Hc Hf]. rewrite Hrs, max_records_eq in Hfull by done.
  set (c := h_record_count p) in *.
  destruct (slot_write_eq p c record) as [-> Hle]; [done|lia|done|].
  set (off := (16 + _)%nat) in *. assert (16 <= off)%nat by lia. cbn zeta.
  set (p1 := blit off record p). assert (Hc1 : h_record_count p1 = c) by (unfold p1; hdr_fields; by hdr).
  rewrite Hc1. set (p2 := wr 2 4 (c + 1) p1).
  assert (Hc2 : h_record_count p2 = c + 1)
    by (unfold p2, p1; hdr_fields; hdr; apply u16_small; nia).
  assert (Hr2 : h_record_size p2 = rs) by (unfold p2, p1; hdr_fields; by hdr).
  rewrite Hc2, Hr2. set (p' := wr 2 10 _ _). eexists. split; [done|].
  assert (Hlen : length p' = PLEN) by (unfold p', p2, p1; page_len).
  assert (Hc' : h_record_count p' = c + 1)
    by (unfold p', p2, p1; hdr_fields; hdr; apply u16_small; nia).
  assert (Hr' : h_record_size p' = rs) by (unfold p', p2, p1; hdr_fields; by hdr).
  assert (Hcle : (c + 1) * rs <= 4080).
  { transitivity (4080 / rs * rs); [nia|]. rewrite Z.mul_comm. apply Z.mul_div_le. lia. }
  split; [split; rewrite ?Hc'; try done; try lia|split].
  - unfold p', p2, p1. auto 10 with etp.
  - unfold p', p2, p1. hdr_fields. hdr. apply u16_small. unfold PAGE_HEADER_SIZE. nia.
  - apply list_eq. intros i. destruct (decide (i < Z.to_nat c)%nat).
    + rewrite lookup_app_l by (rewrite length_page_slots; lia).
      rewrite !page_slots_lookup by lia. rewrite Hr', Hrs. f_equal.
      unfold p', p2, p1. hdr. rewrite slice_blit_disjoint; [done|lia|nia].
    + rewrite lookup_app_r by (rewrite length_page_slots; lia). rewrite length_page_slots.
      destruct (decide (i = Z.to_nat c)) as [->|].
      * rewrite page_slots_lookup by lia. rewrite Hr'. rewrite Nat.sub_diag. cbn [lookup list_lookup]. fold off.
        f_equal. unfold p', p2. do 3 (rewrite slice_wr_disjoint; [|unfold p1; plen|lia]).
        unfold p1. rewrite <- Hrec. apply slice_blit_same. lia.
      * rewrite !lookup_ge_None_2; [done|cbn; lia|rewrite length_page_slots; lia].
  - unfold p', p2, p1. hdr_fields. by hdr.
Qed.

Lemma page_insert_full_spec p record :
  page_is_full p = true -> page_insert_record p record = (p, -1).
Proof. unfold page_is_full, page_insert_record. by intros ->. Qed.

(** page_insert_record implements appending to the list of slots.  On a
    full page it returns -1 and changes nothing; otherwise it returns the old
    record count as the slot, the slot reads back as the record, every earlier
    slot reads as before, and the page stays well formed. *)
Theorem page_insert_appends p record p' slot :
  page_wf rs p -> length record = Z.to_nat rs -> Forall byte_ok record ->
  page_insert_record p record = (p', slot) ->
  if page_is_full p then p' = p /\ slot = -1
  else slot = h_record_count p /\ page_wf rs p' /\
       page_slots p' = page_slots p ++ [record] /\
       page_get_record p' slot = Some record /\
       forall i, 0 <= i < slot -> page_get_record p' i = page_get_record p i.
Proof.
  intros Hwf Hrec Hok Hins. destruct (page_is_full p) eqn:Hfull.
  { rewrite page_insert_full_spec in Hins by done. by injection Hins as <- <-. }
  destruct (page_insert_spec p record Hwf Hfull Hrec Hok) as (q & Hq & Hwf' & Hsl & _).
  rewrite Hq in Hins. injection Hins as <- <-.
  pose proof (page_count_range _ _ Hwf).
  split; [done|]. split; [done|]. split; [done|]. split.
  - rewrite page_get_record_slots by (done || lia). rewrite Hsl.
    by apply list_lookup_middle; rewrite length_page_slots.
  - intros i Hi. rewrite !page_get_record_slots by (done || lia). rewrite Hsl.
    apply lookup_app_l. rewrite length_page_slots. lia.
Qed.

(** page_update_record replaces exactly the addressed slot of a well-formed
    page and nothing else, and returns -1 without a change when the slot is not
    in use. *)
Theorem page_update_replaces p slot record p' rc :
  page_wf rs p -> 0 <= slot -> length record = Z.to_nat rs -> Forall byte_ok record ->
  page_update_record p slot record = (p', rc) ->
  if slot <? h_record_count p
  then rc = 0 /\ page_wf rs p' /\ page_slots p' = <[Z.to_nat slot := record]> (page_slots p)
  else rc = -1 /\ p' = p.
Proof.
  intros Hwf Hs Hrec Hok Hu. destruct (Z.ltb_spec slot (h_record_count p)).
  - destruct (page_update_spec p slot record) as (q & Hq & ? & ?); [done|lia|done..|].
    rewrite Hq in Hu. by injection Hu as <- <-.
  - unfold page_update_record in Hu.
    destruct (Z.leb_spec (h_record_count p) slot); [|lia]. by injection Hu as <- <-.
Qed.

(** Writing [v] at byte [o] of a slot in place: the slot then holds the record
    with that byte replaced. *)
Lemma slot_poke p slot o v old :
  page_wf rs p -> 0 <= slot < h_record_count p -> page_slots p !! Z.to_nat slot = Some old ->
  (o < Z.to_nat rs)%nat ->
  wr 1 (Z.to_nat (record_offset slot rs) + o) v p = slot_write slot (wr 1 o v old) p /\
  length old = Z.to_nat rs /\ length (wr 1 o v old) = Z.to_nat rs /\ Forall byte_ok old.
Proof.
  intros Hwf Hs Hold Ho. pose proof Hwf as [Hl Hb Hrs Hpos Hc _].
  rewrite page_slots_lookup in Hold by lia. apply (inj Some) in Hold. subst old.
  destruct (record_offset_eq slot rs) as [Hoff Hle]; [done|lia|].
  set (n := (16 + Z.to_nat slot * Z.to_nat (h_record_size p))%nat). rewrite Hrs.
  assert (Hn : Z.to_nat (record_offset slot rs) = n) by (unfold n; rewrite Hoff, Hrs; nia).
  assert (Hlen : length (slice n (Z.to_nat rs) p) = Z.to_nat rs)
    by (rewrite length_slice; unfold n; nia).
  assert (Hlen' : length (wr 1 o v (slice n (Z.to_nat rs) p)) = Z.to_nat rs)
    by (rewrite length_wr; lia).
  destruct (slot_write_eq p slot (wr 1 o v (slice n (Z.to_nat rs) p))) as [-> _];
    [done|lia|done|].
  split; [|split; [done | split; [done | by apply Forall_slice]]].
  rewrite Hn. replace (16 + Z.to_nat slot * Z.to_nat rs)%nat with n by (unfold n; by rewrite Hrs).
  unfold wr. rewrite blit_in_slice; [done|unfold n; nia|rewrite length_le_enc; lia].
Qed.

(** page_delete_record overwrites the first byte of the record.  For every
    table of the platform that byte is part of the key or of another field and
    not the [is_deleted] flag: the slot is still read as live, and the record's
    first byte is 1. *)
Theorem page_delete_not_soft_delete p slot old p' rc table :
  page_wf rs p -> 0 <= slot < h_record_count p ->
  page_get_record p slot = Some old -> page_delete_record p slot = (p', rc) ->
  etp_record_size table = rs ->
  rc = 0 /\ page_wf rs p' /\
  page_get_record p' slot = Some (wr 1 0 1 old) /\
  is_record_deleted table (wr 1 0 1 old) = is_record_deleted table old.
Proof.
  intros Hwf Hs Hget Hdel Htab. pose proof Hwf as [_ _ Hrs Hpos _ _].
  rewrite page_get_record_slots in Hget by (done || lia).
  destruct (slot_poke p slot 0 1 old) as (Hpoke & Hlo & Hlen & Hok); [done..|lia|].
  rewrite Nat.add_0_r in Hpoke.
  unfold page_delete_record in Hdel.
  destruct (Z.leb_spec (h_record_count p) slot); [lia|].
  rewrite Hrs, Hpoke in Hdel. injection Hdel as <- <-.
  edestruct (page_wf_flags p) as (Hwf' & Hsl & Hc'); [done|exact Hs|exact Hlen|by apply Forall_wr|].
  split; [done|]. split; [exact Hwf'|]. split.
  - rewrite page_get_record_slots by (exact Hwf' || lia). rewrite Hsl.
    apply list_lookup_insert_eq. rewrite length_page_slots. lia.
  - unfold is_record_deleted. f_equal. f_equal. rewrite <- Htab in Hlo, Hpos.
    apply deleted_flag_not_first; [done|lia].
Qed.
End page.

(** ** Files as sequences of pages *)

(** Page [pid] of a file image. *)
Definition file_page (f : bytes) (pid : Z) : bytes :=
  slice (Z.to_nat (pid * PAGE_SIZE)) PLEN f.

(** A data file holds a whole number of pages: page_write only ever writes one
    full page inside the file or right at its end. *)
Definition paged (f : bytes) (n : Z) : Prop :=
  0 <= n < 4294967296 /\ length f = Z.to_nat (n * PAGE_SIZE).

Section disk.
Implicit Types (f buf : bytes) (d : disk).

Lemma page_get_count_paged fd f n d :
  0 <= fd -> d_files d !! fd = Some f -> paged f n -> page_get_count fd d = n.
Proof.
  intros Hfd Hf [Hn Hl]. unfold page_get_count. destruct (Z.ltb_spec fd 0); [lia|].
  rewrite Hf, Hl, Z2Nat.id by (unfold PAGE_SIZE; lia).
  rewrite Z.div_mul by done. by apply u32_small.
Qed.

Lemma page_read_paged fd f n pid d d' r :
  0 <= fd -> d_files d !! fd = Some f -> paged f n -> 0 <= pid < n ->
  page_read fd pid d = (d', r) ->
  d_files d' = d_files d /\ (r = None \/ r = Some (file_page f pid)).
Proof.
  intros Hfd Hf [Hn Hl] Hpid. unfold page_read. destruct (Z.ltb_spec fd 0); [lia|].
  assert (Hd : length (slice (Z.to_nat (pid * PAGE_SIZE)) PLEN f) = PLEN)
    by (rewrite length_slice; unfold PAGE_SIZE in *; lia).
  unfold io_tick. destruct (d_faults d) as [|[] fs]; cbn [d_files]; rewrite Hf;
    intros [= <- <-]; split; auto; right; rewrite Hd; unfold zeros; cbn [Nat.sub replicate];
    by rewrite app_nil_r.
Qed.

(** A write of page [pid <= n] replaces or appends exactly that page. *)
Lemma blit_page f n pid buf :
  paged f n -> 0 <= pid <= n -> length buf = PLEN ->
  let off := Z.to_nat (pid * PAGE_SIZE) in
  let f' := blit off buf (f ++ zeros (off + PLEN - length f)) in
  length f' = Z.to_nat (Z.max n (pid + 1) * PAGE_SIZE) /\
  file_page f' pid = buf /\
  forall pid', 0 <= pid' < n -> pid' <> pid -> file_page f' pid' = file_page f pid'.
Proof.
  intros [Hn Hl] Hpid Hbuf off f'. unfold PAGE_SIZE in *.
  assert (Hle : (off + length buf <= length (f ++ zeros (off + PLEN - length f)))%nat)
    by (len; unfold off; lia).
  split; [|split].
  - unfold f'. rewrite length_blit by done. len.
  - unfold f', file_page. fold off. rewrite <- Hbuf at 1. by apply slice_blit_same.
  - intros pid' Hp' Hne. unfold f', file_page, PAGE_SIZE.
    rewrite slice_blit_disjoint by (first [done | unfold off; lia]).
    by rewrite slice_app_l by lia.
Qed.

Lemma page_write_cases fd f pid buf d d' ok :
  0 <= fd -> d_files d !! fd = Some f -> page_write fd pid buf d = (d', ok) ->
  if ok then
    let off := Z.to_nat (pid * PAGE_SIZE) in
    d_files d' = <[fd := blit off buf (f ++ zeros (off + PLEN - length f))]> (d_files d)
  else d_files d' = d_files d.
Proof.
  intros Hfd Hf. unfold page_write. destruct (Z.ltb_spec fd 0); [lia|].
  unfold io_tick. destruct (d_faults d) as [|[] fs]; cbn; rewrite Hf; by intros [= <- <-].
Qed.

(** page_write of a page of an open file (or of the page right after its
    last one), followed by a page_read of any page: when both calls succeed
    the read returns the bytes just written for that page and the old bytes for
    every other page; no other file changes, and a failed write changes
    nothing. *)
Theorem page_write_read fd f n pid buf d d1 ok :
  0 <= fd -> d_files d !! fd = Some f -> paged f n -> 0 <= pid <= n ->
  pid + 1 < 4294967296 -> length buf = PLEN ->
  page_write fd pid buf d = (d1, ok) ->
  (forall fd', fd' <> fd -> d_files d1 !! fd' = d_files d !! fd') /\
  (ok = false -> d_files d1 = d_files d) /\
  (ok = true -> forall pid' d2 r,
     0 <= pid' < Z.max n (pid + 1) -> page_read fd pid' d1 = (d2, Some r) ->
     r = if pid' =? pid then buf else file_page f pid').
Proof.
  intros Hfd Hf Hpg Hpid Hmax Hbuf Hw. pose proof Hpg as [Hn _].
  pose proof (page_write_cases _ _ _ _ _ _ _ Hfd Hf Hw) as Hc.
  destruct ok; cbn in Hc.
  - split; [|split; [done|]].
    { intros fd' Hne. rewrite Hc. by rewrite lookup_insert_ne by done. }
    intros _ pid' d2 r Hp' Hr.
    destruct (blit_page f n pid buf Hpg Hpid Hbuf) as (Hlen & Hsame & Hother).
    set (f' := blit _ _ _) in *.
    destruct (page_read_paged fd f' (Z.max n (pid + 1)) pid' d1 d2 (Some r)) as [_ [?|Hr']];
      [done| by rewrite Hc, lookup_insert_eq | split; [lia|done] | lia | done | done |].
    injection Hr' as ->. destruct (Z.eqb_spec pid' pid) as [->|]; [done|]. apply Hother; lia.
  - rewrite Hc. done.
Qed.

(** page_alloc appends one empty page: on success its id is the old page
    count, the file grows by exactly one page that is a well-formed empty page
    of the requested record size, the other pages keep their bytes, and the
    page count becomes one more; on failure INVALID_PAGE_ID is returned and no
    file changes. *)
Theorem page_alloc_appends fd rs f n d d1 id :
  0 <= fd -> 0 < rs <= 4080 -> d_files d !! fd = Some f -> paged f n ->
  n + 1 < 4294967296 -> page_alloc fd rs d = (d1, id) ->
  (id = INVALID_PAGE_ID /\ d_files d1 = d_files d) \/
  (id = n /\ page_get_count fd d1 = n + 1 /\
   exists f', d_files d1 = <[fd := f']> (d_files d) /\ paged f' (n + 1) /\
     file_page f' n = page_init_header n rs /\
     page_wf rs (file_page f' n) /\ page_slots (file_page f' n) = [] /\
     forall pid, 0 <= pid < n -> file_page f' pid = file_page f pid).
Proof.
  intros Hfd Hrs Hf Hpg Hn. unfold page_alloc.
  destruct (Z.ltb_spec fd 0); [lia|]. destruct (Z.eqb_spec rs 0); [lia|]. cbn [orb].
  rewrite (page_get_count_paged _ _ _ _ Hfd Hf Hpg).
  destruct (page_write fd n (page_init_header n rs) d) as [d' ok] eqn:Hw.
  pose proof (page_write_cases _ _ _ _ _ _ _ Hfd Hf Hw) as Hc.
  pose proof Hpg as [Hn0 Hl].
  destruct ok; intros [= <- <-]; [right|left; done]. cbn zeta in Hc.
  destruct (blit_page f n n (page_init_header n rs)) as (Hlen & Hsame & Hother);
    [done|lia|apply length_page_init|]. rewrite Z.max_r in Hlen by lia.
  set (f' := blit _ _ _) in *.
  assert (Hpg' : paged f' (n + 1)) by (split; [lia|done]).
  split; [done|]. split.
  { apply (page_get_count_paged _ f'); [done| by rewrite Hc, lookup_insert_eq | done]. }
  exists f'. rewrite Hsame. split; [done|]. split; [done|]. split; [done|].
  split; [by apply page_init_wf|]. split; [apply page_init_slots|].
  intros pid Hp. apply Hother; lia.
Qed.
End disk.

(** ** Concrete pages *)

Definition seat_page : bytes := page_init_header 7 SEAT_RECORD_SIZE.
Definition sample_record : bytes := le_enc 4 12 ++ zeros 28.
Definition seat_page1 : bytes := (page_insert_record seat_page sample_record).1.

Lemma seat_page_wf : page_wf 32 seat_page.
Proof. unfold seat_page, SEAT_RECORD_SIZE. apply page_init_wf. lia. Qed.

Lemma sample_record_ok : Forall byte_ok sample_record.
Proof. apply Forall_app. split; [apply le_enc_ok|apply zeros_ok]. Qed.

Lemma seat_page1_wf : page_wf 32 seat_page1 /\ h_record_count seat_page1 = 1.
Proof.
  destruct (page_insert_spec 32 seat_page sample_record) as (q & Hq & Hwf & _);
    [apply seat_page_wf|vm_compute; reflexivity|reflexivity|apply sample_record_ok|].
  unfold seat_page1. rewrite Hq. cbn [fst]. split; [done|].
  assert (Hc : h_record_count (page_insert_record seat_page sample_record).1 = 1) by (vm_compute; reflexivity).
  by rewrite Hq in Hc.
Qed.

Lemma page_insert_appends_witness :
  page_wf 32 seat_page /\
  if page_is_full seat_page then seat_page1 = seat_page /\ 0 = -1
  else 0 = h_record_count seat_page /\ page_wf 32 seat_page1 /\
       page_slots seat_page1 = page_slots seat_page ++ [sample_record] /\
       page_get_record seat_page1 0 = Some sample_record /\
       forall i, 0 <= i < 0 -> page_get_record seat_page1 i = page_get_record seat_page i.
Proof.
  split; [apply seat_page_wf|].
  apply (page_insert_appends 32 seat_page sample_record seat_page1 0).
  - apply seat_page_wf.
  - reflexivity.
  - apply sample_record_ok.
  - vm_compute. reflexivity.
Defined.

Lemma page_update_replaces_witness :
  if 0 <? h_record_count seat_page1
  then 0 = 0 /\ page_wf 32 (page_update_record seat_page1 0 (zeros 32)).1 /\
       page_slots (page_update_record seat_page1 0 (zeros 32)).1 =
         <[0%nat := zeros 32]> (page_slots seat_page1)
  else 0 = -1 /\ (page_update_record seat_page1 0 (zeros 32)).1 = seat_page1.
Proof.
  apply (page_update_replaces 32 seat_page1 0 (zeros 32) (page_update_record seat_page1 0 (zeros 32)).1 0).
  - apply seat_page1_wf.
  - lia.
  - reflexivity.
  - apply zeros_ok.
  - vm_compute. reflexivity.
Defined.

Lemma page_delete_not_soft_delete_witness :
  0 = 0 /\ page_wf 32 (page_delete_record seat_page1 0).1 /\
  page_get_record (page_delete_record seat_page1 0).1 0 = Some (wr 1 0 1 sample_record) /\
  is_record_deleted TABLE_SEATS (wr 1 0 1 sample_record) = is_record_deleted TABLE_SEATS sample_record.
Proof.
  apply (page_delete_not_soft_delete 32 seat_page1 0 sample_record (page_delete_record seat_page1 0).1 0 TABLE_SEATS).
  - apply seat_page1_wf.
  - rewrite (proj2 seat_page1_wf). lia.
  - vm_compute. reflexivity.
  - vm_compute. reflexivity.
  - reflexivity.
Defined.

(** One open, empty data file. *)
Definition empty_disk : disk := {| d_files := {[ 3 := [] ]}; d_faults := [] |}.
Definition disk1 : disk := (page_write 3 0 seat_page empty_disk).1.

Lemma empty_paged : paged [] 0.
Proof. split; [lia|reflexivity]. Qed.

Lemma page_write_read_witness :
  (forall fd', fd' <> 3 -> d_files disk1 !! fd' = d_files empty_disk !! fd') /\
  (true = false -> d_files disk1 = d_files empty_disk) /\
  (true = true -> forall pid' d2 r,
     0 <= pid' < Z.max 0 (0 + 1) -> page_read 3 pid' disk1 = (d2, Some r) ->
     r = if pid' =? 0 then seat_page else file_page [] pid').
Proof.
  apply (page_write_read 3 [] 0 0 seat_page empty_disk disk1 true).
  - lia.
  - reflexivity.
  - apply empty_paged.
  - lia.
  - lia.
  - apply (wf_length _ _ seat_page_wf).
  - vm_compute. reflexivity.
Defined.

Lemma page_alloc_appends_witness :
  (0 = INVALID_PAGE_ID /\ d_files (page_alloc 3 32 empty_disk).1 = d_files empty_disk) \/
  (0 = 0 /\ page_get_count 3 (page_alloc 3 32 empty_disk).1 = 0 + 1 /\
   exists f', d_files (page_alloc 3 32 empty_disk).1 = <[3 := f']> (d_files empty_disk) /\ paged f' (0 + 1) /\
     file_page f' 0 = page_init_header 0 32 /\
     page_wf 32 (file_page f' 0) /\ page_slots (file_page f' 0) = [] /\
     forall pid, 0 <= pid < 0 -> file_page f' pid = file_page [] pid).
Proof.
  apply (page_alloc_appends 3 32 [] 0 empty_disk (page_alloc 3 32 empty_disk).1 0).
  - lia.
  - lia.
  - reflexivity.
  - apply empty_paged.
  - lia.
  - vm_compute. reflexivity.
Defined.
