(* ===== verification/BTree.v ===== *)
(** * B+ tree index (server/storage/btree.c)

    The nodes of the tree own their children, so the tree is an inductive
    value updated functionally where the code updates nodes in place.  The one
    aliased pointer is a leaf's [next]: leaves carry the address they were
    allocated at, [next] holds an address, and following or writing through a
    leaf pointer goes through [leaf_at]/[set_leaf].  Only the used prefix of
    the key, value and child arrays is kept; [node_fits] states that the
    prefix stays inside the allocated capacity.

    The abstract view is [bt_map], the finite map from keys to record
    pointers, and [flat], the bindings in key order. *)

From stdpp Require Import base tactics numbers list gmap sorting.
From Stdlib Require Import ZArith Lia.
From S2P Require Import Prelude Types.

#[local] Open Scope Z_scope.

(** ** Nodes *)

Record leaf := MkLeaf {
  l_addr : Z;
  l_keys : list Z;
  l_values : list record_ptr;
  l_next : option Z }.

Inductive node :=
  | NLeaf (l : leaf)
  | NInternal (keys : list Z) (children : list node).

Record btree := BTree {
  bt_root : node;
  bt_order : nat;
  bt_size : Z;
  bt_dirty : bool;
  bt_fresh : Z }.

Definition node_keys (n : node) : list Z :=
  match n with NLeaf l => l_keys l | NInternal ks _ => ks end.

(** The leaves from left to right. *)
Fixpoint leaves (n : node) : list leaf :=
  match n with
  | NLeaf l => [l]
  | NInternal _ cs => concat (map leaves cs)
  end.

(** ** Binary search *)

(** The loop of key_lower_bound; one unit of fuel per iteration. *)
Fixpoint lower_bound_loop (fuel : nat) (keys : list Z) (target : Z) (lo hi : nat) : nat :=
  match fuel with
  | O => lo
  | S fuel' =>
      if (lo <? hi)%nat then
        let mid := ((lo + hi) / 2)%nat in
        if default 0 (keys !! mid) <? target
        then lower_bound_loop fuel' keys target (mid + 1)%nat hi
        else lower_bound_loop fuel' keys target lo mid
      else lo
  end.

Definition key_lower_bound (keys : list Z) (target : Z) : nat :=
  lower_bound_loop (S (length keys)) keys target 0 (length keys).

Definition key_at (keys : list Z) (pos : nat) (key : Z) : bool :=
  (pos <? length keys)%nat && (default 0 (keys !! pos) =? key).

Definition key_find_exact (keys : list Z) (key : Z) : option nat :=
  let pos := key_lower_bound keys key in
  if key_at keys pos key then Some pos else None.

(** The child an internal node descends into. *)
Definition child_index (keys : list Z) (key : Z) : nat :=
  let i := key_lower_bound keys key in
  if key_at keys i key then S i else i.

(** ** Descent *)

(** [None] would be a read outside the child array. *)
Fixpoint find_leaf (n : node) (key : Z) : option leaf :=
  match n with
  | NLeaf l => Some l
  | NInternal ks cs =>
      (fix descend (cs : list node) (i : nat) : option leaf :=
         match cs, i with
         | c :: _, O => find_leaf c key
         | _ :: cs', S j => descend cs' j
         | [], _ => None
         end) cs (child_index ks key)
  end.

(** ** Splits *)

Inductive split_result :=
  | InsError                                      (* *error = -1 *)
  | InsStuck                                      (* child array overrun *)
  | NoSplit (n : node)
  | DidSplit (n : node) (promoted_key : Z) (new_node : node).

Definition insert_at {A} (pos : nat) (x : A) (l : list A) : list A :=
  take pos l ++ x :: drop pos l.

Definition split_leaf (fresh : Z) (l : leaf) : split_result :=
  let total := length (l_keys l) in
  let mid := (total / 2)%nat in
  let new_leaf := {| l_addr := fresh; l_keys := drop mid (l_keys l);
                     l_values := drop mid (l_values l); l_next := l_next l |} in
  let old_leaf := {| l_addr := l_addr l; l_keys := take mid (l_keys l);
                     l_values := take mid (l_values l); l_next := Some fresh |} in
  DidSplit (NLeaf old_leaf) (default 0 (l_keys new_leaf !! 0%nat)) (NLeaf new_leaf).

Definition split_internal (ks : list Z) (cs : list node) : split_result :=
  let total := length ks in
  let mid := (total / 2)%nat in
  DidSplit (NInternal (take mid ks) (take (S mid) cs))
           (default 0 (ks !! mid))
           (NInternal (drop (S mid) ks) (drop (S mid) cs)).

(** ** Insertion *)

Definition leaf_insert (order : nat) (fresh : Z) (key : Z) (value : record_ptr)
    (l : leaf) : split_result :=
  let pos := key_lower_bound (l_keys l) key in
  if key_at (l_keys l) pos key then InsError
  else
    let l' := {| l_addr := l_addr l; l_keys := insert_at pos key (l_keys l);
                 l_values := insert_at pos value (l_values l); l_next := l_next l |} in
    if (order - 1 <=? length (l_keys l'))%nat then split_leaf fresh l'
    else NoSplit (NLeaf l').

(** What insert_recursive does with its child's result at child [i]. *)
Definition internal_insert (order : nat) (ks : list Z) (cs : list node) (i : nat)
    (r : split_result) : split_result :=
  match r with
  | InsError => InsError
  | InsStuck => InsStuck
  | NoSplit c' => NoSplit (NInternal ks (<[i := c']> cs))
  | DidSplit c' promoted new_node =>
      let cs1 := <[i := c']> cs in
      let pos := key_lower_bound ks promoted in
      let ks' := insert_at pos promoted ks in
      let cs' := insert_at (S pos) new_node cs1 in
      if (order - 1 <=? length ks')%nat then split_internal ks' cs'
      else NoSplit (NInternal ks' cs')
  end.

Fixpoint insert_recursive (order : nat) (fresh : Z) (key : Z) (value : record_ptr)
    (n : node) : split_result :=
  match n with
  | NLeaf l => leaf_insert order fresh key value l
  | NInternal ks cs =>
      let i := child_index ks key in
      internal_insert order ks cs i
        ((fix descend (cs : list node) (j : nat) : split_result :=
            match cs, j with
            | c :: _, O => insert_recursive order fresh key value c
            | _ :: cs', S j' => descend cs' j'
            | [], _ => InsStuck
            end) cs i)
  end.

(** ** Public operations *)

Definition btree_create (order : nat) : option btree :=
  if (order <? 3)%nat then None
  else Some {| bt_root := NLeaf {| l_addr := 0; l_keys := []; l_values := []; l_next := None |};
               bt_order := order; bt_size := 0; bt_dirty := true; bt_fresh := 1 |}.

Definition btree_insert (t : btree) (key : Z) (value : record_ptr) : btree * Z :=
  let done root :=
    {| bt_root := root; bt_order := bt_order t; bt_size := u32 (bt_size t + 1);
       bt_dirty := true; bt_fresh := bt_fresh t + 1 |} in
  match insert_recursive (bt_order t) (bt_fresh t) key value (bt_root t) with
  | InsError | InsStuck => (t, -1)
  | NoSplit root => (done root, 0)
  | DidSplit root promoted new_node =>
      (done (NInternal [promoted] [root; new_node]), 0)
  end.

Definition btree_search (t : btree) (key : Z) : option record_ptr :=
  match find_leaf (bt_root t) key with
  | None => None
  | Some l =>
      match key_find_exact (l_keys l) key with
      | None => None
      | Some pos => l_values l !! pos
      end
  end.

(** Writing through a leaf pointer. *)
Fixpoint set_leaf (a : Z) (l' : leaf) (n : node) : node :=
  match n with
  | NLeaf l => if l_addr l =? a then NLeaf l' else NLeaf l
  | NInternal ks cs => NInternal ks (map (set_leaf a l') cs)
  end.

Definition remove_at {A} (pos : nat) (l : list A) : list A :=
  take pos l ++ drop (S pos) l.

Definition btree_delete (t : btree) (key : Z) : btree * Z :=
  match find_leaf (bt_root t) key with
  | None => (t, -1)
  | Some l =>
      match key_find_exact (l_keys l) key with
      | None => (t, -1)
      | Some pos =>
          let l' := {| l_addr := l_addr l; l_keys := remove_at pos (l_keys l);
                       l_values := remove_at pos (l_values l); l_next := l_next l |} in
          ({| bt_root := set_leaf (l_addr l) l' (bt_root t); bt_order := bt_order t;
              bt_size := u32 (bt_size t - 1); bt_dirty := true; bt_fresh := bt_fresh t |}, 0)
      end
  end.

Definition btree_update (t : btree) (key : Z) (new_value : record_ptr) : btree * Z :=
  match find_leaf (bt_root t) key with
  | None => (t, -1)
  | Some l =>
      match key_find_exact (l_keys l) key with
      | None => (t, -1)
      | Some pos =>
          let l' := {| l_addr := l_addr l; l_keys := l_keys l;
                       l_values := <[pos := new_value]> (l_values l); l_next := l_next l |} in
          ({| bt_root := set_leaf (l_addr l) l' (bt_root t); bt_order := bt_order t;
              bt_size := bt_size t; bt_dirty := true; bt_fresh := bt_fresh t |}, 0)
      end
  end.

Definition btree_size (t : btree) : Z := bt_size t.

(** ** Range scan *)

(** Dereferencing a leaf pointer. *)
Definition leaf_at (n : node) (a : Z) : option leaf :=
  head (filter (fun l => l_addr l = a) (leaves n)).

(** The inner loop over one leaf.  [inr] is the early return past [high]. *)
Fixpoint scan_leaf (low high : Z) (max : nat) (kvs : list (Z * record_ptr))
    (results : list record_ptr) : list record_ptr + list record_ptr :=
  match kvs with
  | [] => inl results
  | (k, v) :: kvs' =>
      if (length results <? max)%nat then
        if high <? k then inr results
        else if low <=? k then scan_leaf low high max kvs' (results ++ [v])
        else scan_leaf low high max kvs' results
      else inl results
  end.

(** The outer loop along the leaf chain; one unit of fuel per leaf visited.
    [None] is fuel exhaustion or a dangling [next]. *)
Fixpoint scan_chain (fuel : nat) (root : node) (low high : Z) (max : nat)
    (cur : option leaf) (results : list record_ptr) : option (list record_ptr) :=
  match cur with
  | None => Some results
  | Some l =>
      if (length results <? max)%nat then
        match fuel with
        | O => None
        | S fuel' =>
            match scan_leaf low high max (zip (l_keys l) (l_values l)) results with
            | inr r => Some r
            | inl r =>
                match l_next l with
                | None => Some r
                | Some a =>
                    match leaf_at root a with
                    | None => None
                    | Some l' => scan_chain fuel' root low high max (Some l') r
                    end
                end
            end
        end
      else Some results
  end.

Definition btree_range_scan (t : btree) (low high : Z) (max_results : Z)
    : option (list record_ptr) :=
  if max_results <=? 0 then Some []
  else if high <? low then Some []
  else scan_chain (length (leaves (bt_root t))) (bt_root t) low high
         (Z.to_nat max_results) (find_leaf (bt_root t) low) [].

(** ** Abstraction and invariant *)

Definition leaf_bindings (l : leaf) : list (Z * record_ptr) := zip (l_keys l) (l_values l).

(** All bindings in key order. *)
Definition flat (n : node) : list (Z * record_ptr) := concat (map leaf_bindings (leaves n)).

Definition bt_map (t : btree) : gmap Z record_ptr := list_to_map (flat (bt_root t)).

(** Consecutive leaves are linked by [next]; the last one's is [nx]. *)
Fixpoint linked (ls : list leaf) (nx : option Z) : Prop :=
  match ls with
  | [] => True
  | l :: ls' =>
      l_next l = match ls' with [] => nx | l2 :: _ => Some (l_addr l2) end /\ linked ls' nx
  end.

Definition leaf_wf (order : nat) (lo hi : Z) (l : leaf) : Prop :=
  length (l_values l) = length (l_keys l) /\ StronglySorted Z.lt (l_keys l) /\
  Forall (fun k => lo <= k < hi) (l_keys l) /\ (length (l_keys l) <= order - 2)%nat.

(** [node_wf order h lo hi n]: all leaves at depth [h], keys sorted, and every
    key of a subtree between the separators around it. *)
Inductive node_wf (order : nat) : nat -> Z -> Z -> node -> Prop :=
  | wf_leaf lo hi l : leaf_wf order lo hi l -> node_wf order 0 lo hi (NLeaf l)
  | wf_internal h lo hi ks cs :
      (length ks <= order - 2)%nat -> children_wf order h lo ks cs hi ->
      node_wf order (S h) lo hi (NInternal ks cs)
with children_wf (order : nat) : nat -> Z -> list Z -> list node -> Z -> Prop :=
  | wf_last h lo hi c : node_wf order h lo hi c -> children_wf order h lo [] [c] hi
  | wf_cons h lo hi k ks c cs :
      lo < k < hi -> node_wf order h lo k c -> children_wf order h k ks cs hi ->
      children_wf order h lo (k :: ks) (c :: cs) hi.

(** Keys are [uint32_t]; [lo = -1] keeps separators above the lower bound. *)
Record btree_wf (t : btree) : Prop := BtreeWf {
  bw_order : (3 <= bt_order t)%nat;
  bw_node : exists h, node_wf (bt_order t) h (-1) 4294967296 (bt_root t);
  bw_linked : linked (leaves (bt_root t)) None;
  bw_addrs : NoDup (map l_addr (leaves (bt_root t)));
  bw_fresh : Forall (fun l => l_addr l < bt_fresh t) (leaves (bt_root t));
  bw_size : bt_size t = u32 (Z.of_nat (length (flat (bt_root t)))) }.

(** ** Binary search is correct *)

Lemma sorted_app_lt (l1 l2 : list Z) x y :
  StronglySorted Z.lt (l1 ++ l2) -> x ∈ l1 -> y ∈ l2 -> x < y.
Proof.
  induction l1 as [|z l1 IH]; cbn; intros Hs Hx Hy; [by apply elem_of_nil in Hx|].
  apply StronglySorted_inv in Hs as [Hs Hf].
  apply elem_of_cons in Hx as [->|Hx]; [|by apply IH].
  rewrite Forall_forall in Hf. apply Hf. apply elem_of_app. by right.
Qed.

Lemma sorted_lookup_lt (keys : list Z) i j x y :
  StronglySorted Z.lt keys -> keys !! i = Some x -> keys !! j = Some y -> (i < j)%nat -> x < y.
Proof.
  intros Hs Hi Hj Hij. rewrite <- (take_drop j keys) in Hs.
  eapply sorted_app_lt; [exact Hs|..].
  - apply list_elem_of_lookup. exists i. by rewrite lookup_take_lt.
  - apply list_elem_of_lookup. exists 0%nat. by rewrite lookup_drop, Nat.add_0_r.
Qed.

(** Everything before position [r] is below [t], everything from [r] on is not. *)
Definition lower_at (keys : list Z) (t : Z) (r : nat) : Prop :=
  (forall j x, (j < r)%nat -> keys !! j = Some x -> x < t) /\
  (forall j x, (r <= j)%nat -> keys !! j = Some x -> t <= x).

Lemma lower_bound_loop_spec fuel keys t lo hi :
  StronglySorted Z.lt keys -> (lo <= hi <= length keys)%nat -> (hi - lo < fuel)%nat ->
  (forall j x, (j < lo)%nat -> keys !! j = Some x -> x < t) ->
  (forall j x, (hi <= j)%nat -> keys !! j = Some x -> t <= x) ->
  (lower_bound_loop fuel keys t lo hi <= length keys)%nat /\
  lower_at keys t (lower_bound_loop fuel keys t lo hi).
Proof.
  intros Hs. revert lo hi. induction fuel as [|fuel IH]; intros lo hi Hlh Hf Hlo Hhi; [lia|].
  cbn [lower_bound_loop]. destruct (Nat.ltb_spec lo hi) as [Hlt|].
  - assert (Hm : (lo <= (lo + hi) / 2 < hi)%nat).
    { split; [apply Nat.div_le_lower_bound; lia | apply Nat.Div0.div_lt_upper_bound; lia]. }
    set (mid := ((lo + hi) / 2)%nat) in *.
    destruct (lookup_lt_is_Some_2 keys mid) as [km Hkm]; [lia|].
    cbn zeta. fold mid. rewrite Hkm.
    change (default 0 (Some km)) with km.
    destruct (Z.ltb_spec km t).
    + apply IH; try lia; [|done]. intros j x Hj Hx.
      destruct (decide (j = mid)) as [->|]; [congruence|].
      transitivity km; [|done]. apply (sorted_lookup_lt keys j mid); [done..|lia].
    + apply IH; try lia; [done|]. intros j x Hj Hx.
      destruct (decide (j = mid)) as [->|]; [congruence|].
      enough (km < x) by lia. apply (sorted_lookup_lt keys mid j); [done..|lia].
  - split; [lia|]. split; intros j x ??; [apply (Hlo j) | apply (Hhi j)]; try done; lia.
Qed.

Lemma key_lower_bound_spec keys t :
  StronglySorted Z.lt keys ->
  (key_lower_bound keys t <= length keys)%nat /\ lower_at keys t (key_lower_bound keys t).
Proof.
  intros. apply lower_bound_loop_spec; [done|lia|lia|intros; lia|].
  intros j x ? Hx. apply lookup_lt_Some in Hx. lia.
Qed.

(** The loop computes the only split point there is. *)
Lemma key_lower_bound_app l1 l2 t :
  StronglySorted Z.lt (l1 ++ l2) -> Forall (fun k => k < t) l1 -> Forall (fun k => t <= k) l2 ->
  key_lower_bound (l1 ++ l2) t = length l1.
Proof.
  intros Hs H1 H2. destruct (key_lower_bound_spec _ t Hs) as [Hle [Hlo Hhi]].
  set (r := key_lower_bound _ _) in *. rewrite length_app in Hle.
  rewrite Forall_forall in H1, H2.
  destruct (lt_eq_lt_dec r (length l1)) as [[Hlt|]|Hgt]; [|done|]; exfalso.
  - destruct (lookup_lt_is_Some_2 l1 r Hlt) as [x Hx].
    assert (t <= x) by (apply (Hhi r); [lia| by apply lookup_app_l_Some]).
    assert (x < t) by (apply H1; apply list_elem_of_lookup; eauto). lia.
  - destruct (lookup_lt_is_Some_2 l2 0) as [x Hx]; [lia|].
    assert (x < t).
    { apply (Hlo (length l1)); [lia|]. rewrite lookup_app_r by lia. by rewrite Nat.sub_diag. }
    assert (t <= x) by (apply H2; apply list_elem_of_lookup; eauto). lia.
Qed.

Lemma lower_bound_split keys t :
  StronglySorted Z.lt keys ->
  exists l1 l2, keys = l1 ++ l2 /\ key_lower_bound keys t = length l1 /\
    Forall (fun k => k < t) l1 /\ Forall (fun k => t <= k) l2.
Proof.
  intros Hs. destruct (key_lower_bound_spec _ t Hs) as [Hle [Hlo Hhi]].
  set (r := key_lower_bound _ _) in *.
  exists (take r keys), (drop r keys). rewrite take_drop. split; [done|].
  split; [rewrite length_take; lia|]. split; apply Forall_lookup; intros i x Hx.
  - apply lookup_take_Some in Hx as [??]. by apply (Hlo i).
  - rewrite lookup_drop in Hx. apply (Hhi (r + i)%nat); [lia|done].
Qed.

Lemma key_at_app l1 l2 key :
  Forall (fun k => key <= k) l2 -> StronglySorted Z.lt (l1 ++ l2) ->
  (key_at (l1 ++ l2) (length l1) key = true /\ exists l3, l2 = key :: l3) \/
  (key_at (l1 ++ l2) (length l1) key = false /\ Forall (fun k => key < k) l2).
Proof.
  intros H2 Hs. unfold key_at. rewrite length_app, lookup_app_r, Nat.sub_diag by lia.
  destruct l2 as [|x l2].
  - right. split; [|done]. apply andb_false_intro1, Nat.ltb_ge. cbn. lia.
  - replace (length l1 <? _)%nat with true by (symmetry; apply Nat.ltb_lt; cbn; lia). cbn.
    apply Forall_cons in H2 as [Hx H2]. destruct (Z.eqb_spec x key) as [->|Hne].
    + left. split; [done|]. eauto.
    + right. split; [done|]. constructor; [lia|]. apply Forall_forall. intros y Hy.
      enough (x < y) by lia. apply (sorted_app_lt (l1 ++ [x]) l2); [by rewrite <- app_assoc| |done].
      set_solver.
Qed.

Lemma child_index_app ks1 ks2 key :
  StronglySorted Z.lt (ks1 ++ ks2) ->
  Forall (fun k => k <= key) ks1 -> Forall (fun k => key < k) ks2 ->
  child_index (ks1 ++ ks2) key = length ks1.
Proof.
  intros Hs H1 H2. unfold child_index.
  destruct (lower_bound_split _ key Hs) as (l1 & l2 & Heq & Hr & Hl1 & Hl2). rewrite Hr, Heq.
  rewrite Heq in Hs. destruct (key_at_app l1 l2 key Hl2 Hs) as [[-> [l3 ->]]|[-> Hl2']].
  - replace (l1 ++ key :: l3) with ((l1 ++ [key]) ++ l3) in Heq, Hs by by rewrite <- app_assoc.
    enough (ks1 = l1 ++ [key]) as -> by (rewrite length_app; cbn; lia).
    assert (H3 : Forall (fun k => key < k) l3).
    { apply Forall_forall. intros y Hy. eapply sorted_app_lt; [exact Hs| |done]. set_solver. }
    apply (app_inj_pivot_le key ks1 ks2 (l1 ++ [key]) l3); try done.
    apply Forall_app. split; [|by repeat constructor].
    eapply Forall_impl; [exact Hl1|]. cbn. lia.
  - apply (f_equal length). apply (app_inj_pivot_le key l1 l2 ks1 ks2); try done.
    eapply Forall_impl; [exact Hl1|]. cbn. lia.
Qed.

(** ** Structure of well-formed trees *)

Scheme node_wf_mut := Minimality for node_wf Sort Prop
  with children_wf_mut := Minimality for children_wf Sort Prop.
Combined Scheme tree_wf_mut from node_wf_mut, children_wf_mut.

(** Induction over nodes through their child lists. *)
Fixpoint node_ind' (P : node -> Prop) (Hl : forall l, P (NLeaf l))
    (Hi : forall ks cs, Forall P cs -> P (NInternal ks cs)) (n : node) : P n :=
  match n with
  | NLeaf l => Hl l
  | NInternal ks cs =>
      Hi ks cs ((fix go (cs : list node) : Forall P cs :=
                   match cs with
                   | [] => Forall_nil_2 P
                   | c :: cs' => Forall_cons_2 P c cs' (node_ind' P Hl Hi c) (go cs')
                   end) cs)
  end.

Lemma find_leaf_internal ks cs key :
  find_leaf (NInternal ks cs) key =
    match cs !! child_index ks key with Some c => find_leaf c key | None => None end.
Proof.
  cbn. generalize (child_index ks key) as i. induction cs as [|c cs IH]; intros [|i]; cbn; auto.
Qed.

Lemma insert_recursive_internal order fresh key value ks cs :
  insert_recursive order fresh key value (NInternal ks cs) =
    let i := child_index ks key in
    internal_insert order ks cs i
      match cs !! i with
      | Some c => insert_recursive order fresh key value c
      | None => InsStuck
      end.
Proof.
  cbn. f_equal. generalize (child_index ks key) as i.
  induction cs as [|c cs IH]; intros [|i]; cbn; auto.
Qed.

Lemma flat_leaf l : flat (NLeaf l) = leaf_bindings l.
Proof. unfold flat. cbn. by rewrite app_nil_r. Qed.

Lemma flat_internal ks cs : flat (NInternal ks cs) = concat (map flat cs).
Proof.
  unfold flat. cbn. induction cs as [|c cs IH]; cbn; [done|].
  by rewrite map_app, concat_app, IH.
Qed.

Lemma leaves_internal ks cs : leaves (NInternal ks cs) = concat (map leaves cs).
Proof. done. Qed.

Lemma concat_map_middle {A B} (f : A -> list B) l1 x l2 :
  concat (map f (l1 ++ x :: l2)) = concat (map f l1) ++ f x ++ concat (map f l2).
Proof. by rewrite map_app, concat_app. Qed.


(** Bindings of a subtree lie within its bounds. *)
Lemma flat_bounds order :
  (forall h lo hi n, node_wf order h lo hi n -> Forall (fun kv => lo <= kv.1 < hi) (flat n)) /\
  (forall h lo ks cs hi, children_wf order h lo ks cs hi ->
     Forall (fun kv => lo <= kv.1 < hi) (concat (map flat cs))).
Proof.
  apply tree_wf_mut.
  - intros lo hi l (Hlen & _ & Hb & _). rewrite flat_leaf. unfold leaf_bindings.
    apply Forall_forall. intros [k v] Hin. apply elem_of_zip_l in Hin.
    rewrite Forall_forall in Hb. by apply Hb.
  - intros h lo hi ks cs _ _ IH. by rewrite flat_internal.
  - intros h lo hi c _ IH. cbn. by rewrite app_nil_r.
  - intros h lo hi k ks c cs Hk _ IHc _ IHcs. cbn. apply Forall_app. split.
    + eapply Forall_impl; [exact IHc|]. cbn. lia.
    + eapply Forall_impl; [exact IHcs|]. cbn. lia.
Qed.

Lemma sorted_app (l1 l2 : list Z) :
  StronglySorted Z.lt l1 -> StronglySorted Z.lt l2 ->
  (forall x y, x ∈ l1 -> y ∈ l2 -> x < y) -> StronglySorted Z.lt (l1 ++ l2).
Proof.
  induction 1 as [|x l1 Hs IH Hf]; intros H2 Hlt; [done|]. cbn. constructor.
  - apply IH; [done|]. intros. apply Hlt; [by right|done].
  - apply Forall_app. split; [done|]. apply Forall_forall. intros y Hy. apply Hlt; [left|done].
Qed.

Lemma sorted_app_inv (l1 l2 : list Z) :
  StronglySorted Z.lt (l1 ++ l2) -> StronglySorted Z.lt l1 /\ StronglySorted Z.lt l2.
Proof.
  induction l1 as [|x l1 IH]; cbn; intros Hs; [by repeat constructor|].
  apply StronglySorted_inv in Hs as [Hs Hf]. destruct (IH Hs). apply Forall_app in Hf as [? _].
  split; [by constructor|done].
Qed.

Lemma flat_sorted order :
  (forall h lo hi n, node_wf order h lo hi n -> StronglySorted Z.lt (map fst (flat n))) /\
  (forall h lo ks cs hi, children_wf order h lo ks cs hi ->
     StronglySorted Z.lt (map fst (concat (map flat cs)))).
Proof.
  apply tree_wf_mut.
  - intros lo hi l (Hlen & Hs & _). rewrite flat_leaf. unfold leaf_bindings.
    change (map fst (zip (l_keys l) (l_values l))) with (fst <$> zip (l_keys l) (l_values l)).
    rewrite fst_zip by lia. done.
  - intros h lo hi ks cs _ _ IH. by rewrite flat_internal.
  - intros h lo hi c _ IH. cbn. by rewrite app_nil_r.
  - intros h lo hi k ks c cs Hk Hc IHc Hcs IHcs. cbn. rewrite map_app. apply sorted_app; [done..|].
    intros x y Hx Hy. apply list_elem_of_fmap in Hx as ([? ?] & -> & Hx).
    apply list_elem_of_fmap in Hy as ([? ?] & -> & Hy).
    apply (proj1 (flat_bounds order)) in Hc. apply (proj2 (flat_bounds order)) in Hcs.
    rewrite Forall_forall in Hc, Hcs. apply Hc in Hx. apply Hcs in Hy. cbn in *. lia.
Qed.

Lemma children_wf_keys order h lo ks cs hi :
  children_wf order h lo ks cs hi ->
  StronglySorted Z.lt ks /\ Forall (fun k => lo < k < hi) ks /\ length cs = S (length ks).
Proof.
  induction 1 as [|h lo hi k ks c cs Hk Hc Hcs (IHs & IHf & IHl)]; [by repeat constructor|].
  split; [|split; [|cbn; lia]].
  - constructor; [done|]. eapply Forall_impl; [exact IHf|]. cbn. lia.
  - constructor; [done|]. eapply Forall_impl; [exact IHf|]. cbn. lia.
Qed.

(** The child a key descends into, with the context around it: replacing the
    child, or replacing it by two halves with a separator, keeps the node
    well formed. *)
Lemma children_wf_focus order h lo ks cs hi key :
  children_wf order h lo ks cs hi -> lo <= key < hi ->
  exists ks1 ks2 cs1 c cs2 lo' hi',
    ks = ks1 ++ ks2 /\ cs = cs1 ++ c :: cs2 /\ length cs1 = length ks1 /\
    lo' <= key < hi' /\ lo <= lo' /\ hi' <= hi /\ node_wf order h lo' hi' c /\
    Forall (fun k => k <= lo') ks1 /\ Forall (fun k => hi' <= k) ks2 /\
    Forall (fun kv => kv.1 < lo') (concat (map flat cs1)) /\
    Forall (fun kv => hi' <= kv.1) (concat (map flat cs2)) /\
    (forall c', node_wf order h lo' hi' c' ->
       children_wf order h lo ks (cs1 ++ c' :: cs2) hi) /\
    (forall c' k r, lo' < k < hi' -> node_wf order h lo' k c' -> node_wf order h k hi' r ->
       children_wf order h lo (ks1 ++ k :: ks2) (cs1 ++ c' :: r :: cs2) hi).
Proof.
  induction 1 as [h lo hi c Hc|h lo hi k ks c cs Hk Hc Hcs IH]; intros Hkey.
  - exists [], [], [], c, [], lo, hi. cbn. repeat (split; [first [done|lia]|]).
    split; [intros; by constructor|].
    intros. constructor; [done|done|by constructor].
  - destruct (Z.lt_ge_cases key k).
    + exists [], (k :: ks), [], c, cs, lo, k. cbn.
      destruct (children_wf_keys _ _ _ _ _ _ Hcs) as (_ & Hf & _).
      pose proof (proj2 (flat_bounds order) _ _ _ _ _ Hcs) as Hfb.
      repeat (split; [first [done|lia]|]).
      split; [constructor; [lia|]; eapply Forall_impl; [exact Hf|]; cbn; lia|].
      split; [done|]. split; [eapply Forall_impl; [exact Hfb|]; cbn; lia|].
      split; [intros; by constructor|]. intros. constructor; [lia|done|]. constructor; [lia|done|done].
    + destruct IH as (ks1 & ks2 & cs1 & c1 & cs2 & lo' & hi' & -> & -> & Hl & ? & ? & ? & ? & Hk1 & Hk2
        & Hc1 & Hc2 & Hplug & Hsplit); [lia|].
      exists (k :: ks1), ks2, (c :: cs1), c1, cs2, lo', hi'. cbn.
      pose proof (proj1 (flat_bounds order) _ _ _ _ Hc) as Hfb.
      repeat (split; [first [done|lia|congruence]|]).
      split; [constructor; [lia|done]|]. split; [done|].
      split; [apply Forall_app; split; [eapply Forall_impl; [exact Hfb|]; cbn; lia|done]|].
      split; [done|]. split; intros; constructor; auto.
Qed.

(** Cutting a node's children at separator [mid]. *)
Lemma children_wf_cut order h lo ks cs hi mid km :
  children_wf order h lo ks cs hi -> ks !! mid = Some km ->
  lo < km < hi /\ children_wf order h lo (take mid ks) (take (S mid) cs) km /\
  children_wf order h km (drop (S mid) ks) (drop (S mid) cs) hi.
Proof.
  intros Hw. revert mid. induction Hw as [|h lo hi k ks c cs Hk Hc Hcs IH]; intros mid Hkm.
  - by rewrite lookup_nil in Hkm.
  - destruct mid as [|mid]; cbn in Hkm.
    + injection Hkm as <-. cbn. rewrite take_0, !drop_0. split; [done|]. split; [by constructor|done].
    + destruct (IH mid Hkm) as (? & ? & ?). split; [lia|]. cbn.
      split; [constructor; [lia|done|done]|done].
Qed.

(** ** Insertion *)

(** [l'] is [l] with the new binding at its place in key order. *)
Definition ins_rel (key : Z) (value : record_ptr) (l l' : list (Z * record_ptr)) : Prop :=
  exists l1 l2, l = l1 ++ l2 /\ l' = l1 ++ (key, value) :: l2 /\
    Forall (fun kv => kv.1 < key) l1 /\ Forall (fun kv => key < kv.1) l2.

(** The leaf chain after an insertion: one leaf rewritten, perhaps with a
    fresh leaf linked in behind it. *)
Definition leaf_step (fresh : Z) (L R : list leaf) : Prop :=
  exists L1 l L2 l', L = L1 ++ l :: L2 /\ l_addr l' = l_addr l /\
    ((R = L1 ++ l' :: L2 /\ l_next l' = l_next l) \/
     (exists r, R = L1 ++ l' :: r :: L2 /\ l_next l' = Some fresh /\
        l_addr r = fresh /\ l_next r = l_next l)).

Lemma ins_rel_ctx key value l l' A B :
  Forall (fun kv => kv.1 < key) A -> Forall (fun kv => key < kv.1) B ->
  ins_rel key value l l' -> ins_rel key value (A ++ l ++ B) (A ++ l' ++ B).
Proof.
  intros HA HB (l1 & l2 & -> & -> & H1 & H2). exists (A ++ l1), (l2 ++ B).
  rewrite <- !app_assoc. cbn. rewrite !Forall_app. done.
Qed.

Lemma leaf_step_ctx fresh L R A B :
  leaf_step fresh L R -> leaf_step fresh (A ++ L ++ B) (A ++ R ++ B).
Proof.
  intros (L1 & l & L2 & l' & -> & Ha & HR). exists (A ++ L1), l, (L2 ++ B), l'.
  rewrite <- !app_assoc. cbn. split; [done|]. split; [done|].
  destruct HR as [[-> ?]|(r & -> & ?)]; [left | right; exists r];
    rewrite <- !app_assoc; cbn; done.
Qed.

Definition ins_post (order h : nat) (lo hi fresh key : Z) (value : record_ptr) (n : node)
    (r : split_result) : Prop :=
  match r with
  | InsError => exists v, (key, v) ∈ flat n
  | InsStuck => False
  | NoSplit n' =>
      node_wf order h lo hi n' /\ ins_rel key value (flat n) (flat n') /\
      leaf_step fresh (leaves n) (leaves n')
  | DidSplit n' k m =>
      lo < k < hi /\ node_wf order h lo k n' /\ node_wf order h k hi m /\
      ins_rel key value (flat n) (flat n' ++ flat m) /\
      leaf_step fresh (leaves n) (leaves n' ++ leaves m)
  end.

Lemma insert_at_app {A} (l1 l2 : list A) x pos :
  pos = length l1 -> insert_at pos x (l1 ++ l2) = l1 ++ x :: l2.
Proof. intros ->. unfold insert_at. by rewrite take_app_length, drop_app_length. Qed.

Lemma length_insert_at {A} pos (x : A) l : length (insert_at pos x l) = S (length l).
Proof.
  unfold insert_at. rewrite length_app. cbn. rewrite length_take, length_drop. lia.
Qed.

(** Halving a sorted run of at least two keys. *)
Lemma split_point (lo hi : Z) (keys : list Z) :
  StronglySorted Z.lt keys -> Forall (fun k => lo <= k < hi) keys -> (2 <= length keys)%nat ->
  exists km, keys !! (length keys / 2)%nat = Some km /\ lo < km < hi /\
    Forall (fun k => lo <= k < km) (take (length keys / 2) keys) /\
    Forall (fun k => km <= k < hi) (drop (length keys / 2) keys) /\
    (1 <= length keys / 2 < length keys)%nat.
Proof.
  intros Hs Hb Hlen. set (mid := (length keys / 2)%nat).
  assert (Hm : (1 <= mid < length keys)%nat).
  { unfold mid. split; [apply Nat.div_le_lower_bound; lia|apply Nat.Div0.div_lt_upper_bound; lia]. }
  destruct (lookup_lt_is_Some_2 keys mid) as [km Hkm]; [lia|].
  destruct (lookup_lt_is_Some_2 keys 0) as [k0 Hk0]; [lia|].
  pose proof (sorted_lookup_lt keys 0 mid k0 km Hs Hk0 Hkm ltac:(lia)).
  rewrite Forall_lookup in Hb. pose proof (Hb _ _ Hkm). pose proof (Hb _ _ Hk0).
  exists km. split; [done|]. split; [lia|]. split; [|split; [|done]]; apply Forall_lookup.
  - intros i x Hx. apply lookup_take_Some in Hx as [Hx Hi]. pose proof (Hb _ _ Hx).
    pose proof (sorted_lookup_lt keys i mid x km Hs Hx Hkm Hi). lia.
  - intros i x Hx. rewrite lookup_drop in Hx. pose proof (Hb _ _ Hx).
    destruct i as [|i]; [rewrite Nat.add_0_r in Hx; simplify_eq; lia|].
    pose proof (sorted_lookup_lt keys mid _ km x Hs Hkm Hx ltac:(lia)). lia.
Qed.

Section insert.
Context (order : nat) (Horder : (3 <= order)%nat) (fresh key : Z) (value : record_ptr).

Lemma split_leaf_post lo hi l :
  length (l_values l) = length (l_keys l) -> StronglySorted Z.lt (l_keys l) ->
  Forall (fun k => lo <= k < hi) (l_keys l) -> (2 <= length (l_keys l) <= order - 1)%nat ->
  exists l' k r, split_leaf fresh l = DidSplit (NLeaf l') k (NLeaf r) /\
    lo < k < hi /\ leaf_wf order lo k l' /\ leaf_wf order k hi r /\
    leaf_bindings l' ++ leaf_bindings r = leaf_bindings l /\
    l_addr l' = l_addr l /\ l_next l' = Some fresh /\ l_addr r = fresh /\ l_next r = l_next l.
Proof.
  intros Hv Hs Hb Hlen.
  destruct (split_point lo hi (l_keys l) Hs Hb) as (km & Hkm & Hlk & Hl & Hr & Hm); [lia|].
  unfold split_leaf. set (mid := (length (l_keys l) / 2)%nat) in *. do 3 eexists.
  split; [reflexivity|]. cbn [l_keys l_values l_addr l_next].
  rewrite lookup_drop, Nat.add_0_r, Hkm. change (default 0 (Some km)) with km.
  rewrite <- (take_drop mid (l_keys l)) in Hs. apply sorted_app_inv in Hs as [Hs1 Hs2].
  split; [done|]. unfold leaf_wf, leaf_bindings; cbn [l_keys l_values l_addr l_next].
  rewrite !length_take, !length_drop.
  split; [repeat split; try done; lia|]. split; [repeat split; try done; lia|].
  split; [|done]. rewrite <- zip_with_take, <- zip_with_drop. by rewrite take_drop.
Qed.

(** A leaf with the new binding shifted in. *)
Definition leaf_put (l : leaf) : leaf :=
  let pos := key_lower_bound (l_keys l) key in
  {| l_addr := l_addr l; l_keys := insert_at pos key (l_keys l); l_values := insert_at pos value (l_values l); l_next := l_next l |}.

Lemma leaf_put_ok lo hi l : leaf_wf order lo hi l -> lo <= key < hi ->
  if key_at (l_keys l) (key_lower_bound (l_keys l) key) key then exists v, (key, v) ∈ leaf_bindings l
  else StronglySorted Z.lt (l_keys (leaf_put l)) /\ Forall (fun k => lo <= k < hi) (l_keys (leaf_put l)) /\
    length (l_values (leaf_put l)) = length (l_keys (leaf_put l)) /\ length (l_keys (leaf_put l)) = S (length (l_keys l)) /\
    ins_rel key value (leaf_bindings l) (leaf_bindings (leaf_put l)).
Proof.
  intros (Hv & Hs & Hb & Hlen) Hk. unfold leaf_put. cbn zeta. cbn [l_keys l_values].
  destruct (lower_bound_split (l_keys l) key Hs) as (k1 & k2 & Heq & Hr & H1 & H2). rewrite Hr.
  rewrite Heq in Hs, Hv, Hb, Hlen.
  destruct (key_at_app k1 k2 key H2 Hs) as [[Hat [k3 ->]]|[Hat H2']]; rewrite Heq, Hat.
  - unfold leaf_bindings. rewrite Heq.
    destruct (lookup_lt_is_Some_2 (l_values l) (length k1)) as [v Hvv].
    { rewrite Hv, length_app. cbn. lia. }
    exists v. apply list_elem_of_lookup. exists (length k1). apply lookup_zip_with_Some.
    exists key, v. split; [done|]. split; [by apply list_lookup_middle|done].
  - set (v1 := take (length k1) (l_values l)). set (v2 := drop (length k1) (l_values l)).
    assert (Hv1 : length k1 = length v1) by (unfold v1; rewrite length_take, Hv, length_app; lia).
    assert (Hv2 : l_values l = v1 ++ v2) by (unfold v1, v2; by rewrite take_drop).
    rewrite (insert_at_app k1 k2) by done. rewrite Hv2, (insert_at_app v1 v2) by done.
    rewrite Hv2 in Hv. rewrite !length_app in *. cbn [length] in *. apply sorted_app_inv in Hs as Hs12. destruct Hs12 as [Hs1 Hs2].
    split; [|split; [|split; [lia|split; [lia|]]]].
    + apply sorted_app; [done|by constructor|]. rewrite Forall_forall in H1, H2'. intros x y Hx Hy%elem_of_cons.
      apply H1 in Hx. destruct Hy as [->|Hy]; [done|]. apply H2' in Hy. lia.
    + apply Forall_app in Hb as [? ?]. apply Forall_app. split; [done|]. by constructor.
    + unfold leaf_bindings. cbn [l_keys l_values]. rewrite Heq, Hv2, !zip_with_app by done. cbn [zip_with].
      exists (zip k1 v1), (zip k2 v2). split; [done|]. split; [done|].
      rewrite Forall_forall in H1, H2'. split; apply Forall_forall; intros [k v] Hin%elem_of_zip_l; auto.
Qed.

(** The leaf put and not split. *)
Lemma leaf_put_post lo hi l : leaf_wf order lo hi l -> lo <= key < hi -> key_at (l_keys l) (key_lower_bound (l_keys l) key) key = false ->
  (length (l_keys l) < order - 2)%nat -> ins_post order 0 lo hi fresh key value (NLeaf l) (NoSplit (NLeaf (leaf_put l))).
Proof.
  intros Hl Hk Hat Hlen. pose proof (leaf_put_ok lo hi l Hl Hk) as Hput. rewrite Hat in Hput.
  destruct Hput as (Hs & Hb & Hv & Hlk & Hrel). cbn [ins_post]. rewrite !flat_leaf. split; [|split; [done|]].
  - constructor. split; [done|]. split; [done|]. split; [done|]. lia.
  - exists [], l, [], (leaf_put l). split; [done|]. split; [done|]. by left.
Qed.

(** The leaf put and split. *)
Lemma leaf_split_post lo hi l : leaf_wf order lo hi l -> lo <= key < hi -> key_at (l_keys l) (key_lower_bound (l_keys l) key) key = false ->
  (1 <= length (l_keys l))%nat -> ins_post order 0 lo hi fresh key value (NLeaf l) (split_leaf fresh (leaf_put l)).
Proof.
  intros Hl Hk Hat Hlen. pose proof (leaf_put_ok lo hi l Hl Hk) as Hput. rewrite Hat in Hput.
  destruct Hput as (Hs & Hb & Hv & Hlk & Hrel). destruct Hl as (_ & _ & _ & Hmax).
  destruct (split_leaf_post lo hi (leaf_put l)) as (a & k & r & -> & Hkk & Hwa & Hwr & Hfl & Ha & Hn & Hra & Hrn); [done..|lia|].
  cbn [ins_post]. rewrite !flat_leaf, Hfl. split; [done|]. split; [by constructor|]. split; [by constructor|]. split; [done|].
  exists [], l, [], a. split; [done|]. split; [done|]. right. by exists r.
Qed.

Lemma leaf_insert_post lo hi l :
  leaf_wf order lo hi l -> lo <= key < hi ->
  ins_post order 0 lo hi fresh key value (NLeaf l) (leaf_insert order fresh key value l).
Proof.
  intros Hl Hk. unfold leaf_insert. fold (leaf_put l). pose proof (leaf_put_ok lo hi l Hl Hk) as Hput.
  destruct (key_at _ _ _) eqn:Hat; [cbn [ins_post]; by rewrite flat_leaf|]. destruct Hput as (_ & _ & _ & Hlk & _).
  destruct (Nat.leb_spec (order - 1) (length (l_keys (leaf_put l)))).
  - apply leaf_split_post; [done..|lia].
  - apply leaf_put_post; [done..|lia].
Qed.

(** What a result of the child a key descends into makes of its parent. *)
Definition parent_post (h : nat) (lo hi : Z) (ks : list Z) (cs : list node) (i : nat) (r : split_result) : Prop :=
  match r with
  | InsError => exists v, (key, v) ∈ flat (NInternal ks cs)
  | InsStuck => False
  | NoSplit c' =>
      children_wf order h lo ks (<[i := c']> cs) hi /\
      ins_rel key value (flat (NInternal ks cs)) (flat (NInternal ks (<[i := c']> cs))) /\
      leaf_step fresh (leaves (NInternal ks cs)) (leaves (NInternal ks (<[i := c']> cs)))
  | DidSplit c' k m =>
      let ks' := insert_at (key_lower_bound ks k) k ks in
      let cs' := insert_at (S (key_lower_bound ks k)) m (<[i := c']> cs) in
      children_wf order h lo ks' cs' hi /\ length ks' = S (length ks) /\
      ins_rel key value (flat (NInternal ks cs)) (flat (NInternal ks' cs')) /\
      leaf_step fresh (leaves (NInternal ks cs)) (leaves (NInternal ks' cs'))
  end.

Lemma child_focus h lo hi ks cs : children_wf order h lo ks cs hi -> lo <= key < hi ->
  exists c lo' hi', cs !! child_index ks key = Some c /\ node_wf order h lo' hi' c /\ lo' <= key < hi' /\
    forall r, ins_post order h lo' hi' fresh key value c r -> parent_post h lo hi ks cs (child_index ks key) r.
Proof.
  intros Hcs Hk. destruct (children_wf_keys _ _ _ _ _ _ Hcs) as (Hs & _ & _).
  destruct (children_wf_focus _ _ _ _ _ _ key Hcs Hk) as (ks1 & ks2 & cs1 & c & cs2 & lo' & hi' & -> & ->
     & Hl1 & Hk' & Hlo & Hhi & Hc & Hk1 & Hk2 & Hf1 & Hf2 & Hplug & Hsplit).
  rewrite child_index_app; [|done|eapply Forall_impl; [exact Hk1|]; cbn; lia
                            |eapply Forall_impl; [exact Hk2|]; cbn; lia].
  rewrite <- Hl1. exists c, lo', hi'. rewrite list_lookup_middle by done. split; [done|]. split; [done|]. split; [done|].
  assert (HA : Forall (fun kv => kv.1 < key) (concat (map flat cs1)))
    by (eapply Forall_impl; [exact Hf1|]; cbn; lia).
  assert (HB : Forall (fun kv => key < kv.1) (concat (map flat cs2)))
    by (eapply Forall_impl; [exact Hf2|]; cbn; lia).
  intros [| |c'|c' k m] Hr; cbn [ins_post parent_post] in *.
  - destruct Hr as [v Hv]. exists v. rewrite flat_internal, concat_map_middle. apply elem_of_app; right; apply elem_of_app; by left.
  - done.
  - destruct Hr as (Hw & Hrel & Hstep). rewrite list_insert_app_middle by done.
    rewrite !flat_internal, !leaves_internal, !concat_map_middle.
    split; [by apply Hplug|]. split; [by apply ins_rel_ctx | by apply leaf_step_ctx].
  - destruct Hr as (Hkk & Hw & Hwm & Hrel & Hstep). rewrite list_insert_app_middle by done.
    rewrite key_lower_bound_app; [|done|eapply Forall_impl; [exact Hk1|]; cbn; lia
                                  |eapply Forall_impl; [exact Hk2|]; cbn; lia].
    rewrite (insert_at_app ks1 ks2) by done.
    replace (cs1 ++ c' :: cs2) with ((cs1 ++ [c']) ++ cs2) by by rewrite <- app_assoc.
    rewrite (insert_at_app (cs1 ++ [c']) cs2) by (rewrite length_app; cbn; lia).
    rewrite <- app_assoc. cbn [app]. split; [by apply Hsplit|]. split; [rewrite !length_app; cbn; lia|].
    rewrite !flat_internal, !leaves_internal, !concat_map_middle. cbn [map concat app].
    rewrite (app_assoc (flat c')), (app_assoc (leaves c')). split; [by apply ins_rel_ctx|by apply leaf_step_ctx].
Qed.

(** An over-full node is cut in two. *)
Lemma split_internal_post h lo hi n ks cs : children_wf order h lo ks cs hi -> (1 <= length ks <= order - 1)%nat ->
  ins_rel key value (flat n) (flat (NInternal ks cs)) -> leaf_step fresh (leaves n) (leaves (NInternal ks cs)) ->
  ins_post order (S h) lo hi fresh key value n (split_internal ks cs).
Proof.
  intros Hcs Hlen Hrel Hstep. unfold split_internal. set (mid := (length ks / 2)%nat).
  assert (Hm : (mid < length ks)%nat) by (apply Nat.Div0.div_lt_upper_bound; lia).
  destruct (lookup_lt_is_Some_2 ks mid Hm) as [km Hkm].
  destruct (children_wf_cut _ _ _ _ _ _ mid km Hcs Hkm) as (Hb & Hleft & Hright).
  cbn [ins_post]. rewrite Hkm. change (default 0 (Some km)) with km.
  rewrite !flat_internal, !leaves_internal in *. rewrite <- !concat_app, <- !map_app, !take_drop.
  split; [done|]. split; [constructor; [rewrite length_take; lia|done]|].
  split; [constructor; [rewrite length_drop; lia|done]|]. done.
Qed.

Lemma internal_insert_post h lo hi ks cs (ihn : forall n lo hi,
    node_wf order h lo hi n -> lo <= key < hi ->
    ins_post order h lo hi fresh key value n (insert_recursive order fresh key value n)) :
  (length ks <= order - 2)%nat -> children_wf order h lo ks cs hi -> lo <= key < hi ->
  ins_post order (S h) lo hi fresh key value (NInternal ks cs)
    (insert_recursive order fresh key value (NInternal ks cs)).
Proof.
  intros Hlen Hcs Hk. rewrite insert_recursive_internal. cbn zeta.
  destruct (child_focus h lo hi ks cs Hcs Hk) as (c & lo' & hi' & -> & Hc & Hk' & Hpost). specialize (Hpost _ (ihn c lo' hi' Hc Hk')).
  destruct (insert_recursive order fresh key value c) as [| |c'|c' k m]; cbn [internal_insert parent_post] in *; [done|done|..].
  - destruct Hpost as (Hw & Hrel & Hstep). cbn [ins_post]. split; [by constructor|done].
  - destruct Hpost as (Hw & Hl & Hrel & Hstep). cbn zeta in *. destruct (Nat.leb_spec (order - 1) (length (insert_at (key_lower_bound ks k) k ks))).
    + apply split_internal_post; [done|lia|done..].
    + cbn [ins_post]. split; [constructor; [lia|done]|done].
Qed.

Lemma insert_recursive_post h : forall n lo hi,
  node_wf order h lo hi n -> lo <= key < hi ->
  ins_post order h lo hi fresh key value n (insert_recursive order fresh key value n).
Proof.
  induction h as [|h IH]; intros n lo hi Hn Hk; inversion Hn; subst.
  - by apply leaf_insert_post.
  - by apply internal_insert_post.
Qed.
End insert.

(** ** The leaf chain *)

Definition chain_head (ls : list leaf) (nx : option Z) : option Z :=
  match ls with [] => nx | l :: _ => Some (l_addr l) end.

Lemma linked_app L1 L2 nx :
  linked (L1 ++ L2) nx <-> linked L1 (chain_head L2 nx) /\ linked L2 nx.
Proof.
  induction L1 as [|l L1 IH]; cbn; [tauto|]. rewrite IH.
  destruct L1 as [|l2 L1]; cbn; [destruct L2; cbn; tauto | tauto].
Qed.

Lemma linked_step fresh L R nx : leaf_step fresh L R -> linked L nx -> linked R nx.
Proof.
  intros (L1 & l & L2 & l' & -> & Ha & HR). rewrite linked_app. cbn. intros (H1 & Hn & H2).
  destruct HR as [[-> Hn']|(r & -> & Hn' & Hr & Hrn)]; rewrite linked_app; cbn;
    rewrite Ha, ?Hn', ?Hr, ?Hrn; done.
Qed.

Lemma leaf_step_fresh fresh L R :
  leaf_step fresh L R -> Forall (fun l => l_addr l < fresh) L -> NoDup (map l_addr L) ->
  Forall (fun l => l_addr l < fresh + 1) R /\ NoDup (map l_addr R).
Proof.
  intros (L1 & l & L2 & l' & -> & Ha & HR) Hf Hnd.
  assert (Hf' : Forall (fun l => l_addr l < fresh + 1) (L1 ++ l :: L2))
    by (eapply Forall_impl; [exact Hf|]; cbn; lia).
  rewrite Forall_app, Forall_cons in Hf'. destruct Hf' as (Hf1 & Hl & Hf2).
  rewrite map_app in Hnd. cbn in Hnd.
  destruct HR as [[-> _]|(r & -> & _ & Hr & _)].
  - rewrite Forall_app, Forall_cons, map_app. cbn. rewrite Ha. done.
  - rewrite Forall_app, !Forall_cons, map_app. cbn. rewrite Ha, Hr.
    split; [repeat split; try done; lia|].
    replace (map l_addr L1 ++ l_addr l :: fresh :: map l_addr L2)
      with ((map l_addr L1 ++ [l_addr l]) ++ fresh :: map l_addr L2) by by rewrite <- app_assoc.
    apply NoDup_Permutation_proper with (fresh :: (map l_addr L1 ++ l_addr l :: map l_addr L2)).
    { rewrite <- Permutation_middle. by rewrite <- app_assoc. }
    constructor; [|done]. intros Hin.
    replace (map l_addr L1 ++ l_addr l :: map l_addr L2) with (map l_addr (L1 ++ l :: L2)) in Hin
      by by rewrite map_app.
    apply list_elem_of_fmap in Hin as (x & Hx & Hin). rewrite Forall_forall in Hf.
    apply Hf in Hin. lia.
Qed.

Lemma leaf_at_middle n L1 l L2 :
  leaves n = L1 ++ l :: L2 -> NoDup (map l_addr (leaves n)) -> leaf_at n (l_addr l) = Some l.
Proof.
  intros Hl Hnd. unfold leaf_at. rewrite Hl in *. clear Hl.
  induction L1 as [|x L1 IH].
  - cbn [app]. by rewrite filter_cons_True.
  - cbn in Hnd. cbn [app]. apply NoDup_cons in Hnd as [Hx Hnd]. rewrite filter_cons_False; [by apply IH|].
    intros Heq. apply Hx. rewrite Heq, map_app. apply elem_of_app. right. left.
Qed.

(** ** Descent and point lookup *)

Definition bindings (ls : list leaf) : list (Z * record_ptr) := concat (map leaf_bindings ls).

Lemma flat_bindings n : flat n = bindings (leaves n).
Proof. done. Qed.

Lemma bindings_app L1 L2 : bindings (L1 ++ L2) = bindings L1 ++ bindings L2.
Proof. unfold bindings. by rewrite map_app, concat_app. Qed.

Lemma bindings_concat cs : bindings (concat (map leaves cs)) = concat (map flat cs).
Proof. exact (flat_internal [] cs). Qed.

(** Descent ends in the one leaf whose range holds the key. *)
Lemma find_leaf_spec order h : forall n lo hi key,
  node_wf order h lo hi n -> lo <= key < hi ->
  exists L1 l L2 lo' hi', find_leaf n key = Some l /\ leaves n = L1 ++ l :: L2 /\
    leaf_wf order lo' hi' l /\ lo' <= key < hi' /\ lo <= lo' /\ hi' <= hi /\
    Forall (fun kv => kv.1 < lo') (bindings L1) /\ Forall (fun kv => hi' <= kv.1) (bindings L2).
Proof.
  induction h as [|h IH]; intros n lo hi key Hn Hk; inversion Hn as [? ? l Hl|? ? ? ks cs Hlen Hcs]; subst.
  - exists [], l, [], lo, hi. repeat (split; [first [done|lia]|]). constructor.
  - destruct (children_wf_keys _ _ _ _ _ _ Hcs) as (Hs & _ & _).
    destruct (children_wf_focus _ _ _ _ _ _ key Hcs Hk) as (ks1 & ks2 & cs1 & c & cs2 & lo' & hi' & -> & ->
       & Hl1 & Hk' & Hlo & Hhi & Hc & Hk1 & Hk2 & Hf1 & Hf2 & _ & _).
    rewrite find_leaf_internal, child_index_app;
      [|done|eapply Forall_impl; [exact Hk1|]; cbn; lia|eapply Forall_impl; [exact Hk2|]; cbn; lia].
    rewrite list_lookup_middle by done.
    destruct (IH c lo' hi' key Hc Hk') as (L1 & l & L2 & lo2 & hi2 & Hfl & HL & Hw & Hb & ? & ? & HB1 & HB2).
    exists (concat (map leaves cs1) ++ L1), l, (L2 ++ concat (map leaves cs2)), lo2, hi2.
    split; [done|]. split.
    { rewrite leaves_internal, concat_map_middle, HL, <- !app_assoc. done. }
    rewrite !bindings_app, !bindings_concat, !Forall_app.
    split; [done|]. split; [done|]. split; [lia|]. split; [lia|]. split; split; try done.
    + eapply Forall_impl; [exact Hf1|]. cbn. lia.
    + eapply Forall_impl; [exact Hf2|]. cbn. lia.
Qed.

Lemma key_find_exact_spec keys key :
  StronglySorted Z.lt keys ->
  match key_find_exact keys key with
  | Some pos => exists k1 k2, keys = k1 ++ key :: k2 /\ pos = length k1
  | None => key ∉ keys
  end.
Proof.
  intros Hs. unfold key_find_exact.
  destruct (lower_bound_split keys key Hs) as (k1 & k2 & -> & -> & H1 & H2).
  destruct (key_at_app k1 k2 key H2 Hs) as [[-> [k3 ->]]|[-> H2']]; [eauto|].
  rewrite Forall_forall in H1, H2'.
  intros [Hin|Hin]%elem_of_app; [apply H1 in Hin|apply H2' in Hin]; lia.
Qed.

(** ** The abstract map *)

Lemma sorted_NoDup (l : list Z) : StronglySorted Z.lt l -> NoDup l.
Proof.
  induction 1 as [|x l Hs IH Hf]; constructor; [|done].
  intros Hin. rewrite Forall_forall in Hf. apply Hf in Hin. lia.
Qed.

Lemma wf_flat_NoDup t : btree_wf t -> NoDup ((flat (bt_root t)).*1).
Proof.
  intros [_ [h Hn] _ _ _ _]. apply sorted_NoDup. by apply (proj1 (flat_sorted (bt_order t))) in Hn.
Qed.

Lemma map_insert_middle (l1 l2 : list (Z * record_ptr)) key v :
  key ∉ ((l1 ++ l2).*1) -> NoDup ((l1 ++ l2).*1) ->
  (list_to_map (l1 ++ (key, v) :: l2) : gmap Z record_ptr) =
    <[key := v]> (list_to_map (l1 ++ l2)).
Proof.
  intros Hk Hnd. change (<[key := v]> _) with
    (list_to_map ((key, v) :: l1 ++ l2) : gmap Z record_ptr).
  symmetry. apply list_to_map_proper; [|apply Permutation_middle].
  cbn. by constructor.
Qed.

(** A leaf of the tree seen as a segment of the binding list. *)
Lemma flat_split t key :
  btree_wf t -> 0 <= key < 4294967296 ->
  exists L1 l L2 lo hi, find_leaf (bt_root t) key = Some l /\
    leaves (bt_root t) = L1 ++ l :: L2 /\ leaf_wf (bt_order t) lo hi l /\ lo <= key < hi /\
    flat (bt_root t) = bindings L1 ++ leaf_bindings l ++ bindings L2 /\
    Forall (fun kv => kv.1 < lo) (bindings L1) /\ Forall (fun kv => hi <= kv.1) (bindings L2).
Proof.
  intros [_ [h Hn] _ _ _ _] Hk.
  destruct (find_leaf_spec _ h _ _ _ key Hn) as (L1 & l & L2 & lo & hi & Hf & HL & Hw & Hb & _ & _ & H1 & H2);
    [lia|].
  exists L1, l, L2, lo, hi. repeat (split; [done|]). split; [|done].
  rewrite flat_bindings, HL, bindings_app. done.
Qed.

(** The binding of a key present in its leaf. *)
Lemma leaf_found order lo hi l key pos :
  leaf_wf order lo hi l -> key_find_exact (l_keys l) key = Some pos ->
  exists k1 k2 v1 v v2, l_keys l = k1 ++ key :: k2 /\ l_values l = v1 ++ v :: v2 /\
    length k1 = pos /\ length v1 = pos /\ (key ∉ k1 ++ k2) /\
    leaf_bindings l = zip k1 v1 ++ (key, v) :: zip k2 v2.
Proof.
  intros (Hv & Hs & _) Hf. pose proof (key_find_exact_spec (l_keys l) key Hs) as Hsp.
  rewrite Hf in Hsp. destruct Hsp as (k1 & k2 & Hks & ->).
  destruct (lookup_lt_is_Some_2 (l_values l) (length k1)) as [v Hvv].
  { rewrite Hv, Hks, length_app. cbn. lia. }
  apply list_elem_of_split_length in Hvv as (v1 & v2 & Hvs & Hl).
  exists k1, k2, v1, v, v2. repeat (split; [done|]). split; [|].
  - rewrite Hks in Hs. apply sorted_NoDup in Hs. by apply NoDup_app_middle in Hs.
  - unfold leaf_bindings. rewrite Hks, Hvs. by rewrite zip_with_app by done.
Qed.

Lemma leaf_not_found order lo hi l key :
  leaf_wf order lo hi l -> key_find_exact (l_keys l) key = None -> key ∉ ((leaf_bindings l).*1).
Proof.
  intros (Hv & Hs & _) Hf. pose proof (key_find_exact_spec (l_keys l) key Hs) as Hsp.
  rewrite Hf in Hsp. unfold leaf_bindings. by rewrite fst_zip by lia.
Qed.

(** Bindings outside the key's leaf do not have the key. *)
Lemma not_elsewhere lo hi key l1 l2 :
  lo <= key < hi -> Forall (fun kv : Z * record_ptr => kv.1 < lo) l1 ->
  Forall (fun kv : Z * record_ptr => hi <= kv.1) l2 -> (key ∉ l1.*1) /\ (key ∉ l2.*1).
Proof.
  intros Hk H1 H2. rewrite Forall_forall in H1, H2.
  split; intros Hin; apply list_elem_of_fmap in Hin as ([k v] & -> & Hin);
    [apply H1 in Hin | apply H2 in Hin]; cbn in *; lia.
Qed.

(** btree_search computes the abstract map's lookup, for every 32-bit key:
    it finds the value the key is bound to, and fails exactly for unbound keys. *)
Lemma btree_search_lookup t key :
  btree_wf t -> 0 <= key < 4294967296 -> btree_search t key = bt_map t !! key.
Proof.
  intros Hwf Hk. pose proof (wf_flat_NoDup _ Hwf) as Hnd.
  destruct (flat_split t key Hwf Hk) as (L1 & l & L2 & lo & hi & Hf & HL & Hw & Hb & Hfl & H1 & H2).
  destruct (not_elsewhere _ _ _ _ _ Hb H1 H2) as [Hn1 Hn2].
  unfold btree_search, bt_map. rewrite Hf. rewrite Hfl in *.
  destruct (key_find_exact (l_keys l) key) as [pos|] eqn:He.
  - destruct (leaf_found _ _ _ _ _ _ Hw He) as (k1 & k2 & v1 & v & v2 & Hks & Hvs & Hp1 & Hp2 & _ & Hlb).
    rewrite Hvs, list_lookup_middle by done. symmetry.
    apply elem_of_list_to_map; [done|]. rewrite Hlb. rewrite !elem_of_app, elem_of_cons. tauto.
  - symmetry. apply not_elem_of_list_to_map. rewrite !fmap_app, !elem_of_app.
    pose proof (leaf_not_found _ _ _ _ _ Hw He). tauto.
Qed.

Lemma ins_rel_map key value l l' :
  ins_rel key value l l' -> NoDup (l.*1) ->
  (list_to_map l : gmap Z record_ptr) !! key = None /\
  (list_to_map l' : gmap Z record_ptr) = <[key := value]> (list_to_map l) /\
  length l' = S (length l).
Proof.
  intros (l1 & l2 & -> & -> & H1 & H2) Hnd.
  assert (Hk : key ∉ (l1 ++ l2).*1).
  { rewrite Forall_forall in H1, H2. intros Hin. apply list_elem_of_fmap in Hin as ([k v] & -> & Hin).
    apply elem_of_app in Hin as [Hin|Hin]; [apply H1 in Hin|apply H2 in Hin]; cbn in *; lia. }
  split; [by apply not_elem_of_list_to_map|].
  split; [by apply map_insert_middle|]. rewrite !length_app. cbn. lia.
Qed.

(** The tree after a successful insertion. *)
Lemma insert_done t key value root :
  btree_wf t -> (exists h, node_wf (bt_order t) h (-1) 4294967296 root) ->
  ins_rel key value (flat (bt_root t)) (flat root) ->
  leaf_step (bt_fresh t) (leaves (bt_root t)) (leaves root) ->
  let t' := {| bt_root := root; bt_order := bt_order t; bt_size := u32 (bt_size t + 1);
               bt_dirty := true; bt_fresh := bt_fresh t + 1 |} in
  btree_wf t' /\ bt_map t !! key = None /\ bt_map t' = <[key := value]> (bt_map t).
Proof.
  intros Hwf Hn Hrel Hstep. pose proof (wf_flat_NoDup t Hwf) as Hnd.
  destruct Hwf as [Ho _ Hl Ha Hf Hs].
  destruct (leaf_step_fresh _ _ _ Hstep Hf Ha) as [Hf' Ha'].
  destruct (ins_rel_map _ _ _ _ Hrel Hnd) as (Hnone & Hmap & Hlen).
  split; [|done]. constructor; cbn [bt_root bt_size bt_order bt_fresh]; try done.
  - by eapply linked_step.
  - rewrite Hlen, Hs. unfold wrap. rewrite Zplus_mod_idemp_l. f_equal. lia.
Qed.

(** btree_insert implements map insertion.  For a key that is already bound
    it returns -1 and leaves the tree unchanged; otherwise it returns 0, the
    new tree satisfies the whole invariant again (sorted nodes within their
    separators, all leaves at one depth, node sizes within the order, leaf chain
    intact, size field exact modulo 2^32) and its map is the old map with the
    binding added. *)
Lemma btree_insert_map t key value t' rc :
  btree_wf t -> 0 <= key < 4294967296 -> btree_insert t key value = (t', rc) ->
  match bt_map t !! key with
  | Some _ => rc = -1 /\ t' = t
  | None => rc = 0 /\ btree_wf t' /\ bt_map t' = <[key := value]> (bt_map t)
  end.
Proof.
  intros Hwf Hk. pose proof Hwf as [Ho [h Hn] Hl Ha Hf Hs].
  pose proof (insert_recursive_post _ Ho (bt_fresh t) key value h _ _ _ Hn ltac:(lia)) as Hpost.
  unfold btree_insert.
  destruct (insert_recursive _ _ _ _ _) as [| |root|root k m]; cbn [ins_post] in Hpost.
  - intros [= <- <-]. destruct Hpost as [v Hv].
    apply elem_of_list_to_map in Hv; [|by apply wf_flat_NoDup]. unfold bt_map. by rewrite Hv.
  - done.
  - destruct Hpost as (Hw & Hrel & Hstep). intros [= <- <-].
    destruct (insert_done t key value root) as (Hwf' & -> & ->); eauto.
  - destruct Hpost as (Hkm & Hw & Hwm & Hrel & Hstep). intros [= <- <-].
    destruct (insert_done t key value (NInternal [k] [root; m])) as (Hwf' & -> & ->); try done.
    + exists (S h). constructor; [cbn; lia|]. constructor; [lia|done|]. by constructor.
    + rewrite flat_internal. cbn. by rewrite app_nil_r.
    + cbn. by rewrite app_nil_r.
Qed.

(** ** Writing through a leaf pointer *)

Lemma leaves_set_leaf a l' n :
  leaves (set_leaf a l' n) = map (fun l => if l_addr l =? a then l' else l) (leaves n).
Proof.
  induction n as [l|ks cs IH] using node_ind'; cbn; [by destruct (l_addr l =? a)|].
  rewrite concat_map. f_equal. induction IH as [|c cs Hc _ IHcs]; cbn; [done|]. by rewrite Hc, IHcs.
Qed.

Lemma set_leaf_middle n L1 l L2 l' :
  leaves n = L1 ++ l :: L2 -> NoDup (map l_addr (leaves n)) ->
  leaves (set_leaf (l_addr l) l' n) = L1 ++ l' :: L2.
Proof.
  intros HL Hnd. rewrite leaves_set_leaf, HL in *. rewrite map_app in *. cbn in *.
  apply NoDup_app_middle in Hnd.
  assert (Hid : forall L, (l_addr l ∉ map l_addr L) ->
    map (fun l0 => if l_addr l0 =? l_addr l then l' else l0) L = L).
  { induction L as [|x L IH]; cbn; intros Hx; [done|].
    apply not_elem_of_cons in Hx as [Hne Hx].
    destruct (Z.eqb_spec (l_addr x) (l_addr l)); [congruence|]. f_equal. by apply IH. }
  rewrite not_elem_of_app in Hnd. rewrite Z.eqb_refl, !Hid by tauto. done.
Qed.

Lemma set_leaf_wf order a l' :
  (forall h lo hi n, node_wf order h lo hi n ->
     (forall l lo hi, l ∈ leaves n -> l_addr l = a -> leaf_wf order lo hi l -> leaf_wf order lo hi l') ->
     node_wf order h lo hi (set_leaf a l' n)) /\
  (forall h lo ks cs hi, children_wf order h lo ks cs hi ->
     (forall l lo hi, l ∈ concat (map leaves cs) -> l_addr l = a ->
        leaf_wf order lo hi l -> leaf_wf order lo hi l') ->
     children_wf order h lo ks (map (set_leaf a l') cs) hi).
Proof.
  apply tree_wf_mut.
  - intros lo hi l Hl Hr. cbn. destruct (Z.eqb_spec (l_addr l) a); constructor; [|done].
    apply (Hr l); [by left|done|done].
  - intros h lo hi ks cs Hlen _ IH Hr. cbn. constructor; auto.
  - intros h lo hi c _ IH Hr. cbn. constructor. apply IH. intros l ?? Hin. apply Hr. cbn.
    by rewrite app_nil_r.
  - intros h lo hi k ks c cs Hk _ IHc _ IHcs Hr. cbn. constructor; [done|..].
    + apply IHc. intros l ?? Hin. apply Hr. cbn. apply elem_of_app. by left.
    + apply IHcs. intros l ?? Hin. apply Hr. cbn. apply elem_of_app. by right.
Qed.

(** Rewriting the bindings of one leaf in place. *)
Lemma rewrite_leaf t l L1 L2 l' size dirty :
  btree_wf t -> leaves (bt_root t) = L1 ++ l :: L2 ->
  l_addr l' = l_addr l -> l_next l' = l_next l ->
  (forall lo hi, leaf_wf (bt_order t) lo hi l -> leaf_wf (bt_order t) lo hi l') ->
  size = u32 (Z.of_nat (length (bindings L1 ++ leaf_bindings l' ++ bindings L2))) ->
  let t' := {| bt_root := set_leaf (l_addr l) l' (bt_root t); bt_order := bt_order t;
               bt_size := size; bt_dirty := dirty; bt_fresh := bt_fresh t |} in
  btree_wf t' /\ flat (bt_root t') = bindings L1 ++ leaf_bindings l' ++ bindings L2.
Proof.
  intros [Ho [h Hn] Hl Ha Hf Hs] HL Haddr Hnext Hleaf Hsize.
  pose proof (set_leaf_middle _ _ _ _ l' HL Ha) as HL'.
  assert (Hfl : flat (set_leaf (l_addr l) l' (bt_root t)) = bindings L1 ++ leaf_bindings l' ++ bindings L2).
  { rewrite flat_bindings, HL', bindings_app. done. }
  split; [|done]. constructor; cbn [bt_root bt_size bt_order bt_fresh]; try done.
  - exists h. apply (proj1 (set_leaf_wf _ _ _)); [done|]. intros l0 lo hi Hin Haddr0.
    assert (l0 = l) as ->; [|apply Hleaf].
    rewrite HL in Hin. apply list_elem_of_split in Hin as (M1 & M2 & HM). rewrite <- HL in HM.
    pose proof (leaf_at_middle _ _ _ _ HM Ha). pose proof (leaf_at_middle _ _ _ _ HL Ha).
    congruence.
  - rewrite HL'. rewrite HL in Hl. rewrite linked_app in *. cbn in *. by rewrite Haddr, Hnext.
  - rewrite HL'. rewrite HL in Ha. rewrite map_app in *. cbn in *. by rewrite Haddr.
  - rewrite HL'. rewrite HL in Hf. rewrite Forall_app, Forall_cons in *. by rewrite Haddr.
  - by rewrite Hfl.
Qed.

(** The tree around a key that its leaf holds. *)
Lemma key_focus t key l pos :
  btree_wf t -> 0 <= key < 4294967296 ->
  find_leaf (bt_root t) key = Some l -> key_find_exact (l_keys l) key = Some pos ->
  exists L1 L2 lo hi k1 k2 v1 v v2,
    leaves (bt_root t) = L1 ++ l :: L2 /\ leaf_wf (bt_order t) lo hi l /\
    l_keys l = k1 ++ key :: k2 /\ l_values l = v1 ++ v :: v2 /\
    length k1 = pos /\ length v1 = pos /\
    flat (bt_root t) = (bindings L1 ++ zip k1 v1) ++ (key, v) :: (zip k2 v2 ++ bindings L2) /\
    key ∉ ((((bindings L1 ++ zip k1 v1) ++ (zip k2 v2 ++ bindings L2)).*1) : list Z).
Proof.
  intros Hwf Hk Hf He.
  destruct (flat_split t key Hwf Hk) as (L1 & l' & L2 & lo & hi & Hf' & HL & Hw & Hb & Hfl & H1 & H2).
  assert (l' = l) as -> by congruence.
  destruct (leaf_found _ _ _ _ _ _ Hw He) as (k1 & k2 & v1 & v & v2 & Hks & Hvs & Hp1 & Hp2 & Hn & Hlb).
  exists L1, L2, lo, hi, k1, k2, v1, v, v2. repeat (split; [done|]).
  rewrite Hfl, Hlb. split; [by rewrite <- !app_assoc|].
  pose proof (wf_flat_NoDup t Hwf) as Hnd. rewrite Hfl, Hlb in Hnd.
  replace (bindings L1 ++ (zip k1 v1 ++ (key, v) :: zip k2 v2) ++ bindings L2)
    with ((bindings L1 ++ zip k1 v1) ++ (key, v) :: (zip k2 v2 ++ bindings L2)) in Hnd
    by by rewrite <- !app_assoc.
  rewrite fmap_app, fmap_cons in Hnd. cbn in Hnd. apply NoDup_app_middle in Hnd.
  by rewrite fmap_app.
Qed.

Lemma map_focus (t : btree) (A B : list (Z * record_ptr)) key v :
  flat (bt_root t) = A ++ (key, v) :: B -> NoDup ((flat (bt_root t)).*1) ->
  bt_map t = <[key := v]> (list_to_map (A ++ B)) /\
  (list_to_map (A ++ B) : gmap Z record_ptr) !! key = None.
Proof.
  intros Hf Hnd. unfold bt_map. rewrite Hf in *. rewrite fmap_app, fmap_cons in Hnd. cbn in Hnd.
  pose proof (NoDup_app_middle _ _ _ Hnd) as Hn. rewrite <- fmap_app in Hn.
  split; [|by apply not_elem_of_list_to_map].
  apply map_insert_middle; [done|]. rewrite fmap_app.
  rewrite <- Permutation_middle in Hnd. by apply NoDup_cons in Hnd as [_ Hnd].
Qed.

Lemma absent_key t key l :
  btree_wf t -> 0 <= key < 4294967296 -> find_leaf (bt_root t) key = Some l ->
  key_find_exact (l_keys l) key = None -> bt_map t !! key = None.
Proof.
  intros Hwf Hk Hf He.
  destruct (flat_split t key Hwf Hk) as (L1 & l' & L2 & lo & hi & Hf' & HL & Hw & Hb & Hfl & H1 & H2).
  assert (l' = l) as -> by congruence.
  destruct (not_elsewhere _ _ _ _ _ Hb H1 H2) as [Hn1 Hn2].
  unfold bt_map. rewrite Hfl. apply not_elem_of_list_to_map. rewrite !fmap_app, !elem_of_app.
  pose proof (leaf_not_found _ _ _ _ _ Hw He). tauto.
Qed.

Lemma find_leaf_total t key :
  btree_wf t -> 0 <= key < 4294967296 -> exists l, find_leaf (bt_root t) key = Some l.
Proof. intros Hwf Hk. destruct (flat_split t key Hwf Hk) as (? & l & ? & ? & ? & ? & _). eauto. Qed.

Lemma leaf_wf_remove order lo hi l l' k1 key k2 v1 v v2 :
  l_keys l = k1 ++ key :: k2 -> l_values l = v1 ++ v :: v2 -> length v1 = length k1 ->
  l_keys l' = k1 ++ k2 -> l_values l' = v1 ++ v2 ->
  leaf_wf order lo hi l -> leaf_wf order lo hi l'.
Proof.
  intros Hk Hv Hl Hk' Hv' (H1 & H2 & H3 & H4). unfold leaf_wf. rewrite Hk', Hv'. rewrite Hk, Hv in *.
  rewrite !length_app in *. cbn in *.
  apply Forall_app in H3 as [H3 [_ H3']%Forall_cons]. rewrite Forall_app.
  split; [lia|]. split; [|split; [done|lia]].
  pose proof (fun x y => sorted_app_lt k1 (key :: k2) x y H2) as Hlt.
  apply sorted_app_inv in H2 as (Hs1 & [Hs2 _]%StronglySorted_inv). apply sorted_app; [done..|].
  intros x y Hx Hy. apply Hlt; [done|by right].
Qed.

Lemma remove_at_app {A} (l1 : list A) x l2 : remove_at (length l1) (l1 ++ x :: l2) = l1 ++ l2.
Proof.
  unfold remove_at. rewrite take_app_length. f_equal.
  replace (S (length l1)) with (length l1 + 1)%nat by lia. by rewrite drop_app_add.
Qed.

(** btree_delete implements map deletion: -1 and no change for an unbound
    key; for a bound key it returns 0, keeps the whole invariant (without
    rebalancing: underfull and empty leaves are allowed) and the new map is the
    old one without the key. *)
Lemma btree_delete_map t key t' rc :
  btree_wf t -> 0 <= key < 4294967296 -> btree_delete t key = (t', rc) ->
  match bt_map t !! key with
  | None => rc = -1 /\ t' = t
  | Some _ => rc = 0 /\ btree_wf t' /\ bt_map t' = delete key (bt_map t)
  end.
Proof.
  intros Hwf Hk. unfold btree_delete. destruct (find_leaf_total t key Hwf Hk) as [l Hf]. rewrite Hf.
  destruct (key_find_exact (l_keys l) key) as [pos|] eqn:He; intros [= <- <-];
    [|by rewrite (absent_key t key l)].
  destruct (key_focus t key l pos Hwf Hk Hf He) as
    (L1 & L2 & lo & hi & k1 & k2 & v1 & v & v2 & HL & Hw & Hks & Hvs & Hp1 & Hp2 & Hfl & Hn).
  destruct (map_focus t _ _ key v Hfl (wf_flat_NoDup t Hwf)) as [Hmap Hnone].
  rewrite Hmap, lookup_insert, decide_True by done. split; [done|].
  set (l' := MkLeaf _ _ _ _).
  assert (Hk' : l_keys l' = k1 ++ k2) by (cbn; rewrite Hks, <- Hp1; apply remove_at_app).
  assert (Hv' : l_values l' = v1 ++ v2) by (cbn; rewrite Hvs, <- Hp2; apply remove_at_app).
  assert (Hlb : bindings L1 ++ leaf_bindings l' ++ bindings L2 =
                (bindings L1 ++ zip k1 v1) ++ (zip k2 v2 ++ bindings L2)).
  { unfold leaf_bindings. rewrite Hk', Hv', zip_with_app by lia. by rewrite <- !app_assoc. }
  destruct (rewrite_leaf t l L1 L2 l' (u32 (bt_size t - 1)) true Hwf HL) as [Hwf' Hfl'];
    [done|done|intros ??; apply (leaf_wf_remove _ _ _ l l' k1 key k2 v1 v v2); (done || lia)| |].
  { rewrite (bw_size t Hwf), Hlb, Hfl, !length_app. cbn [length]. rewrite !length_app. unfold wrap.
    rewrite Zminus_mod_idemp_l. f_equal. lia. }
  split; [done|]. unfold bt_map at 1. rewrite Hfl', Hlb. by rewrite delete_insert_id.
Qed.

(** btree_update implements overwriting: -1 and no change for an unbound
    key; for a bound key it returns 0, keeps the invariant and rebinds the key. *)
Lemma btree_update_map t key value t' rc :
  btree_wf t -> 0 <= key < 4294967296 -> btree_update t key value = (t', rc) ->
  match bt_map t !! key with
  | None => rc = -1 /\ t' = t
  | Some _ => rc = 0 /\ btree_wf t' /\ bt_map t' = <[key := value]> (bt_map t)
  end.
Proof.
  intros Hwf Hk. unfold btree_update. destruct (find_leaf_total t key Hwf Hk) as [l Hf]. rewrite Hf.
  destruct (key_find_exact (l_keys l) key) as [pos|] eqn:He; intros [= <- <-];
    [|by rewrite (absent_key t key l)].
  destruct (key_focus t key l pos Hwf Hk Hf He) as
    (L1 & L2 & lo & hi & k1 & k2 & v1 & v & v2 & HL & Hw & Hks & Hvs & Hp1 & Hp2 & Hfl & Hn).
  pose proof (wf_flat_NoDup t Hwf) as Hnd.
  destruct (map_focus t _ _ key v Hfl Hnd) as [Hmap Hnone].
  rewrite Hmap, lookup_insert, decide_True by done. split; [done|].
  set (l' := MkLeaf _ _ _ _).
  assert (Hv' : l_values l' = v1 ++ value :: v2)
    by (cbn; rewrite Hvs, <- Hp2; by rewrite list_insert_app_middle by done).
  assert (Hlb : bindings L1 ++ leaf_bindings l' ++ bindings L2 =
                (bindings L1 ++ zip k1 v1) ++ (key, value) :: (zip k2 v2 ++ bindings L2)).
  { unfold leaf_bindings. rewrite Hv'. cbn. rewrite Hks, zip_with_app by lia. by rewrite <- !app_assoc. }
  destruct (rewrite_leaf t l L1 L2 l' (bt_size t) true Hwf HL) as [Hwf' Hfl']; [done|done| | |].
  { intros ?? (H1 & H2 & H3 & H4). unfold leaf_wf. rewrite Hv'. rewrite Hvs, length_app in H1.
    rewrite length_app. done. }
  { rewrite (bw_size t Hwf), Hlb, Hfl, !length_app. done. }
  split; [done|]. rewrite insert_insert, decide_True by done.
  apply (map_focus (BTree _ _ _ _ _) _ _ key value); [by rewrite Hfl'|].
  apply (wf_flat_NoDup _ Hwf').
Qed.

(** ** Range scans *)

Definition in_range (low high : Z) (kv : Z * record_ptr) : Prop := low <= kv.1 <= high.

#[export] Instance in_range_dec low high kv : Decision (in_range low high kv).
Proof. unfold in_range. apply _. Defined.

(** The values bound in the range, in key order. *)
Definition range_of (low high : Z) (l : list (Z * record_ptr)) : list record_ptr :=
  (filter (in_range low high) l).*2.

Lemma range_of_app low high l1 l2 : range_of low high (l1 ++ l2) = range_of low high l1 ++ range_of low high l2.
Proof. unfold range_of. by rewrite filter_app, fmap_app. Qed.

Lemma range_of_nil low high l : Forall (fun kv => ~ in_range low high kv) l -> range_of low high l = [].
Proof.
  unfold range_of. induction 1 as [|kv l Hkv _ IH]; [done|]. by rewrite filter_cons_False.
Qed.

Lemma take_take_app {A} n (a b : list A) : take n (take n a ++ b) = take n (a ++ b).
Proof.
  rewrite !take_app, length_take, take_take, Nat.min_id. f_equal. f_equal. lia.
Qed.

Lemma scan_leaf_spec low high max rest kvs : forall res,
  (length res <= max)%nat -> StronglySorted Z.lt ((kvs ++ rest).*1) ->
  match scan_leaf low high max kvs res with
  | inl r => r = take max (res ++ range_of low high kvs)
  | inr r => r = take max (res ++ range_of low high (kvs ++ rest))
  end.
Proof.
  induction kvs as [|[k v] kvs IH]; intros res Hr Hs; cbn [scan_leaf].
  { cbn. by rewrite app_nil_r, take_ge. }
  cbn in Hs. apply StronglySorted_inv in Hs as [Hs Hlt].
  destruct (Nat.ltb_spec (length res) max); [|rewrite take_app_le by lia; by rewrite take_ge].
  destruct (Z.ltb_spec high k).
  - rewrite (range_of_nil _ _ ((k, v) :: kvs ++ rest)); [by rewrite app_nil_r, take_ge|].
    constructor; [unfold in_range; cbn; lia|]. apply (Forall_fmap fst) in Hlt.
    eapply Forall_impl; [exact Hlt|]. unfold in_range. cbn. lia.
  - unfold range_of. cbn [app]. destruct (Z.leb_spec low k).
    + rewrite !filter_cons_True by (unfold in_range; cbn; lia). cbn [fmap list_fmap snd].
      specialize (IH (res ++ [v])). rewrite length_app in IH. cbn in IH.
      case_match; rewrite IH by (lia || done); by rewrite <- app_assoc.
    + rewrite !filter_cons_False by (unfold in_range; cbn; lia). by apply IH.
Qed.

Lemma scan_chain_spec root low high max L2 : forall fuel L1 l res,
  leaves root = L1 ++ l :: L2 -> NoDup (map l_addr (leaves root)) -> linked (l :: L2) None ->
  StronglySorted Z.lt ((bindings (l :: L2)).*1) -> (length res <= max)%nat ->
  (S (length L2) <= fuel)%nat ->
  scan_chain fuel root low high max (Some l) res =
    Some (take max (res ++ range_of low high (bindings (l :: L2)))).
Proof.
  induction L2 as [|l2 L2 IH]; intros [|fuel] L1 l res HL Hnd Hl Hs Hr Hfu; try lia; cbn [scan_chain];
    (destruct (Nat.ltb_spec (length res) max); [|rewrite take_app_le by lia; by rewrite take_ge]).
  - pose proof (scan_leaf_spec low high max [] (leaf_bindings l) res Hr Hs) as Hsp.
    destruct Hl as [-> _]. unfold leaf_bindings in Hsp.
    change (bindings [l]) with (leaf_bindings l ++ []).
    destruct (scan_leaf _ _ _ _ _); rewrite Hsp; by rewrite ?app_nil_r.
  - change (bindings (l :: l2 :: L2)) with (leaf_bindings l ++ bindings (l2 :: L2)) in *.
    pose proof (scan_leaf_spec low high max (bindings (l2 :: L2)) (leaf_bindings l) res Hr Hs) as Hsp.
    destruct Hl as [-> Hl]. unfold leaf_bindings in Hsp.
    destruct (scan_leaf _ _ _ _ _) as [r|r]; rewrite Hsp; [|done].
    assert (HL' : leaves root = (L1 ++ [l]) ++ l2 :: L2) by by rewrite <- app_assoc.
    rewrite (leaf_at_middle _ _ _ _ HL' Hnd), (IH fuel (L1 ++ [l])); try done.
    + by rewrite take_take_app, range_of_app, app_assoc.
    + rewrite fmap_app in Hs. by apply sorted_app_inv in Hs as (_ & Hs).
    + rewrite length_take. lia.
    + cbn in Hfu. lia.
Qed.

(** btree_range_scan terminates and returns exactly the values whose keys lie
    in [low, high], in increasing key order, cut at max_results (an empty result
    for a non-positive bound or a reversed range); walking the leaf chain is
    the same as traversing the tree. *)
Lemma btree_range_scan_spec t low high max_results :
  btree_wf t -> 0 <= low < 4294967296 ->
  btree_range_scan t low high max_results =
    Some (take (Z.to_nat max_results) (range_of low high (flat (bt_root t)))).
Proof.
  intros Hwf Hk. unfold btree_range_scan.
  destruct (Z.leb_spec max_results 0).
  { rewrite Z2Nat.nonpos by lia. done. }
  destruct (Z.ltb_spec high low).
  { rewrite range_of_nil; [by rewrite take_nil|]. apply Forall_forall. intros kv _.
    unfold in_range. lia. }
  destruct (flat_split t low Hwf Hk) as (L1 & l & L2 & lo & hi & -> & HL & Hw & Hb & Hfl & H1 & H2).
  pose proof Hwf as [_ [h Hn] Hlk Ha _ _].
  rewrite (scan_chain_spec (bt_root t) low high _ L2 _ L1 l []); try done.
  - rewrite Hfl, !range_of_app, (range_of_nil low high (bindings L1)); [|].
    + cbn [app]. change (bindings (l :: L2)) with (leaf_bindings l ++ bindings L2).
      by rewrite range_of_app.
    + eapply Forall_impl; [exact H1|]. unfold in_range. lia.
  - rewrite HL in Hlk. by apply linked_app in Hlk as [_ Hlk].
  - apply (proj1 (flat_sorted (bt_order t))) in Hn.
    rewrite flat_bindings, HL, bindings_app, fmap_app in Hn. by apply sorted_app_inv in Hn as (_ & Hn).
  - cbn. lia.
  - rewrite HL, length_app. cbn. lia.
Qed.

Lemma btree_create_wf order t : btree_create order = Some t -> btree_wf t /\ bt_map t = ∅.
Proof.
  unfold btree_create. destruct (Nat.ltb_spec order 3); [done|]. intros [= <-]. split; [|done].
  constructor; cbn; try done; [|by apply NoDup_singleton|by repeat constructor].
  exists 0%nat. constructor. repeat split; cbn; try constructor; lia.
Qed.

(** ** The map view of a range *)

Definition key_le (a b : Z * record_ptr) : Prop := a.1 <= b.1.

#[export] Instance key_le_dec a b : Decision (key_le a b).
Proof. unfold key_le. apply _. Defined.

#[export] Instance key_le_trans : Transitive key_le.
Proof. intros a b c. unfold key_le. lia. Qed.

#[export] Instance key_le_total : Total key_le.
Proof. intros a b. unfold key_le. lia. Qed.

(** A map's bindings in increasing key order. *)
Definition sorted_bindings (m : gmap Z record_ptr) : list (Z * record_ptr) :=
  merge_sort key_le (map_to_list m).

Definition map_range (low high : Z) (m : gmap Z record_ptr) : list record_ptr :=
  range_of low high (sorted_bindings m).

Lemma sorted_fst_le (l : list (Z * record_ptr)) :
  StronglySorted Z.lt (l.*1) -> StronglySorted key_le l.
Proof.
  induction l as [|x l IH]; cbn; intros Hs; constructor; apply StronglySorted_inv in Hs as [Hs Hf].
  - by apply IH.
  - apply (Forall_fmap fst) in Hf. eapply Forall_impl; [exact Hf|]. unfold key_le. cbn. lia.
Qed.

Lemma sorted_bindings_flat t : btree_wf t -> sorted_bindings (bt_map t) = flat (bt_root t).
Proof.
  intros Hwf. pose proof (wf_flat_NoDup t Hwf) as Hnd.
  assert (Hp : sorted_bindings (bt_map t) ≡ₚ flat (bt_root t)).
  { unfold sorted_bindings. rewrite merge_sort_Permutation. by apply map_to_list_to_map. }
  apply (StronglySorted_unique_strong key_le); [|apply StronglySorted_merge_sort; apply _| |done].
  - intros [k v] [k' v'] H1 H2 Hle1 Hle2. unfold key_le in *. cbn in *.
    assert (k' = k) as -> by lia. rewrite Hp in H1.
    apply elem_of_list_to_map in H1, H2; [|done..]. congruence.
  - destruct Hwf as [_ [h Hn] _ _ _ _]. apply sorted_fst_le.
    by apply (proj1 (flat_sorted (bt_order t))) in Hn.
Qed.

(** ** The index interface *)

(** What the clients of an index rely on: a finite map from 32-bit keys to
    record pointers, with the operations' return codes. *)
Class IndexStore (T : Type) := {
  ix_wf : T -> Prop;
  ix_map : T -> gmap Z record_ptr;
  ix_search : T -> Z -> option record_ptr;
  ix_insert : T -> Z -> record_ptr -> T * Z;
  ix_delete : T -> Z -> T * Z;
  ix_update : T -> Z -> record_ptr -> T * Z;
  ix_range : T -> Z -> Z -> Z -> option (list record_ptr);
  ix_search_ok : forall t k, ix_wf t -> 0 <= k < 4294967296 -> ix_search t k = ix_map t !! k;
  ix_insert_ok : forall t k v t' rc,
    ix_wf t -> 0 <= k < 4294967296 -> ix_insert t k v = (t', rc) ->
    match ix_map t !! k with
    | Some _ => rc = -1 /\ t' = t
    | None => rc = 0 /\ ix_wf t' /\ ix_map t' = <[k := v]> (ix_map t)
    end;
  ix_delete_ok : forall t k t' rc,
    ix_wf t -> 0 <= k < 4294967296 -> ix_delete t k = (t', rc) ->
    match ix_map t !! k with
    | None => rc = -1 /\ t' = t
    | Some _ => rc = 0 /\ ix_wf t' /\ ix_map t' = delete k (ix_map t)
    end;
  ix_update_ok : forall t k v t' rc,
    ix_wf t -> 0 <= k < 4294967296 -> ix_update t k v = (t', rc) ->
    match ix_map t !! k with
    | None => rc = -1 /\ t' = t
    | Some _ => rc = 0 /\ ix_wf t' /\ ix_map t' = <[k := v]> (ix_map t)
    end;
  ix_range_ok : forall t lo hi n, ix_wf t -> 0 <= lo < 4294967296 ->
    ix_range t lo hi n = Some (take (Z.to_nat n) (map_range lo hi (ix_map t))) }.

Lemma btree_range_map t lo hi n : btree_wf t -> 0 <= lo < 4294967296 ->
  btree_range_scan t lo hi n = Some (take (Z.to_nat n) (map_range lo hi (bt_map t))).
Proof.
  intros Hwf Hk. unfold map_range.
  rewrite sorted_bindings_flat by done. by apply btree_range_scan_spec.
Qed.

#[export] Instance btree_index : IndexStore btree := {
  ix_wf := btree_wf; ix_map := bt_map; ix_search := btree_search; ix_insert := btree_insert;
  ix_delete := btree_delete; ix_update := btree_update; ix_range := btree_range_scan;
  ix_search_ok := btree_search_lookup; ix_insert_ok := btree_insert_map;
  ix_delete_ok := btree_delete_map; ix_update_ok := btree_update_map;
  ix_range_ok := btree_range_map }.

(** ** Histories of operations *)

Inductive index_op :=
  | OpInsert (k : Z) (v : record_ptr) | OpDelete (k : Z) | OpUpdate (k : Z) (v : record_ptr)
  | OpSearch (k : Z) | OpRange (low high max : Z) | OpSize.

Inductive index_out :=
  | OutRc (rc : Z) | OutFound (r : option record_ptr) | OutRange (r : option (list record_ptr))
  | OutSize (n : Z).

Definition op_ok (o : index_op) : Prop :=
  match o with
  | OpInsert k _ | OpDelete k | OpUpdate k _ | OpSearch k | OpRange k _ _ => 0 <= k < 4294967296
  | OpSize => True
  end.

Definition btree_step (t : btree) (o : index_op) : btree * index_out :=
  match o with
  | OpInsert k v => let '(t', rc) := btree_insert t k v in (t', OutRc rc)
  | OpDelete k => let '(t', rc) := btree_delete t k in (t', OutRc rc)
  | OpUpdate k v => let '(t', rc) := btree_update t k v in (t', OutRc rc)
  | OpSearch k => (t, OutFound (btree_search t k))
  | OpRange lo hi n => (t, OutRange (btree_range_scan t lo hi n))
  | OpSize => (t, OutSize (btree_size t))
  end.

(** The specification: the same operations on a finite map. *)
Definition map_step (m : gmap Z record_ptr) (o : index_op) : gmap Z record_ptr * index_out :=
  match o with
  | OpInsert k v => match m !! k with
                    | Some _ => (m, OutRc (-1)) | None => (<[k := v]> m, OutRc 0) end
  | OpDelete k => match m !! k with
                  | Some _ => (delete k m, OutRc 0) | None => (m, OutRc (-1)) end
  | OpUpdate k v => match m !! k with
                    | Some _ => (<[k := v]> m, OutRc 0) | None => (m, OutRc (-1)) end
  | OpSearch k => (m, OutFound (m !! k))
  | OpRange lo hi n => (m, OutRange (Some (take (Z.to_nat n) (map_range lo hi m))))
  | OpSize => (m, OutSize (u32 (Z.of_nat (size m))))
  end.

Fixpoint run {S : Type} (step : S -> index_op -> S * index_out) (s : S) (ops : list index_op)
    : S * list index_out :=
  match ops with
  | [] => (s, [])
  | o :: ops' =>
      let '(s1, x) := step s o in
      let '(s2, xs) := run step s1 ops' in (s2, x :: xs)
  end.

Lemma btree_size_map t : btree_wf t -> btree_size t = u32 (Z.of_nat (size (bt_map t))).
Proof.
  intros Hwf. unfold btree_size. rewrite (bw_size t Hwf). do 2 f_equal.
  unfold bt_map. rewrite <- (length_map_to_list (list_to_map (flat (bt_root t)))).
  by rewrite map_to_list_to_map by (by apply wf_flat_NoDup).
Qed.

Lemma btree_step_refines t o :
  btree_wf t -> op_ok o ->
  let '(t', out) := btree_step t o in btree_wf t' /\ map_step (bt_map t) o = (bt_map t', out).
Proof.
  intros Hwf Hop. destruct o as [k v|k|k v|k|lo hi n|]; cbn in *.
  - destruct (btree_insert t k v) as [t' rc] eqn:He. pose proof (btree_insert_map t k v t' rc Hwf Hop He) as Hs. destruct (bt_map t !! k); [by destruct Hs as [-> ->]|].
    by destruct Hs as (-> & ? & ->).
  - destruct (btree_delete t k) as [t' rc] eqn:He. pose proof (btree_delete_map t k t' rc Hwf Hop He) as Hs. destruct (bt_map t !! k); [|by destruct Hs as [-> ->]].
    by destruct Hs as (-> & ? & ->).
  - destruct (btree_update t k v) as [t' rc] eqn:He. pose proof (btree_update_map t k v t' rc Hwf Hop He) as Hs. destruct (bt_map t !! k); [|by destruct Hs as [-> ->]].
    by destruct Hs as (-> & ? & ->).
  - split; [done|]. do 2 f_equal. symmetry. by apply btree_search_lookup.
  - split; [done|]. do 2 f_equal. symmetry. by apply btree_range_map.
  - split; [done|]. do 2 f_equal. symmetry. by apply btree_size_map.
Qed.

(** C19: the B+ tree refines a finite map.  Started empty with any order of at
    least 3, every history of insertions, deletions, updates, point lookups,
    range scans and size queries on 32-bit keys produces on the tree exactly
    the outputs it produces on the map, and ends in a tree that satisfies the
    whole structural invariant (keys sorted and within their separators, all
    leaves at one depth, node sizes below the order, leaf chain in key order,
    unique leaf addresses, size exact modulo 2^32) and represents the map. *)
Theorem btree_refines_map order t0 ops t outs :
  btree_create order = Some t0 -> Forall op_ok ops -> run btree_step t0 ops = (t, outs) ->
  btree_wf t /\ run map_step ∅ ops = (bt_map t, outs).
Proof.
  intros [Hwf Hm]%btree_create_wf Hops. rewrite <- Hm. clear Hm. revert t0 t outs Hwf.
  induction Hops as [|o ops Ho Hops IH]; cbn; intros t0 t outs Hwf; [by intros [= <- <-]|].
  pose proof (btree_step_refines t0 o Hwf Ho) as Hst.
  destruct (btree_step t0 o) as [t1 x]. destruct Hst as [Hwf1 ->].
  destruct (run btree_step t1 ops) as [t2 xs] eqn:Hr. intros [= <- <-].
  destruct (IH _ _ _ Hwf1 Hr) as [Hwf2 ->]. done.
Qed.

Definition sample_ops : list index_op :=
  [OpInsert 5 (RecordPtr 0 1); OpInsert 3 (RecordPtr 0 2); OpInsert 9 (RecordPtr 0 3);
   OpInsert 7 (RecordPtr 0 4); OpInsert 5 (RecordPtr 0 5); OpInsert 1 (RecordPtr 1 0);
   OpDelete 3; OpUpdate 9 (RecordPtr 2 2); OpSearch 9; OpSearch 3; OpRange 1 7 10; OpSize].

Definition sample_tree : btree := default (BTree (NInternal [] []) 0 0 false 0) (btree_create 4).

Lemma btree_refines_map_witness :
  btree_wf (run btree_step sample_tree sample_ops).1 /\
  run map_step ∅ sample_ops =
    (bt_map (run btree_step sample_tree sample_ops).1, (run btree_step sample_tree sample_ops).2).
Proof.
  apply (btree_refines_map 4 sample_tree sample_ops); [reflexivity| |apply surjective_pairing].
  unfold sample_ops. repeat (apply Forall_cons; split; [cbn; lia|]). apply Forall_nil_2.
Defined.

(** The history splits the root and a leaf, rejects the duplicate key and
    answers from the final contents. *)
Example sample_outs :
  (run btree_step sample_tree sample_ops).2 =
    [OutRc 0; OutRc 0; OutRc 0; OutRc 0; OutRc (-1); OutRc 0; OutRc 0; OutRc 0;
     OutFound (Some (RecordPtr 2 2)); OutFound None;
     OutRange (Some [RecordPtr 1 0; RecordPtr 0 1; RecordPtr 0 4]); OutSize 4].
Proof. reflexivity. Qed.
