(* ===== verification/BTreeFile.v ===== *)
(** * The index file (server/storage/btree.c, persistence)

    [btree_save] serialises the tree in pre-order behind a 16-byte header,
    [btree_open] reads it back, allocating fresh nodes and rebuilding the leaf
    chain.  A value is written as the C struct: four bytes of page, two of slot
    and two bytes of padding, whose contents the language leaves open; they are
    the parameter [pad].  Access outside a node's arrays (a file may claim more keys
    than they hold) is an outcome of its own, as are a [NULL] return and a tree whose
    root is [NULL].  Allocation fails here only for an order that is negative. *)

From stdpp Require Import base tactics numbers list gmap strings.
From Stdlib Require Import ZArith Lia.
From S2P Require Import Prelude Types Utils Printf BTree.

#[local] Open Scope Z_scope.
#[local] Set Warnings "-register-all".

Definition BTREE_MAGIC : Z := 0x42505400.

Inductive rres (A : Type) :=
  | ROk (x : A) (rest : bytes)
  | RNull                           (* the C function returns NULL *)
  | RRootless                       (* btree_open: a tree with the root NULL *)
  | RFault                          (* read or write past a heap block *)
  | RFuel.                          (* recursion bound reached *)
Arguments ROk {A}. Arguments RNull {A}. Arguments RRootless {A}. Arguments RFault {A}. Arguments RFuel {A}.

Definition rbind {A B} (r : rres A) (f : A -> bytes -> rres B) : rres B :=
  match r with ROk x rest => f x rest | RNull => RNull | RRootless => RRootless | RFault => RFault | RFuel => RFuel end.

(** fread of [n] items of [w] bytes. *)
Fixpoint fread_items (w n : nat) (b : bytes) : rres (list bytes) :=
  match n with
  | O => ROk [] b
  | S n' =>
      if (length b <? w)%nat then RNull
      else rbind (fread_items w n' (drop w b)) (fun xs rest => ROk (take w b :: xs) rest)
  end.

Definition fread_u32 (b : bytes) : rres Z :=
  if (length b <? 4)%nat then RNull else ROk (le_dec (take 4 b)) (drop 4 b).

(** fread into an array of [cap] items: reading more than it holds overflows
    the block as soon as the file has that many bytes. *)
Definition fread_array (w cap n : nat) (b : bytes) : rres (list bytes) :=
  if (cap <? n)%nat && (cap * w <? length b)%nat then RFault else fread_items w n b.

Definition value_of_bytes (b : bytes) : record_ptr :=
  RecordPtr (rd 4 0 b) (rd 2 4 b).

(** The child loop; [rn] reads one node. *)
Fixpoint read_children (rn : Z -> bytes -> rres (node * Z)) (n : nat) (fresh : Z) (b : bytes)
    : rres (list node * Z) :=
  match n with
  | O => ROk ([], fresh) b
  | S n' =>
      rbind (rn fresh b) (fun '(c, fresh1) rest =>
        rbind (read_children rn n' fresh1 rest) (fun '(cs, fresh2) rest' =>
          ROk (c :: cs, fresh2) rest'))
  end.

(** The cast of a uint32_t to int. *)
Definition to_int (x : Z) : Z := if x <? 2 ^ 31 then x else x - 2 ^ 32.

(** The keys of a node; after a short read node_free, which for an internal node
    reads the children from 0 to (int)num_keys, of which there are order + 1. *)
Definition fread_keys (order is_leaf num_keys : Z) (b : bytes) : rres (list bytes) :=
  match fread_array 4 (Z.to_nat order) (Z.to_nat num_keys) b with
  | RNull => if (is_leaf =? 0) && (order <? to_int num_keys) then RFault else RNull
  | r => r
  end.

(** [fuel] bounds the depth; new leaves are numbered from [fresh].  With a negative
    order node_create returns NULL: calloc is asked for more than there are addresses. *)
Fixpoint read_node (fuel : nat) (order : Z) (fresh : Z) (b : bytes) : rres (node * Z) :=
  match fuel with
  | O => RFuel
  | S fuel' =>
      rbind (fread_u32 b) (fun is_leaf b1 =>
      rbind (fread_u32 b1) (fun num_keys b2 =>
      if order <? 0 then RNull else
      let n := Z.to_nat num_keys in
      rbind (fread_keys order is_leaf num_keys b2) (fun keys b3 =>
      if negb (is_leaf =? 0) then
        rbind (fread_array 8 (Z.to_nat order) n b3) (fun values b4 =>
          ROk (NLeaf {| l_addr := fresh; l_keys := map le_dec keys;
                        l_values := map value_of_bytes values; l_next := None |}, fresh + 1) b4)
      else
        rbind (read_children (read_node fuel' order) (S n) fresh b3) (fun '(cs, fresh') b4 =>
          ROk (NInternal (map le_dec keys) cs, fresh') b4))))
  end.

(** [leaf->next = nx] for the leaf at address [a]. *)
Definition next_to (a : Z) (nx : option Z) (l : leaf) : leaf :=
  if l_addr l =? a
  then {| l_addr := l_addr l; l_keys := l_keys l; l_values := l_values l; l_next := nx |}
  else l.

Fixpoint set_next (a : Z) (nx : option Z) (n : node) : node :=
  match n with
  | NLeaf l => NLeaf (next_to a nx l)
  | NInternal ks cs => NInternal ks (map (set_next a nx) cs)
  end.

(** One leaf of link_leaves's traversal; the state is the tree and prev_leaf. *)
Definition link_step (st : node * option Z) (a : Z) : node * option Z :=
  let '(root, prev) := st in
  let root1 := match prev with Some p => set_next p (Some a) root | None => root end in
  (set_next a None root1, Some a).

Definition link_leaves (root : node) : node :=
  fst (fold_left link_step (map l_addr (leaves root)) (root, None)).

(** [content = None]: the file cannot be opened. *)
Definition btree_open (content : option bytes) : rres btree :=
  match content with
  | None => RNull
  | Some b =>
      rbind (fread_u32 b) (fun magic b1 =>
      rbind (fread_u32 b1) (fun order b2 =>
      rbind (fread_u32 b2) (fun size b3 =>
      rbind (fread_u32 b3) (fun has_root b4 =>
      if negb (magic =? BTREE_MAGIC) then RNull
      else if negb (has_root =? 0) then
        rbind (read_node (S (length b)) (to_int order) 0 b4) (fun '(root, fresh) b5 =>
          ROk {| bt_root := link_leaves root; bt_order := Z.to_nat (to_int order); bt_size := size;
                 bt_dirty := false; bt_fresh := fresh |} b5)
      else if to_int order <? 0 then RRootless
      else
        ROk {| bt_root := NLeaf {| l_addr := 0; l_keys := []; l_values := []; l_next := None |};
               bt_order := Z.to_nat (to_int order); bt_size := size; bt_dirty := false; bt_fresh := 1 |} b4))))
  end.

Section write.
Context (pad : record_ptr -> bytes).

Definition value_bytes (v : record_ptr) : bytes :=
  le_enc 4 (rp_page_id v) ++ le_enc 2 (rp_slot_id v) ++ pad v.

Fixpoint write_node (n : node) : bytes :=
  match n with
  | NLeaf l =>
      le_enc 4 1 ++ le_enc 4 (Z.of_nat (length (l_keys l))) ++
      concat (map (le_enc 4) (l_keys l)) ++ concat (map value_bytes (l_values l))
  | NInternal ks cs =>
      le_enc 4 0 ++ le_enc 4 (Z.of_nat (length ks)) ++
      concat (map (le_enc 4) ks) ++ concat (map write_node cs)
  end.

(** The file's new contents and the tree with its dirty flag cleared. *)
Definition btree_save (t : btree) : btree * bytes :=
  ({| bt_root := bt_root t; bt_order := bt_order t; bt_size := bt_size t; bt_dirty := false;
      bt_fresh := bt_fresh t |},
   le_enc 4 BTREE_MAGIC ++ le_enc 4 (Z.of_nat (bt_order t)) ++ le_enc 4 (bt_size t) ++ le_enc 4 1
     ++ write_node (bt_root t)).

(** btree_create: the empty tree is saved at once. *)
Definition btree_create_file (order : nat) : option (btree * bytes) := btree_save <$> btree_create order.

(** btree_close: a clean tree leaves the file alone. *)
Definition btree_close (t : btree) (file : option bytes) : option bytes :=
  if bt_dirty t then Some (snd (btree_save t)) else file.

End write.

(** ** Reading on a longer file, and progress *)

(** What a read of [b] says about the read of [b ++ q]. *)
Definition rsub {A} (q : bytes) (r r' : rres A) : Prop :=
  match r with
  | ROk x rest => r' = ROk x (rest ++ q)
  | RFault => r' = RFault
  | RRootless => r' = RRootless
  | RNull | RFuel => True
  end.

(** What holds of a result: never out of fuel, [F] when it is a fault, [N] when it is a
    tree without a root, [Q] when it is a value. *)
Definition rends {A} (N F : Prop) (Q : A -> bytes -> Prop) (r : rres A) : Prop :=
  match r with ROk x rest => Q x rest | RFault => F | RRootless => N | RFuel => False | RNull => True end.
Abbreviation rok := (rends False).

Lemma rsub_bind {A B} q (r r' : rres A) (f f' : A -> bytes -> rres B) :
  rsub q r r' -> (forall x rest, r = ROk x rest -> rsub q (f x rest) (f' x (rest ++ q))) ->
  rsub q (rbind r f) (rbind r' f').
Proof. destruct r; cbn; intros Hr Hf; try rewrite Hr; cbn; auto. Qed.

Lemma rends_bind {A B} (N F F' : Prop) (Q : A -> bytes -> Prop) (Q' : B -> bytes -> Prop) r f :
  rok F Q r -> (F -> F') -> (forall x rest, Q x rest -> rends N F' Q' (f x rest)) -> rends N F' Q' (rbind r f).
Proof. by destruct r; cbn; auto. Qed.

Lemma rok_mono {A} (F F' : Prop) (Q Q' : A -> bytes -> Prop) r :
  rok F Q r -> (F -> F') -> (forall x rest, Q x rest -> Q' x rest) -> rok F' Q' r.
Proof. destruct r; cbn; auto. Qed.

Lemma fread_items_ok w n : forall b, rok False (fun xs rest => length xs = n /\ rest `suffix_of` b) (fread_items w n b).
Proof.
  induction n as [|n IH]; intros b; cbn [fread_items]; [done|]. case_match; [done|].
  eapply rends_bind; [apply IH|done|]. intros x rest [Hx Hs]. split; [cbn; lia|].
  etrans; [exact Hs|]. exists (take w b). by rewrite take_drop.
Qed.

Lemma fread_items_sub q w n : forall b, rsub q (fread_items w n b) (fread_items w n (b ++ q)).
Proof.
  induction n as [|n IH]; intros b; cbn [fread_items]; [done|]. rewrite length_app.
  destruct (Nat.ltb_spec (length b) w); [done|].
  destruct (Nat.ltb_spec (length b + length q) w); [lia|].
  rewrite drop_app_le, take_app_le by lia. by apply rsub_bind.
Qed.

Lemma fread_items_need w n b xs r : fread_items w n b = ROk xs r -> (n * w <= length b)%nat.
Proof.
  revert b xs r. induction n as [|n IH]; intros b xs r; cbn [fread_items]; [lia|].
  destruct (Nat.ltb_spec (length b) w); [done|].
  destruct (fread_items w n (drop w b)) eqn:He; cbn [rbind]; try done. intros _.
  apply IH in He. rewrite length_drop in He. lia.
Qed.

Lemma fread_items_no_fault w n b : fread_items w n b <> RFault /\ fread_items w n b <> RRootless.
Proof.
  revert b. induction n as [|n IH]; intros b; cbn [fread_items]; [done|].
  case_match; [done|]. specialize (IH (drop w b)). destruct IH. by destruct (fread_items w n (drop w b)).
Qed.

Lemma fread_u32_ok b : rok False (fun v rest => b = take 4 b ++ rest /\ length (take 4 b) = 4%nat /\ v = le_dec (take 4 b)) (fread_u32 b).
Proof.
  unfold fread_u32. destruct (Nat.ltb_spec (length b) 4); [done|]. cbn. rewrite take_drop, length_take. split; [done|]. split; [lia|done].
Qed.

Lemma fread_u32_sub q b : rsub q (fread_u32 b) (fread_u32 (b ++ q)).
Proof.
  unfold fread_u32. rewrite length_app. destruct (Nat.ltb_spec (length b) 4); [done|].
  destruct (Nat.ltb_spec (length b + length q) 4); [lia|].
  by rewrite drop_app_le, take_app_le by lia.
Qed.

Lemma fread_array_ok w cap n b : (0 < w)%nat ->
  rok (cap < n)%nat (fun xs rest => length xs = n /\ (n <= cap)%nat /\ rest `suffix_of` b) (fread_array w cap n b).
Proof.
  intros Hw. unfold fread_array. destruct (Nat.ltb_spec cap n) as [Hn|Hn]; cbn [andb].
  - destruct (Nat.ltb_spec (cap * w) (length b)); [done|]. pose proof (fread_items_need w n b) as H1. pose proof (fread_items_ok w n b) as H2.
    destruct (fread_items w n b) as [xs r| | | |]; cbn in *; try done. specialize (H1 _ _ eq_refl). nia.
  - eapply rok_mono; [apply fread_items_ok|done|]. cbn. intros xs rest [? ?]. by split_and!.
Qed.

Lemma fread_array_sub q w cap n b :
  (0 < w)%nat -> rsub q (fread_array w cap n b) (fread_array w cap n (b ++ q)).
Proof.
  intros Hw. unfold fread_array. destruct (Nat.ltb_spec cap n); cbn [andb]; [|apply fread_items_sub].
  rewrite length_app. destruct (Nat.ltb_spec (cap * w) (length b)).
  - by destruct (Nat.ltb_spec (cap * w) (length b + length q)); [|lia].
  - destruct (fread_items w n b) as [xs r| | | |] eqn:He; cbn [rsub]; try done.
    + apply fread_items_need in He. nia.
    + by destruct (fread_items_no_fault w n b).
    + by destruct (fread_items_no_fault w n b).
Qed.

Lemma fread_keys_ok order is_leaf num_keys b : 0 <= order ->
  rok (order < num_keys) (fun xs rest => length xs = Z.to_nat num_keys /\ num_keys <= order /\ rest `suffix_of` b)
    (fread_keys order is_leaf num_keys b).
Proof.
  intros Ho. unfold fread_keys. pose proof (fread_array_ok 4 (Z.to_nat order) (Z.to_nat num_keys) b ltac:(lia)) as H.
  destruct (fread_array _ _ _ b) as [xs r| | | |]; cbn [rends] in *; try done; [| |lia].
  - destruct H as (H1 & H2 & H3). split; [done|]. split; [lia|done].
  - destruct (Z.eqb_spec is_leaf 0); cbn [andb]; [|done]. destruct (Z.ltb_spec order (to_int num_keys)) as [Hl|]; [|done].
    cbn. unfold to_int in Hl. destruct (num_keys <? 2 ^ 31) eqn:E; lia.
Qed.

Lemma fread_keys_sub q order is_leaf num_keys b : 0 <= order ->
  rsub q (fread_keys order is_leaf num_keys b) (fread_keys order is_leaf num_keys (b ++ q)).
Proof.
  intros Ho. unfold fread_keys. pose proof (fread_array_sub q 4 (Z.to_nat order) (Z.to_nat num_keys) b ltac:(lia)) as H.
  pose proof (fread_array_ok 4 (Z.to_nat order) (Z.to_nat num_keys) (b ++ q) ltac:(lia)) as H2.
  destruct (fread_array _ _ _ b) as [xs r| | | |]; cbn [rsub] in *; try (by rewrite H); [|done].
  destruct ((is_leaf =? 0) && (order <? to_int num_keys)) eqn:E; [|done]. cbn [rsub].
  assert (Hlt : order < num_keys) by (unfold to_int in E; destruct (num_keys <? 2 ^ 31) eqn:E'; lia).
  destruct (fread_array _ _ _ (b ++ q)) as [xs r| | | |]; cbn [rends] in *; try done; lia.
Qed.

(** ** What is read *)

(** The arrays of every node hold its keys, values and children. *)
Inductive sized (order : nat) : node -> Prop :=
  | sized_leaf l : (length (l_keys l) <= order)%nat -> length (l_values l) = length (l_keys l) -> sized order (NLeaf l)
  | sized_internal ks cs : (length ks <= order)%nat -> length cs = S (length ks) -> Forall (sized order) cs -> sized order (NInternal ks cs).

(** Somewhere in the file the second word of a node's header, the number of its keys,
    is above the order. *)
Definition overclaims (order : Z) (b : bytes) : Prop :=
  exists pre header post, b = pre ++ header ++ post /\ length header = 8%nat /\ order < le_dec (drop 4 header).

Lemma overclaims_suffix order b b' : b' `suffix_of` b -> overclaims order b' -> overclaims order b.
Proof. intros [k ->] (pre & h & post & -> & Hh & Ho). exists (k ++ pre), h, post. by rewrite app_assoc. Qed.

(** Nodes read in sequence: in order, and with consecutive numbers for their leaves. *)
Definition nodes_read (order : Z) (b : bytes) (fresh : Z) (cs : list node) (fresh' : Z) (rest : bytes) : Prop :=
  Forall (sized (Z.to_nat order)) cs /\ fresh <= fresh' /\
  map l_addr (concat (map leaves cs)) = seqZ fresh (fresh' - fresh) /\ rest `suffix_of` b.

Lemma read_children_ok order k rn n : forall fresh b,
  (forall fresh b, (length b <= k)%nat -> rok (overclaims order b) (fun '(c, f) rest => nodes_read order b fresh [c] f rest) (rn fresh b)) ->
  (length b <= k)%nat ->
  rok (overclaims order b) (fun '(cs, f) rest => length cs = n /\ nodes_read order b fresh cs f rest) (read_children rn n fresh b).
Proof.
  induction n as [|n IH]; intros fresh b Hrn Hb; cbn [read_children].
  { cbn [rends]. split; [done|]. split; [constructor|]. split; [lia|]. split; [by rewrite Z.sub_diag|done]. }
  eapply rends_bind; [by apply Hrn|done|]. intros [c f1] rest (Hc & Hf & Ha & Hs).
  pose proof (suffix_length _ _ Hs). eapply rends_bind; [apply (IH f1 rest Hrn); lia|by apply overclaims_suffix|].
  intros [cs f2] rest' (Hl & Hcs & Hf' & Ha' & Hs'). cbn [rends]. split; [cbn; lia|].
  split; [apply Forall_cons; split; [by inversion Hc|done]|]. split; [lia|]. split; [|by etrans].
  cbn [map concat] in Ha |- *. rewrite app_nil_r in Ha. rewrite map_app, Ha, Ha'.
  replace f1 with (fresh + (f1 - fresh)) at 2 by lia. rewrite <- seqZ_app by lia. f_equal. lia.
Qed.

Lemma read_node_ok order fuel : forall fresh b, (length b < fuel)%nat ->
  rok (overclaims order b) (fun '(n, f) rest => nodes_read order b fresh [n] f rest) (read_node fuel order fresh b).
Proof.
  induction fuel as [|fuel IH]; intros fresh b Hb; cbn [read_node]; [lia|].
  eapply rends_bind; [apply fread_u32_ok|done|]. intros is_leaf b1 (E1 & L1 & _).
  eapply rends_bind; [apply fread_u32_ok|done|]. intros nk b2 (E2 & L2 & Ek).
  destruct (Z.ltb_spec order 0) as [|Ho]; [done|].
  assert (Hs2 : b2 `suffix_of` b) by (exists (take 4 b ++ take 4 b1); rewrite E1 at 1; rewrite E2 at 1; by rewrite <- app_assoc).
  assert (Hb2 : (length b2 + 8 = length b)%nat) by (rewrite E1, E2, !length_app; lia).
  eapply rends_bind; [by apply fread_keys_ok| |].
  { intros Hlt. exists [], (take 4 b ++ take 4 b1), b2. split; [rewrite E1 at 1; rewrite E2 at 1; by rewrite <- app_assoc|].
    rewrite length_app. split; [lia|]. rewrite drop_app_length' by done. by rewrite <- Ek. }
  intros keys b3 (Hkl & Hko & Hs3). pose proof (suffix_length _ _ Hs3). destruct (negb _).
  - eapply rends_bind; [apply fread_array_ok; lia|intros; lia|]. intros values b4 (Hvl & _ & Hs4). cbn.
    split; [apply Forall_singleton; constructor; cbn; rewrite !length_map; lia|]. split; [lia|]. split; [by replace (fresh + 1 - fresh) with 1 by lia|].
    etrans; [exact Hs4|]. by etrans.
  - eapply rends_bind; [apply (read_children_ok order (length b3)); [intros f b' Hb'; apply IH; lia|lia]|apply overclaims_suffix; by etrans|].
    intros [cs f] b4 (Hl & Hcs & Hf & Ha & Hs4). cbn.
    split; [apply Forall_singleton; constructor; rewrite ?length_map; [lia|lia|done]|]. split; [done|].
    split; [cbn [map concat leaves]; by rewrite app_nil_r|]. etrans; [exact Hs4|]. by etrans.
Qed.

Lemma read_children_sub q rn rn' n : forall fresh b,
  (forall fresh b, rsub q (rn fresh b) (rn' fresh (b ++ q))) ->
  rsub q (read_children rn n fresh b) (read_children rn' n fresh (b ++ q)).
Proof.
  induction n as [|n IH]; intros fresh b Hrn; cbn [read_children]; [done|].
  apply rsub_bind; [done|]. intros [c f1] rest _.
  apply rsub_bind; [by apply IH|]. by intros [cs f2] rest' _.
Qed.

Lemma read_node_sub q order fuel : forall fuel' fresh b, (fuel <= fuel')%nat ->
  rsub q (read_node fuel order fresh b) (read_node fuel' order fresh (b ++ q)).
Proof.
  induction fuel as [|fuel IH]; intros [|fuel'] fresh b Hf; try done; [lia|]. cbn [read_node].
  apply rsub_bind; [apply fread_u32_sub|]. intros is_leaf b1 _.
  apply rsub_bind; [apply fread_u32_sub|]. intros nk b2 _.
  destruct (Z.ltb_spec order 0); [done|].
  apply rsub_bind; [by apply fread_keys_sub|]. intros keys b3 _.
  destruct (negb _).
  - apply rsub_bind; [by apply fread_array_sub; lia|]. done.
  - apply rsub_bind; [|by intros [cs f] b4 _].
    apply read_children_sub. intros. apply IH. lia.
Qed.

Lemma btree_open_sub q b : rsub q (btree_open (Some b)) (btree_open (Some (b ++ q))).
Proof.
  cbn [btree_open].
  apply rsub_bind; [apply fread_u32_sub|]. intros magic b1 _.
  apply rsub_bind; [apply fread_u32_sub|]. intros order b2 _.
  apply rsub_bind; [apply fread_u32_sub|]. intros size b3 _.
  apply rsub_bind; [apply fread_u32_sub|]. intros has_root b4 _.
  destruct (negb (magic =? BTREE_MAGIC)); [done|]. rewrite length_app.
  destruct (negb _); [|by destruct (to_int order <? 0)].
  apply rsub_bind; [apply read_node_sub; lia|]. by intros [root fresh] b5 _.
Qed.

(** The order in the header of a file. *)
Definition file_order (b : bytes) : Z := to_int (le_dec (take 4 (drop 4 b))).

(** ** Reading back what was written *)

Lemma fread_items_app w xs rest :
  Forall (fun x : bytes => length x = w) xs -> fread_items w (length xs) (concat xs ++ rest) = ROk xs rest.
Proof.
  induction 1 as [|x xs Hx _ IH]; [done|]. cbn [length concat fread_items].
  rewrite <- app_assoc. rewrite length_app.
  destruct (Nat.ltb_spec (length x + length (concat xs ++ rest)) w); [lia|].
  rewrite <- Hx, drop_app_length, take_app_length, Hx. by rewrite IH.
Qed.

Lemma fread_array_app w cap n xs rest :
  n = length xs -> (n <= cap)%nat -> Forall (fun x : bytes => length x = w) xs ->
  fread_array w cap n (concat xs ++ rest) = ROk xs rest.
Proof.
  intros -> Hc Hx. unfold fread_array. destruct (Nat.ltb_spec cap (length xs)); [lia|].
  by apply fread_items_app.
Qed.

Lemma fread_u32_app v rest : 0 <= v < 2 ^ 32 -> fread_u32 (le_enc 4 v ++ rest) = ROk v rest.
Proof.
  intros Hv. unfold fread_u32. rewrite length_app, length_le_enc.
  destruct (Nat.ltb_spec (4 + length rest) 4); [lia|].
  rewrite take_app_length', drop_app_length' by (by rewrite length_le_enc).
  by rewrite le_dec_enc, wrap_small.
Qed.

(** A node without its leaves' identities. *)
Fixpoint shape (n : node) : node :=
  match n with
  | NLeaf l => NLeaf {| l_addr := 0; l_keys := l_keys l; l_values := l_values l; l_next := None |}
  | NInternal ks cs => NInternal ks (map shape cs)
  end.

Definition storable (kv : Z * record_ptr) : Prop := 0 <= kv.1 < 4294967296 /\ record_ptr_ok kv.2.

Section readback.
Context (pad : record_ptr -> bytes) (Hpad : forall r, length (pad r) = 2%nat).

Lemma length_value_bytes v : length (value_bytes pad v) = 8%nat.
Proof. unfold value_bytes. by rewrite !length_app, !length_le_enc, Hpad. Qed.

Lemma value_of_bytes_bytes v : record_ptr_ok v -> value_of_bytes (value_bytes pad v) = v.
Proof.
  intros [H1 H2]. unfold value_of_bytes, value_bytes, rd. destruct v as [p s]. cbn in *. f_equal.
  - rewrite slice_app_l by (rewrite length_le_enc; lia). unfold slice.
    rewrite drop_0, take_ge by (by rewrite length_le_enc). by rewrite le_dec_enc, wrap_small.
  - rewrite slice_app_r by (rewrite length_le_enc; lia). rewrite length_le_enc.
    rewrite slice_app_l by (rewrite length_le_enc; lia). unfold slice.
    rewrite drop_0, take_ge by (by rewrite length_le_enc). by rewrite le_dec_enc, wrap_small.
Qed.

Lemma keys_of_bytes ks :
  Forall (fun k => 0 <= k < 4294967296) ks -> map le_dec (map (le_enc 4) ks) = ks.
Proof.
  induction 1 as [|k ks Hk _ IH]; cbn; [done|]. f_equal; [|done]. by rewrite le_dec_enc, wrap_small.
Qed.

Lemma values_of_bytes vs :
  Forall record_ptr_ok vs -> map value_of_bytes (map (value_bytes pad) vs) = vs.
Proof.
  induction 1 as [|v vs Hv _ IH]; cbn; [done|]. f_equal; [|done]. by apply value_of_bytes_bytes.
Qed.

Lemma read_keys order is_leaf ks rest :
  (length ks <= order)%nat ->
  fread_keys (Z.of_nat order) is_leaf (Z.of_nat (length ks)) (concat (map (le_enc 4) ks) ++ rest) = ROk (map (le_enc 4) ks) rest.
Proof.
  intros Hl. unfold fread_keys. rewrite !Nat2Z.id, (fread_array_app 4 order _ (map (le_enc 4) ks)); [done|by rewrite length_map|done|].
  apply Forall_forall. intros x (k & -> & _)%list_elem_of_fmap. apply length_le_enc.
Qed.

Lemma read_values order vs n rest :
  length vs = n -> (n <= order)%nat ->
  fread_array 8 order n (concat (map (value_bytes pad) vs) ++ rest) = ROk (map (value_bytes pad) vs) rest.
Proof.
  intros <- Hl. apply fread_array_app; [by rewrite length_map|done|].
  apply Forall_forall. intros x (v & -> & _)%list_elem_of_fmap. apply length_value_bytes.
Qed.

(** The node read back has the written shape and freshly numbered leaves. *)
Definition read_as (fresh : Z) (n n' : node) : Prop :=
  shape n' = shape n /\ map l_addr (leaves n') = seqZ fresh (Z.of_nat (length (leaves n))).

Lemma seqZ_app_nat a (m n : nat) :
  seqZ a (Z.of_nat m) ++ seqZ (a + Z.of_nat m) (Z.of_nat n) = seqZ a (Z.of_nat (m + n)).
Proof. rewrite Nat2Z.inj_add. symmetry. apply seqZ_app; lia. Qed.

Lemma read_node_write order : 0 <= Z.of_nat order < 2 ^ 31 ->
  (forall h lo hi n, node_wf order h lo hi n -> -1 <= lo -> hi <= 4294967296 ->
     Forall storable (flat n) ->
     forall fuel fresh rest, (h < fuel)%nat ->
     exists n', read_node fuel (Z.of_nat order) fresh (write_node pad n ++ rest) =
                  ROk (n', fresh + Z.of_nat (length (leaves n))) rest /\ read_as fresh n n') /\
  (forall h lo ks cs hi, children_wf order h lo ks cs hi -> -1 <= lo -> hi <= 4294967296 ->
     Forall storable (concat (map flat cs)) ->
     forall fuel fresh rest, (h < fuel)%nat ->
     length cs = S (length ks) /\ Forall (fun k => 0 <= k < 4294967296) ks /\
     exists cs', read_children (read_node fuel (Z.of_nat order)) (length cs) fresh
                   (concat (map (write_node pad) cs) ++ rest) =
                   ROk (cs', fresh + Z.of_nat (length (concat (map leaves cs)))) rest /\
       map shape cs' = map shape cs /\
       map l_addr (concat (map leaves cs')) =
         seqZ fresh (Z.of_nat (length (concat (map leaves cs))))).
Proof.
  intros Hord. apply tree_wf_mut.
  - intros lo hi l (Hv & Hs & Hb & Hn) Hlo Hhi Hst fuel fresh rest Hfu.
    destruct fuel as [|fuel]; [lia|]. cbn [read_node write_node]. rewrite <- !app_assoc.
    rewrite fread_u32_app by lia. cbn [rbind].
    rewrite fread_u32_app by lia. cbn [rbind]. destruct (Z.ltb_spec (Z.of_nat order) 0); [lia|].
    rewrite read_keys by lia. cbn [rbind]. cbn [negb Z.eqb]. rewrite !Nat2Z.id.
    rewrite read_values by (lia || done). cbn [rbind].
    rewrite flat_leaf in Hst. unfold leaf_bindings in Hst.
    assert (Hk : Forall (fun k => 0 <= k < 4294967296) (l_keys l)).
    { rewrite <- (fst_zip (l_keys l) (l_values l)) by lia. apply Forall_fmap.
      eapply Forall_impl; [exact Hst|]. by intros [k v] [? _]. }
    eexists. split; [reflexivity|]. split; cbn.
    + rewrite keys_of_bytes, values_of_bytes; [done| |done].
      rewrite <- (snd_zip (l_keys l) (l_values l)) by lia. apply Forall_fmap.
      eapply Forall_impl; [exact Hst|]. by intros [k v] [_ ?].
    + done.
  - intros h lo hi ks cs Hlen _ IH Hlo Hhi Hst fuel fresh rest Hfu.
    destruct fuel as [|fuel]; [lia|]. cbn [read_node write_node]. rewrite <- !app_assoc.
    rewrite flat_internal in Hst.
    destruct (IH Hlo Hhi Hst fuel fresh rest) as (Hcs & Hk & cs' & Hr & Hsh & Had); [lia|].
    rewrite fread_u32_app by lia. cbn [rbind].
    rewrite fread_u32_app by lia. cbn [rbind]. destruct (Z.ltb_spec (Z.of_nat order) 0); [lia|].
    rewrite read_keys by lia. cbn [rbind negb Z.eqb]. rewrite Nat2Z.id, <- Hcs, Hr. cbn [rbind].
    eexists. split; [reflexivity|]. split; cbn; [|done]. by rewrite keys_of_bytes, Hsh.
  - intros h lo hi c _ IH Hlo Hhi Hst fuel fresh rest Hfu. cbn in Hst. rewrite app_nil_r in Hst.
    split; [done|]. split; [done|]. cbn [length map concat read_children]. rewrite !app_nil_r.
    destruct (IH Hlo Hhi Hst fuel fresh rest Hfu) as (c' & -> & Hsh & Had). cbn [rbind].
    eexists. split; [reflexivity|]. cbn. by rewrite Hsh, app_nil_r.
  - intros h lo hi k ks c cs Hk _ IHc _ IHcs Hlo Hhi Hst fuel fresh rest Hfu.
    cbn in Hst. apply Forall_app in Hst as [Hst1 Hst2].
    cbn [length map concat read_children]. rewrite <- app_assoc.
    destruct (IHc Hlo ltac:(lia) Hst1 fuel fresh (concat (map (write_node pad) cs) ++ rest) Hfu)
      as (c' & -> & Hsh & Had). cbn [rbind].
    destruct (IHcs ltac:(lia) Hhi Hst2 fuel (fresh + Z.of_nat (length (leaves c))) rest Hfu)
      as (Hl & Hks & cs' & -> & Hsh' & Had'). cbn [rbind].
    split; [cbn; lia|]. split; [constructor; [lia|done]|].
    eexists. split; [rewrite length_app, Nat2Z.inj_add, Z.add_assoc; reflexivity|].
    cbn. rewrite Hsh, Hsh', map_app, Had, Had'. split; [done|]. by rewrite length_app, seqZ_app_nat.
Qed.

End readback.

(** ** Rebuilding the leaf chain *)

Lemma leaves_set_next a nx n : leaves (set_next a nx n) = map (next_to a nx) (leaves n).
Proof.
  induction n as [l|ks cs IH] using node_ind'; cbn; [done|].
  rewrite concat_map. f_equal. induction IH as [|c cs Hc _ IHcs]; cbn; [done|]. by rewrite Hc, IHcs.
Qed.

Lemma shape_set_next a nx n : shape (set_next a nx n) = shape n.
Proof.
  induction n as [l|ks cs IH] using node_ind'; cbn.
  - unfold next_to. by case_match.
  - f_equal. induction IH as [|c cs Hc _ IHcs]; cbn; [done|]. by rewrite Hc, IHcs.
Qed.

Lemma next_to_addr a nx l : l_addr (next_to a nx l) = l_addr l.
Proof. unfold next_to. by case_match. Qed.

Lemma next_to_same nx l : l_next (next_to (l_addr l) nx l) = nx.
Proof. unfold next_to. by rewrite Z.eqb_refl. Qed.

Lemma next_to_middle A x B nx :
  NoDup (map l_addr (A ++ x :: B)) ->
  map (next_to (l_addr x) nx) (A ++ x :: B) = A ++ next_to (l_addr x) nx x :: B.
Proof.
  intros Hnd. rewrite map_app in *. cbn in *. apply NoDup_app_middle in Hnd.
  apply not_elem_of_app in Hnd as [HA HB].
  assert (Hid : forall L, (l_addr x ∉ map l_addr L) -> map (next_to (l_addr x) nx) L = L).
  { induction L as [|y L IH]; cbn; intros Hy; [done|]. apply not_elem_of_cons in Hy as [Hne Hy].
    rewrite IH by done. f_equal. unfold next_to.
    destruct (Z.eqb_spec (l_addr y) (l_addr x)); [congruence|done]. }
  by rewrite !Hid.
Qed.

Lemma link_fold T : forall D root prev,
  leaves root = D ++ T -> NoDup (map l_addr (leaves root)) ->
  prev = last (map l_addr D) -> linked D None ->
  let root' := fst (fold_left link_step (map l_addr T) (root, prev)) in
  shape root' = shape root /\ map l_addr (leaves root') = map l_addr (leaves root) /\
  linked (leaves root') None.
Proof.
  induction T as [|l T IH]; intros D root prev HL Hnd Hp Hl; cbn [map fold_left].
  { cbn. rewrite HL, app_nil_r. done. }
  cbn [link_step]. set (root1 := match prev with Some p => _ | None => root end).
  assert (H1 : exists D', leaves root1 = D' ++ l :: T /\ map l_addr D' = map l_addr D /\
                          linked D' (Some (l_addr l)) /\ shape root1 = shape root).
  { destruct D as [|d D0 _] using rev_ind.
    - subst prev. exists []. done.
    - rewrite map_app in Hp. cbn in Hp. rewrite last_snoc in Hp. subst prev. cbn in root1.
      rewrite <- app_assoc in HL. cbn in HL. unfold root1.
      rewrite leaves_set_next, shape_set_next, HL. rewrite HL in Hnd. rewrite next_to_middle by done.
      exists (D0 ++ [next_to (l_addr d) (Some (l_addr l)) d]).
      rewrite <- app_assoc, !map_app. cbn. rewrite next_to_addr. split; [done|]. split; [done|].
      split; [|done]. rewrite linked_app in *. cbn in *.
      rewrite next_to_addr, next_to_same. tauto. }
  destruct H1 as (D' & HL1 & Had & Hl1 & Hs1).
  assert (Hnd1 : NoDup (map l_addr (leaves root1))).
  { rewrite HL1, map_app, Had. by rewrite HL, map_app in Hnd. }
  set (root2 := set_next (l_addr l) None root1).
  assert (HL2 : leaves root2 = (D' ++ [next_to (l_addr l) None l]) ++ T).
  { unfold root2. rewrite leaves_set_next, HL1, next_to_middle by (by rewrite <- HL1).
    by rewrite <- app_assoc. }
  assert (Ha2 : map l_addr (leaves root2) = map l_addr (leaves root)).
  { rewrite HL2, HL, !map_app. cbn. by rewrite next_to_addr, Had, <- app_assoc. }
  destruct (IH (D' ++ [next_to (l_addr l) None l]) root2 (Some (l_addr l)) HL2) as (Hs & Ha & Hk).
  - by rewrite Ha2.
  - rewrite map_app. cbn. by rewrite last_snoc, next_to_addr.
  - rewrite linked_app. cbn. by rewrite next_to_addr, next_to_same.
  - cbn in Hs, Ha, Hk |- *. rewrite Hs, Ha, Ha2. unfold root2. by rewrite shape_set_next, Hs1.
Qed.

Lemma link_leaves_spec root :
  NoDup (map l_addr (leaves root)) ->
  shape (link_leaves root) = shape root /\
  map l_addr (leaves (link_leaves root)) = map l_addr (leaves root) /\
  linked (leaves (link_leaves root)) None.
Proof. intros Hnd. by apply (link_fold (leaves root) [] root None). Qed.

(** ** What depends only on the shape *)

Lemma sized_shape order n : sized order n -> forall n', shape n' = shape n -> sized order n'.
Proof.
  induction n as [l|ks cs IH] using node_ind'; intros Hn [l'|ks' cs'] E; inversion Hn as [? H1 H2|? ? H1 H2 H3]; subst; try done.
  - injection E as E1 E2. constructor; by rewrite E1, ?E2.
  - injection E as -> E2. assert (Hl : length cs' = length cs) by by rewrite <- (length_map shape cs'), E2, length_map.
    constructor; [done|lia|]. clear -IH H3 E2. revert cs' E2. induction IH as [|c cs Hc _ IHcs]; intros [|c' cs']; cbn; intros [=]; [done|].
    apply Forall_cons in H3 as [H3 H4]. constructor; auto.
Qed.

(** The tree of a file. *)
Lemma btree_open_ends b :
  rends (file_order b < 0) (0 <= file_order b /\ overclaims (file_order b) (drop 16 b)) (fun t rest =>
      rest `suffix_of` b /\ bt_order t = Z.to_nat (file_order b) /\
      sized (bt_order t) (bt_root t) /\ NoDup (map l_addr (leaves (bt_root t))) /\ linked (leaves (bt_root t)) None)
    (btree_open (Some b)).
Proof.
  cbn [btree_open].
  eapply rends_bind; [apply fread_u32_ok|done|]. intros magic b1 (E1 & L1 & _).
  eapply rends_bind; [apply fread_u32_ok|done|]. intros order b2 (E2 & L2 & Eo).
  eapply rends_bind; [apply fread_u32_ok|done|]. intros size b3 (E3 & L3 & _).
  eapply rends_bind; [apply fread_u32_ok|done|]. intros has_root b4 (E4 & L4 & _).
  assert (Hb : b = (take 4 b ++ take 4 b1 ++ take 4 b2 ++ take 4 b3) ++ b4) by (rewrite E1 at 1; rewrite E2 at 1; rewrite E3 at 1; rewrite E4 at 1; by rewrite <- !app_assoc).
  assert (H4 : drop 16 b = b4) by (rewrite Hb; apply drop_app_length'; rewrite !length_app; lia).
  assert (Ho : file_order b = to_int order) by (unfold file_order; rewrite E1 at 1; rewrite drop_app_length' by done; by rewrite <- Eo).
  assert (Hs : b4 `suffix_of` b) by by eexists. rewrite Ho, H4. clear Ho H4 Hb.
  destruct (negb (magic =? BTREE_MAGIC)); [done|]. destruct (negb (has_root =? 0)).
  - destruct (Z.ltb_spec (to_int order) 0) as [Hneg|Hpos].
    { cbn [read_node]. eapply (rends_bind _ False _ (fun _ _ => False)); [|intros []|by intros [? ?] ? []]. eapply (rends_bind _ False); [apply fread_u32_ok|done|].
      intros is_leaf b5 _. eapply (rends_bind _ False); [apply fread_u32_ok|done|]. intros nk b6 _. by destruct (Z.ltb_spec (to_int order) 0); [|lia]. }
    eapply rends_bind; [apply read_node_ok; pose proof (suffix_length _ _ Hs); lia|done|]. intros [root fresh] b5 (Hz & _ & Ha & Hs5). cbn.
    cbn [map concat] in Ha. rewrite app_nil_r in Ha. assert (Hnd : NoDup (map l_addr (leaves root))) by (rewrite Ha; apply NoDup_seqZ).
    destruct (link_leaves_spec root Hnd) as (H1 & H2 & H3). apply Forall_inv in Hz.
    split; [by etrans|]. split; [done|]. split; [by apply (sized_shape _ root)|]. by rewrite H2.
  - destruct (Z.ltb_spec (to_int order) 0); [done|]. cbn. split; [done|]. split; [done|]. split; [constructor; cbn; lia|].
    split; [apply NoDup_singleton|done].
Qed.

Lemma flat_shape n : flat (shape n) = flat n.
Proof.
  induction n as [l|ks cs IH] using node_ind'; [done|].
  cbn [shape]. rewrite !flat_internal. f_equal.
  induction IH as [|c cs Hc _ IHcs]; cbn; [done|]. by rewrite Hc, IHcs.
Qed.

Lemma wf_shape order :
  (forall h lo hi n, node_wf order h lo hi n ->
     forall n', shape n' = shape n -> node_wf order h lo hi n') /\
  (forall h lo ks cs hi, children_wf order h lo ks cs hi ->
     forall cs', map shape cs' = map shape cs -> children_wf order h lo ks cs' hi).
Proof.
  apply tree_wf_mut.
  - intros lo hi l Hl [l'|ks cs]; [|done]. intros [= Hk Hv]. constructor.
    unfold leaf_wf in *. by rewrite Hk, Hv.
  - intros h lo hi ks cs Hlen _ IH [l'|ks' cs']; [done|]. intros [= -> Hcs]. constructor; auto.
  - intros h lo hi c _ IH [|c' [|]]; cbn; intros [=]. constructor. auto.
  - intros h lo hi k ks c cs Hk _ IHc _ IHcs [|c' cs']; cbn; intros [=]. constructor; auto.
Qed.

Lemma height_bytes pad order :
  (forall h lo hi n, node_wf order h lo hi n -> (h < length (write_node pad n))%nat) /\
  (forall h lo ks cs hi, children_wf order h lo ks cs hi ->
     (h < length (concat (map (write_node pad) cs)))%nat).
Proof.
  apply tree_wf_mut; intros; cbn [write_node map concat]; rewrite ?length_app, ?length_le_enc; lia.
Qed.

Lemma seqZ_below n m : Forall (fun a => a < m) (seqZ n (m - n)).
Proof. apply Forall_forall. intros x Hx%elem_of_seqZ. lia. Qed.

Lemma btree_open_header order size b :
  0 <= order < 2 ^ 31 -> 0 <= size < 2 ^ 32 ->
  let f := le_enc 4 BTREE_MAGIC ++ le_enc 4 order ++ le_enc 4 size ++ le_enc 4 1 ++ b in
  btree_open (Some f) =
    rbind (read_node (S (length f)) order 0 b) (fun '(root, fresh) b5 =>
      ROk {| bt_root := link_leaves root; bt_order := Z.to_nat order; bt_size := size;
             bt_dirty := false; bt_fresh := fresh |} b5).
Proof.
  intros Ho Hs. cbn [btree_open].
  rewrite fread_u32_app by (unfold BTREE_MAGIC; lia). cbn [rbind].
  rewrite fread_u32_app by lia. cbn [rbind].
  rewrite fread_u32_app by done. cbn [rbind].
  rewrite fread_u32_app by lia. cbn [rbind]. rewrite Z.eqb_refl.
  assert (E : to_int order = order) by (unfold to_int; by destruct (Z.ltb_spec order (2 ^ 31)); [|lia]). by rewrite E.
Qed.

Definition saved_as (t t' : btree) : Prop :=
  btree_wf t' /\ bt_map t' = bt_map t /\ flat (bt_root t') = flat (bt_root t) /\
  bt_order t' = bt_order t /\ bt_size t' = bt_size t /\ bt_dirty t' = false.

Lemma save_open pad t :
  (forall r, length (pad r) = 2%nat) -> btree_wf t -> Z.of_nat (bt_order t) < 2 ^ 31 ->
  Forall storable (flat (bt_root t)) ->
  exists t', btree_open (Some (snd (btree_save pad t))) = ROk t' [] /\ saved_as t t'.
Proof.
  intros Hpad [Ho [h Hn] Hl Ha Hf Hs] Hord Hst. unfold btree_save. cbn [snd].
  assert (Hsz : 0 <= bt_size t < 2 ^ 32) by (rewrite Hs; apply wrap_range; lia).
  rewrite btree_open_header by lia.
  rewrite <- (app_nil_r (write_node pad (bt_root t))).
  match goal with |- context [read_node (S ?n)] => set (fu := n) end.
  destruct (proj1 (read_node_write pad Hpad (bt_order t) ltac:(lia)) h _ _ _ Hn ltac:(lia) ltac:(lia) Hst
              (S fu) 0 []) as (n' & -> & Hsh & Had).
  { pose proof (proj1 (height_bytes pad (bt_order t)) _ _ _ _ Hn). unfold fu.
    rewrite !length_app, !length_le_enc. lia. }
  cbn [rbind]. rewrite Nat2Z.id. eexists. split; [reflexivity|].
  assert (Hnd : NoDup (map l_addr (leaves n'))) by (rewrite Had; apply NoDup_seqZ).
  destruct (link_leaves_spec n' Hnd) as (Hsh' & Had' & Hlk).
  assert (Hfl : flat (link_leaves n') = flat (bt_root t))
    by by rewrite <- (flat_shape (link_leaves n')), Hsh', Hsh, flat_shape.
  unfold saved_as, bt_map. cbn [bt_root bt_order bt_size bt_dirty]. rewrite Hfl.
  split; [|done]. constructor; cbn [bt_root bt_order bt_size bt_dirty bt_fresh].
  - done.
  - exists h. apply (proj1 (wf_shape (bt_order t)) _ _ _ _ Hn). by rewrite Hsh'.
  - done.
  - by rewrite Had'.
  - apply (Forall_fmap l_addr (fun a => a < _)). change (l_addr <$> ?x) with (map l_addr x).
    rewrite Had', Had. rewrite <- (Z.sub_0_r (Z.of_nat _)) at 1. apply seqZ_below.
  - by rewrite Hfl.
Qed.

(** C36: a saved index is opened again as the same index: from the file written
    by btree_save, btree_open consumes every byte and rebuilds a tree with the
    same bindings, order and size that satisfies the whole invariant, leaf
    chain included, whatever the padding bytes of the stored values. *)
Theorem btree_save_open pad t :
  (forall r, length (pad r) = 2%nat) -> btree_wf t -> Z.of_nat (bt_order t) < 2 ^ 31 ->
  Forall storable (flat (bt_root t)) ->
  exists t', btree_open (Some (snd (btree_save pad t))) = ROk t' [] /\ saved_as t t'.
Proof. apply save_open. Qed.

(** A save cut short by a crash is detected: btree_open returns NULL on every
    strict prefix of a saved index file, so a truncated index is never mistaken
    for a smaller one. *)
Theorem btree_open_truncated pad t p q :
  (forall r, length (pad r) = 2%nat) -> btree_wf t -> Z.of_nat (bt_order t) < 2 ^ 31 ->
  Forall storable (flat (bt_root t)) ->
  snd (btree_save pad t) = p ++ q -> q <> [] -> btree_open (Some p) = RNull.
Proof.
  intros Hpad Hwf Hord Hst Hpq Hq. destruct (save_open pad t Hpad Hwf Hord Hst) as (t' & Ho & _).
  rewrite Hpq in Ho. pose proof (btree_open_sub q p) as Hsub. rewrite Ho in Hsub.
  pose proof (btree_open_ends p) as Hg. destruct (btree_open (Some p)) as [x r| | | |]; cbn [rsub rends] in *; try done.
  injection Hsub as _ Hr. symmetry in Hr. by apply app_nil in Hr as [_ ->].
Qed.


(** ** Printing *)

Definition print_keys (ks : list Z) : bytes := concat (imap (fun i k => dec k ++ (if (i <? length ks - 1)%nat then lit "," else [])) ks) ++ [10].

(** What print_node and btree_print write to stderr. *)
Fixpoint print_node (n : node) (depth : nat) : bytes :=
  concat (replicate depth (lit "  ")) ++
  match n with
  | NLeaf l => lit "[LEAF keys=" ++ dec (Z.of_nat (length (l_keys l))) ++ lit "] " ++ print_keys (l_keys l)
  | NInternal ks cs =>
      lit "[INTERNAL keys=" ++ dec (Z.of_nat (length ks)) ++ lit "] " ++ print_keys ks ++
      concat ((fix children (cs : list node) : list bytes :=
                 match cs with [] => [] | c :: cs' => print_node c (S depth) :: children cs' end) cs)
  end.

Definition btree_print (t : option btree) : bytes :=
  match t with
  | None => lit "(null tree)" ++ [10]
  | Some t =>
      lit "=== B+ Tree (order=" ++ dec (Z.of_nat (bt_order t)) ++ lit ", size=" ++ dec (bt_size t) ++ lit ") ===" ++ [10] ++
      print_node (bt_root t) 0 ++ lit "===================================" ++ [10]
  end.

(** ** Concrete runs *)

Definition zero_pad (r : record_ptr) : bytes := [0; 0].

Definition two_leaf_tree : btree :=
  let l1 := {| l_addr := 0; l_keys := [10; 20]; l_values := [RecordPtr 0 1; RecordPtr 0 2];
               l_next := Some 1 |} in
  let l2 := {| l_addr := 1; l_keys := [30]; l_values := [RecordPtr 7 3]; l_next := None |} in
  {| bt_root := NInternal [30] [NLeaf l1; NLeaf l2]; bt_order := 4; bt_size := 3;
     bt_dirty := true; bt_fresh := 2 |}.

Example two_leaf_tree_printed : btree_print (Some two_leaf_tree) =
  lit "=== B+ Tree (order=4, size=3) ===" ++ [10] ++ lit "[INTERNAL keys=1] 30" ++ [10] ++
  lit "  [LEAF keys=2] 10,20" ++ [10] ++ lit "  [LEAF keys=1] 30" ++ [10] ++
  lit "===================================" ++ [10].
Proof. vm_compute. reflexivity. Qed.

Lemma two_leaf_tree_wf : btree_wf two_leaf_tree.
Proof.
  constructor; cbn.
  - lia.
  - exists 1%nat. constructor; [cbn; lia|].
    repeat constructor; cbn; try lia.
  - done.
  - apply (bool_decide_unpack _). by vm_compute.
  - repeat constructor.
  - reflexivity.
Qed.

Lemma two_leaf_tree_storable : Forall storable (flat (bt_root two_leaf_tree)).
Proof. repeat constructor; cbn; lia. Qed.

Lemma btree_save_open_witness :
  exists t', btree_open (Some (snd (btree_save zero_pad two_leaf_tree))) = ROk t' [] /\
    saved_as two_leaf_tree t'.
Proof.
  apply (btree_save_open zero_pad two_leaf_tree);
    [reflexivity|apply two_leaf_tree_wf|cbn; lia|apply two_leaf_tree_storable].
Defined.

Lemma btree_open_truncated_witness :
  btree_open (Some (take 50 (snd (btree_save zero_pad two_leaf_tree)))) = RNull.
Proof.
  apply (btree_open_truncated zero_pad two_leaf_tree _ (drop 50 (snd (btree_save zero_pad two_leaf_tree))));
    [reflexivity|apply two_leaf_tree_wf|cbn; lia|apply two_leaf_tree_storable| |].
  - by rewrite take_drop.
  - by vm_compute.
Defined.

(** A key count above the order stored in the file makes btree_open write past
    the key array: nothing bounds num_keys before the read. *)
Example btree_open_overflow :
  btree_open (Some (le_enc 4 BTREE_MAGIC ++ le_enc 4 3 ++ le_enc 4 5 ++ le_enc 4 1 ++
                    le_enc 4 1 ++ le_enc 4 5 ++ concat (map (le_enc 4) [1; 2; 3; 4; 5]))) = RFault.
Proof. reflexivity. Qed.

(** So does a file that is cut in the keys of an internal node that claims too many:
    node_free looks for children behind the end of their array. *)
Example btree_open_bad_free :
  btree_open (Some (le_enc 4 BTREE_MAGIC ++ le_enc 4 3 ++ le_enc 4 5 ++ le_enc 4 1 ++
                    le_enc 4 0 ++ le_enc 4 5 ++ concat (map (le_enc 4) [1; 2]))) = RFault.
Proof. reflexivity. Qed.

(** An empty index of a negative order is opened as a tree without a root: nobody
    looks at what node_create returned. *)
Example btree_open_rootless :
  btree_open (Some (le_enc 4 BTREE_MAGIC ++ le_enc 4 (2 ^ 31) ++ le_enc 4 0 ++ le_enc 4 0)) = RRootless.
Proof. reflexivity. Qed.
