(* ===== verification/BTreeAlloc.v ===== *)
(** * The B+ tree when memory runs out (server/storage/btree.c)

    BTree.v inserts with memory at hand.  Here every calloc may fail, and what the
    tree holds is counted: node_create gives back what it has taken, an insertion
    goes on with a node that it could not split, and btree_close frees the tree.  A
    node has room for [order] keys, one more than the split at [order - 1] needs, so
    one failed split is harmless; behind the array the write is [InsStuck]. *)

From stdpp Require Import base tactics numbers list gmap sorting.
From Stdlib Require Import ZArith Lia.
From S2P Require Import Prelude Types BTree BTreeFile.

#[local] Open Scope Z_scope.

(** The blocks allocated, and the outcomes of the calls of calloc to come; those
    behind the end of the list succeed. *)
Record memory := Memory { m_live : Z; m_outcomes : list bool }.

Definition calloc (m : memory) : bool * memory :=
  match m_outcomes m with
  | false :: rest => (false, Memory (m_live m) rest)
  | rest => (true, Memory (m_live m + 1) (tail rest))
  end.

Definition free (m : memory) : memory := Memory (m_live m - 1) (m_outcomes m).

(** The node, its keys, and its values or children. *)
Definition node_create (m : memory) : bool * memory :=
  let '(ok, m) := calloc m in
  if negb ok then (false, m)
  else
    let '(ok, m) := calloc m in
    if negb ok then (false, free m)
    else
      let '(ok, m) := calloc m in
      if negb ok then (false, free (free m)) else (true, m).

Fixpoint node_free (n : node) (m : memory) : memory :=
  match n with
  | NLeaf _ => free (free (free m))
  | NInternal _ cs => free (free (free (foldl (fun m c => node_free c m) m cs)))
  end.

(** ** Insertion *)

(** The leaf keeps all its keys if there is no memory for another. *)
Definition split_leaf_in (fresh : Z) (l : leaf) (m : memory) : split_result * memory :=
  let '(ok, m) := node_create m in
  (if ok then split_leaf fresh l else NoSplit (NLeaf l), m).

Definition split_internal_in (ks : list Z) (cs : list node) (m : memory) : split_result * memory :=
  let '(ok, m) := node_create m in
  (if ok then split_internal ks cs else NoSplit (NInternal ks cs), m).

(** The arrays have [order] keys. *)
Definition leaf_insert_in (order : nat) (fresh key : Z) (value : record_ptr) (l : leaf) (m : memory) : split_result * memory :=
  let pos := key_lower_bound (l_keys l) key in
  if key_at (l_keys l) pos key then (InsError, m)
  else if (order <=? length (l_keys l))%nat then (InsStuck, m)
  else
    let l' := {| l_addr := l_addr l; l_keys := insert_at pos key (l_keys l);
                 l_values := insert_at pos value (l_values l); l_next := l_next l |} in
    if (order - 1 <=? length (l_keys l'))%nat then split_leaf_in fresh l' m else (NoSplit (NLeaf l'), m).

Definition internal_insert_in (order : nat) (ks : list Z) (cs : list node) (i : nat) (r : split_result * memory) : split_result * memory :=
  match r with
  | (InsError, m) => (InsError, m)
  | (InsStuck, m) => (InsStuck, m)
  | (NoSplit c', m) => (NoSplit (NInternal ks (<[i := c']> cs)), m)
  | (DidSplit c' promoted new_node, m) =>
      if (order <=? length ks)%nat then (InsStuck, m)
      else
        let cs1 := <[i := c']> cs in
        let pos := key_lower_bound ks promoted in
        let ks' := insert_at pos promoted ks in
        let cs' := insert_at (S pos) new_node cs1 in
        if (order - 1 <=? length ks')%nat then split_internal_in ks' cs' m else (NoSplit (NInternal ks' cs'), m)
  end.

Fixpoint insert_recursive_in (order : nat) (fresh key : Z) (value : record_ptr) (n : node) (m : memory) : split_result * memory :=
  match n with
  | NLeaf l => leaf_insert_in order fresh key value l m
  | NInternal ks cs =>
      let i := child_index ks key in
      internal_insert_in order ks cs i
        ((fix descend (cs : list node) (j : nat) : split_result * memory :=
            match cs, j with
            | c :: _, O => insert_recursive_in order fresh key value c m
            | _ :: cs', S j' => descend cs' j'
            | [], _ => (InsStuck, m)
            end) cs i)
  end.

(** btree_insert: the tree, what it returns, and the memory; [None] when a write
    behind an array has made the rest undefined.  If there is no memory for a new
    root, the root has lost its right half, [lost]. *)
Inductive inserted :=
  | Inserted (t : btree) (rc : Z)
  | RootLost (t : btree) (lost : node)
  | Overrun.

Definition btree_insert_in (t : btree) (key : Z) (value : record_ptr) (m : memory) : inserted * memory :=
  let done root :=
    {| bt_root := root; bt_order := bt_order t; bt_size := u32 (bt_size t + 1); bt_dirty := true; bt_fresh := bt_fresh t + 1 |} in
  match insert_recursive_in (bt_order t) (bt_fresh t) key value (bt_root t) m with
  | (InsError, m) => (Inserted t (-1), m)
  | (InsStuck, m) => (Overrun, m)
  | (NoSplit root, m) => (Inserted (done root) 0, m)
  | (DidSplit root promoted new_node, m) =>
      let '(ok, m) := node_create m in
      if ok then (Inserted (done (NInternal [promoted] [root; new_node])) 0, m)
      else (RootLost {| bt_root := root; bt_order := bt_order t; bt_size := bt_size t; bt_dirty := bt_dirty t;
                        bt_fresh := bt_fresh t + 1 |} new_node, m)
  end.

(** btree_create and btree_close with the tree's own block. *)
Definition btree_create_in (order : nat) (m : memory) : option btree * memory :=
  match btree_create order with
  | None => (None, m)
  | Some t =>
      let '(ok, m) := calloc m in
      if negb ok then (None, m)
      else let '(ok, m) := node_create m in if ok then (Some t, m) else (None, free m)
  end.

Definition btree_close_in (t : btree) (m : memory) : memory := free (node_free (bt_root t) m).

(** A history of index operations that neither lost a root nor overran an array. *)
Definition btree_step_in (t : btree) (m : memory) (o : index_op) : option (btree * index_out * memory) :=
  match o with
  | OpInsert k v => match btree_insert_in t k v m with (Inserted t' rc, m) => Some (t', OutRc rc, m) | _ => None end
  | _ => Some (btree_step t o, m)
  end.

Fixpoint run_in (t : btree) (m : memory) (ops : list index_op) : option (btree * list index_out * memory) :=
  match ops with
  | [] => Some (t, [], m)
  | o :: ops' =>
      match btree_step_in t m o with
      | None => None
      | Some (t1, x, m1) => (fun y => (y.1.1, x :: y.1.2, y.2)) <$> run_in t1 m1 ops'
      end
  end.

(** ** Counting blocks *)

Lemma calloc_count m : let '(ok, m') := calloc m in m_live m' = m_live m + if ok then 1 else 0.
Proof. unfold calloc. destruct (m_outcomes m) as [|[] rest]; cbn; lia. Qed.

Lemma node_create_count m : let '(ok, m') := node_create m in m_live m' = m_live m + if ok then 3 else 0.
Proof.
  unfold node_create. pose proof (calloc_count m) as H1. destruct (calloc m) as [[] m1]; cbn [negb]; [|lia].
  pose proof (calloc_count m1) as H2. destruct (calloc m1) as [[] m2]; cbn [negb free m_live]; [|lia].
  pose proof (calloc_count m2) as H3. destruct (calloc m2) as [[] m3]; cbn [negb free m_live]; lia.
Qed.

(** The blocks of a tree. *)
Fixpoint blocks (n : node) : Z :=
  match n with
  | NLeaf _ => 3
  | NInternal _ cs => 3 + foldr (fun c s => blocks c + s) 0 cs
  end.

Definition blocks_of (cs : list node) : Z := foldr (fun c s => blocks c + s) 0 cs.

Lemma node_free_count n : forall m, m_live (node_free n m) = m_live m - blocks n.
Proof.
  induction n as [l|ks cs IH] using node_ind'; intros m; cbn [node_free blocks free m_live]; [lia|].
  assert (H : forall m, m_live (foldl (fun m c => node_free c m) m cs) = m_live m - blocks_of cs).
  { clear m. induction IH as [|c cs Hc _ IHl]; intros m; cbn; [lia|]. rewrite IHl, Hc. fold (blocks_of cs). lia. }
  rewrite H. unfold blocks_of. lia.
Qed.

Lemma blocks_app cs1 cs2 : blocks_of (cs1 ++ cs2) = blocks_of cs1 + blocks_of cs2.
Proof. induction cs1 as [|c cs1 IH]; cbn; [done|]. fold (blocks_of (cs1 ++ cs2)) (blocks_of cs1). lia. Qed.

Lemma blocks_insert i c c' cs : cs !! i = Some c -> blocks_of (<[i := c']> cs) = blocks_of cs + blocks c' - blocks c.
Proof.
  revert i. induction cs as [|x cs IH]; intros [|i] Hi; [done|done|..].
  - injection Hi as ->. change (blocks_of (<[0%nat := c']> (c :: cs))) with (blocks c' + blocks_of cs).
    change (blocks_of (c :: cs)) with (blocks c + blocks_of cs). lia.
  - change (blocks_of (<[S i := c']> (x :: cs))) with (blocks x + blocks_of (<[i := c']> cs)).
    change (blocks_of (x :: cs)) with (blocks x + blocks_of cs). rewrite (IH i Hi). lia.
Qed.

Lemma blocks_insert_at pos c cs : blocks_of (insert_at pos c cs) = blocks c + blocks_of cs.
Proof.
  unfold insert_at. rewrite blocks_app. cbn. fold (blocks_of (drop pos cs)).
  rewrite <- (take_drop pos cs) at 3. rewrite blocks_app. lia.
Qed.

(** What a subtree has come to hold. *)
Definition grown (n : node) (m : memory) (r : split_result * memory) : Prop :=
  match r with
  | (InsError, m') => m_live m' = m_live m
  | (InsStuck, _) => True
  | (NoSplit n', m') => m_live m' - m_live m = blocks n' - blocks n
  | (DidSplit n' _ r, m') => m_live m' - m_live m = blocks n' + blocks r - blocks n
  end.

Lemma leaf_grown order fresh key value l m : grown (NLeaf l) m (leaf_insert_in order fresh key value l m).
Proof.
  unfold leaf_insert_in. destruct (key_at _ _ _); [done|]. destruct (order <=? _)%nat; [done|]. cbn zeta.
  match goal with |- context [split_leaf_in _ ?x _] => set (l' := x) end.
  destruct (order - 1 <=? _)%nat; cbn [grown blocks]; [|lia]. unfold split_leaf_in, split_leaf.
  pose proof (node_create_count m) as H. destruct (node_create m) as [[] m']; cbn [grown blocks]; lia.
Qed.

Lemma internal_grown order ks cs i c m r : cs !! i = Some c -> grown c m r -> grown (NInternal ks cs) m (internal_insert_in order ks cs i r).
Proof.
  intros Hi Hr. destruct r as [[| |c'|c' k n] m']; cbn [internal_insert_in grown] in *; [done|done|..].
  - cbn [blocks]. fold (blocks_of cs) (blocks_of (<[i := c']> cs)). rewrite (blocks_insert i c c' cs Hi). lia.
  - destruct (order <=? _)%nat; [done|]. cbn zeta.
    assert (Hb : forall pos, blocks_of (insert_at pos n (<[i:=c']> cs)) = blocks_of cs + blocks c' + blocks n - blocks c).
    { intros pos. rewrite blocks_insert_at, (blocks_insert i c c' cs Hi). lia. }
    set (ks' := insert_at _ k ks). set (cs' := insert_at _ n _). pose proof (Hb _ : blocks_of cs' = _) as Hb'. clearbody ks' cs'.
    destruct (order - 1 <=? _)%nat; [|cbn [grown blocks]; fold (blocks_of cs) (blocks_of cs'); lia].
    unfold split_internal_in, split_internal. pose proof (node_create_count m') as H.
    destruct (node_create m') as [[] m2]; cbn [grown blocks]; fold (blocks_of cs); [|fold (blocks_of cs'); lia].
    set (mid := (length ks' / 2)%nat). fold (blocks_of (take (S mid) cs')) (blocks_of (drop (S mid) cs')).
    rewrite <- (take_drop (S mid) cs'), blocks_app in Hb'. lia.
Qed.

Lemma insert_recursive_in_internal order fresh key value ks cs m :
  insert_recursive_in order fresh key value (NInternal ks cs) m =
    internal_insert_in order ks cs (child_index ks key)
      match cs !! child_index ks key with
      | Some c => insert_recursive_in order fresh key value c m
      | None => (InsStuck, m)
      end.
Proof.
  cbn. f_equal. generalize (child_index ks key) as i.
  induction cs as [|c cs IH]; intros [|i]; cbn; auto.
Qed.

Lemma insert_grown order fresh key value n m : grown n m (insert_recursive_in order fresh key value n m).
Proof.
  induction n as [l|ks cs IH] using node_ind'; [apply leaf_grown|]. rewrite insert_recursive_in_internal.
  destruct (cs !! child_index ks key) as [c|] eqn:Hi; [|done]. apply (internal_grown order ks cs _ c); [done|].
  rewrite Forall_lookup in IH. by apply (IH (child_index ks key)).
Qed.

(** ** What an insertion does *)

(** Some node holds [order] keys: two failed splits more than it should. *)
Inductive full (order : nat) : node -> Prop :=
  | full_leaf l : (order <= length (l_keys l))%nat -> full order (NLeaf l)
  | full_internal ks cs : (order <= length ks)%nat -> full order (NInternal ks cs)
  | full_child ks cs c : c ∈ cs -> full order c -> full order (NInternal ks cs).

Section insert.
Context (order : nat) (Horder : (3 <= order)%nat) (fresh key : Z) (value : record_ptr).

(** Nodes of up to [order] keys are what BTree.v calls well formed for [order + 2]. *)
Abbreviation slack := (order + 2)%nat.

#[local] Lemma Hslack : (3 <= slack)%nat.
Proof using Horder. lia. Qed.

Definition in_post (h : nat) (lo hi : Z) (n : node) (r : split_result) : Prop :=
  match r with
  | InsStuck => full order n
  | _ => ins_post slack h lo hi fresh key value n r
  end.

Lemma leaf_in_post lo hi l m : leaf_wf slack lo hi l -> lo <= key < hi ->
  in_post 0 lo hi (NLeaf l) (leaf_insert_in order fresh key value l m).1.
Proof using Horder.
  intros Hl Hk. unfold leaf_insert_in. pose proof (leaf_put_ok slack Hslack key value lo hi l Hl Hk) as Hput.
  destruct (key_at _ _ _) eqn:Hat; [cbn [fst in_post ins_post]; by rewrite flat_leaf|]. destruct Hput as (_ & _ & _ & Hlk & _).
  destruct (Nat.leb_spec order (length (l_keys l))); [by constructor|]. fold (leaf_put key value l). cbn zeta.
  pose proof (leaf_put_post slack Hslack fresh key value lo hi l Hl Hk Hat ltac:(lia)) as Hkeep.
  destruct (Nat.leb_spec (order - 1) (length (l_keys (leaf_put key value l)))); [|exact Hkeep].
  unfold split_leaf_in. destruct (node_create m) as [[] m']; [|exact Hkeep].
  exact (leaf_split_post slack Hslack fresh key value lo hi l Hl Hk Hat ltac:(lia)).
Qed.

Lemma internal_in_post h lo hi ks cs m (ihn : forall n lo hi, node_wf slack h lo hi n -> lo <= key < hi ->
    in_post h lo hi n (insert_recursive_in order fresh key value n m).1) :
  (length ks <= order)%nat -> children_wf slack h lo ks cs hi -> lo <= key < hi ->
  in_post (S h) lo hi (NInternal ks cs) (insert_recursive_in order fresh key value (NInternal ks cs) m).1.
Proof using Horder.
  intros Hlen Hcs Hk. rewrite insert_recursive_in_internal.
  destruct (child_focus slack Hslack fresh key value h lo hi ks cs Hcs Hk) as (c & lo' & hi' & Hi & Hc & Hk' & Hpost).
  rewrite Hi. specialize (ihn c lo' hi' Hc Hk').
  destruct (insert_recursive_in order fresh key value c m) as [r m']. cbn [fst] in ihn.
  destruct r as [| |c'|c' k x]; cbn [in_post] in ihn; [| |specialize (Hpost _ ihn)..].
  - exact (Hpost InsError ihn).
  - cbn [internal_insert_in fst in_post]. apply (full_child order ks cs c); [by eapply list_elem_of_lookup_2|done].
  - cbn [internal_insert_in fst in_post ins_post]. destruct Hpost as (Hw & Hrel & Hstep). split; [constructor; [lia|done]|done].
  - cbn [internal_insert_in]. destruct (Nat.leb_spec order (length ks)); [by apply full_internal|].
    destruct Hpost as (Hw & Hl & Hrel & Hstep). cbn zeta in *.
    assert (Hkeep : forall ks' cs', children_wf slack h lo ks' cs' hi -> length ks' = S (length ks) ->
      ins_rel key value (flat (NInternal ks cs)) (flat (NInternal ks' cs')) ->
      leaf_step fresh (leaves (NInternal ks cs)) (leaves (NInternal ks' cs')) ->
      in_post (S h) lo hi (NInternal ks cs) (NoSplit (NInternal ks' cs'))).
    { intros ks' cs' H1 H2 H3 H4. split; [constructor; [lia|done]|done]. }
    destruct (Nat.leb_spec (order - 1) (length (insert_at (key_lower_bound ks k) k ks))); [|by apply Hkeep].
    unfold split_internal_in. destruct (node_create m') as [[] m2]; [|by apply Hkeep].
    exact (split_internal_post slack Hslack fresh key value h lo hi _ _ _ Hw ltac:(lia) Hrel Hstep).
Qed.

Lemma insert_in_post m h : forall n lo hi, node_wf slack h lo hi n -> lo <= key < hi ->
  in_post h lo hi n (insert_recursive_in order fresh key value n m).1.
Proof using Horder.
  induction h as [|h IH]; intros n lo hi Hn Hk; inversion Hn; subst.
  - by apply leaf_in_post.
  - apply internal_in_post; [exact IH|lia|done..].
Qed.
End insert.

(** ** The tree *)

(** The invariant of BTree.v with room for failed splits. *)
Definition loosen (t : btree) : btree := BTree (bt_root t) (bt_order t + 2) (bt_size t) (bt_dirty t) (bt_fresh t).
Definition loose (t : btree) : Prop := (3 <= bt_order t)%nat /\ btree_wf (loosen t).

Lemma insert_in_map t key value m : loose t -> 0 <= key < 4294967296 ->
  match (btree_insert_in t key value m).1 with
  | Inserted t' rc =>
      match bt_map t !! key with
      | Some _ => rc = -1 /\ t' = t
      | None => rc = 0 /\ loose t' /\ bt_map t' = <[key := value]> (bt_map t)
      end
  | RootLost t' lost =>
      bt_map t !! key = None /\ list_to_map (flat (bt_root t') ++ flat lost) = <[key := value]> (bt_map t)
  | Overrun => full (bt_order t) (bt_root t)
  end.
Proof.
  intros [Ho Hwf] Hk. pose proof Hwf as [_ [h Hn] _ _ _ _]. cbn [loosen bt_order bt_root] in Hn.
  pose proof (insert_in_post (bt_order t) Ho (bt_fresh t) key value m h _ _ _ Hn ltac:(lia)) as Hpost.
  unfold btree_insert_in. destruct (insert_recursive_in _ _ _ _ _ m) as [r m']. cbn [fst] in Hpost.
  destruct r as [| |root|root k x]; cbn [in_post ins_post fst] in *.
  - destruct Hpost as [v Hv]. apply (elem_of_list_to_map (M := gmap Z)) in Hv; [|by apply (wf_flat_NoDup (loosen t))].
    unfold bt_map. by rewrite Hv.
  - done.
  - destruct Hpost as (Hw & Hrel & Hstep).
    destruct (insert_done (loosen t) key value root Hwf) as (Hwf' & Hnone & Hmap); [by exists h|done|done|].
    change (bt_map (loosen t)) with (bt_map t) in *. rewrite Hnone. split; [done|]. split; [by split|exact Hmap].
  - destruct Hpost as (Hkm & Hw & Hwm & Hrel & Hstep). pose proof (node_create_count m') as _.
    destruct (insert_done (loosen t) key value (NInternal [k] [root; x]) Hwf) as (Hwf' & Hnone & Hmap).
    + exists (S h). constructor; [cbn; lia|]. constructor; [lia|done|]. by constructor.
    + rewrite flat_internal. cbn. by rewrite app_nil_r.
    + cbn. by rewrite app_nil_r.
    + change (bt_map (loosen t)) with (bt_map t) in *. destruct (node_create m') as [[] m2]; cbn [fst].
      * rewrite Hnone. split; [done|]. split; [by split|exact Hmap].
      * split; [done|]. rewrite <- Hmap. unfold bt_map. cbn [bt_root]. rewrite flat_internal. cbn. by rewrite app_nil_r.
Qed.

(** The other operations do not look at the order. *)
Lemma step_loosen t o t' x : btree_step t o = (t', x) -> match o with OpInsert _ _ => False | _ => True end ->
  btree_step (loosen t) o = (loosen t', x) /\ bt_order t' = bt_order t /\ blocks (bt_root t') = blocks (bt_root t).
Proof.
  assert (Hset : forall a l' n, blocks (set_leaf a l' n) = blocks n).
  { intros a l' n. induction n as [l|ks cs IH] using node_ind'; cbn [set_leaf]; [by case_match|].
    cbn [blocks]. f_equal. induction IH as [|c cs Hc _ IHl]; cbn; [done|]. by rewrite Hc, IHl. }
  destruct o as [k v|k|k v|k|lo hi n|]; cbn [btree_step]; intros E Ho; try done; try by injection E as <- <-.
  - unfold btree_delete in *. cbn [loosen bt_root bt_order bt_size bt_dirty bt_fresh].
    destruct (find_leaf _ k) as [l|]; [|by injection E as <- <-]. destruct (key_find_exact _ k); injection E as <- <-; [|done].
    split; [done|]. split; [done|]. apply Hset.
  - unfold btree_update in *. cbn [loosen bt_root bt_order bt_size bt_dirty bt_fresh].
    destruct (find_leaf _ k) as [l|]; [|by injection E as <- <-]. destruct (key_find_exact _ k); injection E as <- <-; [|done].
    split; [done|]. split; [done|]. apply Hset.
Qed.

(** The tree and its nodes are all that is held of the memory. *)
Definition held (m0 : Z) (t : btree) (m : memory) : Prop := m_live m = m0 + 1 + blocks (bt_root t).

Lemma step_in_refines m0 t m o t' x m' : loose t -> op_ok o -> held m0 t m -> btree_step_in t m o = Some (t', x, m') ->
  loose t' /\ map_step (bt_map t) o = (bt_map t', x) /\ held m0 t' m'.
Proof.
  intros Hl Hop Hm.
  assert (Hcase : (exists k v, o = OpInsert k v) \/ match o with OpInsert _ _ => False | _ => True end) by (destruct o; eauto).
  destruct Hcase as [(k & v & ->)|Hno].
  - cbn [btree_step_in map_step op_ok] in *. pose proof (insert_in_map t k v m Hl Hop) as Hi.
    unfold btree_insert_in in *. pose proof (insert_grown (bt_order t) (bt_fresh t) k v (bt_root t) m) as Hg.
    destruct (insert_recursive_in _ _ _ _ _ m) as [r m1]. unfold held in *.
    destruct r as [| |root|root p n]; cbn [grown fst] in *; [| |..].
    + intros [= <- <- <-]. destruct (bt_map t !! k) eqn:E; [|by destruct Hi as [? _]]. split; [done|]. split; [done|]. lia.
    + done.
    + intros [= <- <- <-]. destruct (bt_map t !! k) eqn:E; [by destruct Hi as [? _]|]. destruct Hi as (_ & Hl' & Hmap).
      split; [done|]. split; [by rewrite Hmap|]. cbn [bt_root]. lia.
    + pose proof (node_create_count m1) as Hc. destruct (node_create m1) as [[] m2]; [|done]. cbn [fst] in Hi.
      intros [= <- <- <-]. destruct (bt_map t !! k) eqn:E; [by destruct Hi as [? _]|]. destruct Hi as (_ & Hl' & Hmap).
      split; [done|]. split; [by rewrite Hmap|]. cbn [bt_root blocks foldr]. lia.
  - intros E. assert (Es : btree_step t o = (t', x) /\ m' = m).
    { destruct o; try done; cbn [btree_step_in] in E; apply (inj Some), pair_equal_spec in E as [E1 E2]; done. }
    destruct Es as [Es ->]. destruct (step_loosen t o t' x Es Hno) as (Hs & Ho & Hb).
    destruct Hl as [H3 Hwf]. pose proof (btree_step_refines (loosen t) o Hwf Hop) as Hr. rewrite Hs in Hr. destruct Hr as [Hwf' Hmap].
    split; [split; [by rewrite Ho|exact Hwf']|]. split; [exact Hmap|]. unfold held in *. by rewrite Hb.
Qed.

Lemma create_in_loose order m t m' : btree_create_in order m = (Some t, m') -> loose t /\ bt_map t = ∅ /\ held (m_live m) t m'.
Proof.
  unfold btree_create_in. destruct (btree_create order) as [t0|] eqn:Ec; [|done].
  pose proof (calloc_count m) as H1. destruct (calloc m) as [[] m1]; cbn [negb]; [|done].
  pose proof (node_create_count m1) as H2. destruct (node_create m1) as [[] m2]; [|done]. intros [= <- <-].
  unfold btree_create in Ec. destruct (Nat.ltb_spec order 3); [done|]. injection Ec as <-.
  assert (Ec : btree_create (order + 2) = Some (loosen {| bt_root := NLeaf {| l_addr := 0; l_keys := []; l_values := []; l_next := None |};
    bt_order := order; bt_size := 0; bt_dirty := true; bt_fresh := 1 |})).
  { unfold btree_create. destruct (Nat.ltb_spec (order + 2) 3); [lia|done]. }
  apply btree_create_wf in Ec as [Hwf Hmap]. split; [by split|]. split; [exact Hmap|]. unfold held. cbn [bt_root blocks]. lia.
Qed.

Lemma run_in_refines m0 ops : forall t m t' outs m', loose t -> held m0 t m -> Forall op_ok ops -> run_in t m ops = Some (t', outs, m') ->
  loose t' /\ run map_step (bt_map t) ops = (bt_map t', outs) /\ held m0 t' m'.
Proof.
  induction ops as [|o ops IH]; intros t m t' outs m' Hl Hm Hops; cbn [run_in run]; [by intros [= <- <- <-]|].
  apply Forall_cons in Hops as [Ho Hops]. destruct (btree_step_in t m o) as [[[t1 x] m1]|] eqn:E; [|done].
  destruct (step_in_refines m0 t m o t1 x m1 Hl Ho Hm E) as (Hl1 & -> & Hm1).
  destruct (run_in t1 m1 ops) as [[[t2 xs] m2]|] eqn:Er; [|done]. intros [= <- <- <-].
  destruct (IH t1 m1 t2 xs m2 Hl1 Hm1 Hops Er) as (Hl2 & -> & Hm2). done.
Qed.

(** With memory at hand it is BTree.v's insertion. *)
Lemma create_ready m : m_outcomes m = [] -> node_create m = (true, Memory (m_live m + 3) []).
Proof. destruct m as [n o]. cbn. intros ->. unfold node_create, calloc. cbn. do 2 f_equal. lia. Qed.

Lemma insert_in_ready order fresh key value h : (3 <= order)%nat -> forall n lo hi m, node_wf order h lo hi n -> lo <= key < hi -> m_outcomes m = [] ->
  exists m', insert_recursive_in order fresh key value n m = (insert_recursive order fresh key value n, m') /\ m_outcomes m' = [].
Proof.
  intros H3. induction h as [|h IH]; intros n lo hi m Hn Hk Hm; inversion Hn as [? ? l Hl|? ? ? ks cs Hlen Hcs]; subst.
  - cbn [insert_recursive_in insert_recursive]. unfold leaf_insert_in, leaf_insert. destruct Hl as (_ & _ & _ & Hl).
    destruct (key_at _ _ _); [by exists m|]. destruct (Nat.leb_spec order (length (l_keys l))); [lia|]. cbn zeta.
    destruct (order - 1 <=? _)%nat; [|by exists m]. unfold split_leaf_in. rewrite create_ready by done. by eexists.
  - rewrite insert_recursive_in_internal, insert_recursive_internal. cbn zeta.
    destruct (child_focus order H3 fresh key value h lo hi ks cs Hcs Hk) as (c & lo' & hi' & Hi & Hc & Hk' & _). rewrite Hi.
    destruct (IH c lo' hi' m Hc Hk' Hm) as (m1 & -> & Hm1).
    destruct (insert_recursive order fresh key value c) as [| |c'|c' k x]; cbn [internal_insert_in internal_insert]; [by exists m1..|].
    destruct (Nat.leb_spec order (length ks)); [lia|]. cbn zeta. destruct (order - 1 <=? _)%nat; [|by exists m1].
    unfold split_internal_in. rewrite create_ready by done. by eexists.
Qed.

(** ** The theorems *)

(** C37: the tree through failing allocations.  Create an index and run any history of
    insertions, deletions, updates, lookups, range scans and size queries, while any
    calls of calloc fail.  As long as no insertion finds a node of [order] keys or
    has no memory for a new root, every answer is that of the finite map - a node that
    could not be split is no error - and btree_close gives back every block: none is
    leaked by a failed node_create.  If the tree cannot be created nothing is kept. *)
Theorem alloc_failures_harmless order m t m1 ops t' outs m2 :
  btree_create_in order m = (Some t, m1) -> Forall op_ok ops -> run_in t m1 ops = Some (t', outs, m2) ->
  run map_step ∅ ops = (bt_map t', outs) /\ m_live (btree_close_in t' m2) = m_live m.
Proof.
  intros Hc Hops Hr. destruct (create_in_loose order m t m1 Hc) as (Hl & Hmap & Hm).
  destruct (run_in_refines (m_live m) ops t m1 t' outs m2 Hl Hm Hops Hr) as (_ & Hrun & Hheld).
  split; [by rewrite <- Hmap|]. unfold btree_close_in, held in *. cbn [free m_live]. rewrite node_free_count. lia.
Qed.

(** With memory at hand btree_insert is the function of BTree.v. *)
Theorem enough_memory_same t key value m : btree_wf t -> 0 <= key < 4294967296 -> m_outcomes m = [] ->
  (btree_insert_in t key value m).1 = Inserted (btree_insert t key value).1 (btree_insert t key value).2.
Proof.
  intros Hwf Hk Hm. pose proof Hwf as [Ho [h Hn] _ _ _ _].
  destruct (insert_in_ready (bt_order t) (bt_fresh t) key value h Ho _ _ _ m Hn ltac:(lia) Hm) as (m' & E & Hm').
  pose proof (insert_recursive_post _ Ho (bt_fresh t) key value h _ _ _ Hn ltac:(lia)) as Hpost.
  unfold btree_insert_in, btree_insert. rewrite E. destruct (insert_recursive _ _ _ _ _) as [| |root|root k x]; try done.
  by rewrite create_ready.
Qed.

(** ** When it goes wrong *)

Definition three_keys (outcomes : list bool) : inserted :=
  let t := default sample_tree (btree_create 4) in
  let '(t, _) := btree_insert t 1 (RecordPtr 0 1) in
  let '(t, _) := btree_insert t 2 (RecordPtr 0 2) in
  (btree_insert_in t 3 (RecordPtr 0 3) (Memory 4 outcomes)).1.

(** No memory for the new root: the insertion reports failure, and key 2, stored
    before, is no longer found. *)
Example root_split_loses_keys :
  match three_keys [true; true; true; false] with
  | RootLost t _ => (btree_search t 1, btree_search t 2, btree_search t 3, btree_size t)
  | _ => (None, None, None, 0)
  end = (Some (RecordPtr 0 1), None, None, 2).
Proof. reflexivity. Qed.

(** A leaf that could not be split twice is full, and the next key is written behind
    its array. *)
Example unsplit_leaf_overruns :
  match three_keys [false] with
  | Inserted t 0 =>
      match btree_insert_in t 4 (RecordPtr 0 4) (Memory 4 [false]) with
      | (Inserted t 0, m) => (btree_search t 4, (btree_insert_in t 5 (RecordPtr 0 5) m).1)
      | _ => (None, Overrun)
      end
  | _ => (None, RootLost sample_tree (bt_root sample_tree))
  end = (Some (RecordPtr 0 4), Overrun).
Proof. reflexivity. Qed.

(** The first split fails, and the third has no memory for the keys of its node. *)
Definition scarce : memory := Memory 0 (replicate 4 true ++ [false] ++ replicate 6 true ++ [true; false]).

Definition twelve_keys : list index_op := (fun k => OpInsert k (RecordPtr k 0)) <$> seqZ 1 12.

Lemma twelve_keys_ok : Forall op_ok twelve_keys.
Proof. apply Forall_fmap, Forall_forall. intros k Hk%elem_of_seqZ. cbn. lia. Qed.

Example scarce_runs :
  match btree_create_in 6 scarce with
  | (Some t, m1) => match run_in t m1 twelve_keys with Some (_, _, m2) => bool_decide (m_outcomes m2 = []) | None => false end
  | _ => false
  end = true.
Proof. vm_compute. reflexivity. Qed.

Lemma alloc_failures_harmless_witness : exists t m1 t' outs m2,
  btree_create_in 6 scarce = (Some t, m1) /\ run_in t m1 twelve_keys = Some (t', outs, m2) /\
  bt_map t' !! 9 = Some (RecordPtr 9 0) /\ m_live (btree_close_in t' m2) = 0.
Proof.
  pose proof scarce_runs as H. destruct (btree_create_in 6 scarce) as [[t|] m1] eqn:Ec; [|done].
  destruct (run_in t m1 twelve_keys) as [[[t' outs] m2]|] eqn:Er; [|done].
  exists t, m1, t', outs, m2. split; [done|]. split; [done|].
  destruct (alloc_failures_harmless 6 scarce t m1 twelve_keys t' outs m2 Ec twelve_keys_ok Er) as [Hrun Hlive].
  split; [|exact Hlive]. change (bt_map t') with (bt_map t', outs).1. rewrite <- Hrun. by vm_compute.
Defined.
