(* ===== verification/Wal.v ===== *)
(** * Write-ahead log (server/storage/wal.c)

    The log is a byte file and two sequence-number counters.  Every call of
    write(2) takes its outcome from a schedule: a full write, or a short write
    of some length (a failing call writes nothing).  Recovery and the scan of
    [wal_open] run on the bytes, with one unit of fuel per record. *)

From stdpp Require Import base tactics numbers list.
From Stdlib Require Import ZArith Lia.
From S2P Require Import Prelude Types.

#[local] Open Scope Z_scope.

(** ** Record format *)

Record wal_record_header := WalHeader {
  wh_lsn : Z; wh_txn_id : Z; wh_op_type : Z; wh_table_id : Z;
  wh_data_size : Z; wh_record_id : Z }.

Definition header_bytes (h : wal_record_header) : bytes :=
  le_enc 8 (wh_lsn h) ++ le_enc 4 (wh_txn_id h) ++ le_enc 1 (wh_op_type h) ++
  le_enc 1 (wh_table_id h) ++ le_enc 2 (wh_data_size h) ++ le_enc 4 (wh_record_id h).

Definition header_of_bytes (b : bytes) : wal_record_header :=
  {| wh_lsn := rd 8 0 b; wh_txn_id := rd 4 8 b; wh_op_type := rd 1 12 b;
     wh_table_id := rd 1 13 b; wh_data_size := rd 2 14 b; wh_record_id := rd 4 16 b |}.

Definition HEADER_SIZE : nat := 20.

(** What recovery hands to its callback; no images for size 0. *)
Record wal_rec := WalRec { wr_header : wal_record_header; wr_old : option bytes; wr_new : option bytes }.

(** ** The log *)

Record wal := Wal { w_next_lsn : Z; w_flushed_lsn : Z; w_file : bytes }.

(** Outcomes of the coming writes: [None] full, [Some k] only [k] bytes. *)
Definition writes : Type := list (option nat).

Definition os_write (file : bytes) (ws : writes) (data : bytes) : bytes * writes * Z :=
  match ws with
  | [] => (file ++ data, [], Z.of_nat (length data))
  | None :: ws' => (file ++ data, ws', Z.of_nat (length data))
  | Some k :: ws' => (file ++ take k data, ws', Z.of_nat (length (take k data)))
  end.

Definition with_file (w : wal) (f : bytes) : wal :=
  {| w_next_lsn := w_next_lsn w; w_flushed_lsn := w_flushed_lsn w; w_file := f |}.

(** The bytes written for an image argument: the first [size] bytes behind the
    pointer, zeros for NULL. *)
Definition image (data : option bytes) (size : Z) : bytes :=
  match data with
  | Some d => take (Z.to_nat size) d
  | None => zeros (Z.to_nat size)
  end.

Definition append_header (w : wal) (txn op table rid size : Z) : wal_record_header :=
  {| wh_lsn := w_next_lsn w; wh_txn_id := txn; wh_op_type := u8 op; wh_table_id := u8 table;
     wh_data_size := size; wh_record_id := rid |}.

Definition wal_append (w : wal) (ws : writes) (txn op table rid : Z)
    (old_data new_data : option bytes) (size : Z) : wal * writes * Z :=
  let header := append_header w txn op table rid size in
  let '(f1, ws1, written) := os_write (w_file w) ws (header_bytes header) in
  if negb (written =? Z.of_nat HEADER_SIZE) then (with_file w f1, ws1, INVALID_LSN)
  else
    let '(f2, ws2, written) :=
      if 0 <? size then os_write f1 ws1 (image old_data size) else (f1, ws1, size) in
    if negb (written =? size) then (with_file w f2, ws2, INVALID_LSN)
    else
      let '(f3, ws3, written) :=
        if 0 <? size then os_write f2 ws2 (image new_data size) else (f2, ws2, size) in
      if negb (written =? size) then (with_file w f3, ws3, INVALID_LSN)
      else
        ({| w_next_lsn := u64 (w_next_lsn w + 1); w_flushed_lsn := w_flushed_lsn w; w_file := f3 |},
         ws3, w_next_lsn w).

Definition wal_log_insert w ws txn table rid new_data size :=
  wal_append w ws txn WAL_INSERT table rid None (Some new_data) size.
Definition wal_log_update w ws txn table rid old_data new_data size :=
  wal_append w ws txn WAL_UPDATE table rid (Some old_data) (Some new_data) size.
Definition wal_log_delete w ws txn table rid old_data size :=
  wal_append w ws txn WAL_DELETE table rid (Some old_data) None size.
Definition wal_log_commit w ws txn := wal_append w ws txn WAL_COMMIT 0 0 None None 0.
Definition wal_log_abort w ws txn := wal_append w ws txn WAL_ABORT 0 0 None None 0.
Definition wal_log_checkpoint w ws := wal_append w ws 0 WAL_CHECKPOINT 0 0 None None 0.

Definition wal_create : wal := {| w_next_lsn := 1; w_flushed_lsn := 0; w_file := [] |}.

(** [synced]: whether fsync succeeds. *)
Definition wal_flush (w : wal) (synced : bool) : wal * Z :=
  if negb synced then (w, -1)
  else ({| w_next_lsn := w_next_lsn w; w_flushed_lsn := u64 (w_next_lsn w - 1);
           w_file := w_file w |}, 0).

(** What wal_close leaves in the file: it flushes first, whatever comes of it. *)
Definition wal_close (w : wal) (synced : bool) : bytes := w_file (wal_flush w synced).1.

Definition wal_get_current_lsn (w : wal) : Z := w_next_lsn w.

(** wal_open's scan: headers only, seeking over the images (seeking past the
    end of a file succeeds). *)
Fixpoint open_scan (fuel : nat) (b : bytes) (max_lsn : Z) : option Z :=
  match fuel with
  | O => None
  | S fuel' =>
      if (length b <? HEADER_SIZE)%nat then Some max_lsn
      else
        let h := header_of_bytes (take HEADER_SIZE b) in
        let max' := if max_lsn <? wh_lsn h then wh_lsn h else max_lsn in
        open_scan fuel'
          (if 0 <? wh_data_size h
           then drop (Z.to_nat (wh_data_size h * 2)) (drop HEADER_SIZE b)
           else drop HEADER_SIZE b) max'
  end.

Definition wal_open (file : option bytes) : option wal :=
  match file with
  | None => None
  | Some b =>
      match open_scan (S (length b)) b 0 with
      | None => None
      | Some m => Some {| w_next_lsn := u64 (m + 1); w_flushed_lsn := m; w_file := b |}
      end
  end.

(** The records passed to the callback, in order. *)
Fixpoint recover_loop (fuel : nat) (b : bytes) : option (list wal_rec) :=
  match fuel with
  | O => None
  | S fuel' =>
      if (length b <? HEADER_SIZE)%nat then Some []
      else
        let h := header_of_bytes (take HEADER_SIZE b) in
        let b1 := drop HEADER_SIZE b in
        if wh_lsn h =? INVALID_LSN then Some []
        else if 0 <? wh_data_size h then
          let n := Z.to_nat (wh_data_size h) in
          if (length b1 <? n)%nat then Some []
          else
            let b2 := drop n b1 in
            if (length b2 <? n)%nat then Some []
            else
              option_map (cons (WalRec h (Some (take n b1)) (Some (take n b2))))
                (recover_loop fuel' (drop n b2))
        else option_map (cons (WalRec h None None)) (recover_loop fuel' b1)
  end.

Definition wal_recover (w : wal) : option (list wal_rec) :=
  recover_loop (S (length (w_file w))) (w_file w).

(** ** Logging calls as data *)

Inductive log_op :=
  | LogInsert (txn table rid : Z) (new_data : bytes)
  | LogUpdate (txn table rid : Z) (old_data new_data : bytes)
  | LogDelete (txn table rid : Z) (old_data : bytes)
  | LogCommit (txn : Z)
  | LogAbort (txn : Z)
  | LogCheckpoint.

Definition log_step (w : wal) (ws : writes) (o : log_op) : wal * writes * Z :=
  match o with
  | LogInsert txn table rid d => wal_log_insert w ws txn table rid d (Z.of_nat (length d))
  | LogUpdate txn table rid d d' => wal_log_update w ws txn table rid d d' (Z.of_nat (length d'))
  | LogDelete txn table rid d => wal_log_delete w ws txn table rid d (Z.of_nat (length d))
  | LogCommit txn => wal_log_commit w ws txn
  | LogAbort txn => wal_log_abort w ws txn
  | LogCheckpoint => wal_log_checkpoint w ws
  end.

(** Logging until the first call that fails. *)
Fixpoint log_run (w : wal) (ws : writes) (ops : list log_op) : wal * list Z :=
  match ops with
  | [] => (w, [])
  | o :: ops' =>
      let '(w1, ws1, lsn) := log_step w ws o in
      if lsn =? INVALID_LSN then (w1, [lsn])
      else let '(w2, lsns) := log_run w1 ws1 ops' in (w2, lsn :: lsns)
  end.

(** The record a logging call stands for. *)
Definition op_rec (lsn : Z) (o : log_op) : wal_rec :=
  let hdr txn op table rid n := WalHeader lsn txn op table (Z.of_nat n) rid in
  let data n d := if (n =? 0)%nat then None else Some d in
  match o with
  | LogInsert txn table rid d =>
      let n := length d in WalRec (hdr txn WAL_INSERT table rid n) (data n (zeros n)) (data n d)
  | LogUpdate txn table rid d d' =>
      let n := length d' in WalRec (hdr txn WAL_UPDATE table rid n) (data n d) (data n d')
  | LogDelete txn table rid d =>
      let n := length d in WalRec (hdr txn WAL_DELETE table rid n) (data n d) (data n (zeros n))
  | LogCommit txn => WalRec (hdr txn WAL_COMMIT 0 0 0%nat) None None
  | LogAbort txn => WalRec (hdr txn WAL_ABORT 0 0 0%nat) None None
  | LogCheckpoint => WalRec (hdr 0 WAL_CHECKPOINT 0 0 0%nat) None None
  end.

Fixpoint op_recs (lsn : Z) (ops : list log_op) : list wal_rec :=
  match ops with
  | [] => []
  | o :: ops' => op_rec lsn o :: op_recs (lsn + 1) ops'
  end.

Definition log_op_ok (o : log_op) : Prop :=
  let ids txn table rid := 0 <= txn < 2 ^ 32 /\ 0 <= table < 2 ^ 8 /\ 0 <= rid < 2 ^ 32 in
  match o with
  | LogInsert txn table rid d | LogDelete txn table rid d =>
      ids txn table rid /\ Z.of_nat (length d) < 2 ^ 16
  | LogUpdate txn table rid d d' =>
      ids txn table rid /\ Z.of_nat (length d') < 2 ^ 16 /\ length d = length d'
  | LogCommit txn | LogAbort txn => 0 <= txn < 2 ^ 32
  | LogCheckpoint => True
  end.

(** ** The record format *)

Definition rec_bytes (r : wal_rec) : bytes :=
  header_bytes (wr_header r) ++ default [] (wr_old r) ++ default [] (wr_new r).

Definition header_ok (h : wal_record_header) : Prop :=
  0 <= wh_lsn h < 2 ^ 64 /\ 0 <= wh_txn_id h < 2 ^ 32 /\ 0 <= wh_op_type h < 2 ^ 8 /\
  0 <= wh_table_id h < 2 ^ 8 /\ 0 <= wh_data_size h < 2 ^ 16 /\ 0 <= wh_record_id h < 2 ^ 32.

Definition rec_ok (r : wal_rec) : Prop :=
  header_ok (wr_header r) /\ wh_lsn (wr_header r) <> INVALID_LSN /\
  if 0 <? wh_data_size (wr_header r) then
    exists o d, wr_old r = Some o /\ wr_new r = Some d /\
      length o = Z.to_nat (wh_data_size (wr_header r)) /\
      length d = Z.to_nat (wh_data_size (wr_header r))
  else wr_old r = None /\ wr_new r = None.

Lemma length_header_bytes h : length (header_bytes h) = HEADER_SIZE.
Proof. unfold header_bytes. by rewrite !length_app, !length_le_enc. Qed.

(** A field at the front of the rest of a packed structure. *)
Lemma rd_head n v rest : 0 <= v < 2 ^ (8 * Z.of_nat n) -> rd n 0 (le_enc n v ++ rest) = v.
Proof.
  intros Hv. unfold rd. rewrite slice_app_l by (rewrite length_le_enc; lia).
  rewrite <- (length_le_enc n v) at 1. by rewrite slice_all, le_dec_enc, wrap_small.
Qed.

Lemma rd_past n m off v rest : (m <= off)%nat -> rd n off (le_enc m v ++ rest) = rd n (off - m) rest.
Proof. intros Hm. unfold rd. rewrite slice_app_r by (rewrite length_le_enc; lia). by rewrite length_le_enc. Qed.

Lemma header_of_bytes_bytes h : header_ok h -> header_of_bytes (header_bytes h) = h.
Proof.
  intros (H1 & H2 & H3 & H4 & H5 & H6). unfold header_of_bytes, header_bytes.
  rewrite <- (app_nil_r (le_enc 4 (wh_record_id h))).
  destruct h. f_equal; repeat rewrite rd_past by lia; cbn [Nat.sub]; by apply rd_head.
Qed.

Lemma take_header h rest : take HEADER_SIZE (header_bytes h ++ rest) = header_bytes h.
Proof. apply take_app_length'. by rewrite length_header_bytes. Qed.

Lemma drop_header h rest : drop HEADER_SIZE (header_bytes h ++ rest) = rest.
Proof. apply drop_app_length'. by rewrite length_header_bytes. Qed.

Lemma length_rec_bytes r : rec_ok r ->
  length (rec_bytes r) = (HEADER_SIZE + 2 * Z.to_nat (wh_data_size (wr_header r)))%nat.
Proof.
  intros (Hh & _ & Hd). unfold rec_bytes. rewrite !length_app, length_header_bytes.
  destruct (Z.ltb_spec 0 (wh_data_size (wr_header r))).
  - destruct Hd as (o & d & -> & -> & Ho & Hd). cbn [from_option id]. lia.
  - destruct Hd as [-> ->]. cbn. lia.
Qed.

(** ** Recovery *)

Lemma recover_cons r fuel b : rec_ok r ->
  recover_loop (S fuel) (rec_bytes r ++ b) = option_map (cons r) (recover_loop fuel b).
Proof.
  intros Hr. pose proof (length_rec_bytes r Hr) as Hlen. destruct Hr as (Hh & Hl & Hd).
  cbn [recover_loop]. rewrite length_app.
  destruct (Nat.ltb_spec (length (rec_bytes r) + length b) HEADER_SIZE); [lia|].
  unfold rec_bytes. rewrite <- !app_assoc, take_header, drop_header, header_of_bytes_bytes by done.
  destruct (Z.eqb_spec (wh_lsn (wr_header r)) INVALID_LSN); [done|].
  destruct r as [h o d]. cbn [wr_header wr_old wr_new] in *.
  destruct (0 <? wh_data_size h).
  - destruct Hd as (o' & d' & -> & -> & Ho & Hd'). cbn [from_option id].
    rewrite !length_app.
    destruct (Nat.ltb_spec (length o' + (length d' + length b)) (Z.to_nat (wh_data_size h))); [lia|].
    rewrite <- Ho, drop_app_length, take_app_length. rewrite Ho, <- Hd'.
    rewrite length_app. destruct (Nat.ltb_spec (length d' + length b) (length d')); [lia|].
    by rewrite drop_app_length, take_app_length.
  - destruct Hd as [-> ->]. done.
Qed.

(** A record cut short ends recovery. *)
Lemma recover_torn r p q fuel : rec_ok r -> rec_bytes r = p ++ q -> q <> [] ->
  recover_loop (S fuel) p = Some [].
Proof.
  intros Hr Hpq Hq. pose proof (length_rec_bytes r Hr) as Hlen. destruct Hr as (Hh & Hl & Hd).
  assert (Hlp : (length p < length (rec_bytes r))%nat).
  { rewrite Hpq, length_app. destruct q; [done|]. cbn. lia. }
  cbn [recover_loop]. destruct (Nat.ltb_spec (length p) HEADER_SIZE); [done|].
  assert (Htk : take HEADER_SIZE p = header_bytes (wr_header r)).
  { rewrite <- (take_header (wr_header r) (default [] (wr_old r) ++ default [] (wr_new r))).
    change (header_bytes (wr_header r) ++ _) with (rec_bytes r).
    by rewrite Hpq, take_app_le. }
  rewrite Htk, header_of_bytes_bytes by done.
  destruct (Z.eqb_spec (wh_lsn (wr_header r)) INVALID_LSN); [done|].
  destruct (Z.ltb_spec 0 (wh_data_size (wr_header r))); [|lia].
  rewrite length_drop. case_match; [done|]. rewrite length_drop, length_drop. case_match; [done|].
  apply Nat.ltb_ge in H1, H2. lia.
Qed.

Lemma recover_empty fuel : recover_loop (S fuel) [] = Some [].
Proof. done. Qed.

Lemma recover_log recs tail : Forall rec_ok recs ->
  (forall fuel, recover_loop (S fuel) tail = Some []) ->
  forall fuel, (length recs < fuel)%nat ->
  recover_loop fuel (concat (map rec_bytes recs) ++ tail) = Some recs.
Proof.
  intros Hrs Ht. induction Hrs as [|r recs Hr _ IH]; intros fuel Hf; (destruct fuel; [cbn in Hf; lia|]).
  - apply Ht.
  - cbn [map concat]. rewrite <- app_assoc, recover_cons by done. cbn in Hf.
    rewrite IH by lia. done.
Qed.

Lemma recs_fuel recs : Forall rec_ok recs -> (length recs <= length (concat (map rec_bytes recs)))%nat.
Proof.
  induction 1 as [|r recs Hr _ IH]; cbn; [lia|]. rewrite length_app, length_rec_bytes by done.
  unfold HEADER_SIZE. lia.
Qed.

(** ** Appending *)

Lemma os_write_cases f ws data :
  let '(f', ws', n) := os_write f ws data in
  (n = Z.of_nat (length data) /\ f' = f ++ data) \/
  (n <> Z.of_nat (length data) /\ exists p q, data = p ++ q /\ q <> [] /\ f' = f ++ p).
Proof.
  unfold os_write. destruct ws as [|[k|] ws]; [by left| |by left].
  rewrite length_take. destruct (Nat.le_gt_cases (length data) k).
  - left. rewrite take_ge by lia. split; [lia|done].
  - right. split; [lia|]. exists (take k data), (drop k data). rewrite take_drop.
    split; [done|]. split; [|done]. intros Hn. apply (f_equal length) in Hn.
    rewrite length_drop in Hn. cbn in Hn. lia.
Qed.

(** Three writes in sequence either complete or leave a strict prefix. *)
Lemma wal_append_cases w ws txn op table rid old new size r :
  0 <= size < 2 ^ 16 ->
  length (image old size) = Z.to_nat size -> length (image new size) = Z.to_nat size ->
  wr_header r = append_header w txn op table rid size ->
  (if 0 <? size then wr_old r = Some (image old size) /\ wr_new r = Some (image new size)
   else wr_old r = None /\ wr_new r = None) ->
  let '(w', ws', lsn) := wal_append w ws txn op table rid old new size in
  (lsn = w_next_lsn w /\ w' = {| w_next_lsn := u64 (w_next_lsn w + 1);
                                 w_flushed_lsn := w_flushed_lsn w;
                                 w_file := w_file w ++ rec_bytes r |}) \/
  (lsn = INVALID_LSN /\ exists p q, rec_bytes r = p ++ q /\ q <> [] /\ w' = with_file w (w_file w ++ p)).
Proof.
  intros Hsz Ho Hn Hh Himg. unfold wal_append, rec_bytes. rewrite Hh.
  pose proof (os_write_cases (w_file w) ws (header_bytes (append_header w txn op table rid size))) as H1.
  destruct (os_write _ ws _) as [[f1 ws1] n1]. rewrite length_header_bytes in H1.
  destruct H1 as [[-> ->]|[Hn1 (p & q & Hpq & Hq & ->)]].
  2:{ destruct (Z.eqb_spec n1 (Z.of_nat HEADER_SIZE)); [done|]. right. split; [done|].
      exists p, (q ++ default [] (wr_old r) ++ default [] (wr_new r)). rewrite Hpq, <- !app_assoc.
      split; [done|]. split; [by destruct q|done]. }
  rewrite Z.eqb_refl. cbn [negb].
  destruct (Z.ltb_spec 0 size).
  2:{ destruct Himg as [-> ->]. rewrite Z.eqb_refl. cbn [negb from_option id]. rewrite !app_nil_r.
      by left. }
  destruct Himg as [-> ->]. cbn [from_option id].
  set (hb := header_bytes _). pose proof (os_write_cases (w_file w ++ hb) ws1 (image old size)) as H2.
  destruct (os_write _ ws1 _) as [[f2 ws2] n2]. rewrite Ho, Z2Nat.id in H2 by lia.
  destruct H2 as [[-> ->]|[Hn2 (p & q & Hpq & Hq & ->)]].
  2:{ destruct (Z.eqb_spec n2 size); [done|]. right. split; [done|].
      exists (hb ++ p), (q ++ image new size). rewrite Hpq, <- !app_assoc.
      split; [done|]. split; [by destruct q|done]. }
  rewrite Z.eqb_refl. cbn [negb].
  pose proof (os_write_cases ((w_file w ++ hb) ++ image old size) ws2 (image new size)) as H3.
  destruct (os_write _ ws2 _) as [[f3 ws3] n3]. rewrite Hn, Z2Nat.id in H3 by lia.
  destruct H3 as [[-> ->]|[Hn3 (p & q & Hpq & Hq & ->)]].
  - rewrite Z.eqb_refl. cbn [negb]. left. by rewrite <- !app_assoc.
  - destruct (Z.eqb_spec n3 size); [done|]. right. split; [done|].
    exists (hb ++ image old size ++ p), q. rewrite Hpq, <- !app_assoc. done.
Qed.

Lemma image_some d : image (Some d) (Z.of_nat (length d)) = d.
Proof. unfold image. by rewrite Nat2Z.id, take_ge. Qed.

Lemma image_none n : image None (Z.of_nat n) = zeros n.
Proof. unfold image. by rewrite Nat2Z.id. Qed.

Lemma op_rec_ok lsn o : log_op_ok o -> 0 < lsn < 2 ^ 64 -> rec_ok (op_rec lsn o).
Proof.
  intros Ho Hl. destruct o as [txn table rid d|txn table rid d d'|txn table rid d|txn|txn|];
    cbn in Ho; unfold rec_ok, header_ok, op_rec; cbn [wr_header wr_old wr_new wh_lsn wh_txn_id
      wh_op_type wh_table_id wh_data_size wh_record_id];
    unfold WAL_INSERT, WAL_UPDATE, WAL_DELETE, WAL_COMMIT, WAL_ABORT, WAL_CHECKPOINT, INVALID_LSN;
    (split; [lia|]); (split; [lia|]).
  all: match goal with |- context [0 <? ?n] => destruct (Z.ltb_spec 0 n) end; cbn [Z.of_nat] in *;
    try lia; try done.
  all: match goal with |- context [(?n =? 0)%nat] => destruct (Nat.eqb_spec n 0) end; try lia; try done.
  all: eexists _, _; split; [reflexivity|]; split; [reflexivity|];
    rewrite ?length_zeros, Nat2Z.id; tauto || done.
Qed.

Lemma log_step_cases w ws o :
  log_op_ok o ->
  let '(w', ws', lsn) := log_step w ws o in
  let r := op_rec (w_next_lsn w) o in
  (lsn = w_next_lsn w /\ w' = {| w_next_lsn := u64 (w_next_lsn w + 1);
                                 w_flushed_lsn := w_flushed_lsn w;
                                 w_file := w_file w ++ rec_bytes r |}) \/
  (lsn = INVALID_LSN /\ exists p q, rec_bytes r = p ++ q /\ q <> [] /\ w' = with_file w (w_file w ++ p)).
Proof.
  intros Ho. destruct o as [txn table rid d|txn table rid d d'|txn table rid d|txn|txn|];
    cbn in Ho; cbn [log_step];
    unfold wal_log_insert, wal_log_update, wal_log_delete, wal_log_commit, wal_log_abort,
      wal_log_checkpoint; apply wal_append_cases; cbn [op_rec wr_header wr_old wr_new].
  all: try lia; try done.
  all: rewrite ?image_some, ?image_none, ?length_zeros, ?Nat2Z.id; try done.
  all: try (unfold append_header; f_equal; unfold WAL_INSERT, WAL_UPDATE, WAL_DELETE, wrap;
            rewrite ?Z.mod_small by lia; done).
  all: try (destruct Ho as (_ & _ & Hdd); rewrite <- Hdd, ?image_some; done).
  all: try (destruct Ho as (_ & _ & Hdd); rewrite <- Hdd, ?image_some).
  all: match goal with |- context [(?n =? 0)%nat] => destruct (Nat.eqb_spec n 0) as [->|] end; try done.
  all: match goal with |- context [0 <? ?n] => destruct (Z.ltb_spec 0 n) end; try lia; try done.
Qed.

(** ** Histories *)

(** What a crash can leave behind the last whole record. *)
Definition torn (tail : bytes) : Prop :=
  tail = [] \/ exists r q, rec_ok r /\ rec_bytes r = tail ++ q /\ q <> [].

Lemma torn_recover tail : torn tail -> forall fuel, recover_loop (S fuel) tail = Some [].
Proof. intros [->|(r & q & Hr & Hrq & Hq)] fuel; [done|]. by eapply recover_torn. Qed.

Lemma op_recs_ok ops : forall lsn, Forall log_op_ok ops -> 0 < lsn ->
  lsn + Z.of_nat (length ops) <= 2 ^ 64 -> Forall rec_ok (op_recs lsn ops).
Proof.
  induction ops as [|o ops IH]; cbn [op_recs]; intros lsn Ho Hl Hb; [constructor|].
  apply Forall_cons in Ho as [Ho Hops]. cbn [length] in Hb. constructor.
  - apply op_rec_ok; [done|lia].
  - apply IH; [done|lia..].
Qed.

Lemma length_op_recs ops : forall lsn, length (op_recs lsn ops) = length ops.
Proof. induction ops as [|o ops IH]; cbn; intros; [done|]. by rewrite IH. Qed.

Lemma op_recs_app ops1 ops2 : forall lsn,
  op_recs lsn (ops1 ++ ops2) = op_recs lsn ops1 ++ op_recs (lsn + Z.of_nat (length ops1)) ops2.
Proof.
  induction ops1 as [|o ops IH]; cbn [op_recs app length]; intros lsn; [by rewrite Z.add_0_r|].
  rewrite IH. do 3 f_equal. lia.
Qed.

Lemma take_op_recs n ops : forall lsn, take n (op_recs lsn ops) = op_recs lsn (take n ops).
Proof. revert ops. induction n as [|n IH]; intros [|o ops] lsn; cbn; try done. by rewrite IH. Qed.

Definition log_bytes (lsn : Z) (ops : list log_op) : bytes := concat (map rec_bytes (op_recs lsn ops)).

Lemma log_run_spec ops : forall w ws w' lsns,
  Forall log_op_ok ops -> 0 < w_next_lsn w -> w_next_lsn w + Z.of_nat (length ops) < 2 ^ 64 ->
  log_run w ws ops = (w', lsns) ->
  exists k tail, (k <= length ops)%nat /\
    w_file w' = w_file w ++ log_bytes (w_next_lsn w) (take k ops) ++ tail /\ torn tail /\
    w_next_lsn w' = w_next_lsn w + Z.of_nat k /\
    ((k = length ops /\ tail = [] /\ lsns = seqZ (w_next_lsn w) (Z.of_nat k)) \/
     lsns = seqZ (w_next_lsn w) (Z.of_nat k) ++ [INVALID_LSN]).
Proof.
  induction ops as [|o ops IH]; cbn [log_run]; intros w ws w' lsns Hops Hl Hb.
  { intros [= <- <-]. exists 0%nat, []. cbn. rewrite app_nil_r.
    split; [lia|]. split; [done|]. split; [by left|]. split; [lia|]. by left. }
  apply Forall_cons in Hops as [Ho Hops]. cbn [length] in Hb.
  pose proof (log_step_cases w ws o Ho) as Hst. destruct (log_step w ws o) as [[w1 ws1] lsn].
  destruct Hst as [[-> ->]|[-> (p & q & Hpq & Hq & ->)]].
  - destruct (Z.eqb_spec (w_next_lsn w) INVALID_LSN) as [He|_]; [unfold INVALID_LSN in He; lia|].
    match goal with |- context [log_run ?x ws1 ops] => set (w1 := x) end.
    destruct (log_run w1 ws1 ops) as [w2 lsns2] eqn:Hrun. intros [= <- <-].
    assert (Hn1 : w_next_lsn w1 = w_next_lsn w + 1) by (cbn; apply u64_small; lia).
    destruct (IH w1 ws1 w2 lsns2) as (k & tail & Hk & Hf & Ht & Hn & Hr); [done|lia|lia|done|].
    exists (S k), tail. rewrite Hn1 in Hf, Hn, Hr.
    split; [cbn; lia|]. split.
    { rewrite Hf. cbn [w1 w_file take log_bytes op_recs map concat]. unfold log_bytes. cbn [op_recs map concat].
      by rewrite <- !app_assoc. }
    split; [done|]. split; [lia|].
    replace (Z.of_nat (S k)) with (Z.succ (Z.of_nat k)) by lia.
    rewrite seqZ_cons by lia. rewrite Z.pred_succ.
    destruct Hr as [(-> & -> & ->)| ->]; [by left|by right].
  - rewrite Z.eqb_refl. intros [= <- <-]. exists 0%nat, p. cbn [take log_bytes].
    split; [lia|]. split; [done|]. split.
    + right. exists (op_rec (w_next_lsn w) o), q. split; [|done]. apply op_rec_ok; [done|lia].
    + split; [cbn; lia|]. by right.
Qed.

(** C23: the log is faithful.  Whatever the outcomes of the writes, logging until
    the first failure hands out the LSNs 1, 2, 3, ..., and recovery of the file
    replays exactly the successfully logged records, in order, with their LSNs,
    ids, and images (zeros for an insert's before and a delete's after image):
    bytes left by the failed call are skipped. *)
Theorem wal_recover_history ws ops w lsns :
  Forall log_op_ok ops -> Z.of_nat (length ops) < 2 ^ 64 - 1 ->
  log_run wal_create ws ops = (w, lsns) ->
  exists k, (k <= length ops)%nat /\ wal_recover w = Some (op_recs 1 (take k ops)) /\
    wal_get_current_lsn w = 1 + Z.of_nat k /\
    ((k = length ops /\ lsns = seqZ 1 (Z.of_nat k)) \/ lsns = seqZ 1 (Z.of_nat k) ++ [INVALID_LSN]).
Proof.
  intros Hops Hb Hrun.
  destruct (log_run_spec ops wal_create ws w lsns Hops) as (k & tail & Hk & Hf & Ht & Hn & Hr);
    [cbn; lia|cbn; lia|done|].
  exists k. split; [done|]. split; [|split; [exact Hn|cbn in Hr; tauto]].
  cbn [wal_create w_file w_next_lsn app] in Hf. unfold wal_recover. rewrite Hf.
  assert (Hok : Forall rec_ok (op_recs 1 (take k ops))).
  { apply op_recs_ok; [by apply Forall_take|lia|rewrite length_take; lia]. }
  apply recover_log; [done|by apply torn_recover|].
  apply recs_fuel in Hok. rewrite length_app. unfold log_bytes. lia.
Qed.

Lemma take_log recs : forall tail n, Forall rec_ok recs -> torn tail ->
  exists m tail', (m <= length recs)%nat /\ torn tail' /\
    take n (concat (map rec_bytes recs) ++ tail) = concat (map rec_bytes (take m recs)) ++ tail' /\
    (m = length recs \/ (n < length (concat (map rec_bytes (take (S m) recs))))%nat).
Proof.
  induction recs as [|r recs IH]; intros tail n Hrs Ht; cbn [map concat app].
  - exists 0%nat, (take n tail). split; [cbn; lia|]. split; [|split; [done|by left]].
    destruct Ht as [->|(r & q & Hr & Hrq & Hq)]; [left; by rewrite take_nil|right].
    exists r, (drop n tail ++ q). rewrite app_assoc, take_drop. split; [done|]. split; [done|].
    intros He. apply app_nil in He as [_ ->]. done.
  - apply Forall_cons in Hrs as [Hr Hrs]. rewrite <- app_assoc.
    destruct (Nat.lt_ge_cases n (length (rec_bytes r))) as [Hn|Hn].
    + exists 0%nat, (take n (rec_bytes r)). split; [lia|]. cbn [take map concat app].
      rewrite take_app_le by lia. split; [|split; [done|right; rewrite app_nil_r; done]].
      right. exists r, (drop n (rec_bytes r)). rewrite take_drop. split; [done|]. split; [done|].
      intros He. apply (f_equal length) in He. rewrite length_drop in He. cbn in He. lia.
    + destruct (IH tail (n - length (rec_bytes r))%nat Hrs Ht) as (m & tail' & Hm & Ht' & Htk & Hlen).
      exists (S m), tail'. split; [cbn; lia|]. split; [done|]. rewrite take_app_ge, Htk by lia.
      cbn [take map concat length]. rewrite app_assoc. split; [done|].
      destruct Hlen as [->|Hlen]; [by left|right]. cbn [take map concat] in Hlen |- *.
      rewrite !length_app in *. lia.
Qed.

(** C39: a crash that cuts the log file at any byte loses only what was not
    wholly written.  If [k] calls succeeded, recovery of the first [n] bytes of
    the file replays the first [m <= k] logged records, and unless [m = k] the
    next record does not fit in [n] bytes. *)
Theorem wal_crash_prefix ws ops w lsns n :
  Forall log_op_ok ops -> Z.of_nat (length ops) < 2 ^ 64 - 1 ->
  log_run wal_create ws ops = (w, lsns) ->
  exists k m, (m <= k <= length ops)%nat /\ wal_get_current_lsn w = 1 + Z.of_nat k /\
    wal_recover (with_file w (take n (w_file w))) = Some (op_recs 1 (take m ops)) /\
    (m = k \/ (n < length (log_bytes 1 (take (S m) ops)))%nat).
Proof.
  intros Hops Hb Hrun.
  destruct (log_run_spec ops wal_create ws w lsns Hops) as (k & tail & Hk & Hf & Ht & Hn & _);
    [cbn; lia|cbn; lia|done|].
  cbn [wal_create w_file w_next_lsn app] in Hf.
  assert (Hok : Forall rec_ok (op_recs 1 (take k ops))).
  { apply op_recs_ok; [by apply Forall_take|lia|rewrite length_take; lia]. }
  destruct (take_log _ tail n Hok Ht) as (m & tail' & Hm & Ht' & Htk & Hlen).
  rewrite length_op_recs, length_take in Hm, Hlen.
  exists k, m. split; [lia|]. split; [exact Hn|]. split.
  - unfold wal_recover. cbn [with_file w_file]. rewrite Hf. unfold log_bytes. rewrite Htk.
    rewrite take_op_recs, take_take, Nat.min_l by lia.
    assert (Hok' : Forall rec_ok (op_recs 1 (take m ops))).
    { apply op_recs_ok; [by apply Forall_take|lia|rewrite length_take; lia]. }
    apply recover_log; [done|by apply torn_recover|].
    apply recs_fuel in Hok'. rewrite length_app. lia.
  - destruct Hlen as [->|Hlen]; [left; lia|].
    destruct (Nat.eq_dec m k); [by left|right]. rewrite take_op_recs, take_take, Nat.min_l in Hlen by lia.
    done.
Qed.

(** ** Reopening *)

Lemma open_scan_log ops : forall lsn fuel, Forall log_op_ok ops -> 0 < lsn ->
  lsn + Z.of_nat (length ops) < 2 ^ 64 -> (length ops < fuel)%nat ->
  open_scan fuel (log_bytes lsn ops) (lsn - 1) = Some (lsn - 1 + Z.of_nat (length ops)).
Proof.
  induction ops as [|o ops IH]; intros lsn [|fuel] Hops Hl Hb Hf; cbn [length] in *; try lia.
  { cbn. f_equal. lia. }
  apply Forall_cons in Hops as [Ho Hops]. pose proof (op_rec_ok lsn o Ho ltac:(lia)) as Hr.
  pose proof (length_rec_bytes _ Hr) as Hlen. destruct Hr as (Hh & _ & Hd).
  unfold log_bytes. cbn [op_recs map concat open_scan]. fold (log_bytes (lsn + 1) ops).
  rewrite length_app. destruct (Nat.ltb_spec (length (rec_bytes (op_rec lsn o)) + length (log_bytes (lsn + 1) ops)) HEADER_SIZE); [lia|].
  unfold rec_bytes. rewrite <- !app_assoc, take_header, drop_header, header_of_bytes_bytes by done.
  assert (Hwl : wh_lsn (wr_header (op_rec lsn o)) = lsn) by by destruct o.
  rewrite Hwl. destruct (Z.ltb_spec (lsn - 1) lsn); [|lia].
  assert (Hdrop : (if 0 <? wh_data_size (wr_header (op_rec lsn o))
     then drop (Z.to_nat (wh_data_size (wr_header (op_rec lsn o)) * 2))
       (default [] (wr_old (op_rec lsn o)) ++ default [] (wr_new (op_rec lsn o)) ++ log_bytes (lsn + 1) ops)
     else default [] (wr_old (op_rec lsn o)) ++ default [] (wr_new (op_rec lsn o)) ++ log_bytes (lsn + 1) ops)
     = log_bytes (lsn + 1) ops).
  { destruct (0 <? wh_data_size _).
    - destruct Hd as (o' & d' & -> & -> & Hd1 & Hd2). cbn [from_option id]. rewrite app_assoc.
      apply drop_app_length'. rewrite length_app. lia.
    - destruct Hd as [-> ->]. done. }
  rewrite Hdrop. specialize (IH (lsn + 1) fuel Hops).
  replace (lsn + 1 - 1) with lsn in IH by lia. rewrite IH by lia. f_equal. lia.
Qed.

(** Reopening continues the log.  When every call so far succeeded, wal_open
    on the file finds the last LSN, so logging after the restart (again with any
    write outcomes) continues the numbering, and recovery replays the records
    of both runs in order. *)
Theorem wal_reopen_continues ws ops w lsns ws2 ops2 :
  Forall log_op_ok (ops ++ ops2) -> Z.of_nat (length (ops ++ ops2)) < 2 ^ 64 - 1 ->
  log_run wal_create ws ops = (w, lsns) -> INVALID_LSN ∉ lsns ->
  exists w2 k, wal_open (Some (w_file w)) = Some w2 /\
    w_next_lsn w2 = w_next_lsn w /\ w_flushed_lsn w2 = w_next_lsn w - 1 /\
    (k <= length ops2)%nat /\
    wal_recover (fst (log_run w2 ws2 ops2)) = Some (op_recs 1 (ops ++ take k ops2)).
Proof.
  intros [Hops Hops2]%Forall_app Hb Hrun Hin. rewrite length_app in Hb.
  destruct (log_run_spec ops wal_create ws w lsns Hops) as (k & tail & Hk & Hf & Ht & Hn & Hr);
    [cbn; lia|cbn; lia|done|].
  destruct Hr as [(-> & -> & _)| ->]; [|exfalso; apply Hin; rewrite elem_of_app; right; left].
  cbn [wal_create w_file w_next_lsn app] in Hf, Hn. rewrite app_nil_r, take_ge in Hf by done.
  assert (Hok : Forall rec_ok (op_recs 1 ops)) by (apply op_recs_ok; [done|lia..]).
  pose proof (recs_fuel _ Hok) as Hfu. rewrite length_op_recs in Hfu.
  set (w2 := {| w_next_lsn := 1 + Z.of_nat (length ops); w_flushed_lsn := Z.of_nat (length ops);
                w_file := log_bytes 1 ops |}).
  assert (Ho : wal_open (Some (w_file w)) = Some w2).
  { unfold wal_open. rewrite Hf. rewrite (open_scan_log ops 1) by (done || unfold log_bytes; lia).
    unfold w2. do 2 f_equal. rewrite u64_small; lia. }
  destruct (log_run w2 ws2 ops2) as [w3 lsns3] eqn:Hrun2.
  destruct (log_run_spec ops2 w2 ws2 w3 lsns3 Hops2) as (k2 & tail & Hk2 & Hf2 & Ht2 & _ & _);
    [cbn; lia|cbn; lia|done|].
  exists w2, k2. rewrite Hn, Hrun2. split; [done|]. cbn [w2 w_next_lsn w_flushed_lsn fst].
  split; [done|]. split; [lia|]. split; [done|].
  unfold wal_recover. rewrite Hf2. cbn [w2 w_file w_next_lsn]. unfold log_bytes.
  rewrite app_assoc, <- concat_app, <- map_app, <- op_recs_app.
  apply recover_log; [|by apply torn_recover|].
  - apply op_recs_ok; [|lia|rewrite length_app, length_take; lia].
    apply Forall_app. split; [done|by apply Forall_take].
  - rewrite length_app.
    assert (Hok2 : Forall rec_ok (op_recs 1 (ops ++ take k2 ops2))).
    { apply op_recs_ok; [|lia|rewrite length_app, length_take; lia].
      apply Forall_app. split; [done|by apply Forall_take]. }
    apply recs_fuel in Hok2. lia.
Qed.

(** ** Concrete runs *)

Definition sample_log : list log_op :=
  [LogInsert 7 TABLE_SEATS 12 [1; 2; 3]; LogUpdate 7 TABLE_SEATS 12 [1; 2; 3] [4; 5; 6];
   LogCommit 7; LogDelete 8 TABLE_EVENTS 4 [9]; LogAbort 8; LogCheckpoint].

Lemma sample_log_ok : Forall log_op_ok sample_log.
Proof.
  unfold sample_log, TABLE_SEATS, TABLE_EVENTS.
  repeat (apply Forall_cons; split; [cbn; lia|]). apply Forall_nil_2.
Qed.

(** The sixth write of the history is short: the update fails. *)
Definition sample_writes : writes := [None; None; None; None; None; Some 1%nat].

Lemma wal_recover_history_witness :
  exists k, (k <= 6)%nat /\
    wal_recover (fst (log_run wal_create sample_writes sample_log)) = Some (op_recs 1 (take k sample_log)) /\
    wal_get_current_lsn (fst (log_run wal_create sample_writes sample_log)) = 1 + Z.of_nat k /\
    ((k = 6%nat /\ snd (log_run wal_create sample_writes sample_log) = seqZ 1 (Z.of_nat k)) \/
     snd (log_run wal_create sample_writes sample_log) = seqZ 1 (Z.of_nat k) ++ [INVALID_LSN]).
Proof.
  apply (wal_recover_history sample_writes sample_log);
    [apply sample_log_ok|cbn; lia|apply surjective_pairing].
Defined.

Lemma wal_crash_prefix_witness :
  exists k m, (m <= k <= 6)%nat /\
    wal_get_current_lsn (fst (log_run wal_create [] sample_log)) = 1 + Z.of_nat k /\
    wal_recover (with_file (fst (log_run wal_create [] sample_log))
                   (take 60 (w_file (fst (log_run wal_create [] sample_log))))) =
      Some (op_recs 1 (take m sample_log)) /\
    (m = k \/ (60 < length (log_bytes 1 (take (S m) sample_log)))%nat).
Proof.
  apply (wal_crash_prefix [] sample_log _ (snd (log_run wal_create [] sample_log)) 60);
    [apply sample_log_ok|cbn; lia|apply surjective_pairing].
Defined.

Lemma wal_reopen_continues_witness :
  exists w2 k, wal_open (Some (w_file (fst (log_run wal_create [] sample_log)))) = Some w2 /\
    w_next_lsn w2 = w_next_lsn (fst (log_run wal_create [] sample_log)) /\
    w_flushed_lsn w2 = w_next_lsn (fst (log_run wal_create [] sample_log)) - 1 /\
    (k <= 6)%nat /\
    wal_recover (fst (log_run w2 sample_writes sample_log)) = Some (op_recs 1 (sample_log ++ take k sample_log)).
Proof.
  apply (wal_reopen_continues [] sample_log _ (snd (log_run wal_create [] sample_log)) sample_writes sample_log).
  - apply Forall_app. split; apply sample_log_ok.
  - cbn. lia.
  - apply surjective_pairing.
  - apply (bool_decide_unpack _). by vm_compute.
Defined.

(** ** Limits of the log format *)

(** A failed append leaves its bytes in the file; the next append then succeeds
    with an LSN, but recovery reads its record misframed: the commit of
    transaction 8 comes back as a record of no transaction. *)
Example torn_append_hides_commit :
  let '(w1, _, lsn1) := wal_log_commit wal_create [Some 5%nat] 7 in
  let '(w2, _, lsn2) := wal_log_commit w1 [] 8 in
  lsn1 = INVALID_LSN /\ lsn2 = 1 /\
  wal_recover w2 = Some [WalRec (WalHeader 1099511627777 0 0 8 0 1024) None None].
Proof. repeat split; reflexivity. Qed.

(** The scan of wal_open counts a record whose images are missing, which
    recovery does not replay: seeking past the end of the file succeeds. *)
Example open_counts_truncated_record :
  let '(w, _, _) := wal_log_insert wal_create [] 7 TABLE_SEATS 12 [1; 2; 3] 3 in
  let f := take 22 (w_file w) in
  option_map w_next_lsn (wal_open (Some f)) = Some 2 /\
  wal_recover (with_file w f) = Some [].
Proof. split; reflexivity. Qed.
