(* ===== verification/LockManager.v ===== *)
(** * Record locks (server/txn/lock_manager.c)

    A fixed table of buckets, each a linked list of lock entries.  Every public
    operation runs under its bucket's mutex, so it is one atomic step here,
    except that a blocked [lock_mgr_lock] gives the mutex up inside
    pthread_cond_wait: it is split into [lock_enter] and [lock_wake].  Entries
    carry the address they were allocated at, since a sleeping thread keeps a
    pointer to its entry; [lock_wake] on a freed entry is [None].

    [sys] adds the threads: who sleeps on what, and which grants were handed
    out.  [step] is their interleaving, with spurious wakeups. *)

From stdpp Require Import base tactics numbers list gmap.
From Stdlib Require Import ZArith Lia.
From S2P Require Import Prelude Types.

#[local] Open Scope Z_scope.

(** ** Entries and buckets *)

Definition LOCK_TABLE_SIZE : nat := 251.

(** A lockable record: table and record id. *)
Definition lock_key : Type := Z * Z.

Record lock_entry := LockEntry {
  le_addr : Z;
  le_key : lock_key;
  le_mode : lock_mode;
  le_shared_count : Z;
  le_exclusive_held : bool;
  le_waiters : Z }.

Record lock_manager := LockManager { lm_buckets : list (list lock_entry); lm_fresh : Z }.

Definition lock_hash (k : lock_key) : nat :=
  Z.to_nat (u32 (u32 (k.1 * 10007) + k.2) mod 251).

Fixpoint find_entry (b : list lock_entry) (k : lock_key) : option lock_entry :=
  match b with
  | [] => None
  | e :: b' => if bool_decide (le_key e = k) then Some e else find_entry b' k
  end.

(** Dereferencing an entry pointer. *)
Fixpoint entry_at (b : list lock_entry) (a : Z) : option lock_entry :=
  match b with
  | [] => None
  | e :: b' => if le_addr e =? a then Some e else entry_at b' a
  end.

(** Writing through an entry pointer. *)
Definition set_entry (b : list lock_entry) (e' : lock_entry) : list lock_entry :=
  map (fun e => if le_addr e =? le_addr e' then e' else e) b.

(** The unlinking loop of try_remove_entry. *)
Fixpoint unlink (b : list lock_entry) (a : Z) : list lock_entry :=
  match b with
  | [] => []
  | e :: b' => if le_addr e =? a then b' else e :: unlink b' a
  end.

Definition create_entry (a : Z) (k : lock_key) : lock_entry :=
  {| le_addr := a; le_key := k; le_mode := LOCK_SHARED; le_shared_count := 0;
     le_exclusive_held := false; le_waiters := 0 |}.

Definition in_use (e : lock_entry) : bool :=
  (0 <? le_shared_count e) || le_exclusive_held e || (0 <? le_waiters e).

Definition try_remove_entry (b : list lock_entry) (target : lock_entry) : list lock_entry :=
  if in_use target then b else unlink b (le_addr target).

(** The loop condition of lock_mgr_lock, negated. *)
Definition grantable (e : lock_entry) (m : lock_mode) : bool :=
  match m with
  | LOCK_SHARED => negb (le_exclusive_held e)
  | LOCK_EXCLUSIVE => negb (le_exclusive_held e || (0 <? le_shared_count e))
  end.

Definition grant (e : lock_entry) (m : lock_mode) : lock_entry :=
  match m with
  | LOCK_SHARED =>
      {| le_addr := le_addr e; le_key := le_key e; le_mode := LOCK_SHARED;
         le_shared_count := le_shared_count e + 1; le_exclusive_held := le_exclusive_held e;
         le_waiters := le_waiters e |}
  | LOCK_EXCLUSIVE =>
      {| le_addr := le_addr e; le_key := le_key e; le_mode := LOCK_EXCLUSIVE;
         le_shared_count := le_shared_count e; le_exclusive_held := true;
         le_waiters := le_waiters e |}
  end.

Definition add_waiters (e : lock_entry) (n : Z) : lock_entry :=
  {| le_addr := le_addr e; le_key := le_key e; le_mode := le_mode e;
     le_shared_count := le_shared_count e; le_exclusive_held := le_exclusive_held e;
     le_waiters := le_waiters e + n |}.

Definition set_counts (e : lock_entry) (shared : Z) (excl : bool) : lock_entry :=
  {| le_addr := le_addr e; le_key := le_key e; le_mode := le_mode e;
     le_shared_count := shared; le_exclusive_held := excl; le_waiters := le_waiters e |}.

(** ** Operations *)

Definition lock_mgr_create : lock_manager :=
  {| lm_buckets := replicate LOCK_TABLE_SIZE []; lm_fresh := 0 |}.

Definition bucket (lm : lock_manager) (k : lock_key) : list lock_entry :=
  default [] (lm_buckets lm !! lock_hash k).

Definition set_bucket (lm : lock_manager) (k : lock_key) (b : list lock_entry) (fresh : Z) : lock_manager :=
  {| lm_buckets := <[lock_hash k := b]> (lm_buckets lm); lm_fresh := fresh |}.

(** lock_mgr_lock up to its return ([None]) or its first pthread_cond_wait
    ([Some a], sleeping on the entry at [a]). *)
Definition lock_enter (lm : lock_manager) (k : lock_key) (m : lock_mode) : lock_manager * option Z :=
  let b := bucket lm k in
  let '(b1, e, fresh) :=
    match find_entry b k with
    | Some e => (b, e, lm_fresh lm)
    | None => let e := create_entry (lm_fresh lm) k in (e :: b, e, lm_fresh lm + 1)
    end in
  if grantable e m then (set_bucket lm k (set_entry b1 (grant e m)) fresh, None)
  else (set_bucket lm k (set_entry b1 (add_waiters e 1)) fresh, Some (le_addr e)).

(** A return from pthread_cond_wait: [true] when the lock is now granted,
    [false] when the thread goes back to sleep. *)
Definition lock_wake (lm : lock_manager) (k : lock_key) (a : Z) (m : lock_mode)
    : option (lock_manager * bool) :=
  let b := bucket lm k in
  match entry_at b a with
  | None => None
  | Some e =>
      let e1 := add_waiters e (-1) in
      if grantable e1 m then Some (set_bucket lm k (set_entry b (grant e1 m)) (lm_fresh lm), true)
      else Some (set_bucket lm k (set_entry b (add_waiters e1 1)) (lm_fresh lm), false)
  end.

(** The third component is the entry whose waiters were broadcast to. *)
Definition lock_mgr_unlock (lm : lock_manager) (k : lock_key) : lock_manager * Z * option Z :=
  let b := bucket lm k in
  match find_entry b k with
  | None => (lm, -1, None)
  | Some e =>
      let release e' :=
        (set_bucket lm k (try_remove_entry (set_entry b e') e') (lm_fresh lm), 0, Some (le_addr e)) in
      if le_exclusive_held e then release (set_counts e (le_shared_count e) false)
      else if 0 <? le_shared_count e then release (set_counts e (le_shared_count e - 1) false)
      else (lm, -1, None)
  end.

(** lock_mgr_release_all's walk over one bucket. *)
Definition release_bucket (b : list lock_entry) : list lock_entry :=
  fold_left (fun b e => let e' := set_counts e 0 false in try_remove_entry (set_entry b e') e') b b.

Definition lock_mgr_release_all (lm : lock_manager) : lock_manager :=
  {| lm_buckets := map release_bucket (lm_buckets lm); lm_fresh := lm_fresh lm |}.

(** ** Threads *)

Record waiter := Waiter { wt_addr : Z; wt_key : lock_key; wt_mode : lock_mode;
                          wt_owner : Z; wt_signaled : bool }.

(** A granted lock; the owner is the transaction it was taken for. *)
Record held_grant := Grant { g_owner : Z; g_key : lock_key; g_mode : lock_mode }.

#[export] Instance held_grant_eq_dec : EqDecision held_grant.
Proof. solve_decision. Defined.

Record sys := Sys { sy_lm : lock_manager; sy_waiting : gmap nat waiter; sy_held : list held_grant }.

Definition sys_init : sys := {| sy_lm := lock_mgr_create; sy_waiting := ∅; sy_held := [] |}.

(** pthread_cond_broadcast on the entry at [a]. *)
Definition signal (a : option Z) (w : waiter) : waiter :=
  if bool_decide (Some (wt_addr w) = a)
  then Waiter (wt_addr w) (wt_key w) (wt_mode w) (wt_owner w) true else w.

Definition broadcast (a : option Z) (ws : gmap nat waiter) : gmap nat waiter := signal a <$> ws.

Inductive step : sys -> sys -> Prop :=
  | step_lock_now s tid owner k m lm' :
      sy_waiting s !! tid = None -> lock_enter (sy_lm s) k m = (lm', None) ->
      step s (Sys lm' (sy_waiting s) (Grant owner k m :: sy_held s))
  | step_lock_sleep s tid owner k m lm' a :
      sy_waiting s !! tid = None -> lock_enter (sy_lm s) k m = (lm', Some a) ->
      step s (Sys lm' (<[tid := Waiter a k m owner false]> (sy_waiting s)) (sy_held s))
  | step_wake_grant s tid w lm' :
      sy_waiting s !! tid = Some w ->
      lock_wake (sy_lm s) (wt_key w) (wt_addr w) (wt_mode w) = Some (lm', true) ->
      step s (Sys lm' (delete tid (sy_waiting s))
                  (Grant (wt_owner w) (wt_key w) (wt_mode w) :: sy_held s))
  | step_wake_sleep s tid w lm' :
      sy_waiting s !! tid = Some w ->
      lock_wake (sy_lm s) (wt_key w) (wt_addr w) (wt_mode w) = Some (lm', false) ->
      step s (Sys lm' (<[tid := Waiter (wt_addr w) (wt_key w) (wt_mode w) (wt_owner w) false]>
                          (sy_waiting s)) (sy_held s))
  (* the discipline of the clients: unlock what was granted *)
  | step_unlock s g held1 held2 lm' rc a :
      sy_held s = held1 ++ g :: held2 ->
      lock_mgr_unlock (sy_lm s) (g_key g) = (lm', rc, a) ->
      step s (Sys lm' (broadcast a (sy_waiting s)) (held1 ++ held2)).

Definition reachable (s : sys) : Prop := rtc step sys_init s.

(** ** The table as a map from keys to entries *)

Definition lm_find (lm : lock_manager) (k : lock_key) : option lock_entry := find_entry (bucket lm k) k.

Definition bucket_wf (i : nat) (b : list lock_entry) : Prop :=
  NoDup (map le_key b) /\ NoDup (map le_addr b) /\ Forall (fun e => lock_hash (le_key e) = i) b.

Record lm_wf (lm : lock_manager) : Prop := LmWf {
  lw_len : length (lm_buckets lm) = LOCK_TABLE_SIZE;
  lw_bucket : forall i b, lm_buckets lm !! i = Some b -> bucket_wf i b;
  lw_fresh : forall i b, lm_buckets lm !! i = Some b -> Forall (fun e => le_addr e < lm_fresh lm) b;
  lw_addr : forall k1 k2 e1 e2, lm_find lm k1 = Some e1 -> lm_find lm k2 = Some e2 ->
    le_addr e1 = le_addr e2 -> k1 = k2 }.

Lemma lock_hash_lt k : (lock_hash k < LOCK_TABLE_SIZE)%nat.
Proof.
  unfold lock_hash, LOCK_TABLE_SIZE. pose proof (Z.mod_pos_bound (u32 (u32 (k.1 * 10007) + k.2)) 251).
  lia.
Qed.

Lemma find_entry_Some b k e : find_entry b k = Some e -> e ∈ b /\ le_key e = k.
Proof.
  induction b as [|x b IH]; cbn; [done|]. case_bool_decide.
  - intros [= ->]. split; [left|done].
  - intros He. destruct (IH He). split; [by right|done].
Qed.

Lemma find_entry_None b k : find_entry b k = None -> k ∉ map le_key b.
Proof.
  induction b as [|x b IH]; cbn; [by intros _ ?%elem_of_nil|]. case_bool_decide; [done|].
  intros He [->|Hin]%elem_of_cons; [done|]. by apply IH.
Qed.

Lemma find_entry_in b e : NoDup (map le_key b) -> e ∈ b -> find_entry b (le_key e) = Some e.
Proof.
  induction b as [|x b IH]; cbn; [by intros _ ?%elem_of_nil|].
  intros [Hx Hnd]%NoDup_cons [->|Hin]%elem_of_cons.
  - by rewrite bool_decide_true.
  - case_bool_decide as Hk; [|by apply IH]. destruct Hx. rewrite Hk.
    by apply (list_elem_of_fmap_2 le_key).
Qed.

Lemma addr_inj b e1 e2 : NoDup (map le_addr b) -> e1 ∈ b -> e2 ∈ b -> le_addr e1 = le_addr e2 -> e1 = e2.
Proof.
  induction b as [|x b IH]; cbn; [by intros _ ?%elem_of_nil|].
  intros [Hx Hnd]%NoDup_cons [->|H1]%elem_of_cons [->|H2]%elem_of_cons Ha; auto.
  - destruct Hx. rewrite Ha. by apply (list_elem_of_fmap_2 le_addr).
  - destruct Hx. rewrite <- Ha. by apply (list_elem_of_fmap_2 le_addr).
Qed.

Lemma entry_at_in b e : NoDup (map le_addr b) -> e ∈ b -> entry_at b (le_addr e) = Some e.
Proof.
  induction b as [|x b IH]; cbn; [by intros _ ?%elem_of_nil|].
  intros [Hx Hnd]%NoDup_cons [->|Hin]%elem_of_cons; [by rewrite Z.eqb_refl|].
  destruct (Z.eqb_spec (le_addr x) (le_addr e)) as [Ha|]; [|by apply IH].
  destruct Hx. rewrite Ha. by apply (list_elem_of_fmap_2 le_addr).
Qed.

Lemma set_entry_addrs b e' : map le_addr (set_entry b e') = map le_addr b.
Proof.
  unfold set_entry. rewrite map_map. apply map_ext. intros e.
  by destruct (Z.eqb_spec (le_addr e) (le_addr e')).
Qed.

Section set_entry.
Context (i : nat) (b : list lock_entry) (k : lock_key) (e e' : lock_entry).
Context (Hwf : bucket_wf i b) (He : find_entry b k = Some e).
Context (Hk : le_key e' = k) (Ha : le_addr e' = le_addr e).

Lemma set_entry_keys : map le_key (set_entry b e') = map le_key b.
Proof.
  destruct (find_entry_Some _ _ _ He) as [Hin Hke]. destruct Hwf as (_ & Hnd & _).
  unfold set_entry. rewrite map_map. apply map_ext_in. intros x Hx.
  destruct (Z.eqb_spec (le_addr x) (le_addr e')); [|done].
  assert (x = e) as ->; [|congruence]. apply (addr_inj b); [done| |done|congruence].
  by apply list_elem_of_In.
Qed.

Lemma set_entry_wf : bucket_wf i (set_entry b e').
Proof.
  pose proof set_entry_keys as Hks. destruct Hwf as (H1 & H2 & H3).
  split; [by rewrite Hks|]. split; [by rewrite set_entry_addrs|].
  apply (Forall_fmap le_key (fun k => lock_hash k = i)).
  change (le_key <$> ?x) with (map le_key x). rewrite Hks.
  by apply (Forall_fmap le_key (fun k => lock_hash k = i)).
Qed.

Lemma find_set_entry k' : find_entry (set_entry b e') k' = if decide (k' = k) then Some e' else find_entry b k'.
Proof.
  destruct (find_entry_Some _ _ _ He) as [Hin Hke]. destruct Hwf as (Hnk & Hnd & _).
  clear Hwf He. revert Hnd Hnk Hin. induction b as [|x b' IH]; cbn; [by intros _ _ ?%elem_of_nil|].
  intros [Hx Hnd]%NoDup_cons [Hxk Hnk]%NoDup_cons [<-|Hin]%elem_of_cons.
  - destruct (Z.eqb_spec (le_addr e) (le_addr e')); [|congruence]. rewrite Hk, Hke.
    assert (Hid : set_entry b' e' = b').
    { unfold set_entry. rewrite <- (map_id b') at 2. apply map_ext_in. intros y Hy.
      destruct (Z.eqb_spec (le_addr y) (le_addr e')) as [Hya|]; [|done]. destruct Hx.
      rewrite <- Ha, <- Hya. apply (list_elem_of_fmap_2 le_addr). by apply list_elem_of_In. }
    change (map _ b') with (set_entry b' e'). rewrite Hid.
    destruct (decide (k' = k)) as [->|]; [by rewrite bool_decide_true|].
    by rewrite bool_decide_false by congruence.
  - assert (Hxe : le_addr x <> le_addr e).
    { intros Hxe. destruct Hx. rewrite Hxe. by apply (list_elem_of_fmap_2 le_addr). }
    destruct (Z.eqb_spec (le_addr x) (le_addr e')); [congruence|].
    assert (le_key x <> k).
    { intros Hxe'. destruct Hxk. rewrite Hxe', <- Hke. by apply (list_elem_of_fmap_2 le_key). }
    change (map _ b') with (set_entry b' e'). rewrite (IH Hnd Hnk Hin).
    case_bool_decide; [|done]. by rewrite decide_False by congruence.
Qed.

Lemma find_unlink k' :
  find_entry (unlink b (le_addr e)) k' = if decide (k' = k) then None else find_entry b k'.
Proof.
  destruct (find_entry_Some _ _ _ He) as [Hin Hke]. destruct Hwf as (Hnk & Hnd & _).
  clear Hwf He. revert Hnd Hnk Hin. induction b as [|x b' IH]; cbn; [by intros _ _ ?%elem_of_nil|].
  intros [Hx Hnd]%NoDup_cons [Hxk Hnk]%NoDup_cons [<-|Hin]%elem_of_cons.
  - rewrite Z.eqb_refl. rewrite Hke in *. destruct (decide (k' = k)) as [->|].
    + destruct (find_entry b' k) eqn:Hf; [|done]. apply find_entry_Some in Hf as [Hf Hfk].
      destruct Hxk. rewrite <- Hfk. by apply (list_elem_of_fmap_2 le_key).
    + by rewrite bool_decide_false by congruence.
  - assert (Hxe : le_addr x <> le_addr e).
    { intros Hxe. destruct Hx. rewrite Hxe. by apply (list_elem_of_fmap_2 le_addr). }
    destruct (Z.eqb_spec (le_addr x) (le_addr e)); [done|]. cbn. rewrite (IH Hnd Hnk Hin).
    case_bool_decide; [|done]. subst k'. rewrite decide_False; [done|].
    intros Hxe'. destruct Hxk. rewrite Hxe', <- Hke. by apply (list_elem_of_fmap_2 le_key).
Qed.

Lemma unlink_sublist : unlink b (le_addr e) `sublist_of` b.
Proof.
  clear. induction b as [|x b' IH]; cbn; [done|]. case_match.
  - by apply sublist_cons.
  - by apply sublist_skip.
Qed.

End set_entry.

(** [lm'] is [lm] with the entry of [k] replaced by [v]. *)
Definition lm_upd (lm : lock_manager) (k : lock_key) (v : option lock_entry) (lm' : lock_manager) : Prop :=
  lm_wf lm' /\ forall k', lm_find lm' k' = if decide (k' = k) then v else lm_find lm k'.

Lemma bucket_lookup lm k : lm_wf lm -> lm_buckets lm !! lock_hash k = Some (bucket lm k).
Proof.
  intros Hwf. unfold bucket. destruct (lookup_lt_is_Some_2 (lm_buckets lm) (lock_hash k)) as [b Hb].
  { rewrite (lw_len lm Hwf). apply lock_hash_lt. }
  by rewrite Hb.
Qed.

Lemma bucket_set lm k b fresh k' : lm_wf lm ->
  bucket (set_bucket lm k b fresh) k' = if decide (lock_hash k' = lock_hash k) then b else bucket lm k'.
Proof.
  intros Hwf. unfold bucket, set_bucket. cbn [lm_buckets]. case_decide as Hh.
  - rewrite Hh, list_lookup_insert_eq; [done|]. rewrite (lw_len lm Hwf). apply lock_hash_lt.
  - by rewrite list_lookup_insert_ne.
Qed.

Lemma find_fresh lm k e : lm_wf lm -> lm_find lm k = Some e -> le_addr e < lm_fresh lm.
Proof.
  intros Hwf He. pose proof (lw_fresh lm Hwf _ _ (bucket_lookup lm k Hwf)) as Hf.
  apply find_entry_Some in He as [Hin _]. rewrite Forall_forall in Hf. by apply Hf.
Qed.

Lemma set_bucket_upd lm k b' fresh' v :
  lm_wf lm -> bucket_wf (lock_hash k) b' -> lm_fresh lm <= fresh' ->
  Forall (fun e => le_addr e < fresh') b' ->
  (forall k', find_entry b' k' = if decide (k' = k) then v else find_entry (bucket lm k) k') ->
  (forall e', v = Some e' ->
     (exists e0, lm_find lm k = Some e0 /\ le_addr e' = le_addr e0) \/ lm_fresh lm <= le_addr e') ->
  lm_upd lm k v (set_bucket lm k b' fresh').
Proof.
  intros Hwf Hb Hf Hfb Hfind Hv. pose proof Hwf as [Hl Hbs Hfr Had].
  assert (Hfd : forall k', lm_find (set_bucket lm k b' fresh') k' = if decide (k' = k) then v else lm_find lm k').
  { intros k'. unfold lm_find. rewrite bucket_set by done. case_decide as Hh.
    - rewrite Hfind. case_decide; [done|]. unfold bucket. by rewrite Hh.
    - by rewrite decide_False by congruence. }
  split; [|exact Hfd]. constructor.
  - cbn. by rewrite length_insert.
  - intros i b. cbn. rewrite list_lookup_insert_Some. intros [(<- & <- & _)|[_ Hib]]; eauto.
  - intros i b. cbn. rewrite list_lookup_insert_Some. intros [(_ & <- & _)|[_ Hib]]; [done|].
    eapply Forall_impl; [by apply (Hfr i)|]. cbn. lia.
  - intros k1 k2 e1 e2. rewrite !Hfd. intros H1 H2 Haa.
    assert (Hnew : forall k3 e3 e4, k3 <> k -> lm_find lm k3 = Some e3 -> v = Some e4 ->
                     le_addr e3 = le_addr e4 -> False).
    { intros k3 e3 e4 Hk3 H3 H4 H34. destruct (Hv e4 H4) as [(e0 & He0 & Hae)|Hge].
      - apply Hk3. apply (Had k3 k e3 e0); congruence.
      - pose proof (find_fresh lm k3 e3 Hwf H3). lia. }
    destruct (decide (k1 = k)), (decide (k2 = k)); subst; try done.
    + exfalso. by apply (Hnew k2 e2 e1).
    + exfalso. by apply (Hnew k1 e1 e2).
    + by apply (Had k1 k2 e1 e2).
Qed.

Lemma Forall_set_entry (P : Z -> Prop) b e' :
  Forall (fun e => P (le_addr e)) b -> Forall (fun e => P (le_addr e)) (set_entry b e').
Proof.
  intros Hb. apply (Forall_fmap le_addr P). change (le_addr <$> ?x) with (map le_addr x).
  rewrite set_entry_addrs. by apply (Forall_fmap le_addr P).
Qed.

Lemma lm_wf_bucket lm k : lm_wf lm ->
  bucket_wf (lock_hash k) (bucket lm k) /\ Forall (fun e => le_addr e < lm_fresh lm) (bucket lm k).
Proof.
  intros Hwf. pose proof (bucket_lookup lm k Hwf) as Hb.
  split; [by apply (lw_bucket lm Hwf)|by apply (lw_fresh lm Hwf _ _ Hb)].
Qed.

(** Replacing an existing entry in place. *)
Lemma replace_upd lm k e e' :
  lm_wf lm -> lm_find lm k = Some e -> le_key e' = k -> le_addr e' = le_addr e ->
  lm_upd lm k (Some e') (set_bucket lm k (set_entry (bucket lm k) e') (lm_fresh lm)).
Proof.
  intros Hwf He Hk Ha. destruct (lm_wf_bucket lm k Hwf) as [Hb Hf]. apply set_bucket_upd; try done.
  - by eapply set_entry_wf.
  - by apply (Forall_set_entry (fun a => a < lm_fresh lm)).
  - intros k'. by apply (find_set_entry (lock_hash k) _ k e).
  - intros ? [= <-]. left. eauto.
Qed.

Lemma grant_key e m : le_key (grant e m) = le_key e. Proof. by destruct m. Qed.
Lemma grant_addr e m : le_addr (grant e m) = le_addr e. Proof. by destruct m. Qed.

Lemma create_wf lm k : lm_wf lm -> lm_find lm k = None ->
  let b1 := create_entry (lm_fresh lm) k :: bucket lm k in
  bucket_wf (lock_hash k) b1 /\ Forall (fun e => le_addr e < lm_fresh lm + 1) b1.
Proof.
  intros Hwf Hn. destruct (lm_wf_bucket lm k Hwf) as [(H1 & H2 & H3) Hf].
  split; [split; [|split]|].
  - cbn. apply NoDup_cons. split; [by apply find_entry_None|done].
  - cbn. apply NoDup_cons. split; [|done]. intros (e & He & Hin)%list_elem_of_fmap.
    rewrite Forall_forall in Hf. apply Hf in Hin. cbn in He. lia.
  - by constructor.
  - constructor; [cbn; lia|]. eapply Forall_impl; [exact Hf|]. cbn. lia.
Qed.

(** The entry lock_mgr_lock works on. *)
Definition entry_for (lm : lock_manager) (k : lock_key) : lock_entry :=
  default (create_entry (lm_fresh lm) k) (lm_find lm k).

Lemma lock_enter_spec lm k m : lm_wf lm ->
  let e := entry_for lm k in
  exists lm', lock_enter lm k m = (lm', if grantable e m then None else Some (le_addr e)) /\
    lm_upd lm k (Some (if grantable e m then grant e m else add_waiters e 1)) lm'.
Proof.
  intros Hwf. unfold entry_for, lock_enter. fold (lm_find lm k).
  destruct (lm_find lm k) as [e|] eqn:He; cbn [from_option id].
  - destruct (find_entry_Some _ _ _ He) as [_ Hk].
    destruct (grantable e m); eexists; (split; [reflexivity|]); apply (replace_upd lm k e);
      rewrite ?grant_key, ?grant_addr; done.
  - set (e := create_entry (lm_fresh lm) k). destruct (create_wf lm k Hwf He) as [Hb Hf].
    assert (He1 : find_entry (e :: bucket lm k) k = Some e)
      by (cbn; by rewrite bool_decide_true).
    assert (Hup : forall e', le_key e' = k -> le_addr e' = le_addr e ->
              lm_upd lm k (Some e')
                (set_bucket lm k (set_entry (e :: bucket lm k) e') (lm_fresh lm + 1))).
    { intros e' Hk' Ha'. apply set_bucket_upd; [done| |lia| | |].
      - by eapply set_entry_wf.
      - by apply (Forall_set_entry (fun a => a < lm_fresh lm + 1)).
      - intros k'. rewrite (find_set_entry (lock_hash k) _ k e) by done.
        case_decide; [done|]. cbn. by rewrite bool_decide_false by (intros <-; done).
      - intros ? [= <-]. right. rewrite Ha'. cbn. lia. }
    destruct (grantable e m); eexists; (split; [reflexivity|]); apply Hup;
      rewrite ?grant_key, ?grant_addr; done.
Qed.

Lemma add_waiters_back e : add_waiters (add_waiters e (-1)) 1 = e.
Proof. destruct e. unfold add_waiters. cbn. f_equal. lia. Qed.

Lemma grantable_waiters e n m : grantable (add_waiters e n) m = grantable e m.
Proof. by destruct m. Qed.

Lemma lock_wake_spec lm k e m : lm_wf lm -> lm_find lm k = Some e ->
  exists lm', lock_wake lm k (le_addr e) m = Some (lm', grantable e m) /\
    lm_upd lm k (Some (if grantable e m then grant (add_waiters e (-1)) m else e)) lm'.
Proof.
  intros Hwf He. destruct (find_entry_Some _ _ _ He) as [Hin Hk].
  destruct (lm_wf_bucket lm k Hwf) as [(_ & Hnd & _) _].
  unfold lock_wake. rewrite (entry_at_in _ _ Hnd Hin), grantable_waiters, add_waiters_back.
  destruct (grantable e m); eexists; (split; [reflexivity|]); apply (replace_upd lm k e);
    rewrite ?grant_key, ?grant_addr; done.
Qed.

Lemma remove_upd lm k e e' :
  lm_wf lm -> lm_find lm k = Some e -> le_key e' = k -> le_addr e' = le_addr e ->
  lm_upd lm k (if in_use e' then Some e' else None)
    (set_bucket lm k (try_remove_entry (set_entry (bucket lm k) e') e') (lm_fresh lm)).
Proof.
  intros Hwf He Hk Ha. unfold try_remove_entry. destruct (in_use e') eqn:Hu; [by eapply replace_upd|].
  destruct (lm_wf_bucket lm k Hwf) as [Hb Hf].
  assert (Hb' : bucket_wf (lock_hash k) (set_entry (bucket lm k) e')) by by eapply set_entry_wf.
  assert (He' : find_entry (set_entry (bucket lm k) e') k = Some e').
  { rewrite (find_set_entry (lock_hash k) _ k e) by done. by rewrite decide_True. }
  pose proof (unlink_sublist (set_entry (bucket lm k) e') e') as Hsub.
  apply set_bucket_upd; try done.
  - destruct Hb' as (H1 & H2 & H3). split; [|split].
    + eapply sublist_NoDup; [exact H1|]. exact (fmap_sublist le_key _ _ Hsub).
    + eapply sublist_NoDup; [exact H2|]. exact (fmap_sublist le_addr _ _ Hsub).
    + by eapply Forall_sublist_of.
  - eapply Forall_sublist_of; [exact Hsub|]. by apply (Forall_set_entry (fun a => a < lm_fresh lm)).
  - intros k'. rewrite (find_unlink (lock_hash k) _ k e') by done.
    rewrite (find_set_entry (lock_hash k) _ k e) by done. by case_decide.
Qed.

(** The entry after lock_mgr_unlock released one holder. *)
Definition released (e : lock_entry) : lock_entry :=
  set_counts e (if le_exclusive_held e then le_shared_count e else le_shared_count e - 1) false.

Lemma unlock_spec lm k e : lm_wf lm -> lm_find lm k = Some e ->
  le_exclusive_held e = true \/ 0 < le_shared_count e ->
  exists lm', lock_mgr_unlock lm k = (lm', 0, Some (le_addr e)) /\
    lm_upd lm k (if in_use (released e) then Some (released e) else None) lm'.
Proof.
  intros Hwf He Hh. unfold lock_mgr_unlock. fold (lm_find lm k). rewrite He.
  destruct (find_entry_Some _ _ _ He) as [_ Hk]. unfold released.
  destruct (le_exclusive_held e) eqn:Hx.
  - eexists. split; [reflexivity|]. by apply (remove_upd lm k e).
  - destruct Hh as [|Hs]; [done|]. apply Z.ltb_lt in Hs. rewrite Hs.
    eexists. split; [reflexivity|]. by apply (remove_upd lm k e).
Qed.

(** ** The invariant of the interleavings *)

(** Grants of key [k] in mode [m], and threads asleep on [k]. *)
Definition granted (k : lock_key) (m : lock_mode) (held : list held_grant) : Z :=
  Z.of_nat (length (filter (fun g => g_key g = k /\ g_mode g = m) held)).

Definition sleeping (k : lock_key) (ws : gmap nat waiter) : Z :=
  Z.of_nat (size (filter (fun p : nat * waiter => wt_key p.2 = k) ws)).

Definition entry_inv (s : sys) (k : lock_key) (e : lock_entry) : Prop :=
  le_shared_count e = granted k LOCK_SHARED (sy_held s) /\
  Z.b2z (le_exclusive_held e) = granted k LOCK_EXCLUSIVE (sy_held s) /\
  (le_exclusive_held e = true -> le_shared_count e = 0) /\
  le_waiters e = sleeping k (sy_waiting s) /\ in_use e = true.

Definition no_entry_inv (s : sys) (k : lock_key) : Prop :=
  granted k LOCK_SHARED (sy_held s) = 0 /\ granted k LOCK_EXCLUSIVE (sy_held s) = 0 /\
  sleeping k (sy_waiting s) = 0.

Definition key_inv (s : sys) (k : lock_key) : Prop :=
  match lm_find (sy_lm s) k with Some e => entry_inv s k e | None => no_entry_inv s k end.

(** A sleeper's entry is still there, and unless a wakeup is pending the lock
    really is unavailable to it. *)
Definition waiter_inv (s : sys) (w : waiter) : Prop :=
  exists e, lm_find (sy_lm s) (wt_key w) = Some e /\ le_addr e = wt_addr w /\
    (wt_signaled w = false -> grantable e (wt_mode w) = false).

Record sys_inv (s : sys) : Prop := SysInv {
  si_lm : lm_wf (sy_lm s);
  si_key : forall k, key_inv s k;
  si_wait : forall tid w, sy_waiting s !! tid = Some w -> waiter_inv s w }.

Lemma granted_cons k m g held :
  granted k m (g :: held) = granted k m held + Z.b2z (bool_decide (g_key g = k /\ g_mode g = m)).
Proof.
  unfold granted. rewrite filter_cons. destruct (decide _); case_bool_decide; try done; cbn [length Z.b2z]; lia.
Qed.

Lemma granted_middle k m h1 g h2 : granted k m (h1 ++ g :: h2) = granted k m (g :: h1 ++ h2).
Proof.
  unfold granted. rewrite filter_app, !filter_cons, filter_app.
  case_decide; cbn [length]; rewrite !length_app; cbn [length]; lia.
Qed.

Lemma granted_nonneg k m held : 0 <= granted k m held.
Proof. unfold granted. lia. Qed.

Lemma sleeping_insert k t w ws : ws !! t = None ->
  sleeping k (<[t := w]> ws) = sleeping k ws + Z.b2z (bool_decide (wt_key w = k)).
Proof.
  intros Hn. unfold sleeping. rewrite map_filter_insert. case_bool_decide as Hk.
  - rewrite decide_True by done. rewrite map_size_insert_None; [cbn; lia|].
    apply map_lookup_filter_None. by left.
  - rewrite decide_False, delete_id by done. cbn. lia.
Qed.

Lemma sleeping_delete k t w ws : ws !! t = Some w ->
  sleeping k (delete t ws) = sleeping k ws - Z.b2z (bool_decide (wt_key w = k)).
Proof.
  intros Hs. rewrite <- (insert_delete_id ws t w Hs) at 2.
  rewrite sleeping_insert by apply lookup_delete_eq. lia.
Qed.

Lemma sleeping_update k t w w' ws : ws !! t = Some w -> wt_key w' = wt_key w ->
  sleeping k (<[t := w']> ws) = sleeping k ws.
Proof.
  intros Hs Hk. rewrite <- (insert_delete_id ws t w Hs) at 2.
  rewrite <- insert_delete_eq. rewrite !sleeping_insert by apply lookup_delete_eq. by rewrite Hk.
Qed.

Lemma signal_key a w : wt_key (signal a w) = wt_key w.
Proof. unfold signal. by case_bool_decide. Qed.

Lemma sleeping_broadcast k a ws : sleeping k (broadcast a ws) = sleeping k ws.
Proof.
  induction ws as [|t w ws Hn IH] using map_ind.
  - done.
  - unfold broadcast. rewrite fmap_insert. fold (broadcast a ws).
    rewrite !sleeping_insert by (done || (unfold broadcast; by rewrite lookup_fmap, Hn)).
    rewrite IH. by rewrite signal_key.
Qed.

(** Everything but the bookkeeping of [k] carries over a step on [k]. *)
Lemma sys_inv_upd s lm' ws' held' k v :
  sys_inv s -> lm_upd (sy_lm s) k v lm' ->
  (forall k', k' <> k -> (forall m, granted k' m held' = granted k' m (sy_held s)) /\
                         sleeping k' ws' = sleeping k' (sy_waiting s)) ->
  match v with
  | Some e => entry_inv (Sys lm' ws' held') k e
  | None => no_entry_inv (Sys lm' ws' held') k
  end ->
  (forall tid w, ws' !! tid = Some w -> wt_key w <> k -> exists tid' b, sy_waiting s !! tid' = Some
     (Waiter (wt_addr w) (wt_key w) (wt_mode w) (wt_owner w) b) /\ (wt_signaled w = false -> b = false)) ->
  (forall tid w, ws' !! tid = Some w -> wt_key w = k ->
     exists e, v = Some e /\ le_addr e = wt_addr w /\
               (wt_signaled w = false -> grantable e (wt_mode w) = false)) ->
  sys_inv (Sys lm' ws' held').
Proof.
  intros [Hlm Hkey Hwait] [Hwf Hfind] Hother Hk Hw1 Hw2. constructor; [done| |].
  - intros k'. unfold key_inv. cbn [sy_lm]. rewrite Hfind. case_decide as Hkk; [by subst|].
    specialize (Hkey k'). unfold key_inv in Hkey. destruct (Hother k' Hkk) as [Hg Hsl].
    destruct (lm_find (sy_lm s) k') as [e|]; unfold entry_inv, no_entry_inv in *;
      cbn [sy_held sy_waiting] in *; by rewrite !Hg, Hsl.
  - intros tid w Hw. cbn in Hw. unfold waiter_inv. cbn [sy_lm]. rewrite Hfind. case_decide as Hkk.
    + destruct (Hw2 tid w Hw Hkk) as (e & -> & ? & ?). eauto.
    + destruct (Hw1 tid w Hw Hkk) as (tid' & b & Ht & Hb).
      destruct (Hwait _ _ Ht) as (e & He & Ha & Hg). cbn in *. exists e. eauto.
Qed.

Definition counts_inv (s : sys) (k : lock_key) (e : lock_entry) : Prop :=
  le_shared_count e = granted k LOCK_SHARED (sy_held s) /\
  Z.b2z (le_exclusive_held e) = granted k LOCK_EXCLUSIVE (sy_held s) /\
  (le_exclusive_held e = true -> le_shared_count e = 0) /\
  le_waiters e = sleeping k (sy_waiting s).

Lemma entry_for_inv s k : sys_inv s -> counts_inv s k (entry_for (sy_lm s) k).
Proof.
  intros [_ Hkey _]. specialize (Hkey k). unfold key_inv, entry_for in *.
  destruct (lm_find (sy_lm s) k) as [e|]; cbn [from_option id].
  - unfold entry_inv in Hkey. unfold counts_inv. tauto.
  - destruct Hkey as (H1 & H2 & H3). unfold counts_inv. cbn. by rewrite H1, H2, H3.
Qed.

Lemma grantable_true e m : grantable e m = true ->
  le_exclusive_held e = false /\ (m = LOCK_EXCLUSIVE -> le_shared_count e <= 0).
Proof.
  destruct m; cbn; intros Hg; [by destruct (le_exclusive_held e)|].
  destruct (le_exclusive_held e); [done|]. destruct (Z.ltb_spec 0 (le_shared_count e)); [done|].
  split; [done|lia].
Qed.

(** A grant accounts for itself; [d] sleepers were added in the same step. *)
Lemma grant_inv s ws' o k m e d lm' :
  counts_inv s k e -> grantable e m = true -> sleeping k ws' = le_waiters e + d ->
  entry_inv (Sys lm' ws' (Grant o k m :: sy_held s)) k (grant (add_waiters e d) m).
Proof.
  intros (H1 & H2 & H3 & H4) [Hx Hs]%grantable_true Hsl. rewrite Hx in H2. cbn in H2.
  pose proof (granted_nonneg k LOCK_SHARED (sy_held s)).
  unfold entry_inv. cbn [sy_held sy_waiting]. rewrite !granted_cons. cbn [g_key g_mode].
  destruct m; cbn [grant add_waiters le_shared_count le_exclusive_held le_waiters in_use].
  - rewrite Hx. rewrite bool_decide_true, bool_decide_false by (try intros [_ ?]; done). cbn.
    split; [lia|]. split; [lia|]. split; [done|]. split; [lia|]. unfold in_use. cbn.
    destruct (Z.ltb_spec 0 (le_shared_count e + 1)); [done|lia].
  - specialize (Hs eq_refl).
    rewrite bool_decide_false, bool_decide_true by (try intros [_ ?]; done). cbn.
    split; [lia|]. split; [lia|]. split; [lia|]. split; [lia|]. unfold in_use. cbn.
    by rewrite orb_true_r.
Qed.

Lemma add_waiters_0 e : add_waiters e 0 = e.
Proof. destruct e. unfold add_waiters. cbn. f_equal. lia. Qed.

(** What was unavailable stays so after a grant to another thread. *)
Lemma grant_blocks s k e m m' d : counts_inv s k e ->
  grantable e m' = false -> grantable (grant (add_waiters e d) m) m' = false.
Proof.
  intros (H1 & _). pose proof (granted_nonneg k LOCK_SHARED (sy_held s)).
  destruct m', m; cbn; intros Hg; try done.
  apply negb_false_iff, orb_true_iff in Hg. apply negb_false_iff, orb_true_iff.
  destruct Hg as [->|_]; [by left|right]. apply Z.ltb_lt. lia.
Qed.

Lemma granted_other k k' o m m' held : k' <> k -> granted k' m' (Grant o k m :: held) = granted k' m' held.
Proof.
  intros Hk. rewrite granted_cons. cbn. rewrite bool_decide_false by (intros [? _]; congruence). cbn. lia.
Qed.

Lemma step_lock_now_inv s tid o k m lm' :
  sys_inv s -> sy_waiting s !! tid = None -> lock_enter (sy_lm s) k m = (lm', None) ->
  sys_inv (Sys lm' (sy_waiting s) (Grant o k m :: sy_held s)).
Proof.
  intros Hinv Hn He. destruct (lock_enter_spec (sy_lm s) k m (si_lm s Hinv)) as (lm1 & He1 & Hup).
  pose proof (entry_for_inv s k Hinv) as Hc. set (e := entry_for (sy_lm s) k) in *.
  rewrite He in He1. destruct (grantable e m) eqn:Hg; [|done]. injection He1 as ->.
  eapply sys_inv_upd; [done|done| | | |].
  - intros k' Hk'. split; [|done]. intros m'. by apply granted_other.
  - rewrite <- (add_waiters_0 e). apply grant_inv; [done..|]. destruct Hc as (_ & _ & _ & ->). lia.
  - intros tid' w Hw Hk'. exists tid', (wt_signaled w). by destruct w.
  - intros tid' w Hw <-. destruct (si_wait s Hinv tid' w Hw) as (e0 & He0 & Ha & Hgr).
    eexists. split; [reflexivity|]. rewrite grant_addr. rewrite <- (add_waiters_0 e).
    split; [subst e; unfold entry_for; by rewrite He0|]. intros Hsig.
    apply (grant_blocks s (wt_key w)); [done|]. subst e. unfold entry_for. rewrite He0. by apply Hgr.
Qed.

Lemma step_lock_sleep_inv s tid o k m lm' a :
  sys_inv s -> sy_waiting s !! tid = None -> lock_enter (sy_lm s) k m = (lm', Some a) ->
  sys_inv (Sys lm' (<[tid := Waiter a k m o false]> (sy_waiting s)) (sy_held s)).
Proof.
  intros Hinv Hn He. destruct (lock_enter_spec (sy_lm s) k m (si_lm s Hinv)) as (lm1 & He1 & Hup).
  pose proof (entry_for_inv s k Hinv) as Hc. set (e := entry_for (sy_lm s) k) in *.
  rewrite He in He1. destruct (grantable e m) eqn:Hg; [done|]. injection He1 as -> ->.
  eapply sys_inv_upd; [done|done| | | |].
  - intros k' Hk'. split; [done|]. rewrite sleeping_insert by done. cbn.
    rewrite bool_decide_false by congruence. cbn. lia.
  - destruct Hc as (H1 & H2 & H3 & H4). unfold entry_inv. cbn [sy_held sy_waiting].
    rewrite sleeping_insert by done. cbn. rewrite bool_decide_true by done. cbn.
    split; [done|]. split; [done|]. split; [done|]. split; [lia|]. unfold in_use. cbn.
    destruct (Z.ltb_spec 0 (le_waiters e + 1)); [by rewrite orb_true_r|].
    unfold sleeping in H4. lia.
  - intros tid' w Hw Hk'. apply lookup_insert_Some in Hw as [[<- <-]|[_ Hw]]; [done|].
    exists tid', (wt_signaled w). by destruct w.
  - intros tid' w Hw <-. eexists. split; [reflexivity|]. cbn [add_waiters le_addr].
    rewrite grantable_waiters. apply lookup_insert_Some in Hw as [[<- <-]|[_ Hw]]; [done|].
    destruct (si_wait s Hinv tid' w Hw) as (e0 & He0 & Ha & Hgr).
    subst e. unfold entry_for. rewrite He0. done.
Qed.

Lemma step_wake_inv s tid w lm' b :
  sys_inv s -> sy_waiting s !! tid = Some w ->
  lock_wake (sy_lm s) (wt_key w) (wt_addr w) (wt_mode w) = Some (lm', b) ->
  sys_inv (if b then Sys lm' (delete tid (sy_waiting s)) (Grant (wt_owner w) (wt_key w) (wt_mode w) :: sy_held s)
           else Sys lm' (<[tid := Waiter (wt_addr w) (wt_key w) (wt_mode w) (wt_owner w) false]>
                          (sy_waiting s)) (sy_held s)).
Proof.
  intros Hinv Hw Hwk. destruct (si_wait s Hinv tid w Hw) as (e & He & Ha & _).
  destruct (lock_wake_spec (sy_lm s) (wt_key w) e (wt_mode w) (si_lm s Hinv) He) as (lm1 & Hwk1 & Hup).
  rewrite Ha, Hwk in Hwk1. injection Hwk1 as -> ->.
  pose proof (si_key s Hinv (wt_key w)) as Hk. unfold key_inv in Hk. rewrite He in Hk.
  assert (Hc : counts_inv s (wt_key w) e) by (unfold counts_inv; unfold entry_inv in Hk; tauto).
  destruct (grantable e (wt_mode w)) eqn:Hg; (eapply sys_inv_upd; [done|done| | | |]).
  - intros k' Hk'. split; [intros m'; by apply granted_other|].
    rewrite (sleeping_delete _ _ _ _ Hw). rewrite bool_decide_false by congruence. cbn. lia.
  - apply grant_inv; [done..|]. rewrite (sleeping_delete _ _ _ _ Hw), bool_decide_true by done.
    destruct Hc as (_ & _ & _ & ->). cbn. lia.
  - intros tid' w' Hw' Hk'. apply lookup_delete_Some in Hw' as [_ Hw'].
    exists tid', (wt_signaled w'). by destruct w'.
  - intros tid' w' Hw' Hk'. apply lookup_delete_Some in Hw' as [_ Hw'].
    destruct (si_wait s Hinv tid' w' Hw') as (e0 & He0 & Ha0 & Hgr). rewrite Hk' in He0.
    assert (e0 = e) as -> by congruence. eexists. split; [reflexivity|]. rewrite grant_addr.
    split; [done|]. intros Hsig. apply (grant_blocks s (wt_key w)); [done|by apply Hgr].
  - intros k' Hk'. split; [done|]. by erewrite sleeping_update.
  - unfold entry_inv in *. cbn [sy_held sy_waiting]. by erewrite sleeping_update.
  - intros tid' w' Hw' Hk'. apply lookup_insert_Some in Hw' as [[<- <-]|[_ Hw']]; [done|].
    exists tid', (wt_signaled w'). by destruct w'.
  - intros tid' w' Hw' Hk'. exists e. split; [done|].
    apply lookup_insert_Some in Hw' as [[<- <-]|[_ Hw']]; [done|].
    destruct (si_wait s Hinv tid' w' Hw') as (e0 & He0 & Ha0 & Hgr). rewrite Hk' in He0.
    assert (e0 = e) as -> by congruence. done.
Qed.

Lemma signal_key_addr a w : wt_addr (signal a w) = wt_addr w /\ wt_mode (signal a w) = wt_mode w /\
  wt_owner (signal a w) = wt_owner w.
Proof. unfold signal. by case_bool_decide. Qed.

(** A granted lock is held by its entry, in the granted mode. *)
Lemma granted_entry s g h1 h2 : sys_inv s -> sy_held s = h1 ++ g :: h2 ->
  exists e, lm_find (sy_lm s) (g_key g) = Some e /\ entry_inv s (g_key g) e /\
    match g_mode g with
    | LOCK_EXCLUSIVE => le_exclusive_held e = true
    | LOCK_SHARED => le_exclusive_held e = false /\ 0 < le_shared_count e
    end.
Proof.
  intros Hinv Hh. pose proof (si_key s Hinv (g_key g)) as Hk. unfold key_inv in Hk.
  assert (Hg : 0 < granted (g_key g) (g_mode g) (sy_held s)).
  { rewrite Hh, granted_middle, granted_cons, bool_decide_true by done.
    pose proof (granted_nonneg (g_key g) (g_mode g) (h1 ++ h2)). cbn. lia. }
  destruct (lm_find (sy_lm s) (g_key g)) as [e|].
  - exists e. split; [done|]. split; [done|]. destruct Hk as (H1 & H2 & H3 & _).
    destruct (g_mode g), (le_exclusive_held e); cbn in H2; try done; try lia;
      try (specialize (H3 eq_refl); lia); (split; [done|lia]).
  - destruct Hk as (H1 & H2 & _). destruct (g_mode g); lia.
Qed.

Lemma released_inv s g h1 h2 e ws' lm' :
  sy_held s = h1 ++ g :: h2 -> entry_inv s (g_key g) e ->
  match g_mode g with
  | LOCK_EXCLUSIVE => le_exclusive_held e = true
  | LOCK_SHARED => le_exclusive_held e = false /\ 0 < le_shared_count e
  end ->
  sleeping (g_key g) ws' = sleeping (g_key g) (sy_waiting s) ->
  match (if in_use (released e) then Some (released e) else None) with
  | Some e' => entry_inv (Sys lm' ws' (h1 ++ h2)) (g_key g) e'
  | None => no_entry_inv (Sys lm' ws' (h1 ++ h2)) (g_key g)
  end.
Proof.
  intros Hh (H1 & H2 & H3 & H4 & _) Hm Hsl.
  rewrite Hh, granted_middle, granted_cons in H1, H2.
  assert (Hc : counts_inv (Sys lm' ws' (h1 ++ h2)) (g_key g) (released e)).
  { unfold counts_inv, released. cbn [sy_held sy_waiting]. destruct (g_mode g) eqn:Hgm.
    - destruct Hm as [Hx Hs]. rewrite Hx in *. cbn [set_counts le_shared_count le_exclusive_held le_waiters].
      rewrite bool_decide_true in H1 by done. rewrite bool_decide_false in H2 by (intros [_ ?]; done).
      cbn in *. split; [lia|]. split; [lia|]. split; [done|lia].
    - rewrite Hm in *. cbn [set_counts le_shared_count le_exclusive_held le_waiters].
      rewrite bool_decide_false in H1 by (intros [_ ?]; done). rewrite bool_decide_true in H2 by done.
      cbn in *. split; [lia|]. split; [lia|]. split; [done|lia]. }
  destruct (in_use (released e)) eqn:Hu; [unfold entry_inv; unfold counts_inv in Hc; tauto|].
  destruct Hc as (C1 & C2 & _ & C4). unfold in_use in Hu. apply orb_false_iff in Hu as [Hu Hw].
  apply orb_false_iff in Hu as [Hs Hx]. apply Z.ltb_ge in Hs, Hw. rewrite Hx in C2. cbn [Z.b2z] in C2.
  unfold no_entry_inv. rewrite <- C1, <- C2, <- C4.
  pose proof (granted_nonneg (g_key g) LOCK_SHARED (h1 ++ h2)). cbn [sy_held sy_waiting] in *.
  unfold sleeping in C4. lia.
Qed.

Lemma step_unlock_inv s g h1 h2 lm' rc a :
  sys_inv s -> sy_held s = h1 ++ g :: h2 -> lock_mgr_unlock (sy_lm s) (g_key g) = (lm', rc, a) ->
  rc = 0 /\ sys_inv (Sys lm' (broadcast a (sy_waiting s)) (h1 ++ h2)).
Proof.
  intros Hinv Hh Hun. destruct (granted_entry s g h1 h2 Hinv Hh) as (e & He & Hei & Hm).
  destruct (unlock_spec (sy_lm s) (g_key g) e (si_lm s Hinv) He) as (lm1 & Hun1 & Hup).
  { destruct (g_mode g); [right; tauto|by left]. }
  rewrite Hun in Hun1. injection Hun1 as -> -> ->. split; [done|].
  eapply sys_inv_upd; [done|done| | | |].
  - intros k' Hk'. rewrite sleeping_broadcast. split; [|done]. intros m'.
    rewrite Hh, granted_middle, granted_cons, bool_decide_false by (intros [? _]; congruence). cbn. lia.
  - eapply released_inv; [done|done|done|]. by rewrite sleeping_broadcast.
  - intros tid w Hw Hk'. unfold broadcast in Hw. apply lookup_fmap_Some in Hw as (w0 & <- & Hw0).
    rewrite signal_key in *. destruct (signal_key_addr (Some (le_addr e)) w0) as (-> & -> & ->).
    exists tid, (wt_signaled w0). split; [by destruct w0|]. unfold signal.
    case_bool_decide; cbn; done.
  - intros tid w Hw Hk'. unfold broadcast in Hw. apply lookup_fmap_Some in Hw as (w0 & <- & Hw0).
    rewrite signal_key in Hk'. destruct (si_wait s Hinv tid w0 Hw0) as (e0 & He0 & Ha0 & _).
    rewrite Hk' in He0. assert (e0 = e) as -> by congruence.
    destruct (signal_key_addr (Some (le_addr e)) w0) as (Haw & Hmw & _). rewrite Haw, Hmw.
    assert (Hwt : in_use (released e) = true).
    { unfold in_use. cbn [released set_counts le_waiters]. destruct Hei as (_ & _ & _ & -> & _).
      rewrite <- (insert_delete_id _ _ _ Hw0), sleeping_insert by apply lookup_delete_eq.
      rewrite bool_decide_true by done. cbn [Z.b2z].
      destruct (Z.ltb_spec 0 (sleeping (g_key g) (delete tid (sy_waiting s)) + 1));
        [by rewrite orb_true_r|unfold sleeping in *; lia]. }
    rewrite Hwt. eexists. split; [reflexivity|]. split; [done|].
    unfold signal. rewrite bool_decide_true by congruence. done.
Qed.

Lemma init_inv : sys_inv sys_init.
Proof.
  assert (Hnone : forall k, lm_find lock_mgr_create k = None).
  { intros k. unfold lm_find, bucket, lock_mgr_create. cbn [lm_buckets].
    by destruct (replicate LOCK_TABLE_SIZE [] !! lock_hash k) as [b|] eqn:Hb;
      [apply lookup_replicate in Hb as [-> _]|]. }
  constructor.
  - constructor.
    + apply length_replicate.
    + intros i b [-> _]%lookup_replicate. repeat split; constructor.
    + intros i b [-> _]%lookup_replicate. constructor.
    + intros k1 k2 e1 e2. cbn. by rewrite Hnone.
  - intros k. unfold key_inv. cbn [sys_init sy_lm]. rewrite Hnone. repeat split.
  - intros tid w. cbn. by rewrite lookup_empty.
Qed.

Lemma step_inv s s' : step s s' -> sys_inv s -> sys_inv s'.
Proof.
  intros Hst Hinv. destruct Hst as [s tid o k m lm' Hn He|s tid o k m lm' a Hn He
    |s tid w lm' Hw Hk|s tid w lm' Hw Hk|s g h1 h2 lm' rc a Hh Hu].
  - by eapply step_lock_now_inv.
  - by eapply step_lock_sleep_inv.
  - by apply (step_wake_inv s tid w lm' true).
  - by apply (step_wake_inv s tid w lm' false).
  - by eapply step_unlock_inv.
Qed.

Lemma reachable_inv s : reachable s -> sys_inv s.
Proof.
  unfold reachable. intros Hr. assert (Hi : sys_inv sys_init -> sys_inv s); [|apply Hi, init_inv].
  induction Hr as [|x y z Hxy _ IH]; [done|]. intros Hx. apply IH. by eapply step_inv.
Qed.

Lemma granted_pos g held : g ∈ held -> 0 < granted (g_key g) (g_mode g) held.
Proof.
  intros (h1 & h2 & ->)%list_elem_of_split. rewrite granted_middle, granted_cons, bool_decide_true by done.
  pose proof (granted_nonneg (g_key g) (g_mode g) (h1 ++ h2)). cbn. lia.
Qed.

Lemma exclusive_alone s h1 g h2 g' :
  reachable s -> sy_held s = h1 ++ g :: h2 -> g' ∈ h1 ++ h2 -> g_key g' = g_key g ->
  g_mode g = LOCK_SHARED /\ g_mode g' = LOCK_SHARED.
Proof.
  intros Hr Hh Hin Hk. pose proof (reachable_inv s Hr) as Hinv.
  destruct (granted_entry s g h1 h2 Hinv Hh) as (e & He & (H1 & H2 & H3 & _) & Hm).
  apply granted_pos in Hin. rewrite Hk in Hin.
  rewrite Hh, granted_middle, granted_cons in H1, H2.
  pose proof (granted_nonneg (g_key g) LOCK_SHARED (h1 ++ h2)).
  pose proof (granted_nonneg (g_key g) LOCK_EXCLUSIVE (h1 ++ h2)).
  destruct (g_mode g) eqn:Hgm.
  - destruct (g_mode g'); [done|]. destruct Hm as [Hx _]. rewrite Hx in H2.
    rewrite bool_decide_false in H2 by (intros [_ ?]; done). cbn in H2. lia.
  - specialize (H3 Hm). rewrite Hm in H2. rewrite bool_decide_true in H2 by done.
    rewrite bool_decide_false in H1 by (intros [_ ?]; done). cbn in H1, H2.
    destruct (g_mode g'); lia.
Qed.

(** C24: mutual exclusion.  In every reachable state of any number of threads
    locking, sleeping, waking (spuriously or not) and unlocking what they were
    granted, an exclusive grant of a record is the only grant of that record. *)
Theorem lock_mutual_exclusion s h1 g h2 g' :
  reachable s -> sy_held s = h1 ++ g :: h2 -> g' ∈ h1 ++ h2 -> g_key g' = g_key g ->
  g_mode g = LOCK_SHARED /\ g_mode g' = LOCK_SHARED.
Proof. apply exclusive_alone. Qed.

(** C25: no lost wakeup and no use after free.  In every reachable state the entry
    a sleeping thread points to is still in its bucket, so waking up is defined;
    and if no broadcast reached the thread since it last went to sleep, waking
    it would only put it back to sleep: the lock is unavailable to it. *)
Theorem lock_sleepers_safe s tid w :
  reachable s -> sy_waiting s !! tid = Some w ->
  exists lm' b, lock_wake (sy_lm s) (wt_key w) (wt_addr w) (wt_mode w) = Some (lm', b) /\
    (wt_signaled w = false -> b = false).
Proof.
  intros Hr Hw. pose proof (reachable_inv s Hr) as Hinv.
  destruct (si_wait s Hinv tid w Hw) as (e & He & Ha & Hg).
  destruct (lock_wake_spec (sy_lm s) (wt_key w) e (wt_mode w) (si_lm s Hinv) He) as (lm' & Hwk & _).
  rewrite <- Ha. eauto.
Qed.

Lemma no_leak s : sys_inv s -> sy_held s = [] -> sy_waiting s = ∅ ->
  forall i b, lm_buckets (sy_lm s) !! i = Some b -> b = [].
Proof.
  intros Hinv Hh Hw i b Hib. destruct b as [|e b]; [done|exfalso].
    destruct (lw_bucket _ (si_lm s Hinv) i _ Hib) as (Hnk & _ & Hhash).
    apply Forall_cons in Hhash as [Hhe _].
    assert (He : lm_find (sy_lm s) (le_key e) = Some e).
    { unfold lm_find, bucket. rewrite Hhe, Hib. cbn. by rewrite bool_decide_true. }
    pose proof (si_key s Hinv (le_key e)) as Hk. unfold key_inv in Hk. rewrite He in Hk.
    destruct Hk as (H1 & H2 & _ & H4 & Hu). rewrite Hh in H1, H2. rewrite Hw in H4.
    unfold in_use in Hu. rewrite H1, H4 in Hu. by destruct (le_exclusive_held e).
Qed.

(** Unlocking never fails for a holder and gives back exactly its grant: in
    every reachable state, lock_mgr_unlock on a granted lock returns 0, and when
    nothing is granted and nobody sleeps every bucket is empty again, so entries
    do not leak. *)
Theorem lock_unlock_and_cleanup s :
  reachable s ->
  (forall g, g ∈ sy_held s -> (lock_mgr_unlock (sy_lm s) (g_key g)).1.2 = 0) /\
  (sy_held s = [] -> sy_waiting s = ∅ -> forall i b, lm_buckets (sy_lm s) !! i = Some b -> b = []).
Proof.
  intros Hr. pose proof (reachable_inv s Hr) as Hinv. split.
  - intros g (h1 & h2 & Hh)%list_elem_of_split.
    destruct (lock_mgr_unlock (sy_lm s) (g_key g)) as [[lm' rc] a] eqn:Hu.
    by destruct (step_unlock_inv s g h1 h2 lm' rc a Hinv Hh Hu).
  - intros Hh Hw. by apply no_leak.
Qed.
(** ** A concrete history *)

Definition seat_12 : lock_key := (2, 12).

(** Two readers, then a writer that has to sleep. *)
Definition sample_sys : sys :=
  let '(lm1, _) := lock_enter lock_mgr_create seat_12 LOCK_SHARED in
  let '(lm2, _) := lock_enter lm1 seat_12 LOCK_SHARED in
  let '(lm3, _) := lock_enter lm2 seat_12 LOCK_EXCLUSIVE in
  {| sy_lm := lm3; sy_waiting := {[ 3%nat := Waiter 0 seat_12 LOCK_EXCLUSIVE 9 false ]};
     sy_held := [Grant 8 seat_12 LOCK_SHARED; Grant 7 seat_12 LOCK_SHARED] |}.

Lemma sample_sys_reachable : reachable sample_sys.
Proof.
  unfold reachable. eapply rtc_l; [apply (step_lock_now _ 1%nat 7 seat_12 LOCK_SHARED); reflexivity|].
  eapply rtc_l; [apply (step_lock_now _ 2%nat 8 seat_12 LOCK_SHARED); reflexivity|].
  eapply rtc_l; [apply (step_lock_sleep _ 3%nat 9 seat_12 LOCK_EXCLUSIVE); reflexivity|].
  apply rtc_refl.
Qed.

Lemma lock_mutual_exclusion_witness :
  g_mode (Grant 8 seat_12 LOCK_SHARED) = LOCK_SHARED /\ g_mode (Grant 7 seat_12 LOCK_SHARED) = LOCK_SHARED.
Proof.
  apply (lock_mutual_exclusion sample_sys [] (Grant 8 seat_12 LOCK_SHARED) [Grant 7 seat_12 LOCK_SHARED]).
  - apply sample_sys_reachable.
  - reflexivity.
  - apply list_elem_of_singleton. reflexivity.
  - reflexivity.
Defined.

Lemma lock_sleepers_safe_witness :
  exists lm' b, lock_wake (sy_lm sample_sys) seat_12 0 LOCK_EXCLUSIVE = Some (lm', b) /\
    (false = false -> b = false).
Proof.
  apply (lock_sleepers_safe sample_sys 3%nat (Waiter 0 seat_12 LOCK_EXCLUSIVE 9 false)).
  - apply sample_sys_reachable.
  - reflexivity.
Defined.

Lemma lock_unlock_and_cleanup_witness :
  (forall g, g ∈ sy_held sample_sys -> (lock_mgr_unlock (sy_lm sample_sys) (g_key g)).1.2 = 0) /\
  (sy_held sample_sys = [] -> sy_waiting sample_sys = ∅ ->
   forall i b, lm_buckets (sy_lm sample_sys) !! i = Some b -> b = []).
Proof. apply lock_unlock_and_cleanup. apply sample_sys_reachable. Defined.
