(* ===== verification/TxnManager.v ===== *)
(** * Transactions (server/txn/txn_manager.c)

    A table of 128 slots under one mutex.  The parts of an operation that run
    under the mutex are functions ([txn_begin], [txn_lock_check],
    [txn_lock_register], [commit_core], [abort_core]); [tstep] interleaves them
    with the lock manager's steps, thread by thread, the way txn_lock,
    txn_commit and txn_abort call them.  A thread's program counter says where
    between two critical sections it stands. *)

From stdpp Require Import base tactics numbers list gmap.
From Stdlib Require Import ZArith Lia.
From S2P Require Import Prelude Types Wal LockManager.

#[local] Open Scope Z_scope.

Definition MAX_ACTIVE_TXNS : nat := 128.
Definition MAX_LOCKS_PER_TXN : nat := 64.

Inductive txn_state := TXN_ACTIVE | TXN_COMMITTED | TXN_ABORTED.

#[export] Instance txn_state_eq_dec : EqDecision txn_state.
Proof. solve_decision. Defined.

Record txn := Txn { tx_id : Z; tx_state : txn_state; tx_locks : list lock_key; tx_active : bool }.

Record txn_manager := TxnMgr { tm_txns : list txn; tm_next_txn_id : Z }.

Definition txn_mgr_create : txn_manager :=
  {| tm_txns := replicate MAX_ACTIVE_TXNS (Txn 0 TXN_ACTIVE [] false); tm_next_txn_id := 1 |}.

(** ** Slots *)

Fixpoint find_slot (p : txn -> bool) (ts : list txn) : option nat :=
  match ts with
  | [] => None
  | t :: ts' => if p t then Some O else option_map S (find_slot p ts')
  end.

Definition is_txn (id : Z) (t : txn) : bool := tx_active t && (tx_id t =? id).

(** find_txn_locked: slot and descriptor. *)
Definition find_txn_locked (tm : txn_manager) (id : Z) : option (nat * txn) :=
  match find_slot (is_txn id) (tm_txns tm) with
  | None => None
  | Some i => option_map (pair i) (tm_txns tm !! i)
  end.

Definition set_txn (tm : txn_manager) (i : nat) (t : txn) : txn_manager :=
  {| tm_txns := <[i := t]> (tm_txns tm); tm_next_txn_id := tm_next_txn_id tm |}.

(** The found descriptor, when it is also in state ACTIVE. *)
Definition active_txn (tm : txn_manager) (id : Z) : option (nat * txn) :=
  match find_txn_locked tm id with
  | Some (i, t) => if bool_decide (tx_state t = TXN_ACTIVE) then Some (i, t) else None
  | None => None
  end.

(** ** Critical sections *)

Definition txn_begin (tm : txn_manager) : txn_manager * Z :=
  match find_slot (fun t => negb (tx_active t)) (tm_txns tm) with
  | None => (tm, INVALID_TXN_ID)
  | Some i =>
      let id := tm_next_txn_id tm in
      let next := u32 (id + 1) in
      ({| tm_txns := <[i := Txn id TXN_ACTIVE [] true]> (tm_txns tm);
          tm_next_txn_id := if next =? INVALID_TXN_ID then 1 else next |}, id)
  end.

Inductive lock_check := LcError | LcAlready | LcAcquire.

(** txn_lock up to the call of lock_mgr_lock. *)
Definition txn_lock_check (tm : txn_manager) (id : Z) (k : lock_key) : lock_check :=
  match active_txn tm id with
  | None => LcError
  | Some (_, t) =>
      if bool_decide (k ∈ tx_locks t) then LcAlready
      else if (MAX_LOCKS_PER_TXN <=? length (tx_locks t))%nat then LcError
      else LcAcquire
  end.

(** txn_lock after lock_mgr_lock: [None] when the transaction is gone. *)
Definition txn_lock_register (tm : txn_manager) (id : Z) (k : lock_key) : option txn_manager :=
  match active_txn tm id with
  | None => None
  | Some (i, t) => Some (set_txn tm i (Txn (tx_id t) (tx_state t) (tx_locks t ++ [k]) (tx_active t)))
  end.

Definition close_txn (tm : txn_manager) (i : nat) (t : txn) (st : txn_state) : txn_manager :=
  set_txn tm i (Txn (tx_id t) st [] false).

(** txn_abort's critical section; the locks are released after it. *)
Definition abort_core (tm : txn_manager) (w : wal) (ws : writes) (id : Z)
    : txn_manager * wal * writes * option (list lock_key) :=
  match active_txn tm id with
  | None => (tm, w, ws, None)
  | Some (i, t) =>
      let '(w', ws', _) := wal_log_abort w ws id in
      (close_txn tm i t TXN_ABORTED, w', ws', Some (tx_locks t))
  end.

(** txn_commit's critical section.  When the log cannot be written or synced it
    is followed by txn_abort's. *)
Definition commit_core (tm : txn_manager) (w : wal) (ws : writes) (synced : bool) (id : Z)
    : txn_manager * wal * writes * option (list lock_key) * Z :=
  match active_txn tm id with
  | None => (tm, w, ws, None, -1)
  | Some (i, t) =>
      let '(w1, ws1, lsn) := wal_log_commit w ws id in
      if lsn =? INVALID_LSN then (abort_core tm w1 ws1 id, -1)
      else
        let '(w2, rc) := wal_flush w1 synced in
        if negb (rc =? 0) then (abort_core tm w2 ws1 id, -1)
        else (close_txn tm i t TXN_COMMITTED, w2, ws1, Some (tx_locks t), 0)
  end.

(** txn_get. *)
Definition txn_get (tm : txn_manager) (id : Z) : option txn := option_map snd (find_txn_locked tm id).

(** The release loop of txn_commit and txn_abort. *)
Definition release_locks (lm : lock_manager) (ks : list lock_key) : lock_manager :=
  fold_left (fun lm k => (lock_mgr_unlock lm k).1.1) ks lm.

(** txn_mgr_destroy: every active transaction is aborted. *)
Definition txn_mgr_destroy (tm : txn_manager) (w : wal) (ws : writes) (lm : lock_manager)
    : wal * lock_manager :=
  let '(_, w', _, lm') :=
    fold_left (fun '(tm, w, ws, lm) i =>
      match tm_txns tm !! i with
      | Some t =>
          if tx_active t && bool_decide (tx_state t = TXN_ACTIVE) then
            match abort_core tm w ws (tx_id t) with
            | (tm', w', ws', Some ks) => (tm', w', ws', release_locks lm ks)
            | (tm', w', ws', None) => (tm', w', ws', lm)
            end
          else (tm, w, ws, lm)
      | None => (tm, w, ws, lm)
      end) (seq 0 MAX_ACTIVE_TXNS) (tm, w, ws, lm)
  in (w', lm').

(** ** Threads *)

Inductive pc :=
  | PcLock (id : Z) (k : lock_key) (m : lock_mode)      (* before lock_mgr_lock *)
  | PcSleep (id : Z) (k : lock_key) (m : lock_mode)     (* inside pthread_cond_wait *)
  | PcRegister (id : Z) (k : lock_key)                  (* before the second critical section *)
  | PcRelease (id : Z) (ks : list lock_key).            (* in the release loop *)

Record tsys := TSys {
  ts_tm : txn_manager; ts_wal : wal; ts_writes : writes;
  ts_locks : sys; ts_pc : gmap nat pc }.

Definition tsys_init (ws : writes) : tsys :=
  {| ts_tm := txn_mgr_create; ts_wal := wal_create; ts_writes := ws;
     ts_locks := sys_init; ts_pc := ∅ |}.

(** The grant a release gives back. *)
Fixpoint remove_grant (id : Z) (k : lock_key) (held : list held_grant) : list held_grant :=
  match held with
  | [] => []
  | g :: held' =>
      if bool_decide (g_owner g = id /\ g_key g = k) then held' else g :: remove_grant id k held'
  end.

Definition start_release (id : Z) (tid : nat) (ks : option (list lock_key)) (pcs : gmap nat pc) : gmap nat pc :=
  match ks with Some ks => <[tid := PcRelease id ks]> pcs | None => pcs end.

(** Transaction ids are taken below 2^32 - 1: the counter's wrap to 1 is out of
    scope of the interleavings. *)
Inductive tstep : tsys -> tsys -> Prop :=
  | t_begin s tid tm' id :
      ts_pc s !! tid = None -> tm_next_txn_id (ts_tm s) < 2 ^ 32 - 1 ->
      txn_begin (ts_tm s) = (tm', id) ->
      tstep s (TSys tm' (ts_wal s) (ts_writes s) (ts_locks s) (ts_pc s))
  | t_lock s tid id k m :
      ts_pc s !! tid = None -> txn_lock_check (ts_tm s) id k = LcAcquire ->
      tstep s (TSys (ts_tm s) (ts_wal s) (ts_writes s) (ts_locks s) (<[tid := PcLock id k m]> (ts_pc s)))
  | t_enter_now s tid id k m lm' :
      ts_pc s !! tid = Some (PcLock id k m) ->
      lock_enter (sy_lm (ts_locks s)) k m = (lm', None) ->
      tstep s (TSys (ts_tm s) (ts_wal s) (ts_writes s)
        (Sys lm' (sy_waiting (ts_locks s)) (Grant id k m :: sy_held (ts_locks s)))
        (<[tid := PcRegister id k]> (ts_pc s)))
  | t_enter_sleep s tid id k m lm' a :
      ts_pc s !! tid = Some (PcLock id k m) ->
      lock_enter (sy_lm (ts_locks s)) k m = (lm', Some a) ->
      tstep s (TSys (ts_tm s) (ts_wal s) (ts_writes s)
        (Sys lm' (<[tid := Waiter a k m id false]> (sy_waiting (ts_locks s))) (sy_held (ts_locks s)))
        (<[tid := PcSleep id k m]> (ts_pc s)))
  | t_wake_grant s tid id k m w lm' :
      ts_pc s !! tid = Some (PcSleep id k m) -> sy_waiting (ts_locks s) !! tid = Some w ->
      lock_wake (sy_lm (ts_locks s)) (wt_key w) (wt_addr w) (wt_mode w) = Some (lm', true) ->
      tstep s (TSys (ts_tm s) (ts_wal s) (ts_writes s)
        (Sys lm' (delete tid (sy_waiting (ts_locks s)))
                 (Grant (wt_owner w) (wt_key w) (wt_mode w) :: sy_held (ts_locks s)))
        (<[tid := PcRegister id k]> (ts_pc s)))
  | t_wake_sleep s tid id k m w lm' :
      ts_pc s !! tid = Some (PcSleep id k m) -> sy_waiting (ts_locks s) !! tid = Some w ->
      lock_wake (sy_lm (ts_locks s)) (wt_key w) (wt_addr w) (wt_mode w) = Some (lm', false) ->
      tstep s (TSys (ts_tm s) (ts_wal s) (ts_writes s)
        (Sys lm' (<[tid := Waiter (wt_addr w) (wt_key w) (wt_mode w) (wt_owner w) false]>
                    (sy_waiting (ts_locks s))) (sy_held (ts_locks s)))
        (ts_pc s))
  | t_register s tid id k tm' :
      ts_pc s !! tid = Some (PcRegister id k) ->
      txn_lock_register (ts_tm s) id k = Some tm' ->
      tstep s (TSys tm' (ts_wal s) (ts_writes s) (ts_locks s) (delete tid (ts_pc s)))
  | t_orphan s tid id k :
      ts_pc s !! tid = Some (PcRegister id k) ->
      txn_lock_register (ts_tm s) id k = None ->
      tstep s (TSys (ts_tm s) (ts_wal s) (ts_writes s) (ts_locks s) (<[tid := PcRelease id [k]]> (ts_pc s)))
  | t_commit s tid id synced tm' w' ws' ks rc :
      ts_pc s !! tid = None ->
      commit_core (ts_tm s) (ts_wal s) (ts_writes s) synced id = (tm', w', ws', ks, rc) ->
      tstep s (TSys tm' w' ws' (ts_locks s) (start_release id tid ks (ts_pc s)))
  | t_abort s tid id tm' w' ws' ks :
      ts_pc s !! tid = None ->
      abort_core (ts_tm s) (ts_wal s) (ts_writes s) id = (tm', w', ws', ks) ->
      tstep s (TSys tm' w' ws' (ts_locks s) (start_release id tid ks (ts_pc s)))
  | t_release s tid id k ks lm' rc a :
      ts_pc s !! tid = Some (PcRelease id (k :: ks)) ->
      lock_mgr_unlock (sy_lm (ts_locks s)) k = (lm', rc, a) ->
      tstep s (TSys (ts_tm s) (ts_wal s) (ts_writes s)
        (Sys lm' (broadcast a (sy_waiting (ts_locks s))) (remove_grant id k (sy_held (ts_locks s))))
        (<[tid := PcRelease id ks]> (ts_pc s)))
  | t_release_done s tid id :
      ts_pc s !! tid = Some (PcRelease id []) ->
      tstep s (TSys (ts_tm s) (ts_wal s) (ts_writes s) (ts_locks s) (delete tid (ts_pc s))).

Definition t_reachable (s : tsys) : Prop := exists ws, rtc tstep (tsys_init ws) s.

(** ** Slots: lemmas *)

Lemma find_slot_Some p ts i : find_slot p ts = Some i -> exists t, ts !! i = Some t /\ p t = true.
Proof.
  revert i. induction ts as [|t ts IH]; cbn; intros i; [done|]. destruct (p t) eqn:Hp.
  - intros [= <-]. eauto.
  - destruct (find_slot p ts) as [j|]; [|done]. intros [= <-]. by apply IH.
Qed.

Lemma find_slot_None p ts i t : find_slot p ts = None -> ts !! i = Some t -> p t = false.
Proof.
  revert i. induction ts as [|x ts IH]; cbn; intros i; [done|]. destruct (p x) eqn:Hp; [done|].
  destruct (find_slot p ts) eqn:Hf; [done|]. intros _. destruct i; cbn; [by intros [= <-]|by apply IH].
Qed.

Lemma is_txn_true id t : is_txn id t = true <-> tx_active t = true /\ tx_id t = id.
Proof. unfold is_txn. rewrite andb_true_iff, Z.eqb_eq. done. Qed.

(** Active descriptors are in state ACTIVE, with unique ids below the counter. *)
Record slots_ok (tm : txn_manager) : Prop := SlotsOk {
  so_next : 1 <= tm_next_txn_id tm < 2 ^ 32;
  so_txn : forall i t, tm_txns tm !! i = Some t -> tx_active t = true ->
    tx_state t = TXN_ACTIVE /\ 0 < tx_id t < tm_next_txn_id tm;
  so_uniq : forall i j t t', tm_txns tm !! i = Some t -> tm_txns tm !! j = Some t' ->
    tx_active t = true -> tx_active t' = true -> tx_id t = tx_id t' -> i = j }.

Lemma active_txn_Some tm id i t : active_txn tm id = Some (i, t) ->
  tm_txns tm !! i = Some t /\ tx_active t = true /\ tx_id t = id /\ tx_state t = TXN_ACTIVE.
Proof.
  unfold active_txn, find_txn_locked. destruct (find_slot _ _) as [j|] eqn:Hf; [|done].
  apply find_slot_Some in Hf as (t' & Ht & [Ha Hi]%is_txn_true). rewrite Ht. cbn.
  case_bool_decide; [|done]. by intros [= -> ->].
Qed.

Lemma active_txn_None tm id i t : slots_ok tm -> active_txn tm id = None ->
  tm_txns tm !! i = Some t -> tx_active t = true -> tx_id t <> id.
Proof.
  intros Hok. unfold active_txn, find_txn_locked. destruct (find_slot _ _) as [j|] eqn:Hf.
  - apply find_slot_Some in Hf as (t' & Ht & [Ha Hi]%is_txn_true). rewrite Ht. cbn.
    destruct (so_txn tm Hok j t' Ht Ha) as [Hs _]. by rewrite bool_decide_true.
  - intros _ Hi Ha Hid. pose proof (find_slot_None _ _ _ _ Hf Hi) as Hn.
    assert (is_txn id t = true) by by apply is_txn_true. congruence.
Qed.

Lemma active_txn_is tm i t : slots_ok tm -> tm_txns tm !! i = Some t -> tx_active t = true ->
  active_txn tm (tx_id t) = Some (i, t).
Proof.
  intros Hok Hi Ha. destruct (active_txn tm (tx_id t)) as [[j t']|] eqn:He.
  - apply active_txn_Some in He as (Hj & Ha' & Hid & _).
    assert (j = i) as -> by by apply (so_uniq tm Hok j i t' t). congruence.
  - by destruct (active_txn_None tm (tx_id t) i t Hok He Hi Ha).
Qed.

(** Replacing an active descriptor by one with the same id, or closing it. *)
Lemma slots_ok_set tm i t t' : slots_ok tm -> tm_txns tm !! i = Some t -> tx_active t = true ->
  tx_id t' = tx_id t -> (tx_active t' = true -> tx_state t' = TXN_ACTIVE) ->
  slots_ok (set_txn tm i t').
Proof.
  intros [Hn Ht Hu] Hi Ha Hid Hst. constructor; cbn; [done|..].
  - intros j x. rewrite list_lookup_insert_Some. intros [(<- & <- & _)|[_ Hj]] Hx; [|by eapply Ht].
    rewrite Hid. split; [by apply Hst|]. by apply (Ht i t).
  - intros j k x y. rewrite !list_lookup_insert_Some.
    intros [(<- & <- & _)|[Hij Hj]] [(<- & <- & _)|[Hik Hk]] Hx Hy Hxy; auto.
    + rewrite Hid in Hxy. by apply (Hu i k t y).
    + rewrite Hid in Hxy. symmetry. by apply (Hu i j t x).
    + by apply (Hu j k x y).
Qed.

Lemma txn_begin_ok tm tm' id : slots_ok tm -> tm_next_txn_id tm < 2 ^ 32 - 1 ->
  txn_begin tm = (tm', id) ->
  (tm' = tm /\ id = INVALID_TXN_ID) \/
  (id = tm_next_txn_id tm /\ slots_ok tm' /\ tm_next_txn_id tm' = id + 1 /\
   exists i t, tm_txns tm !! i = Some t /\ tx_active t = false /\
     tm_txns tm' = <[i := Txn id TXN_ACTIVE [] true]> (tm_txns tm)).
Proof.
  intros [Hn Ht Hu] Hb. unfold txn_begin.
  destruct (find_slot _ _) as [i|] eqn:Hf; [|intros [= <- <-]; by left].
  apply find_slot_Some in Hf as (t & Hi & Ha%negb_true_iff).
  rewrite u32_small by lia. unfold INVALID_TXN_ID.
  destruct (Z.eqb_spec (tm_next_txn_id tm + 1) 0); [lia|]. intros [= <- <-]. right.
  split; [done|]. split; [|split; [done|eauto]]. constructor; cbn; [lia|..].
  - intros j x. rewrite list_lookup_insert_Some. intros [(<- & <- & _)|[_ Hj]] Hx; [cbn; split; [done|lia]|].
    destruct (Ht j x Hj Hx). split; [done|lia].
  - intros j k x y. rewrite !list_lookup_insert_Some.
    intros [(<- & <- & _)|[Hij Hj]] [(<- & <- & _)|[Hik Hk]] Hx Hy Hxy; auto; cbn in *.
    + destruct (Ht k y Hk Hy). lia.
    + destruct (Ht j x Hj Hx). lia.
    + by apply (Hu j k x y).
Qed.

(** ** Counting what transactions and threads owe *)

Definition owed_by_txn (t : txn) : list (Z * lock_key) :=
  if tx_active t then map (pair (tx_id t)) (tx_locks t) else [].

Definition owed_by_pc (p : pc) : list (Z * lock_key) :=
  match p with
  | PcRegister id k => [(id, k)]
  | PcRelease id ks => map (pair id) ks
  | PcLock _ _ _ | PcSleep _ _ _ => []
  end.

Definition held_pairs (held : list held_grant) : list (Z * lock_key) :=
  map (fun g => (g_owner g, g_key g)) held.

Definition cnt (x : Z * lock_key) (l : list (Z * lock_key)) : nat := length (filter (fun y => y = x) l).

Definition cnt_txns (x : Z * lock_key) (ts : list txn) : nat := cnt x (concat (map owed_by_txn ts)).
Definition cnt_pcs (x : Z * lock_key) (pcs : gmap nat pc) : nat :=
  cnt x (concat (map (fun p => owed_by_pc p.2) (map_to_list pcs))).

Lemma cnt_app x l1 l2 : cnt x (l1 ++ l2) = (cnt x l1 + cnt x l2)%nat.
Proof. unfold cnt. by rewrite filter_app, length_app. Qed.

Lemma cnt_cons x y l : cnt x (y :: l) = ((if decide (y = x) then 1 else 0) + cnt x l)%nat.
Proof. unfold cnt. rewrite filter_cons. by case_decide. Qed.

Lemma cnt_in x l : (0 < cnt x l)%nat <-> x ∈ l.
Proof.
  induction l as [|y l IH]; [split; [cbn; lia|by intros ?%elem_of_nil]|].
  rewrite cnt_cons, elem_of_cons, <- IH. case_decide as Hd.
  - split; [by left|lia].
  - split; [right; lia|]. intros [->|]; [done|lia].
Qed.

Lemma cnt_concat_Permutation {A} (f : A -> list (Z * lock_key)) x (l1 l2 : list A) :
  l1 ≡ₚ l2 -> cnt x (concat (map f l1)) = cnt x (concat (map f l2)).
Proof. induction 1; cbn [map concat]; rewrite ?cnt_app; lia. Qed.

Lemma cnt_pcs_insert x t p pcs : pcs !! t = None ->
  cnt_pcs x (<[t := p]> pcs) = (cnt x (owed_by_pc p) + cnt_pcs x pcs)%nat.
Proof.
  intros Hn. unfold cnt_pcs.
  rewrite (cnt_concat_Permutation _ x _ _ (map_to_list_insert pcs t p Hn)). apply cnt_app.
Qed.

Lemma cnt_pcs_delete x t p pcs : pcs !! t = Some p ->
  cnt_pcs x pcs = (cnt x (owed_by_pc p) + cnt_pcs x (delete t pcs))%nat.
Proof.
  intros Hs. rewrite <- (insert_delete_id pcs t p Hs) at 1.
  by rewrite cnt_pcs_insert by apply lookup_delete_eq.
Qed.

Lemma cnt_pcs_update x t p p' pcs : pcs !! t = Some p ->
  (cnt_pcs x (<[t := p']> pcs) + cnt x (owed_by_pc p) = cnt x (owed_by_pc p') + cnt_pcs x pcs)%nat.
Proof.
  intros Hs. rewrite <- insert_delete_eq, cnt_pcs_insert by apply lookup_delete_eq.
  rewrite (cnt_pcs_delete x t p pcs Hs). lia.
Qed.

Lemma cnt_txns_update x i t t' ts : ts !! i = Some t ->
  (cnt_txns x (<[i := t']> ts) + cnt x (owed_by_txn t) = cnt x (owed_by_txn t') + cnt_txns x ts)%nat.
Proof.
  intros (l1 & l2 & -> & ->)%list_elem_of_split_length. rewrite list_insert_app_middle by done.
  unfold cnt_txns. rewrite !map_app, !concat_app. cbn [map concat]. rewrite !cnt_app. lia.
Qed.

Lemma cnt_held_cons x g held :
  cnt x (held_pairs (g :: held)) =
    ((if decide ((g_owner g, g_key g) = x) then 1 else 0) + cnt x (held_pairs held))%nat.
Proof. unfold held_pairs. cbn [map]. apply cnt_cons. Qed.

Lemma remove_grant_split id k held : (id, k) ∈ held_pairs held ->
  exists h1 g h2, held = h1 ++ g :: h2 /\ g_owner g = id /\ g_key g = k /\ remove_grant id k held = h1 ++ h2.
Proof.
  induction held as [|g held IH]; cbn; [by intros ?%elem_of_nil|]. intros Hin.
  case_bool_decide as Hg.
  - exists [], g, held. tauto.
  - apply elem_of_cons in Hin as [Heq|Hin]; [injection Heq as -> ->; by destruct Hg|].
    destruct (IH Hin) as (h1 & g' & h2 & -> & ? & ? & ->). by exists (g :: h1), g', h2.
Qed.

Lemma cnt_held_middle x h1 g h2 :
  cnt x (held_pairs (h1 ++ g :: h2)) =
    ((if decide ((g_owner g, g_key g) = x) then 1 else 0) + cnt x (held_pairs (h1 ++ h2)))%nat.
Proof. unfold held_pairs. rewrite !map_app, !cnt_app. cbn [map]. rewrite cnt_cons. lia. Qed.

(** ** The invariant *)

Definition pc_id (p : pc) : Z :=
  match p with PcLock id _ _ | PcSleep id _ _ | PcRegister id _ | PcRelease id _ => id end.

Definition no_active (tm : txn_manager) (id : Z) : Prop :=
  forall i t, tm_txns tm !! i = Some t -> tx_active t = true -> tx_id t <> id.

(** A release runs for a transaction that is over. *)
Definition pc_ok (tm : txn_manager) (p : pc) : Prop :=
  pc_id p < tm_next_txn_id tm /\
  match p with PcRelease id _ => no_active tm id | _ => True end.

Record tinv (s : tsys) : Prop := TInv {
  ti_sys : reachable (ts_locks s);
  ti_ok : slots_ok (ts_tm s);
  ti_wait : forall tid w, sy_waiting (ts_locks s) !! tid = Some w ->
    ts_pc s !! tid = Some (PcSleep (wt_owner w) (wt_key w) (wt_mode w));
  ti_pc : forall tid p, ts_pc s !! tid = Some p -> pc_ok (ts_tm s) p;
  ti_cnt : forall x, cnt x (held_pairs (sy_held (ts_locks s))) =
    (cnt_txns x (tm_txns (ts_tm s)) + cnt_pcs x (ts_pc s))%nat }.

(** Active ids of [tm'] are old active ids or new ones. *)
Definition tm_grows (tm tm' : txn_manager) : Prop :=
  tm_next_txn_id tm <= tm_next_txn_id tm' /\
  forall i t', tm_txns tm' !! i = Some t' -> tx_active t' = true ->
    tm_next_txn_id tm <= tx_id t' \/
    exists j t, tm_txns tm !! j = Some t /\ tx_active t = true /\ tx_id t = tx_id t'.

Lemma pc_ok_grows tm tm' p : tm_grows tm tm' -> pc_ok tm p -> pc_ok tm' p.
Proof.
  intros [Hn Hg] [Hid Hp]. split; [lia|]. destruct p as [| | |id ks]; try done.
  intros i t Hi Ha. destruct (Hg i t Hi Ha) as [Hge|(j & t0 & Hj & Ha0 & <-)].
  - cbn in Hid. lia.
  - by eapply Hp.
Qed.

Lemma grows_set tm i t t' : tm_txns tm !! i = Some t -> tx_active t = true -> tx_id t' = tx_id t ->
  tm_grows tm (set_txn tm i t').
Proof.
  intros Hi Ha Hid. split; [cbn; lia|]. intros j x. cbn. rewrite list_lookup_insert_Some.
  intros [(<- & <- & _)|[_ Hj]] Hx; right; eauto.
Qed.

Lemma abort_core_spec tm w ws id tm' w' ws' ks :
  abort_core tm w ws id = (tm', w', ws', ks) ->
  match ks with
  | None => active_txn tm id = None /\ tm' = tm
  | Some ks => exists i t, active_txn tm id = Some (i, t) /\ tm' = close_txn tm i t TXN_ABORTED /\
                 ks = tx_locks t
  end.
Proof.
  unfold abort_core. destruct (active_txn tm id) as [[i t]|]; [|by intros [= <- _ _ <-]].
  destruct (wal_log_abort w ws id) as [[w1 ws1] lsn]. intros [= <- <- <- <-]. eauto.
Qed.

Lemma commit_core_spec tm w ws synced id tm' w' ws' ks rc :
  commit_core tm w ws synced id = (tm', w', ws', ks, rc) ->
  match ks with
  | None => active_txn tm id = None /\ tm' = tm
  | Some ks => exists i t st, active_txn tm id = Some (i, t) /\ tm' = close_txn tm i t st /\ ks = tx_locks t
  end.
Proof.
  unfold commit_core. destruct (active_txn tm id) as [[i t]|] eqn:Ha; [|by intros [= <- _ _ <- _]].
  assert (Hab : forall w ws, (abort_core tm w ws id, -1) = (tm', w', ws', ks, rc) ->
    match ks with
    | None => Some (i, t) = None /\ tm' = tm
    | Some ks => exists i' t' st, Some (i, t) = Some (i', t') /\ tm' = close_txn tm i' t' st /\ ks = tx_locks t'
    end).
  { intros w0 ws0 [= He _]. apply abort_core_spec in He. rewrite Ha in He.
    destruct ks; [|by destruct He]. destruct He as (i' & t' & ? & ? & ?). eauto 10. }
  destruct (wal_log_commit w ws id) as [[w1 ws1] lsn]. destruct (lsn =? INVALID_LSN); [by apply Hab|].
  destruct (wal_flush w1 synced) as [w2 rc2]. destruct (negb _); [by apply Hab|].
  intros [= <- <- <- <- <-]. eauto 10.
Qed.

Lemma commit_core_rc tm w ws synced id tm' w' ws' ks rc :
  commit_core tm w ws synced id = (tm', w', ws', ks, rc) -> rc = 0 \/ rc = -1.
Proof.
  unfold commit_core. destruct (active_txn tm id) as [[i t]|]; [|intros [= <- <- <- <- <-]; by right].
  destruct (wal_log_commit w ws id) as [[w1 ws1] lsn]. destruct (lsn =? INVALID_LSN); [intros [= _ <-]; by right|].
  destruct (wal_flush w1 synced) as [w2 rc2]. destruct (negb _); [intros [= _ <-]; by right|].
  intros [= <- <- <- <- <-]. by left.
Qed.

(** Closing a transaction hands its locks over to the release loop. *)
Lemma close_inv s tid id i t st w ws :
  tinv s -> ts_pc s !! tid = None -> active_txn (ts_tm s) id = Some (i, t) ->
  tinv (TSys (close_txn (ts_tm s) i t st) w ws (ts_locks s) (<[tid := PcRelease id (tx_locks t)]> (ts_pc s))).
Proof.
  intros [Hsys Hok Hwait Hpc Hcnt] Hnone Ha. apply active_txn_Some in Ha as (Hi & Hact & Hid & Hst).
  pose proof (so_txn _ Hok i t Hi Hact) as [_ Hlt].
  assert (Hgr : tm_grows (ts_tm s) (close_txn (ts_tm s) i t st)) by by eapply grows_set.
  constructor; cbn [ts_tm ts_wal ts_writes ts_locks ts_pc].
  - done.
  - by eapply slots_ok_set.
  - intros tid' w' Hw'. rewrite lookup_insert_ne; [by apply Hwait|].
    intros <-. apply Hwait in Hw'. congruence.
  - intros tid' p. rewrite lookup_insert_Some. intros [[<- <-]|[_ Hp]]; [|eapply pc_ok_grows; eauto].
    split; [cbn; lia|]. intros j x. cbn. rewrite list_lookup_insert_Some.
    intros [(<- & <- & _)|[Hij Hj]] Hx; [done|]. intros Hxid.
    apply Hij. apply (so_uniq _ Hok i j t x); congruence.
  - intros x. specialize (Hcnt x). rewrite cnt_pcs_insert by done. cbn [owed_by_pc].
    pose proof (cnt_txns_update x i t (Txn (tx_id t) st [] false) _ Hi) as Hup.
    unfold owed_by_txn in Hup. cbn [tx_active tx_id tx_locks] in Hup. rewrite Hact, Hid in Hup.
    change (cnt x []) with 0%nat in Hup.
    unfold close_txn, set_txn. cbn [tm_txns]. rewrite Hcnt, Hid. lia.
Qed.

Lemma tinv_pc s tid p p' : tinv s -> ts_pc s !! tid = p ->
  match p with Some (PcSleep _ _ _) => False | _ => True end ->
  pc_ok (ts_tm s) p' -> (forall x, cnt x (owed_by_pc p') = cnt x (from_option owed_by_pc [] p)) ->
  tinv (TSys (ts_tm s) (ts_wal s) (ts_writes s) (ts_locks s) (<[tid := p']> (ts_pc s))).
Proof.
  intros [Hsys Hok Hwait Hpc Hcnt] Hp Hns Hp' Hc.
  constructor; cbn [ts_tm ts_wal ts_writes ts_locks ts_pc]; [done|done| | |].
  - intros tid' w' Hw'. rewrite lookup_insert_ne; [by apply Hwait|].
    intros <-. apply Hwait in Hw'. rewrite Hw' in Hp. by subst p.
  - intros tid' q. rewrite lookup_insert_Some. intros [[<- <-]|[_ Hq]]; [done|by eapply Hpc].
  - intros x. rewrite (Hcnt x). f_equal. specialize (Hc x). destruct p as [q|]; cbn [from_option] in Hc.
    + pose proof (cnt_pcs_update x tid q p' _ Hp). lia.
    + rewrite cnt_pcs_insert by done. rewrite Hc. done.
Qed.

Lemma tinv_pc_delete s tid p tm' : tinv s -> ts_pc s !! tid = Some p ->
  match p with PcSleep _ _ _ => False | _ => True end ->
  slots_ok tm' -> tm_grows (ts_tm s) tm' ->
  (forall x, cnt_txns x (tm_txns tm') = (cnt_txns x (tm_txns (ts_tm s)) + cnt x (owed_by_pc p))%nat) ->
  tinv (TSys tm' (ts_wal s) (ts_writes s) (ts_locks s) (delete tid (ts_pc s))).
Proof.
  intros [Hsys Hok Hwait Hpc Hcnt] Hp Hns Hok' Hgr Hc.
  constructor; cbn [ts_tm ts_wal ts_writes ts_locks ts_pc]; [done|done| | |].
  - intros tid' w' Hw'. rewrite lookup_delete_ne; [by apply Hwait|].
    intros <-. apply Hwait in Hw'. rewrite Hw' in Hp. by injection Hp as <-.
  - intros tid' q. rewrite lookup_delete_Some. intros [_ Hq]. eapply pc_ok_grows; eauto.
  - intros x. rewrite (Hcnt x), Hc. rewrite (cnt_pcs_delete x tid p _ Hp). lia.
Qed.

(** Granting lock [k] to the thread for transaction [id]. *)
Lemma grant_step_inv s tid p id k m lm' ws' :
  tinv s -> ts_pc s !! tid = Some p -> pc_id p = id -> owed_by_pc p = [] ->
  step (ts_locks s) (Sys lm' ws' (Grant id k m :: sy_held (ts_locks s))) ->
  ws' = delete tid (sy_waiting (ts_locks s)) ->
  tinv (TSys (ts_tm s) (ts_wal s) (ts_writes s)
    (Sys lm' ws' (Grant id k m :: sy_held (ts_locks s))) (<[tid := PcRegister id k]> (ts_pc s))).
Proof.
  intros [Hsys Hok Hwait Hpc Hcnt] Hp Hid Hno Hst Hws.
  constructor; cbn [ts_tm ts_wal ts_writes ts_locks ts_pc sy_waiting sy_held].
  - by eapply rtc_r.
  - done.
  - intros tid' w'. rewrite Hws. rewrite lookup_delete_Some. intros [Hne Hw'].
    rewrite lookup_insert_ne by done. by apply Hwait.
  - intros tid' q. rewrite lookup_insert_Some. intros [[<- <-]|[_ Hq]]; [|by eapply Hpc].
    destruct (Hpc tid p Hp) as [Hlt _]. split; [cbn; lia|done].
  - intros x. rewrite cnt_held_cons. cbn [g_owner g_key]. rewrite (Hcnt x).
    pose proof (cnt_pcs_update x tid p (PcRegister id k) _ Hp) as Hup. rewrite Hno in Hup.
    cbn [owed_by_pc] in Hup. rewrite cnt_cons in Hup. cbn in Hup. lia.
Qed.

(** A step of the lock manager in which a thread goes to sleep. *)
Lemma sleep_step_inv s tid p w lm' :
  tinv s -> ts_pc s !! tid = Some p -> owed_by_pc p = [] -> pc_id p = wt_owner w ->
  step (ts_locks s) (Sys lm' (<[tid := w]> (sy_waiting (ts_locks s))) (sy_held (ts_locks s))) ->
  tinv (TSys (ts_tm s) (ts_wal s) (ts_writes s)
    (Sys lm' (<[tid := w]> (sy_waiting (ts_locks s))) (sy_held (ts_locks s)))
    (<[tid := PcSleep (wt_owner w) (wt_key w) (wt_mode w)]> (ts_pc s))).
Proof.
  intros [Hsys Hok Hwait Hpc Hcnt] Hp Hno Hid Hst.
  constructor; cbn [ts_tm ts_wal ts_writes ts_locks ts_pc sy_waiting sy_held].
  - by eapply rtc_r.
  - done.
  - intros tid' w'. rewrite lookup_insert_Some. intros [[<- <-]|[Hne Hw']]; [apply lookup_insert_eq|].
    rewrite lookup_insert_ne by done. by apply Hwait.
  - intros tid' q. rewrite lookup_insert_Some. intros [[<- <-]|[_ Hq]]; [|by eapply Hpc].
    destruct (Hpc tid p Hp) as [Hlt _]. split; [cbn; lia|done].
  - intros x. rewrite (Hcnt x). f_equal.
    pose proof (cnt_pcs_update x tid p (PcSleep (wt_owner w) (wt_key w) (wt_mode w)) _ Hp) as Hup.
    rewrite Hno in Hup. cbn [owed_by_pc] in Hup. lia.
Qed.

Lemma held_pair_owed s tid id k ks : tinv s -> ts_pc s !! tid = Some (PcRelease id (k :: ks)) ->
  (id, k) ∈ held_pairs (sy_held (ts_locks s)).
Proof.
  intros Hinv Hp. apply cnt_in. rewrite (ti_cnt s Hinv).
  rewrite (cnt_pcs_delete _ tid _ _ Hp). cbn [owed_by_pc map]. rewrite cnt_cons.
  rewrite decide_True by done. lia.
Qed.

Lemma release_step_inv s tid id k ks lm' rc a :
  tinv s -> ts_pc s !! tid = Some (PcRelease id (k :: ks)) ->
  lock_mgr_unlock (sy_lm (ts_locks s)) k = (lm', rc, a) ->
  step (ts_locks s) (Sys lm' (broadcast a (sy_waiting (ts_locks s))) (remove_grant id k (sy_held (ts_locks s)))) /\
  tinv (TSys (ts_tm s) (ts_wal s) (ts_writes s)
    (Sys lm' (broadcast a (sy_waiting (ts_locks s))) (remove_grant id k (sy_held (ts_locks s))))
    (<[tid := PcRelease id ks]> (ts_pc s))).
Proof.
  intros Hinv Hp Hu.
  destruct (remove_grant_split _ _ _ (held_pair_owed s tid id k ks Hinv Hp)) as (h1 & g & h2 & Hh & Ho & Hk & Hr).
  assert (Hst : step (ts_locks s) (Sys lm' (broadcast a (sy_waiting (ts_locks s)))
                                       (remove_grant id k (sy_held (ts_locks s))))).
  { rewrite Hr. apply (step_unlock _ g h1 h2 lm' rc a Hh). by rewrite Hk. }
  split; [done|]. destruct Hinv as [Hsys Hok Hwait Hpc Hcnt].
  constructor; cbn [ts_tm ts_wal ts_writes ts_locks ts_pc sy_waiting sy_held].
  - by eapply rtc_r.
  - done.
  - intros tid' w Hw. unfold broadcast in Hw. apply lookup_fmap_Some in Hw as (w0 & <- & Hw0).
    destruct (signal_key_addr a w0) as (_ & -> & ->). rewrite signal_key.
    apply Hwait in Hw0. rewrite lookup_insert_ne; [done|]. intros <-. congruence.
  - intros tid' q. rewrite lookup_insert_Some. intros [[<- <-]|[_ Hq]]; [|by eapply Hpc].
    by apply (Hpc tid _ Hp).
  - intros x. specialize (Hcnt x). rewrite Hh, cnt_held_middle, <- Hr in Hcnt.
    pose proof (cnt_pcs_update x tid _ (PcRelease id ks) _ Hp) as Hup.
    cbn [owed_by_pc map] in Hup. rewrite cnt_cons in Hup. rewrite Ho, Hk in Hcnt. lia.
Qed.

Lemma tstep_inv s s' : tstep s s' -> tinv s -> tinv s'.
Proof.
  intros Hst Hinv. destruct Hst as [s tid tm' id Hn Hb He|s tid id k m Hn Hc|s tid id k m lm' Hp He
    |s tid id k m lm' a Hp He|s tid id k m w lm' Hp Hw He|s tid id k m w lm' Hp Hw He|s tid id k tm' Hp Hr
    |s tid id k Hp Hr|s tid id synced tm' w' ws' ks rc Hn He|s tid id tm' w' ws' ks Hn He
    |s tid id k ks lm' rc a Hp Hu|s tid id Hp].
  - pose proof Hinv as [Hsys Hok Hwait Hpc Hcnt].
    destruct (txn_begin_ok _ _ _ Hok Hb He) as [[-> _]|(-> & Hok' & Hnx & i & t & Hi & Ha & Hts)].
    { constructor; cbn [ts_tm ts_wal ts_writes ts_locks ts_pc]; done. }
    constructor; cbn [ts_tm ts_wal ts_writes ts_locks ts_pc]; [done..| |].
    + intros tid' p Hp. apply (pc_ok_grows (ts_tm s)); [|by eapply Hpc]. split; [lia|].
      intros j x. rewrite Hts, list_lookup_insert_Some. intros [(<- & <- & _)|[_ Hj]] Hx; [left; cbn; lia|].
      right. eauto.
    + intros x. rewrite (Hcnt x), Hts. f_equal.
      pose proof (cnt_txns_update x i t (Txn (tm_next_txn_id (ts_tm s)) TXN_ACTIVE [] true) _ Hi) as Hup.
      unfold owed_by_txn in Hup. cbn [tx_active tx_locks map] in Hup. rewrite Ha in Hup. lia.
  - apply (tinv_pc s tid None); [done..| |done]. unfold txn_lock_check in Hc.
    destruct (active_txn (ts_tm s) id) as [[i t]|] eqn:Ha; [|done].
    apply active_txn_Some in Ha as (Hi & Hact & <- & _).
    pose proof (so_txn _ (ti_ok s Hinv) i t Hi Hact) as [_ ?]. split; [cbn; lia|done].
  - assert (Hw : sy_waiting (ts_locks s) !! tid = None).
    { destruct (sy_waiting (ts_locks s) !! tid) eqn:Hw; [|done]. apply (ti_wait s Hinv) in Hw. congruence. }
    eapply grant_step_inv; [done|done|done|done|by eapply step_lock_now|by rewrite delete_id].
  - assert (Hw : sy_waiting (ts_locks s) !! tid = None).
    { destruct (sy_waiting (ts_locks s) !! tid) eqn:Hw; [|done]. apply (ti_wait s Hinv) in Hw. congruence. }
    eapply (sleep_step_inv s tid _ (Waiter a k m id false)); [done|done|done|done|]. by eapply step_lock_sleep.
  - pose proof (ti_wait s Hinv _ _ Hw) as Hp'. rewrite Hp in Hp'. injection Hp' as -> -> ->.
    eapply grant_step_inv; [done|done|done|done|by eapply step_wake_grant|done].
  - pose proof (ti_wait s Hinv _ _ Hw) as Hp'.
    pose proof (sleep_step_inv s tid _ (Waiter (wt_addr w) (wt_key w) (wt_mode w) (wt_owner w) false) lm'
                  Hinv Hp') as Hs. cbn [wt_owner wt_key wt_mode] in Hs.
    rewrite (insert_id (ts_pc s)) in Hs by done. apply Hs; [done|done|]. by eapply step_wake_sleep.
  - unfold txn_lock_register in Hr. destruct (active_txn (ts_tm s) id) as [[i t]|] eqn:Ha; [|done].
    injection Hr as <-. apply active_txn_Some in Ha as (Hi & Hact & Hid & Hst).
    eapply tinv_pc_delete; [done|done|done| | |].
    + by eapply slots_ok_set; try apply Hinv.
    + by eapply grows_set.
    + intros x. unfold set_txn. cbn [tm_txns owed_by_pc].
      pose proof (cnt_txns_update x i t (Txn (tx_id t) (tx_state t) (tx_locks t ++ [k]) (tx_active t)) _ Hi) as Hup.
      unfold owed_by_txn in Hup. cbn [tx_active tx_locks tx_id] in Hup. rewrite Hact, Hid, map_app, cnt_app in Hup.
      cbn [map] in Hup. rewrite Hact, Hid. lia.
  - eapply tinv_pc; [done|done|done| |done]. destruct (ti_pc s Hinv _ _ Hp) as [Hlt _]. split; [done|].
    intros i t Hi Hact. unfold txn_lock_register in Hr.
    destruct (active_txn (ts_tm s) id) as [[i' t']|] eqn:Ha; [done|].
    by eapply active_txn_None; try apply Hinv.
  - apply commit_core_spec in He. destruct ks as [ks|]; cbn [start_release].
    + destruct He as (i & t & st & Ha & -> & ->). by apply close_inv.
    + destruct He as [_ ->]. destruct Hinv as [Hsys Hok Hwait Hpc Hcnt]. by constructor.
  - apply abort_core_spec in He. destruct ks as [ks|]; cbn [start_release].
    + destruct He as (i & t & Ha & -> & ->). by apply close_inv.
    + destruct He as [_ ->]. destruct Hinv as [Hsys Hok Hwait Hpc Hcnt]. by constructor.
  - by eapply release_step_inv.
  - eapply tinv_pc_delete; [done|done|done|apply Hinv| |].
    + split; [lia|]. intros i t Hi Ha. right. eauto.
    + intros x. cbn [owed_by_pc map]. change (cnt x []) with 0%nat. lia.
Qed.

Lemma tinit_inv ws : tinv (tsys_init ws).
Proof.
  assert (Hin : forall i t, tm_txns txn_mgr_create !! i = Some t -> tx_active t = false).
  { intros i t. unfold txn_mgr_create. cbn [tm_txns]. by intros [-> _]%lookup_replicate. }
  constructor.
  - apply rtc_refl.
  - constructor; cbn [ts_tm tsys_init]; [cbn; lia|..].
    + intros i t Hi. by rewrite (Hin i t Hi).
    + intros i j t t' Hi _. by rewrite (Hin i t Hi).
  - intros tid w. cbn. by rewrite lookup_empty.
  - intros tid p. cbn. by rewrite lookup_empty.
  - intros x. vm_compute. reflexivity.
Qed.

Lemma t_reachable_inv s : t_reachable s -> tinv s.
Proof.
  intros [ws Hr]. assert (Hi : tinv (tsys_init ws) -> tinv s); [|apply Hi, tinit_inv].
  induction Hr as [|x y z Hxy _ IH]; [done|]. intros Hx. apply IH. by eapply tstep_inv.
Qed.

(** ** Properties *)

Lemma owned_held s i t k : tinv s -> tm_txns (ts_tm s) !! i = Some t -> tx_active t = true ->
  k ∈ tx_locks t -> (tx_id t, k) ∈ held_pairs (sy_held (ts_locks s)).
Proof.
  intros Hinv Hi Ha Hk. apply cnt_in. rewrite (ti_cnt s Hinv).
  pose proof (cnt_txns_update (tx_id t, k) i t (Txn 0 TXN_ACTIVE [] false) _ Hi) as Hup.
  unfold owed_by_txn in Hup. cbn [tx_active] in Hup. rewrite Ha in Hup.
  assert (0 < cnt (tx_id t, k) (map (pair (tx_id t)) (tx_locks t)))%nat; [|cbn in Hup; lia].
  apply cnt_in. by apply (list_elem_of_fmap_2 (pair (tx_id t))).
Qed.

(** Transactions obey the lock manager's discipline: in every interleaving of
    begin, lock, commit and abort (with log failures, orphaned lock requests and
    aborts by other threads), the lock manager only ever takes steps it is safe
    under, and every lock registered with an active transaction is granted to
    that transaction. *)
Theorem txn_lock_discipline s :
  t_reachable s ->
  reachable (ts_locks s) /\
  forall i t k, tm_txns (ts_tm s) !! i = Some t -> tx_active t = true -> k ∈ tx_locks t ->
    (tx_id t, k) ∈ held_pairs (sy_held (ts_locks s)).
Proof.
  intros Hr%t_reachable_inv. split; [apply Hr|]. intros i t k. by apply owned_held.
Qed.

(** Isolation: two different active transactions that both registered a lock
    on one record hold it in shared mode, and so does everyone else. *)
Theorem txn_isolation s i j t1 t2 k g :
  t_reachable s -> i <> j ->
  tm_txns (ts_tm s) !! i = Some t1 -> tx_active t1 = true -> k ∈ tx_locks t1 ->
  tm_txns (ts_tm s) !! j = Some t2 -> tx_active t2 = true -> k ∈ tx_locks t2 ->
  g ∈ sy_held (ts_locks s) -> g_key g = k -> g_mode g = LOCK_SHARED.
Proof.
  intros Hr%t_reachable_inv Hij Hi Ha1 Hk1 Hj Ha2 Hk2 Hg Hgk.
  assert (Hother : exists t, (t = t1 \/ t = t2) /\ tx_id t <> g_owner g /\
            (tx_id t, k) ∈ held_pairs (sy_held (ts_locks s))).
  { destruct (decide (tx_id t1 = g_owner g)) as [He|Hne].
    - exists t2. split; [by right|]. split; [|by eapply owned_held].
      intros He2. apply Hij. apply (so_uniq _ (ti_ok s Hr) i j t1 t2); congruence.
    - exists t1. split; [by left|]. split; [done|by eapply owned_held]. }
  destruct Hother as (t & _ & Hne & Hin). unfold held_pairs in Hin.
  apply list_elem_of_fmap in Hin as (g' & [= Ho Hk'] & Hin').
  apply list_elem_of_split in Hg as (h1 & h2 & Hh). rewrite Hh in Hin'.
  assert (Hin2 : g' ∈ h1 ++ h2).
  { rewrite elem_of_app, elem_of_cons in Hin'. rewrite elem_of_app.
    destruct Hin' as [?|[->|?]]; [by left|done|by right]. }
  by destruct (exclusive_alone _ _ _ _ g' (ti_sys s Hr) Hh Hin2 ltac:(congruence)).
Qed.

Lemma in_remove_grant id k g held : g ∈ held -> g_owner g <> id -> g ∈ remove_grant id k held.
Proof.
  induction held as [|x held IH]; cbn; [by intros ?%elem_of_nil|].
  intros [->|Hin]%elem_of_cons Hne; case_bool_decide as Hx; try tauto.
  - left.
  - right. by apply IH.
Qed.

(** Active transactions keep their lock lists up to growth at the end. *)
Definition lists_kept (tm tm' : txn_manager) : Prop :=
  forall i t i' t', slots_ok tm ->
    tm_txns tm !! i = Some t -> tx_active t = true ->
    tm_txns tm' !! i' = Some t' -> tx_active t' = true -> tx_id t' = tx_id t ->
    tx_locks t `prefix_of` tx_locks t'.

Lemma lists_kept_refl tm : lists_kept tm tm.
Proof.
  intros i t i' t' Hok Hi Ha Hi' Ha' Hid.
  assert (i' = i) as -> by (apply (so_uniq _ Hok i' i t' t); congruence).
  rewrite Hi in Hi'. injection Hi' as ->. done.
Qed.

Lemma lists_kept_set tm j x x' :
  tm_txns tm !! j = Some x -> tx_active x = true ->
  (tx_active x' = true -> tx_locks x `prefix_of` tx_locks x' /\ tx_id x' = tx_id x) ->
  lists_kept tm (set_txn tm j x').
Proof.
  intros Hj Hx Hpre i t i' t' Hok Hi Ha Hi' Ha' Hid. cbn in Hi'. rewrite list_lookup_insert_Some in Hi'.
  destruct Hi' as [(<- & <- & _)|[_ Hi']].
  - destruct (Hpre Ha') as [Hp Hxi].
    assert (i = j) as -> by (apply (so_uniq _ Hok i j t x); congruence).
    assert (t = x) as -> by congruence. done.
  - by apply (lists_kept_refl tm i t i' t').
Qed.

Lemma lists_kept_begin tm tm' id : slots_ok tm -> tm_next_txn_id tm < 2 ^ 32 - 1 ->
  txn_begin tm = (tm', id) -> lists_kept tm tm'.
Proof.
  intros Hok Hb He. destruct (txn_begin_ok _ _ _ Hok Hb He) as [[-> _]|(-> & _ & _ & j & x & Hj & Hxa & Hts)];
    [apply lists_kept_refl|].
  intros i t i' t' _ Hi Ha Hi' Ha' Hid. rewrite Hts, list_lookup_insert_Some in Hi'.
  destruct Hi' as [(_ & <- & _)|[_ Hi']].
  - cbn in Hid. pose proof (so_txn _ Hok i t Hi Ha) as [_ ?]. lia.
  - by apply (lists_kept_refl tm i t i' t').
Qed.

(** C20: strict two-phase locking.  As long as a transaction stays active, no step
    of any thread takes a lock from it: its lock list only grows at the end and
    every grant it owns stays granted. *)
Theorem txn_two_phase s s' id i t i' t' :
  t_reachable s -> tstep s s' ->
  active_txn (ts_tm s) id = Some (i, t) -> active_txn (ts_tm s') id = Some (i', t') ->
  tx_locks t `prefix_of` tx_locks t' /\
  forall g, g ∈ sy_held (ts_locks s) -> g_owner g = id -> g ∈ sy_held (ts_locks s').
Proof.
  intros Hr%t_reachable_inv Hst Ha Ha'. pose proof (tstep_inv s s' Hst Hr) as Hr'.
  apply active_txn_Some in Ha as (Hi & Hact & Hid & _), Ha' as (Hi' & Hact' & Hid' & _).
  assert (Hk : lists_kept (ts_tm s) (ts_tm s') -> tx_locks t `prefix_of` tx_locks t').
  { intros Hk. apply (Hk i t i' t'); try done; [apply Hr|congruence]. }
  destruct Hst as [s tid tm' nid Hn Hb He|s tid nid k m Hn Hc|s tid nid k m lm' Hp He
    |s tid nid k m lm' a Hp He|s tid nid k m w lm' Hp Hw He|s tid nid k m w lm' Hp Hw He|s tid nid k tm' Hp Hrg
    |s tid nid k Hp Hrg|s tid nid synced tm' w' ws' ks rc Hn He|s tid nid tm' w' ws' ks Hn He
    |s tid nid k ks lm' rc a Hp Hu|s tid nid Hp]; cbn [ts_tm ts_locks sy_held] in *;
    try (split; [apply Hk, lists_kept_refl|intros g Hg _; try (right); done]).
  - split; [|done]. apply Hk. by eapply lists_kept_begin; [apply Hr|..].
  - split; [|done]. apply Hk. unfold txn_lock_register in Hrg.
    destruct (active_txn (ts_tm s) nid) as [[j x]|] eqn:Hx; [|done]. injection Hrg as <-.
    apply active_txn_Some in Hx as (Hj & Hxa & _). eapply lists_kept_set; [done..|].
    intros _. cbn. split; [by apply prefix_app_r|done].
  - split; [|done]. apply Hk. apply commit_core_spec in He.
    destruct ks as [ks|]; [|destruct He as [_ ->]; apply lists_kept_refl].
    destruct He as (j & x & st & Hx & -> & _). apply active_txn_Some in Hx as (Hj & Hxa & _).
    by eapply lists_kept_set.
  - split; [|done]. apply Hk. apply abort_core_spec in He.
    destruct ks as [ks|]; [|destruct He as [_ ->]; apply lists_kept_refl].
    destruct He as (j & x & Hx & -> & _). apply active_txn_Some in Hx as (Hj & Hxa & _).
    by eapply lists_kept_set.
  - split; [apply Hk, lists_kept_refl|]. intros g Hg Ho. apply in_remove_grant; [done|].
    destruct (ti_pc s Hr _ _ Hp) as [_ Hno]. specialize (Hno i t Hi Hact). congruence.
Qed.

(** Nothing leaks.  When no transaction is active and no thread is inside an
    operation, no lock is granted and the lock table is empty, whatever mix of
    commits, aborts, log failures and orphaned lock requests led there. *)
Theorem txn_quiescent_clean s :
  t_reachable s -> ts_pc s = ∅ ->
  (forall i t, tm_txns (ts_tm s) !! i = Some t -> tx_active t = false) ->
  sy_held (ts_locks s) = [] /\ forall i b, lm_buckets (sy_lm (ts_locks s)) !! i = Some b -> b = [].
Proof.
  intros Hr%t_reachable_inv Hpc Hact.
  assert (Hh : sy_held (ts_locks s) = []).
  { destruct (sy_held (ts_locks s)) as [|g held] eqn:Hh; [done|exfalso].
    pose proof (ti_cnt s Hr (g_owner g, g_key g)) as Hc. rewrite Hh, Hpc, cnt_held_cons in Hc.
    rewrite decide_True in Hc by done.
    assert (Ht : cnt_txns (g_owner g, g_key g) (tm_txns (ts_tm s)) = 0%nat).
    { unfold cnt_txns. revert Hact. clear. induction (tm_txns (ts_tm s)) as [|x ts IH]; intros Hact; [done|].
      cbn [map concat]. rewrite cnt_app. unfold owed_by_txn at 1.
      rewrite (Hact O x eq_refl). cbn. apply IH. intros i t Hi. by apply (Hact (S i)). }
    rewrite Ht in Hc. unfold cnt_pcs in Hc. rewrite map_to_list_empty in Hc. cbn in Hc. lia. }
  split; [done|]. apply no_leak; [apply reachable_inv, Hr|done|].
  apply map_empty. intros tid. destruct (sy_waiting (ts_locks s) !! tid) as [w|] eqn:Hw; [|done].
  apply (ti_wait s Hr) in Hw. by rewrite Hpc, lookup_empty in Hw.
Qed.

(** C26: a commit is durable before any lock is given back: when txn_commit's
    critical section succeeds, the log has grown by exactly the COMMIT record of
    the transaction, that record is synced, the slot is free and the locks to
    release are the transaction's; when it fails on an active transaction, the
    slot is free too, and the locks are released as an abort. *)
Theorem txn_commit_durable tm w ws synced id i t tm' w' ws' ks rc :
  active_txn tm id = Some (i, t) -> 0 <= id < 2 ^ 32 -> 0 < w_next_lsn w < 2 ^ 64 - 1 ->
  commit_core tm w ws synced id = (tm', w', ws', ks, rc) ->
  ks = Some (tx_locks t) /\
  (rc = 0 /\ w_file w' = w_file w ++ rec_bytes (op_rec (w_next_lsn w) (LogCommit id)) /\
     w_flushed_lsn w' = w_next_lsn w /\ tm' = close_txn tm i t TXN_COMMITTED \/
   rc = -1 /\ tm' = close_txn tm i t TXN_ABORTED).
Proof.
  intros Ha Hid Hl. unfold commit_core, abort_core. rewrite Ha.
  pose proof (log_step_cases w ws (LogCommit id) Hid) as Hc. cbn [log_step] in Hc.
  destruct (wal_log_commit w ws id) as [[w1 ws1] lsn].
  destruct Hc as [[-> ->]|[-> _]].
  - destruct (Z.eqb_spec (w_next_lsn w) INVALID_LSN) as [He|_]; [unfold INVALID_LSN in He; lia|].
    unfold wal_flush. destruct synced; cbn [negb].
    + intros [= <- <- <- <- <-]. split; [done|]. left. split; [done|]. split; [done|].
      split; [|done]. cbn [w_next_lsn w_flushed_lsn]. rewrite (u64_small (_ + 1)) by lia.
      rewrite u64_small; lia.
    + destruct (wal_log_abort _ ws1 id) as [[w2 ws2] l2]. intros [= <- <- <- <- <-]. split; [done|by right].
  - rewrite Z.eqb_refl. destruct (wal_log_abort w1 ws1 id) as [[w2 ws2] l2].
    intros [= <- <- <- <- <-]. split; [done|by right].
Qed.

(** ** A concrete history *)

Definition do_begin (s : tsys) : tsys :=
  TSys (txn_begin (ts_tm s)).1 (ts_wal s) (ts_writes s) (ts_locks s) (ts_pc s).

(** A whole txn_lock call that does not block. *)
Definition do_check (tid : nat) (id : Z) (k : lock_key) (m : lock_mode) (s : tsys) : tsys :=
  TSys (ts_tm s) (ts_wal s) (ts_writes s) (ts_locks s) (<[tid := PcLock id k m]> (ts_pc s)).
Definition do_enter (tid : nat) (id : Z) (k : lock_key) (m : lock_mode) (s : tsys) : tsys :=
  TSys (ts_tm s) (ts_wal s) (ts_writes s)
    (Sys (lock_enter (sy_lm (ts_locks s)) k m).1 (sy_waiting (ts_locks s))
         (Grant id k m :: sy_held (ts_locks s)))
    (<[tid := PcRegister id k]> (ts_pc s)).
Definition do_register (tid : nat) (id : Z) (k : lock_key) (s : tsys) : tsys :=
  TSys (default (ts_tm s) (txn_lock_register (ts_tm s) id k)) (ts_wal s) (ts_writes s) (ts_locks s)
    (delete tid (ts_pc s)).
Definition do_lock (tid : nat) (id : Z) (k : lock_key) (m : lock_mode) (s : tsys) : tsys :=
  do_register tid id k (do_enter tid id k m (do_check tid id k m s)).

Lemma do_begin_step s tid :
  ts_pc s !! tid = None -> bool_decide (tm_next_txn_id (ts_tm s) < 2 ^ 32 - 1) = true -> rtc tstep s (do_begin s).
Proof.
  intros Hp Hb%bool_decide_eq_true. apply rtc_once. eapply t_begin; [done|done|apply surjective_pairing].
Qed.

Lemma do_lock_steps s tid id k m :
  ts_pc s !! tid = None -> txn_lock_check (ts_tm s) id k = LcAcquire ->
  (lock_enter (sy_lm (ts_locks s)) k m).2 = None -> rtc tstep s (do_lock tid id k m s).
Proof.
  intros Hp Hc He. eapply rtc_l; [by eapply (t_lock s tid id k m)|].
  eapply rtc_l; [eapply (t_enter_now _ tid id k m)|].
  - apply lookup_insert_eq.
  - cbn. rewrite <- He. apply surjective_pairing.
  - apply rtc_once. unfold do_lock, do_register.
    destruct (txn_lock_register (ts_tm s) id k) as [tm'|] eqn:Hr.
    + change (ts_tm (do_enter tid id k m (do_check tid id k m s))) with (ts_tm s). rewrite Hr.
      eapply (t_register (do_enter tid id k m (do_check tid id k m s)) tid id k tm'); [|done].
      apply lookup_insert_eq.
    + unfold txn_lock_register in Hr. unfold txn_lock_check in Hc.
      destruct (active_txn (ts_tm s) id) as [[i t]|]; done.
Qed.

(** Transactions 1 and 2 read-lock the same seat. *)
Definition one_reader : tsys := do_lock 1 1 seat_12 LOCK_SHARED (do_begin (do_begin (tsys_init []))).
Definition two_readers : tsys := do_lock 2 2 seat_12 LOCK_SHARED one_reader.

Lemma one_reader_reachable : t_reachable one_reader.
Proof.
  exists []. unfold one_reader.
  etrans; [|apply do_lock_steps; reflexivity].
  etrans; [|apply (do_begin_step _ 1); reflexivity].
  apply (do_begin_step _ 1); reflexivity.
Qed.

Lemma two_readers_reachable : t_reachable two_readers.
Proof.
  destruct one_reader_reachable as [ws Hr]. exists ws. etrans; [exact Hr|].
  apply do_lock_steps; reflexivity.
Qed.

Lemma txn_lock_discipline_witness :
  reachable (ts_locks two_readers) /\
  forall i t k, tm_txns (ts_tm two_readers) !! i = Some t -> tx_active t = true -> k ∈ tx_locks t ->
    (tx_id t, k) ∈ held_pairs (sy_held (ts_locks two_readers)).
Proof. apply txn_lock_discipline. apply two_readers_reachable. Defined.

Lemma txn_isolation_witness : g_mode (Grant 2 seat_12 LOCK_SHARED) = LOCK_SHARED.
Proof.
  apply (txn_isolation two_readers 0 1 (Txn 1 TXN_ACTIVE [seat_12] true) (Txn 2 TXN_ACTIVE [seat_12] true) seat_12).
  - apply two_readers_reachable.
  - done.
  - reflexivity.
  - reflexivity.
  - apply list_elem_of_singleton. reflexivity.
  - reflexivity.
  - reflexivity.
  - apply list_elem_of_singleton. reflexivity.
  - change (sy_held (ts_locks two_readers)) with [Grant 2 seat_12 LOCK_SHARED; Grant 1 seat_12 LOCK_SHARED].
    left.
  - reflexivity.
Defined.

Lemma txn_two_phase_witness :
  [seat_12] `prefix_of` [seat_12] /\
  forall g, g ∈ sy_held (ts_locks one_reader) -> g_owner g = 1 -> g ∈ sy_held (ts_locks (do_begin one_reader)).
Proof.
  apply (txn_two_phase one_reader (do_begin one_reader) 1 0 (Txn 1 TXN_ACTIVE [seat_12] true)
           0 (Txn 1 TXN_ACTIVE [seat_12] true)).
  - apply one_reader_reachable.
  - apply (t_begin one_reader 5 _ 3); reflexivity.
  - reflexivity.
  - reflexivity.
Defined.

(** A transaction that took a lock and committed, its thread back to idle. *)
Definition after_commit : tsys :=
  let s := do_lock 1 1 seat_12 LOCK_EXCLUSIVE (do_begin (tsys_init [])) in
  let '(tm', w', ws', ks, rc) := commit_core (ts_tm s) (ts_wal s) (ts_writes s) true 1 in
  let '(lm', _, _) := lock_mgr_unlock (sy_lm (ts_locks s)) seat_12 in
  TSys tm' w' ws' (Sys lm' ∅ []) ∅.

Lemma after_commit_reachable : t_reachable after_commit.
Proof.
  exists []. etrans; [apply (do_begin_step _ 1); reflexivity|].
  etrans; [apply (do_lock_steps _ 1 1 seat_12 LOCK_EXCLUSIVE); reflexivity|].
  eapply rtc_l; [eapply (t_commit _ 1 1 true); reflexivity|].
  eapply rtc_l; [eapply (t_release _ 1 1 seat_12 []); reflexivity|].
  eapply rtc_l; [eapply (t_release_done _ 1 1); reflexivity|].
  apply rtc_refl.
Qed.

Lemma txn_quiescent_clean_witness :
  sy_held (ts_locks after_commit) = [] /\
  forall i b, lm_buckets (sy_lm (ts_locks after_commit)) !! i = Some b -> b = [].
Proof.
  apply txn_quiescent_clean.
  - apply after_commit_reachable.
  - reflexivity.
  - intros i t Hi. assert (Hall : forallb (fun t => negb (tx_active t)) (tm_txns (ts_tm after_commit)) = true)
      by (vm_compute; reflexivity).
    rewrite forallb_forall in Hall. apply negb_true_iff, Hall. apply list_elem_of_In.
    by eapply list_elem_of_lookup_2.
Defined.

Lemma txn_commit_durable_witness :
  exists tm' w' ws' ks rc, commit_core (ts_tm one_reader) wal_create [] true 1 = (tm', w', ws', ks, rc) /\
  ks = Some [seat_12] /\
  (rc = 0 /\ w_file w' = [] ++ rec_bytes (op_rec 1 (LogCommit 1)) /\ w_flushed_lsn w' = 1 /\
     tm' = close_txn (ts_tm one_reader) 0 (Txn 1 TXN_ACTIVE [seat_12] true) TXN_COMMITTED \/
   rc = -1 /\ tm' = close_txn (ts_tm one_reader) 0 (Txn 1 TXN_ACTIVE [seat_12] true) TXN_ABORTED).
Proof.
  destruct (commit_core (ts_tm one_reader) wal_create [] true 1) as [[[[tm' w'] ws'] ks] rc] eqn:He.
  exists tm', w', ws', ks, rc. split; [reflexivity|].
  apply (txn_commit_durable (ts_tm one_reader) wal_create [] true 1 0 (Txn 1 TXN_ACTIVE [seat_12] true)
           tm' w' ws' ks rc); [reflexivity|lia|cbn; lia|exact He].
Defined.

(** txn_lock looks only at the record of a lock it already holds, not at its
    mode: with two readers, both transactions' requests for the exclusive lock
    are answered with success at once. *)
Example txn_lock_no_upgrade :
  txn_lock_check (ts_tm two_readers) 1 seat_12 = LcAlready /\
  txn_lock_check (ts_tm two_readers) 2 seat_12 = LcAlready /\
  sy_held (ts_locks two_readers) = [Grant 2 seat_12 LOCK_SHARED; Grant 1 seat_12 LOCK_SHARED].
Proof. repeat split; reflexivity. Qed.

(** The bound on a transaction's locks is tested before the wait and not after
    it: two threads of one transaction that both pass the test register a 65th
    lock, behind the end of the array. *)
Example txn_lock_array_overrun :
  let ks := map (fun i => (2, Z.of_nat i)) (seq 0 63) in
  let tm := set_txn (txn_begin txn_mgr_create).1 0 (Txn 1 TXN_ACTIVE ks true) in
  txn_lock_check tm 1 (2, 100) = LcAcquire /\ txn_lock_check tm 1 (2, 101) = LcAcquire /\
  match txn_lock_register tm 1 (2, 100) with
  | Some tm1 => option_map (fun tm2 => option_map (fun t => length (tx_locks t)) (txn_get tm2 1))
                  (txn_lock_register tm1 1 (2, 101)) = Some (Some 65%nat)
  | None => False
  end.
Proof. repeat split; vm_compute; reflexivity. Qed.
