(* ===== verification/TxnWorld.v ===== *)
(** * The transaction layer as a map of locks

    txn_manager.c and lock_manager.c next to the lock map of Calls.v: the
    descriptors and the lock table represent the map from locked records to their
    owners, and beginning, locking, committing and aborting act on it as the calls
    of a world do.  The business code takes exclusive locks only, and here a lock
    request is looked at when it is granted: what happens to a thread that has to
    sleep first is in LockManager.v. *)

From stdpp Require Import base tactics numbers list gmap.
From Stdlib Require Import ZArith Lia.
From S2P Require Import Prelude Types Wal LockManager TxnManager.

#[local] Open Scope Z_scope.

(** txn_lock with LOCK_EXCLUSIVE, when lock_mgr_lock does not have to wait;
    [None] when it would.  After a grant the lock is registered, or given back
    when the transaction is gone. *)
Definition txn_lock_now (tm : txn_manager) (lm : lock_manager) (id : Z) (k : lock_key)
    : option (txn_manager * lock_manager * Z) :=
  match txn_lock_check tm id k with
  | LcError => Some (tm, lm, -1)
  | LcAlready => Some (tm, lm, 0)
  | LcAcquire =>
      match lock_enter lm k LOCK_EXCLUSIVE with
      | (_, Some _) => None
      | (lm', None) =>
          match txn_lock_register tm id k with
          | Some tm' => Some (tm', lm', 0)
          | None => Some (tm, release_locks lm' [k], -1)
          end
      end
  end.

(** ** The map of locks *)

Definition owned (tm : txn_manager) (id : Z) (k : lock_key) : Prop :=
  exists i t, tm_txns tm !! i = Some t /\ tx_active t = true /\ tx_id t = id /\ k ∈ tx_locks t.

Definition exclusive_entry (e : lock_entry) : Prop :=
  le_exclusive_held e = true /\ le_shared_count e = 0 /\ le_waiters e = 0.

Record txn_rep (tm : txn_manager) (lm : lock_manager) (locks : gmap (Z * Z) Z) : Prop := TxnRep {
  tr_slots : slots_ok tm;
  tr_nodup : forall i t, tm_txns tm !! i = Some t -> tx_active t = true -> NoDup (tx_locks t);
  tr_owned : forall k id, locks !! k = Some id <-> owned tm id k;
  tr_lm : lm_wf lm;
  tr_held : forall k, match lm_find lm k with
            | Some e => exclusive_entry e /\ is_Some (locks !! k)
            | None => locks !! k = None
            end }.

(** What is known of an open transaction: its descriptor holds at most [n] locks. *)
Definition txn_open (tm : txn_manager) (id : Z) (n : nat) : Prop :=
  exists i t, active_txn tm id = Some (i, t) /\ (length (tx_locks t) <= n)%nat.

Lemma txn_rep_init : txn_rep txn_mgr_create lock_mgr_create ∅.
Proof.
  assert (Hno : forall i t, tm_txns txn_mgr_create !! i = Some t -> tx_active t = false).
  { intros i t Hi. apply lookup_replicate in Hi as [-> _]. done. }
  assert (Hb : forall i b, lm_buckets lock_mgr_create !! i = Some b -> b = []).
  { intros i b Hi. by apply lookup_replicate in Hi as [-> _]. }
  assert (Hf : forall k, lm_find lock_mgr_create k = None).
  { intros k. unfold lm_find, bucket. destruct (lm_buckets lock_mgr_create !! lock_hash k) as [b|] eqn:E; [|done].
    apply Hb in E as ->. done. }
  constructor.
  - constructor; [by vm_compute|..].
    + intros i t Hi Ha. apply Hno in Hi. congruence.
    + intros i j t t' Hi _ Ha. apply Hno in Hi. congruence.
  - intros i t Hi Ha. apply Hno in Hi. congruence.
  - intros k id. rewrite lookup_empty. split; [done|]. intros (i & t & Hi & Ha & _). apply Hno in Hi. congruence.
  - constructor; [done|..].
    + intros i b E%Hb. subst b. split; [constructor|]. split; [constructor|constructor].
    + intros i b E%Hb. by subst b.
    + intros k1 k2 e1 e2. by rewrite Hf.
  - intros k. by rewrite Hf.
Qed.

(** ** txn_begin *)

Lemma txn_begin_rep tm lm locks tm' id : txn_rep tm lm locks -> tm_next_txn_id tm < 2 ^ 32 - 1 ->
  txn_begin tm = (tm', id) ->
  (id = INVALID_TXN_ID /\ tm' = tm) \/
  (id = tm_next_txn_id tm /\ tm_next_txn_id tm' = id + 1 /\ txn_rep tm' lm locks /\ txn_open tm' id 0 /\ 0 < id /\
   forall id' n, txn_open tm id' n -> txn_open tm' id' n).
Proof.
  intros [Hs Hn Ho Hl Hh] Hnext Hb. pose proof (so_next _ Hs).
  destruct (txn_begin_ok tm tm' id Hs Hnext Hb) as [[-> ->]|(-> & Hs' & Hnx & i & t & Hi & Ha & Ets)]; [by left|right].
  split; [done|]. split; [done|]. assert (Hlt : (i < length (tm_txns tm))%nat) by (by eapply lookup_lt_Some).
  split; [constructor; try done|].
  - intros j x. rewrite Ets, list_lookup_insert_Some. intros [(_ & <- & _)|[_ Hj]]; [intros _; apply NoDup_nil_2|by apply (Hn j)].
  - intros k id'. rewrite Ho. unfold owned. rewrite Ets. split.
    + intros (j & x & Hj & Hx & Hid & Hk). exists j, x. rewrite list_lookup_insert_ne; [done|]. intros ->. congruence.
    + intros (j & x & Hj & Hx & Hid & Hk). apply list_lookup_insert_Some in Hj as [(<- & <- & _)|[_ Hj]].
      * cbn in Hk. by apply elem_of_nil in Hk.
      * by exists j, x.
  - split; [|split; [lia|]].
    + exists i, (Txn (tm_next_txn_id tm) TXN_ACTIVE [] true). split; [|done].
      apply (active_txn_is tm' i (Txn (tm_next_txn_id tm) TXN_ACTIVE [] true) Hs'); [|done]. rewrite Ets. by apply list_lookup_insert_eq.
    + intros id' n (j & u & Hat & Hle). apply active_txn_Some in Hat as (Hju & Hu & Hui & _).
      exists j, u. split; [|done]. rewrite <- Hui. apply (active_txn_is tm' j u Hs'); [|done].
      rewrite Ets, list_lookup_insert_ne; [done|]. intros ->. congruence.
Qed.

(** ** txn_lock *)

Lemma lock_enter_free lm k : lm_wf lm -> lm_find lm k = None ->
  exists lm' e, lock_enter lm k LOCK_EXCLUSIVE = (lm', None) /\ exclusive_entry e /\ lm_upd lm k (Some e) lm'.
Proof.
  intros Hwf Hk. destruct (lock_enter_spec lm k LOCK_EXCLUSIVE Hwf) as (lm' & He & Hu). unfold entry_for in *. rewrite Hk in *.
  cbn in He, Hu. exists lm'. eexists. split; [exact He|]. split; [|exact Hu]. done.
Qed.

Lemma lock_enter_held lm k e : lm_wf lm -> lm_find lm k = Some e -> le_exclusive_held e = true ->
  exists lm' a, lock_enter lm k LOCK_EXCLUSIVE = (lm', Some a).
Proof.
  intros Hwf Hk Hx. destruct (lock_enter_spec lm k LOCK_EXCLUSIVE Hwf) as (lm' & He & _). unfold entry_for in *. rewrite Hk in *.
  unfold grantable in He. cbn [from_option id] in He. rewrite Hx in He. exists lm', (le_addr e). exact He.
Qed.

Lemma txn_register_owned tm id k i t : slots_ok tm -> active_txn tm id = Some (i, t) ->
  let tm' := set_txn tm i (Txn (tx_id t) (tx_state t) (tx_locks t ++ [k]) (tx_active t)) in
  slots_ok tm' /\ forall id' k', owned tm' id' k' <-> owned tm id' k' \/ (id' = id /\ k' = k).
Proof.
  intros Hs Ha tm'. apply active_txn_Some in Ha as (Hi & Hact & Hid & Hst).
  assert (Hlt : (i < length (tm_txns tm))%nat) by (by eapply lookup_lt_Some).
  split; [by eapply slots_ok_set|]. intros id' k'. split.
  - intros (j & x & Hj & Hx & Hxi & Hk). cbn in Hj. apply list_lookup_insert_Some in Hj as [(<- & <- & _)|[_ Hj]].
    + cbn in Hxi, Hk. apply elem_of_app in Hk as [Hk|Hk%list_elem_of_singleton]; [left|right; by split; congruence].
      exists i, t. repeat split; try done; congruence.
    + left. by exists j, x.
  - intros [(j & x & Hj & Hx & Hxi & Hk)|[-> ->]].
    + destruct (decide (j = i)) as [->|Hne].
      * assert (x = t) as -> by congruence. exists i. eexists. split; [by apply list_lookup_insert_eq|].
        split; [done|]. split; [done|]. apply elem_of_app. by left.
      * exists j, x. cbn. by rewrite list_lookup_insert_ne.
    + exists i. eexists. split; [by apply list_lookup_insert_eq|]. split; [done|]. split; [done|].
      apply elem_of_app. right. by left.
Qed.

(** A lock request: refused, held already, granted, or it would wait. *)
Lemma txn_lock_rep tm lm locks id k : txn_rep tm lm locks ->
  match txn_lock_now tm lm id k with
  | None => exists o, locks !! k = Some o /\ o <> id
  | Some (tm', lm', rc) =>
      (rc = -1 /\ tm' = tm /\ lm' = lm /\ (forall n, txn_open tm id n -> (MAX_LOCKS_PER_TXN <= n)%nat)) \/
      (rc = 0 /\ tm_next_txn_id tm' = tm_next_txn_id tm /\
       match locks !! k with
       | Some o => o = id /\ tm' = tm /\ lm' = lm
       | None => txn_rep tm' lm' (<[k := id]> locks) /\ (forall n, txn_open tm id n -> txn_open tm' id (S n)) /\
           forall id' n, id' <> id -> txn_open tm id' n -> txn_open tm' id' n
       end)
  end.
Proof.
  intros [Hs Hn Ho Hl Hh]. unfold txn_lock_now, txn_lock_check, txn_lock_register.
  destruct (active_txn tm id) as [[i t]|] eqn:Ha.
  2:{ left. repeat split; try done. intros n (i & t & Hat & _). congruence. }
  pose proof (active_txn_Some _ _ _ _ Ha) as (Hi & Hact & Hid & Hst). case_bool_decide as Hin.
  { right. split; [done|]. split; [done|]. assert (Hk : locks !! k = Some id) by (apply Ho; by exists i, t). by rewrite Hk. }
  destruct (Nat.leb_spec MAX_LOCKS_PER_TXN (length (tx_locks t))) as [Hm|Hm].
  { left. repeat split; try done. intros n (j & u & Hat & Hle). assert (u = t) as -> by congruence. lia. }
  pose proof (Hh k) as Hk. destruct (lm_find lm k) as [e|] eqn:Hf.
  - destruct Hk as [(Hx & _) [o Hlo]]. destruct (lock_enter_held lm k e Hl Hf Hx) as (lm' & a & ->).
    exists o. split; [done|]. intros ->. apply Ho in Hlo as (j & u & Hj & Hu & Hui & Hku).
    assert (j = i) as -> by (apply (so_uniq _ Hs j i u t); congruence). congruence.
  - destruct (lock_enter_free lm k Hl Hf) as (lm' & e & -> & He & Hup). right. split; [done|]. split; [done|].
    rewrite Hk. destruct (txn_register_owned tm id k i t Hs Ha) as [Hs' Ho'].
    set (tm' := set_txn tm i (Txn (tx_id t) (tx_state t) (tx_locks t ++ [k]) (tx_active t))) in *.
    assert (Hlt : (i < length (tm_txns tm))%nat) by (by eapply lookup_lt_Some).
    assert (Hi' : tm_txns tm' !! i = Some (Txn (tx_id t) (tx_state t) (tx_locks t ++ [k]) (tx_active t)))
      by (by apply list_lookup_insert_eq).
    split; [constructor; try done|split].
    + intros j x Hj Hx. cbn in Hj. apply list_lookup_insert_Some in Hj as [(<- & <- & _)|[_ Hj]]; [|by apply (Hn j)].
      cbn. apply NoDup_app. split; [by apply (Hn i)|]. split; [|apply NoDup_singleton].
      intros y Hy ->%list_elem_of_singleton. by apply Hin.
    + intros k' id'. rewrite Ho'. destruct (decide (k' = k)) as [->|Hne].
      * rewrite lookup_insert_eq. split; [intros [= <-]; by right|]. intros [Hown|[-> _]]; [|done].
        apply Ho in Hown. congruence.
      * rewrite lookup_insert_ne, Ho by done. tauto.
    + apply Hup.
    + intros k'. rewrite (proj2 Hup k'). case_decide as Hkk.
      * subst. split; [done|]. rewrite lookup_insert_eq. by eexists.
      * pose proof (Hh k') as Hk'. destruct (lm_find lm k'); by rewrite lookup_insert_ne.
    + intros n (j & u & Hat & Hle). assert (j = i /\ u = t) as [-> ->] by (split; congruence).
      exists i. eexists. split; [rewrite <- Hid at 1; by apply (active_txn_is tm' i _ Hs' Hi')|]. cbn. rewrite length_app. cbn. lia.
    + intros id' n Hne (j & u & Hat & Hle). apply active_txn_Some in Hat as (Hj & Hu & Hui & _).
      exists j, u. split; [|done]. rewrite <- Hui. apply (active_txn_is tm' j u Hs'); [|done].
      cbn. rewrite list_lookup_insert_ne; [done|]. intros ->. congruence.
Qed.

(** ** txn_commit and txn_abort *)

Lemma release_locks_find ks : forall lm, lm_wf lm -> NoDup ks ->
  (forall k, k ∈ ks -> exists e, lm_find lm k = Some e /\ exclusive_entry e) ->
  lm_wf (release_locks lm ks) /\
  forall k, lm_find (release_locks lm ks) k = if decide (k ∈ ks) then None else lm_find lm k.
Proof.
  induction ks as [|k ks IH]; intros lm Hwf Hnd Hks; cbn [release_locks fold_left].
  { split; [done|]. intros k. by rewrite decide_False by (by intros ?%elem_of_nil). }
  apply NoDup_cons in Hnd as [Hk Hnd]. destruct (Hks k ltac:(by left)) as (e & He & Hx & Hs & Hw).
  destruct (unlock_spec lm k e Hwf He (or_introl Hx)) as (lm' & Hu & Hup). rewrite Hu. cbn [fst]. fold (release_locks lm' ks).
  assert (Hr : in_use (released e) = false).
  { unfold released, in_use. rewrite Hx. cbn. by rewrite Hs, Hw. }
  rewrite Hr in Hup. destruct Hup as [Hwf' Hf]. destruct (IH lm' Hwf' Hnd) as [H1 H2].
  - intros k' Hk'. rewrite Hf, decide_False by (intros ->; done). apply Hks. by right.
  - split; [exact H1|]. intros k'. rewrite (H2 k'), Hf. destruct (decide (k' ∈ ks)) as [Hi|Hi].
    + by rewrite decide_True by (by right).
    + case_decide as Ek; [subst; by rewrite decide_True by (by left)|].
      rewrite decide_False; [done|]. by intros [?|?]%elem_of_cons.
Qed.

(** The end of a transaction, either way. *)
Lemma close_rep tm lm locks id i t st : txn_rep tm lm locks -> active_txn tm id = Some (i, t) ->
  let tm' := close_txn tm i t st in
  txn_rep tm' (release_locks lm (tx_locks t)) (filter (fun kv => kv.2 <> id) locks) /\
  forall id' n, id' <> id -> txn_open tm id' n -> txn_open tm' id' n.
Proof.
  intros [Hs Hn Ho Hl Hh] Ha tm'. pose proof (active_txn_Some _ _ _ _ Ha) as (Hi & Hact & Hid & Hst).
  assert (Hlt : (i < length (tm_txns tm))%nat) by (by eapply lookup_lt_Some).
  assert (Hs' : slots_ok tm') by (by eapply slots_ok_set).
  assert (Hj : forall j x, tm_txns tm' !! j = Some x -> tx_active x = true -> tm_txns tm !! j = Some x /\ j <> i).
  { intros j x. cbn. rewrite list_lookup_insert_Some. intros [(<- & <- & _)|[Hne Hj]] Hx; [done|by split]. }
  destruct (release_locks_find (tx_locks t) lm Hl (Hn i t Hi Hact)) as [Hwf' Hf].
  { intros k Hk. assert (Hlk : locks !! k = Some id) by (apply Ho; by exists i, t).
    pose proof (Hh k) as Hhk. destruct (lm_find lm k) as [e|]; [|congruence]. exists e. by destruct Hhk. }
  split; [constructor; try done|].
  - intros j x Hx Hxa. destruct (Hj j x Hx Hxa). by apply (Hn j).
  - intros k id'. rewrite map_lookup_filter_Some, Ho. cbn. split.
    + intros [(j & x & Hx & Hxa & Hxi & Hk) Hne]. exists j, x. cbn. rewrite list_lookup_insert_ne by (intros ->; congruence). done.
    + intros (j & x & Hx & Hxa & Hxi & Hk). destruct (Hj j x Hx Hxa) as [Hx0 Hne]. split; [by exists j, x|].
      intros ->. apply Hne. apply (so_uniq _ Hs j i x t); congruence.
  - intros k. rewrite Hf. case_decide as Hk.
    + apply map_lookup_filter_None. right. intros o Hlo. cbn. intros Hne. apply Ho in Hlo as (j & x & Hx & Hxa & Hxi & Hkx).
      apply Hne. assert (Hlk : owned tm id k) by (by exists i, t).
      assert (Hlo : owned tm o k) by (by exists j, x). apply Ho in Hlk, Hlo. congruence.
    + pose proof (Hh k) as Hhk. destruct (lm_find lm k) as [e|]; [|apply map_lookup_filter_None; by left].
      destruct Hhk as [He [o Hlo]]. split; [done|]. exists o. apply map_lookup_filter_Some. split; [done|]. cbn.
      intros ->. apply Ho in Hlo as (j & x & Hx & Hxa & Hxi & Hkx). apply Hk.
      assert (j = i) as -> by (apply (so_uniq _ Hs j i x t); congruence). congruence.
  - intros id' n Hne (j & u & Hat & Hle). apply active_txn_Some in Hat as (Hju & Hu & Hui & _).
    exists j, u. split; [|done]. rewrite <- Hui. apply (active_txn_is tm' j u Hs'); [|done].
    cbn. rewrite list_lookup_insert_ne; [done|]. intros ->. congruence.
Qed.

(** An unknown transaction has no locks to release. *)
Lemma release_unknown tm lm locks id : txn_rep tm lm locks -> active_txn tm id = None ->
  filter (fun kv => kv.2 <> id) locks = locks.
Proof.
  intros [Hs _ Ho _ _] Ha. apply map_filter_id. intros k o Hk. cbn. intros ->.
  apply Ho in Hk as (i & t & Hi & Hact & Hid & _). by apply (active_txn_None tm id i t Hs Ha Hi Hact).
Qed.
