(* ===== verification/PageMap.v ===== *)
(** * The buffer pool's hash map (server/storage/buffer_pool.c)

    Open addressing with linear probing: [_map_find], [_map_insert] and
    [_map_remove], whose deletion re-inserts the entries behind the hole.  A
    slot is [None] when its bucket is not occupied.  The probing invariant is
    [lp_inv]; [has] is the map's content. *)

From stdpp Require Import base tactics numbers list gmap.
From Stdlib Require Import ZArith Lia.
From S2P Require Import Prelude.

#[local] Open Scope nat_scope.

(** A cached page: descriptor and page number. *)
Definition pkey : Type := Z * Z.

Abbreviation page_map := (list (option (pkey * nat))).

Definition map_hash (capacity : nat) (k : pkey) : nat :=
  Z.to_nat (u32 (u32 (u32 k.1 * 31) + k.2) mod Z.of_nat capacity).

(** The entry of an occupied bucket. *)
Definition bucket_get (m : page_map) (j : nat) : option (pkey * nat) := mjoin (m !! j).

Fixpoint find_loop (fuel : nat) (m : page_map) (idx : nat) (k : pkey) (i : nat) : option nat :=
  match fuel with
  | O => None
  | S fuel' =>
      let probe := (idx + i) mod length m in
      match bucket_get m probe with
      | None => None
      | Some (k', _) =>
          if bool_decide (k' = k) then Some probe else find_loop fuel' m idx k (i + 1)
      end
  end.

Definition map_find (m : page_map) (k : pkey) : option nat :=
  find_loop (length m) m (map_hash (length m) k) k 0.

Fixpoint insert_loop (fuel : nat) (m : page_map) (idx : nat) (k : pkey) (v : nat) (i : nat) : page_map :=
  match fuel with
  | O => m
  | S fuel' =>
      let probe := (idx + i) mod length m in
      match bucket_get m probe with
      | None => <[probe := Some (k, v)]> m
      | Some _ => insert_loop fuel' m idx k v (i + 1)
      end
  end.

Definition map_insert (m : page_map) (k : pkey) (v : nat) : page_map :=
  insert_loop (length m) m (map_hash (length m) k) k v 0.

(** The re-insertion loop of _map_remove. *)
Fixpoint rehash_loop (fuel : nat) (m : page_map) (probe : nat) : page_map :=
  match fuel with
  | O => m
  | S fuel' =>
      match bucket_get m probe with
      | None => m
      | Some (k, v) =>
          rehash_loop fuel' (map_insert (<[probe := None]> m) k v) ((probe + 1) mod length m)
      end
  end.

Definition map_remove (m : page_map) (k : pkey) : page_map :=
  match map_find m k with
  | None => m
  | Some i => rehash_loop (length m) (<[i := None]> m) ((i + 1) mod length m)
  end.

(** ** Content and probing invariant *)

Definition has (m : page_map) (k : pkey) (v : nat) : Prop := exists j, bucket_get m j = Some (k, v).

Definition occ (m : page_map) (j : nat) : Prop := is_Some (bucket_get m j).

(** The bucket [d] places behind [h]. *)
Definition place (n h d : nat) : nat := (h + d) mod n.

(** [j] is reached from [k]'s home bucket over occupied buckets only. *)
Definition reached (m : page_map) (k : pkey) (j : nat) : Prop :=
  exists d, d < length m /\ j = place (length m) (map_hash (length m) k) d /\
    forall e, e < d -> occ m (place (length m) (map_hash (length m) k) e).

Record lp_inv (m : page_map) : Prop := LpInv {
  lp_reach : forall j k v, bucket_get m j = Some (k, v) -> reached m k j;
  lp_uniq : forall j j' k v v', bucket_get m j = Some (k, v) -> bucket_get m j' = Some (k, v') -> j = j' }.

Definition room (m : page_map) : Prop := exists j, j < length m /\ bucket_get m j = None.

(** ** Arithmetic of places *)

Lemma place_lt n h d : 0 < n -> place n h d < n.
Proof. intros. apply Nat.mod_upper_bound. lia. Qed.

Lemma place_place n h d e : place n (place n h d) e = place n h (d + e).
Proof. unfold place. rewrite Nat.Div0.add_mod_idemp_l. f_equal. lia. Qed.

Lemma place_mod n h d : place n (h mod n) d = place n h d.
Proof. unfold place. by rewrite Nat.Div0.add_mod_idemp_l. Qed.

Lemma place_inj n h d e : d < n -> e < n -> place n h d = place n h e -> d = e.
Proof.
  unfold place. intros Hd He H.
  rewrite (Nat.Div0.add_mod h d), (Nat.Div0.add_mod h e) in H.
  rewrite (Nat.mod_small d), (Nat.mod_small e) in H by done.
  assert (Hh : h mod n < n) by (apply Nat.mod_upper_bound; lia). revert H. generalize (h mod n) Hh. intros x Hx H.
  destruct (Nat.lt_ge_cases (x + d) n) as [H1|H1]; destruct (Nat.lt_ge_cases (x + e) n) as [H2|H2].
  - rewrite !Nat.mod_small in H by done. lia.
  - rewrite (Nat.mod_small (x + d)) in H by done.
    rewrite <- (Nat.sub_add n (x + e)) in H by done.
    replace ((x + e - n + n) mod n) with (x + e - n) in H; [lia|].
    rewrite Nat.Div0.add_mod, Nat.Div0.mod_same, Nat.add_0_r, Nat.Div0.mod_mod.
    rewrite Nat.mod_small; lia.
  - rewrite (Nat.mod_small (x + e)) in H by done.
    rewrite <- (Nat.sub_add n (x + d)) in H by done.
    replace ((x + d - n + n) mod n) with (x + d - n) in H; [lia|].
    rewrite Nat.Div0.add_mod, Nat.Div0.mod_same, Nat.add_0_r, Nat.Div0.mod_mod.
    rewrite Nat.mod_small; lia.
  - rewrite <- (Nat.sub_add n (x + d)), <- (Nat.sub_add n (x + e)) in H by done.
    rewrite (Nat.Div0.add_mod (x + d - n)), (Nat.Div0.add_mod (x + e - n)) in H.
    rewrite Nat.Div0.mod_same, !Nat.add_0_r, !Nat.Div0.mod_mod in H.
    rewrite !Nat.mod_small in H by lia. lia.
Qed.

(** Every bucket is some places behind any other. *)
Lemma place_surj n h j : j < n -> exists d, d < n /\ place n h d = j.
Proof.
  intros Hj. exists ((j + n - h mod n) mod n). assert (Hn : 0 < n) by lia.
  pose proof (Nat.mod_upper_bound h n ltac:(lia)) as Hh. split; [apply Nat.mod_upper_bound; lia|].
  unfold place. rewrite Nat.Div0.add_mod_idemp_r.
  rewrite <- (Nat.Div0.add_mod_idemp_l h). replace (h mod n + (j + n - h mod n)) with (j + 1 * n) by lia.
  rewrite Nat.Div0.mod_add. by apply Nat.mod_small.
Qed.

Lemma on_path n h p d :
  (exists e, e < d /\ place n h e = p) \/ (forall e, e < d -> place n h e <> p).
Proof.
  induction d as [|d [(e & He & Hp)|Hno]]; [right; lia|left; exists e; split; [lia|done]|].
  destruct (decide (place n h d = p)) as [Hp|Hp]; [left; exists d; split; [lia|done]|right].
  intros e He. destruct (decide (e = d)) as [->|]; [done|]. apply Hno. lia.
Qed.

Lemma map_hash_lt n k : 0 < n -> map_hash n k < n.
Proof.
  intros Hn. unfold map_hash.
  pose proof (Z.mod_pos_bound (u32 (u32 (u32 k.1 * 31) + k.2)) (Z.of_nat n) ltac:(lia)). lia.
Qed.

(** ** Buckets under writes *)

Lemma bucket_get_lt m j e : bucket_get m j = Some e -> j < length m.
Proof.
  unfold bucket_get. destruct (m !! j) as [x|] eqn:Hj; [|done]. intros _. by apply lookup_lt_Some in Hj.
Qed.

Lemma bucket_get_insert m j x j' : j < length m ->
  bucket_get (<[j := x]> m) j' = if decide (j' = j) then x else bucket_get m j'.
Proof.
  intros Hj. unfold bucket_get. case_decide as Hjj.
  - subst. by rewrite list_lookup_insert_eq.
  - by rewrite list_lookup_insert_ne.
Qed.

Lemma occ_set m j e j' : j < length m -> occ m j' -> occ (<[j := Some e]> m) j'.
Proof. intros Hj Ho. unfold occ. rewrite bucket_get_insert by done. case_decide; [by eexists|exact Ho]. Qed.

Lemma occ_clear m j j' : j < length m -> occ m j' -> j' <> j -> occ (<[j := None]> m) j'.
Proof. intros Hj Ho Hne. unfold occ. rewrite bucket_get_insert by done. by rewrite decide_False. Qed.

(** ** Finding *)

Lemma find_loop_Some fuel m idx k i p : find_loop fuel m idx k i = Some p ->
  exists v, bucket_get m p = Some (k, v).
Proof.
  revert i. induction fuel as [|fuel IH]; cbn [find_loop]; intros i; [done|].
  cbv zeta. destruct (bucket_get m ((idx + i) mod length m)) as [[k' v]|] eqn:Hg; [|done]. case_bool_decide as Hk; [|apply IH].
  intros [= <-]. subst k'. eauto.
Qed.

Lemma find_loop_reach fuel m idx k i d v :
  i <= d -> d - i < fuel -> bucket_get m (place (length m) idx d) = Some (k, v) ->
  (forall e, i <= e < d -> exists k' v', bucket_get m (place (length m) idx e) = Some (k', v') /\ k' <> k) ->
  find_loop fuel m idx k i = Some (place (length m) idx d).
Proof.
  revert i. induction fuel as [|fuel IH]; intros i Hid Hf Hd Hbefore; [lia|].
  cbn [find_loop]. fold (place (length m) idx i). destruct (decide (i = d)) as [->|Hne].
  - rewrite Hd. by rewrite bool_decide_true.
  - destruct (Hbefore i ltac:(lia)) as (k' & v' & Hg & Hk). rewrite Hg, bool_decide_false by done.
    apply IH; [lia|lia|done|]. intros e He. apply Hbefore. lia.
Qed.

Lemma map_find_has m k v j : lp_inv m -> bucket_get m j = Some (k, v) -> map_find m k = Some j.
Proof.
  intros Hinv Hj. destruct (lp_reach m Hinv j k v Hj) as (d & Hd & -> & Hocc).
  unfold map_find. eapply find_loop_reach; [lia|lia|exact Hj|]. intros e He.
  destruct (Hocc e ltac:(lia)) as [[k' v'] Hg]. exists k', v'. split; [done|]. intros ->.
  pose proof (lp_uniq m Hinv _ _ _ _ _ Hg Hj) as Heq. apply place_inj in Heq; lia.
Qed.

Lemma map_find_Some m k j : map_find m k = Some j -> exists v, bucket_get m j = Some (k, v).
Proof. apply find_loop_Some. Qed.

Lemma map_find_None m k : lp_inv m -> map_find m k = None -> forall v, ~ has m k v.
Proof. intros Hinv Hn v [j Hj]. by rewrite (map_find_has m k v j Hinv Hj) in Hn. Qed.

(** ** Inserting *)

Lemma insert_loop_spec fuel m idx k v : forall i d0,
  i <= d0 -> d0 - i < fuel -> bucket_get m (place (length m) idx d0) = None ->
  (forall e, e < i -> occ m (place (length m) idx e)) ->
  exists d, d <= d0 /\ bucket_get m (place (length m) idx d) = None /\
    (forall e, e < d -> occ m (place (length m) idx e)) /\
    insert_loop fuel m idx k v i = <[place (length m) idx d := Some (k, v)]> m.
Proof.
  induction fuel as [|fuel IH]; intros i d0 Hid Hf Hd Hocc; [lia|].
  cbn [insert_loop]. fold (place (length m) idx i).
  destruct (bucket_get m (place (length m) idx i)) as [e|] eqn:Hg.
  - assert (i <> d0) by congruence. apply (IH (i + 1) d0); [lia|lia|done|].
    intros e' He'. destruct (decide (e' = i)) as [->|]; [by eexists|]. apply Hocc. lia.
  - exists i. done.
Qed.

Lemma map_insert_spec m k v : room m ->
  exists d, d < length m /\
    let s := place (length m) (map_hash (length m) k) d in
    bucket_get m s = None /\
    (forall e, e < d -> occ m (place (length m) (map_hash (length m) k) e)) /\
    map_insert m k v = <[s := Some (k, v)]> m.
Proof.
  intros (j & Hj & Hn). destruct (place_surj (length m) (map_hash (length m) k) j Hj) as (d0 & Hd0 & Hp).
  destruct (insert_loop_spec (length m) m (map_hash (length m) k) k v 0 d0) as (d & Hd & H1 & H2 & H3);
    [lia|lia|by rewrite Hp|lia|].
  exists d. split; [lia|]. done.
Qed.

Lemma map_insert_inv m k v : lp_inv m -> room m -> (forall v', ~ has m k v') ->
  lp_inv (map_insert m k v) /\ length (map_insert m k v) = length m /\
  (forall k' v', has (map_insert m k v) k' v' <-> (k' = k /\ v' = v) \/ has m k' v').
Proof.
  intros Hinv Hroom Hnew. destruct (map_insert_spec m k v Hroom) as (d & Hd & Hs & Hocc & ->).
  set (s := place _ _ d) in *. assert (Hsl : s < length m) by (apply place_lt; lia).
  split; [|split; [by rewrite length_insert|]].
  - constructor.
    + intros j k' v'. rewrite bucket_get_insert by done. unfold reached. rewrite length_insert.
      case_decide as Hj; [intros [= <- <-]|intros Hg].
      * exists d. split; [done|]. split; [done|]. intros e He. by apply occ_set, Hocc.
      * destruct (lp_reach m Hinv j k' v' Hg) as (d' & Hd' & -> & Hocc').
        exists d'. split; [done|]. split; [done|]. intros e He. by apply occ_set, Hocc'.
    + intros j j' k' v1 v2. rewrite !bucket_get_insert by done.
      case_decide as Hj; case_decide as Hj'; try (intros; congruence).
      * intros [= -> ->] Hg. exfalso. apply (Hnew v2). by exists j'.
      * intros Hg [= -> ->]. exfalso. apply (Hnew v1). by exists j.
      * by apply (lp_uniq m Hinv).
  - intros k' v'. unfold has. split.
    + intros [j Hj]. rewrite bucket_get_insert in Hj by done. case_decide; [injection Hj; auto|eauto].
    + intros [[-> ->]|[j Hj]].
      * exists s. rewrite bucket_get_insert by done. by rewrite decide_True.
      * exists j. rewrite bucket_get_insert by done. rewrite decide_False; [done|]. congruence.
Qed.

(** ** Removing *)

(** The state of the re-insertion loop: the hole was bucket [i], the [L] buckets
    from it on were treated.  An entry is reached over occupied buckets, or it
    lies in the occupied run that starts where the loop stands, and is reached
    over buckets that are occupied or treated. *)
Definition treated (n i L s : nat) : Prop := exists c, c < L /\ s = place n i c.

Definition in_run (m : page_map) (p j : nat) : Prop :=
  exists t, t < length m /\ j = place (length m) p t /\ forall u, u <= t -> occ m (place (length m) p u).

Definition weakly (m : page_map) (i L : nat) : Prop :=
  forall j k v, bucket_get m j = Some (k, v) ->
    let n := length m in let h := map_hash n k in
    exists d, d < n /\ j = place n h d /\
      ((forall e, e < d -> occ m (place n h e)) \/
       (in_run m (place n i L) j /\ forall e, e < d -> occ m (place n h e) \/ treated n i L (place n h e))).

Lemma treated_S n i L s : treated n i L s -> treated n i (S L) s.
Proof. intros (c & Hc & ->). exists c. split; [lia|done]. Qed.

Lemma weakly_lp m i L : lp_inv m -> weakly m i L.
Proof.
  intros Hinv j k v Hj. destruct (lp_reach m Hinv j k v Hj) as (d & Hd & -> & Hocc).
  exists d. split; [done|]. split; [done|]. by left.
Qed.

(** Clearing the bucket the loop stands at. *)
Lemma weakly_clear m i L : 0 < length m -> weakly m i L ->
  weakly (<[place (length m) i L := None]> m) i (S L).
Proof.
  intros Hn Hw j k v. set (n := length m). set (p := place n i L).
  assert (Hp : p < length m) by (apply place_lt; done).
  assert (HpS : place n i (S L) = place n p 1) by (unfold p; rewrite place_place; f_equal; lia).
  rewrite bucket_get_insert by done. case_decide as Hjp; [done|]. intros Hj.
  rewrite length_insert. fold n. cbv zeta.
  destruct (Hw j k v Hj) as (d & Hd & Hjd & Hcase). fold n in Hd, Hjd, Hcase. fold p in Hcase.
  set (h := map_hash n k) in *. exists d. split; [done|]. split; [done|].
  assert (Hother : forall s, occ m s -> s = p \/ occ (<[p := None]> m) s).
  { intros s Hs. destruct (decide (s = p)); [by left|right]. by apply occ_clear. }
  assert (Htp : treated n i (S L) p) by (exists L; split; [lia|done]).
  assert (Hj0 : occ (<[p := None]> m) j).
  { unfold occ. rewrite bucket_get_insert by done. rewrite decide_False by done. by eexists. }
  destruct Hcase as [Hfull|[(t & Ht & Hjt & Hrun) Hweak]].
  - destruct (on_path n h p d) as [(e0 & He0 & Hpe)|Hno].
    + right. split.
      * assert (Hpd : forall x, place n p x = place n h (e0 + x)) by (intros; by rewrite <- Hpe, place_place).
        exists (d - e0 - 1). rewrite length_insert, HpS, place_place, Hpd. fold n.
        split; [lia|]. split; [rewrite Hjd; f_equal; lia|]. intros u Hu. rewrite place_place, Hpd.
        destruct (decide (e0 + (1 + u) = d)) as [He|]; [by rewrite He, <- Hjd|].
        destruct (Hother (place n h (e0 + (1 + u)))) as [Heq|]; [apply Hfull; lia| |done].
        rewrite <- Hpe in Heq. apply place_inj in Heq; lia.
      * intros e He. destruct (Hother _ (Hfull e He)) as [Heq|]; [right; by rewrite Heq|by left].
    + left. intros e He. destruct (Hother _ (Hfull e He)) as [Heq|]; [|done]. by destruct (Hno e He).
  - assert (t <> 0).
    { intros ->. apply Hjp. rewrite Hjt. unfold p. rewrite place_place. f_equal. lia. }
    right. split.
    + exists (t - 1). rewrite length_insert, HpS, place_place. fold n.
      split; [fold n in Ht; lia|]. split; [rewrite Hjt; fold n; f_equal; lia|].
      intros u Hu. rewrite place_place. destruct (Hother _ (Hrun (1 + u) ltac:(lia))) as [Heq|]; [|done].
      fold n in Heq, Ht.
      assert (Hp0 : place n p 0 = p) by (unfold place; rewrite Nat.add_0_r; by apply Nat.mod_small).
      assert (Heq' : place n p (1 + u) = place n p 0) by congruence. apply place_inj in Heq'; lia.
    + intros e He. destruct (Hweak e He) as [Ho|Htr]; [|right; by apply treated_S].
      destruct (Hother _ Ho) as [Heq|]; [right; by rewrite Heq|by left].
Qed.

(** Putting an entry into an empty bucket it is reached at. *)
Lemma weakly_set m i L k v d : weakly m i L -> d < length m ->
  let s := place (length m) (map_hash (length m) k) d in
  bucket_get m s = None ->
  (forall e, e < d -> occ m (place (length m) (map_hash (length m) k) e)) ->
  weakly (<[s := Some (k, v)]> m) i L.
Proof.
  intros Hw Hd s Hs Hocc j k' v'. assert (Hsl : s < length m) by (apply place_lt; lia).
  rewrite bucket_get_insert by done. rewrite length_insert. cbv zeta. case_decide as Hj.
  - intros [= <- <-]. exists d. split; [done|]. split; [done|]. left. intros e He. by apply occ_set, Hocc.
  - intros Hg. destruct (Hw j k' v' Hg) as (d' & Hd' & Hjd & Hcase). exists d'. split; [done|]. split; [done|].
    destruct Hcase as [Hfull|[(t & Ht & Hjt & Hrun) Hweak]]; [left|right].
    + intros e He. by apply occ_set, Hfull.
    + split.
      * exists t. rewrite length_insert. split; [done|]. split; [done|]. intros u Hu. by apply occ_set, Hrun.
      * intros e He. destruct (Hweak e He); [left; by apply occ_set|by right].
Qed.

(** Where the loop stands on an empty bucket, every entry is reached again. *)
Lemma weakly_done m i L : (forall j j' k v v', bucket_get m j = Some (k, v) -> bucket_get m j' = Some (k, v') -> j = j') ->
  weakly m i L -> bucket_get m (place (length m) i L) = None -> lp_inv m.
Proof.
  intros Hu Hw Hp. constructor; [|done]. intros j k v Hj.
  destruct (Hw j k v Hj) as (d & Hd & Hjd & Hcase). exists d. split; [done|]. split; [done|].
  destruct Hcase as [Hfull|[(t & Ht & Hjt & Hrun) _]]; [done|].
  specialize (Hrun 0 ltac:(lia)). rewrite place_place, Nat.add_0_r in Hrun.
  unfold occ in Hrun. rewrite Hp in Hrun. by destruct Hrun.
Qed.

(** One iteration: the entry at the loop's bucket moves to its first free one,
    which is treated or the bucket itself. *)
Lemma rehash_step m i L k v :
  0 < length m ->
  (forall j j' k v v', bucket_get m j = Some (k, v) -> bucket_get m j' = Some (k, v') -> j = j') ->
  weakly m i L -> bucket_get m (place (length m) i L) = Some (k, v) ->
  let p := place (length m) i L in
  let m' := map_insert (<[p := None]> m) k v in
  length m' = length m /\ weakly m' i (S L) /\
  (forall k' v', has m' k' v' <-> has m k' v') /\
  (forall j j' k v v', bucket_get m' j = Some (k, v) -> bucket_get m' j' = Some (k, v') -> j = j') /\
  (forall D, S L <= D < length m -> bucket_get m (place (length m) i D) = None ->
     bucket_get m' (place (length m) i D) = None).
Proof.
  intros Hn Hu Hw Hp p m'. fold p in Hp. assert (Hpl : p < length m) by (by apply place_lt).
  set (m1 := <[p := None]> m). assert (Hl1 : length m1 = length m) by apply length_insert.
  assert (Hg1 : forall j, bucket_get m1 j = if decide (j = p) then None else bucket_get m j)
    by (intros; by apply bucket_get_insert).
  assert (Hr1 : room m1).
  { exists p. rewrite Hl1, Hg1, decide_True by done. done. }
  destruct (map_insert_spec m1 k v Hr1) as (d & Hd & Hs & Hocc & Hm'). rewrite Hl1 in *.
  set (s := place _ _ d) in *. assert (Hsl : s < length m1) by (rewrite Hl1; by apply place_lt).
  assert (Hstr : treated (length m) i (S L) s).
  { destruct (Hw p k v Hp) as (dp & Hdp & Hpd & Hcase).
    assert (Hpath : forall e, e < dp -> occ m (place (length m) (map_hash (length m) k) e) \/
              treated (length m) i L (place (length m) (map_hash (length m) k) e)).
    { destruct Hcase as [Hf|[_ Hf]]; [intros e He; left; by apply Hf|exact Hf]. }
    destruct (Nat.lt_trichotomy d dp) as [Hlt|[->|Hgt]].
    - destruct (Hpath d Hlt) as [Ho|Ht]; [|by apply treated_S]. exfalso.
      unfold s in Hs. rewrite Hg1 in Hs. case_decide as He.
      + rewrite Hpd in He. apply place_inj in He; lia.
      + unfold occ in Ho. rewrite Hs in Ho. by destruct Ho.
    - exists L. split; [lia|]. unfold s. by rewrite <- Hpd.
    - exfalso. specialize (Hocc dp Hgt). rewrite <- Hpd in Hocc. unfold occ in Hocc.
      rewrite Hg1, decide_True in Hocc by done. by destruct Hocc. }
  unfold m'. fold m1. rewrite Hm'.
  assert (Hgm : forall j, bucket_get (<[s := Some (k, v)]> m1) j =
                  if decide (j = s) then Some (k, v) else if decide (j = p) then None else bucket_get m j).
  { intros j. rewrite bucket_get_insert by done. by rewrite Hg1. }
  assert (Hsnew : s <> p -> bucket_get m s = None).
  { intros Hne. rewrite Hg1, decide_False in Hs; done. }
  split; [by rewrite length_insert|]. split; [|split; [|split]].
  - assert (Hw1 : weakly m1 i (S L)) by by apply weakly_clear.
    pose proof (weakly_set m1 i (S L) k v d Hw1) as Hws. rewrite Hl1 in Hws. by apply Hws.
  - intros k' v'. unfold has. setoid_rewrite Hgm. split.
    + intros [j Hj]. case_decide; [injection Hj as <- <-; by exists p|]. case_decide; [done|eauto].
    + intros [j Hj]. destruct (decide (j = p)) as [->|Hjp].
      * exists s. rewrite decide_True by done. congruence.
      * exists j. rewrite (decide_False (P := j = p)) by done. rewrite decide_False; [done|].
        intros ->. rewrite Hsnew in Hj by done. done.
  - intros j j' k1 v1 v2. rewrite !Hgm.
    destruct (decide (j = s)) as [->|], (decide (j' = s)) as [->|]; try done;
      repeat case_decide; try done.
    + intros [= <- <-] Hj'. exfalso. assert (j' = p) by by apply (Hu j' p k v2 v). done.
    + intros Hj [= <- <-]. exfalso. assert (j = p) by by apply (Hu j p k v1 v). done.
    + apply Hu.
  - intros D HD Hnone. rewrite Hgm. rewrite decide_False; [by case_decide|].
    intros Heq. destruct Hstr as (c & Hc & Hsc). rewrite Hsc in Heq. apply place_inj in Heq; lia.
Qed.

Lemma rehash_loop_spec fuel : forall m i L D,
  0 < length m ->
  (forall j j' k v v', bucket_get m j = Some (k, v) -> bucket_get m j' = Some (k, v') -> j = j') ->
  weakly m i L -> L <= D < length m -> D - L < fuel ->
  bucket_get m (place (length m) i D) = None ->
  let m' := rehash_loop fuel m (place (length m) i L) in
  lp_inv m' /\ length m' = length m /\ forall k v, has m' k v <-> has m k v.
Proof.
  induction fuel as [|fuel IH]; intros m i L D Hn Hu Hw HL Hf HD; [lia|]. cbn [rehash_loop].
  destruct (bucket_get m (place (length m) i L)) as [[k v]|] eqn:Hp.
  - destruct (rehash_step m i L k v Hn Hu Hw Hp) as (Hl & Hw' & Hhas & Hu' & Hkeep). cbv zeta in *.
    set (m1 := map_insert _ k v) in *.
    assert (L <> D) by congruence.
    replace ((place (length m) i L + 1) mod length m) with (place (length m1) i (S L)).
    2:{ rewrite Hl. change ((place (length m) i L + 1) mod length m) with (place (length m) (place (length m) i L) 1).
        rewrite place_place. f_equal. lia. }
    destruct (IH m1 i (S L) D) as (H1 & H2 & H3); [lia|done|done|lia|lia|rewrite Hl; apply Hkeep; [lia|done]|].
    split; [done|]. split; [by rewrite H2|]. intros k' v'. by rewrite H3, Hhas.
  - split; [by eapply weakly_done|]. done.
Qed.

Lemma map_remove_inv m k : lp_inv m -> room m ->
  lp_inv (map_remove m k) /\ length (map_remove m k) = length m /\
  forall k' v', has (map_remove m k) k' v' <-> k' <> k /\ has m k' v'.
Proof.
  intros Hinv (j0 & Hj0 & Hempty). unfold map_remove. destruct (map_find m k) as [i|] eqn:Hf.
  2:{ split; [done|]. split; [done|]. intros k' v'. split; [|tauto]. intros Hh. split; [|done].
      intros ->. by apply (map_find_None m k Hinv Hf v'). }
  apply map_find_Some in Hf as [v Hi]. pose proof (bucket_get_lt _ _ _ Hi) as Hil.
  assert (Hn : 0 < length m) by lia. set (m1 := <[i := None]> m).
  assert (Hl1 : length m1 = length m) by apply length_insert.
  assert (Hg1 : forall j, bucket_get m1 j = if decide (j = i) then None else bucket_get m j)
    by (intros; by apply bucket_get_insert).
  assert (Hi0 : place (length m) i 0 = i) by (unfold place; rewrite Nat.add_0_r; by apply Nat.mod_small).
  destruct (place_surj (length m) i j0 Hj0) as (D & HD & HpD).
  assert (D <> 0) by (intros ->; congruence).
  destruct (rehash_loop_spec (length m) m1 i 1 D) as (H1 & H2 & H3).
  - lia.
  - intros j j' k1 v1 v2. rewrite !Hg1. repeat case_decide; try done. by apply lp_uniq.
  - unfold m1. rewrite <- Hi0 at 1. apply weakly_clear; [done|]. by apply weakly_lp.
  - lia.
  - lia.
  - rewrite Hl1, Hg1, HpD. by case_decide.
  - rewrite Hl1 in H1, H2, H3.
    change (place (length m) i 1) with ((i + 1) mod length m) in *.
    split; [done|]. split; [done|]. intros k' v'. rewrite H3. unfold has. setoid_rewrite Hg1. split.
    + intros [j Hj]. case_decide as Hji; [done|]. split; [|eauto]. intros ->.
      apply Hji. by apply (lp_uniq m Hinv j i k v' v).
    + intros [Hk [j Hj]]. exists j. rewrite decide_False; [done|]. congruence.
Qed.

Lemma map_find_lookup m k : lp_inv m ->
  match map_find m k with
  | Some j => exists v, bucket_get m j = Some (k, v) /\ forall v', has m k v' <-> v' = v
  | None => forall v, ~ has m k v
  end.
Proof.
  intros Hinv. destruct (map_find m k) as [j|] eqn:Hf; [|by apply map_find_None].
  apply map_find_Some in Hf as [v Hj]. exists v. split; [done|]. intros v'. split.
  - intros [j' Hj']. assert (j' = j) as -> by by apply (lp_uniq m Hinv j' j k v' v). congruence.
  - intros ->. by exists j.
Qed.

(** ** Refinement of a finite map *)

(** What a lookup answers: the frame number in the bucket found. *)
Definition map_get (m : page_map) (k : pkey) : option nat :=
  match map_find m k with
  | None => None
  | Some b => option_map snd (bucket_get m b)
  end.

(** [m] is in order and holds exactly the pairs of [M]. *)
Definition map_rep (m : page_map) (M : gmap pkey nat) : Prop :=
  lp_inv m /\ forall k v, has m k v <-> M !! k = Some v.

(** The probing table refines a finite map.  As long as one bucket is free,
    a lookup answers the map's value, inserting a key that is absent (the only
    use the pool makes of it) adds its pair, and removing a key, which re-inserts
    the run of entries behind the hole, deletes that key and loses no other. *)
Theorem page_map_refines m M k v : map_rep m M -> room m ->
  map_get m k = M !! k /\
  (M !! k = None -> map_rep (map_insert m k v) (<[k := v]> M)) /\
  map_rep (map_remove m k) (delete k M) /\
  length (map_insert m k v) = length m /\ length (map_remove m k) = length m.
Proof.
  intros [Hinv HM] Hroom. split; [|split; [|split; [|split]]].
  - unfold map_get. pose proof (map_find_lookup m k Hinv) as H. destruct (map_find m k) as [j|].
    + destruct H as (v' & Hj & Hv). rewrite Hj. symmetry. apply HM. by apply Hv.
    + destruct (M !! k) as [v'|] eqn:E; [|done]. apply HM in E. by apply H in E.
  - intros Hk. destruct (map_insert_inv m k v Hinv Hroom) as (H1 & _ & H3).
    { intros v' Hv'%HM. congruence. }
    split; [done|]. intros k' v'. rewrite H3, lookup_insert_Some, HM. split.
    + intros [[-> ->]|Hk']; [by left|]. right. split; [congruence|done].
    + intros [[-> ->]|[_ Hk']]; [by left|by right].
  - destruct (map_remove_inv m k Hinv Hroom) as (H1 & _ & H3). split; [done|].
    intros k' v'. rewrite H3, lookup_delete_Some, HM. split; intros []; split; congruence.
  - destruct (map_insert_spec m k v Hroom) as (d & Hd & _ & _ & ->). apply length_insert.
  - by apply map_remove_inv.
Qed.

(** Two keys with the same home bucket in a table of four. *)
Lemma page_map_refines_witness :
  let m := map_insert (map_insert (replicate 4 None) (1, 1)%Z 0) (1, 5)%Z 1 in
  map_find m (1, 5)%Z = Some 1 /\ map_get (map_remove m (1, 1)%Z) (1, 5)%Z = Some 1.
Proof.
  cbv zeta. split; [vm_compute; reflexivity|].
  assert (H0 : map_rep (replicate 4 None) ∅).
  { assert (Hg : forall j, bucket_get (replicate 4 None) j = None) by (intros [|[|[|[|[|j]]]]]; reflexivity).
    split; [constructor; intros *; rewrite Hg; discriminate|]. intros k v. split; [|by rewrite lookup_empty].
    intros [j Hj]. rewrite Hg in Hj. discriminate. }
  assert (R0 : room (replicate 4 None)) by (exists 0; split; [cbn; lia|reflexivity]).
  destruct (page_map_refines _ _ (1, 1)%Z 0 H0 R0) as (_ & H1 & _).
  specialize (H1 (lookup_empty _)).
  set (m1 := map_insert _ (1, 1)%Z 0) in *.
  assert (R1 : room m1) by (exists 3; split; [vm_compute; lia|vm_compute; reflexivity]).
  destruct (page_map_refines _ _ (1, 5)%Z 1 H1 R1) as (_ & H2 & _).
  specialize (H2 eq_refl). set (m2 := map_insert m1 _ 1) in *.
  assert (R2 : room m2) by (exists 2; split; [vm_compute; lia|vm_compute; reflexivity]).
  destruct (page_map_refines _ _ (1, 1)%Z 0 H2 R2) as (_ & _ & H3 & _).
  assert (R3 : room (map_remove m2 (1, 1)%Z)) by (exists 2; split; [vm_compute; lia|vm_compute; reflexivity]).
  destruct (page_map_refines _ _ (1, 5)%Z 1 H3 R3) as (H4 & _). rewrite H4. reflexivity.
Defined.
