(* ===== verification/BufferPool.v ===== *)
(** * Buffer pool (server/storage/buffer_pool.c)

    Frames, the hash map of PageMap.v and the doubly linked LRU list through
    the frames.  Every public operation runs under the pool's mutex and is one
    function here.  A page pointer handed out by [buffer_pool_fetch] is the
    index of its frame; reading and writing through it is [frame_buf] and
    [frame_store].

    [view] is what a client sees of a page: the cached bytes, or the bytes on
    disk.  [pool_ok] is the invariant: map and frames agree, the LRU list links
    exactly the valid frames, and clean frames equal the disk. *)

From stdpp Require Import base tactics numbers list gmap.
From Stdlib Require Import ZArith Lia.
From S2P Require Import Prelude Types Page PageMap.

#[local] Open Scope Z_scope.

Definition MAP_FACTOR : nat := 4.

Record frame := Frame {
  f_buf : bytes;
  f_fd : Z;
  f_page_id : Z;
  f_pin_count : Z;
  f_is_dirty : bool;
  f_is_valid : bool;
  f_lru_prev : option nat;
  f_lru_next : option nat }.

Record buffer_pool := BufferPool {
  bp_frames : list frame;
  bp_map : page_map;
  bp_lru_head : option nat;
  bp_lru_tail : option nat;
  bp_hits : Z;
  bp_misses : Z }.

(** ** Field updates *)

Definition set_lru_prev (x : option nat) (f : frame) : frame :=
  Frame (f_buf f) (f_fd f) (f_page_id f) (f_pin_count f) (f_is_dirty f) (f_is_valid f) x (f_lru_next f).
Definition set_lru_next (x : option nat) (f : frame) : frame :=
  Frame (f_buf f) (f_fd f) (f_page_id f) (f_pin_count f) (f_is_dirty f) (f_is_valid f) (f_lru_prev f) x.
Definition set_pin (n : Z) (f : frame) : frame :=
  Frame (f_buf f) (f_fd f) (f_page_id f) n (f_is_dirty f) (f_is_valid f) (f_lru_prev f) (f_lru_next f).
Definition set_dirty (b : bool) (f : frame) : frame :=
  Frame (f_buf f) (f_fd f) (f_page_id f) (f_pin_count f) b (f_is_valid f) (f_lru_prev f) (f_lru_next f).
Definition set_valid (b : bool) (f : frame) : frame :=
  Frame (f_buf f) (f_fd f) (f_page_id f) (f_pin_count f) (f_is_dirty f) b (f_lru_prev f) (f_lru_next f).
Definition set_buf (b : bytes) (f : frame) : frame :=
  Frame b (f_fd f) (f_page_id f) (f_pin_count f) (f_is_dirty f) (f_is_valid f) (f_lru_prev f) (f_lru_next f).

Definition with_frames (p : buffer_pool) (fs : list frame) : buffer_pool :=
  BufferPool fs (bp_map p) (bp_lru_head p) (bp_lru_tail p) (bp_hits p) (bp_misses p).
Definition with_map (p : buffer_pool) (m : page_map) : buffer_pool :=
  BufferPool (bp_frames p) m (bp_lru_head p) (bp_lru_tail p) (bp_hits p) (bp_misses p).
Definition with_head (p : buffer_pool) (x : option nat) : buffer_pool :=
  BufferPool (bp_frames p) (bp_map p) x (bp_lru_tail p) (bp_hits p) (bp_misses p).
Definition with_tail (p : buffer_pool) (x : option nat) : buffer_pool :=
  BufferPool (bp_frames p) (bp_map p) (bp_lru_head p) x (bp_hits p) (bp_misses p).
Definition add_hit (p : buffer_pool) : buffer_pool :=
  BufferPool (bp_frames p) (bp_map p) (bp_lru_head p) (bp_lru_tail p) (u32 (bp_hits p + 1)) (bp_misses p).
Definition add_miss (p : buffer_pool) : buffer_pool :=
  BufferPool (bp_frames p) (bp_map p) (bp_lru_head p) (bp_lru_tail p) (bp_hits p) (u32 (bp_misses p + 1)).

(** [pool->frames[i]] updated by [g]. *)
Definition upd_frame (i : nat) (g : frame -> frame) (p : buffer_pool) : buffer_pool :=
  with_frames p (alter g i (bp_frames p)).

(** ** LRU list *)

Definition lru_remove (p : buffer_pool) (i : nat) : buffer_pool :=
  match bp_frames p !! i with
  | None => p
  | Some f =>
      let p1 := match f_lru_prev f with
                | Some a => upd_frame a (set_lru_next (f_lru_next f)) p
                | None => with_head p (f_lru_next f)
                end in
      let p2 := match f_lru_next f with
                | Some b => upd_frame b (set_lru_prev (f_lru_prev f)) p1
                | None => with_tail p1 (f_lru_prev f)
                end in
      upd_frame i (fun f => set_lru_next None (set_lru_prev None f)) p2
  end.

Definition lru_push_front (p : buffer_pool) (i : nat) : buffer_pool :=
  let p1 := upd_frame i (fun f => set_lru_next (bp_lru_head p) (set_lru_prev None f)) p in
  let p2 := match bp_lru_head p1 with
            | Some h => upd_frame h (set_lru_prev (Some i)) p1
            | None => p1
            end in
  let p3 := with_head p2 (Some i) in
  match bp_lru_tail p3 with
  | None => with_tail p3 (Some i)
  | Some _ => p3
  end.

Definition lru_touch (p : buffer_pool) (i : nat) : buffer_pool := lru_push_front (lru_remove p i) i.

(** ** Victims *)

Fixpoint find_invalid (fs : list frame) (i : nat) : option nat :=
  match fs with
  | [] => None
  | f :: fs' => if f_is_valid f then find_invalid fs' (S i) else Some i
  end.

(** The walk from the tail; one unit of fuel per frame. *)
Fixpoint walk_lru (fuel : nat) (fs : list frame) (cur : option nat) : option nat :=
  match fuel, cur with
  | S fuel', Some i =>
      match fs !! i with
      | None => None
      | Some f => if f_pin_count f =? 0 then Some i else walk_lru fuel' fs (f_lru_prev f)
      end
  | _, _ => None
  end.

Definition find_victim (p : buffer_pool) (d : disk) : buffer_pool * disk * option nat :=
  match find_invalid (bp_frames p) 0 with
  | Some i => (p, d, Some i)
  | None =>
      match walk_lru (length (bp_frames p)) (bp_frames p) (bp_lru_tail p) with
      | None => (p, d, None)
      | Some i =>
          match bp_frames p !! i with
          | None => (p, d, None)
          | Some f =>
              let '(d1, p1) :=
                if f_is_dirty f
                then (fst (page_write (f_fd f) (f_page_id f) (f_buf f) d), upd_frame i (set_dirty false) p)
                else (d, p) in
              let p2 := with_map p1 (map_remove (bp_map p1) (f_fd f, f_page_id f)) in
              let p3 := lru_remove p2 i in
              (upd_frame i (set_valid false) p3, d1, Some i)
          end
      end
  end.

(** ** Public operations *)

Definition buffer_pool_create (num_frames : nat) : option buffer_pool :=
  if (num_frames =? 0)%nat then None
  else Some {| bp_frames := replicate num_frames (Frame (zeros PLEN) (-1) INVALID_PAGE_ID 0 false false None None);
               bp_map := replicate (num_frames * MAP_FACTOR) None;
               bp_lru_head := None; bp_lru_tail := None; bp_hits := 0; bp_misses := 0 |}.

(** The frame holding a page. *)
Definition pool_lookup (p : buffer_pool) (k : pkey) : option nat :=
  match map_find (bp_map p) k with
  | None => None
  | Some b => option_map snd (bucket_get (bp_map p) b)
  end.

Definition buffer_pool_fetch (p : buffer_pool) (d : disk) (fd page_id : Z)
    : buffer_pool * disk * option nat :=
  match pool_lookup p (fd, page_id) with
  | Some fi =>
      let p1 := upd_frame fi (fun f => set_pin (u32 (f_pin_count f + 1)) f) p in
      (add_hit (lru_touch p1 fi), d, Some fi)
  | None =>
      let p0 := add_miss p in
      let '(p1, d1, victim) := find_victim p0 d in
      match victim with
      | None => (p1, d1, None)
      | Some fi =>
          let '(d2, r) := page_read fd page_id d1 in
          match r with
          | None => (p1, d2, None)
          | Some buf =>
              let p2 := upd_frame fi (fun f =>
                Frame buf fd page_id 1 false true (f_lru_prev f) (f_lru_next f)) p1 in
              let p3 := with_map p2 (map_insert (bp_map p2) (fd, page_id) fi) in
              (lru_push_front p3 fi, d2, Some fi)
          end
      end
  end.

Definition buffer_pool_unpin (p : buffer_pool) (fd page_id : Z) : buffer_pool :=
  match pool_lookup p (fd, page_id) with
  | None => p
  | Some fi => upd_frame fi (fun f => if f_pin_count f =? 0 then f else set_pin (f_pin_count f - 1) f) p
  end.

Definition buffer_pool_mark_dirty (p : buffer_pool) (fd page_id : Z) : buffer_pool :=
  match pool_lookup p (fd, page_id) with
  | None => p
  | Some fi => upd_frame fi (set_dirty true) p
  end.

Definition buffer_pool_flush_page (p : buffer_pool) (d : disk) (fd page_id : Z)
    : buffer_pool * disk * Z :=
  match pool_lookup p (fd, page_id) with
  | None => (p, d, -1)
  | Some fi =>
      match bp_frames p !! fi with
      | None => (p, d, -1)
      | Some f =>
          if f_is_dirty f then
            let '(d1, ok) := page_write (f_fd f) (f_page_id f) (f_buf f) d in
            if ok then (upd_frame fi (set_dirty false) p, d1, 0) else (p, d1, -1)
          else (p, d, 0)
      end
  end.

(** One frame of the loop of buffer_pool_flush_all. *)
Definition flush_frame (st : buffer_pool * disk * Z) (i : nat) : buffer_pool * disk * Z :=
  let '(p, d, result) := st in
  match bp_frames p !! i with
  | None => st
  | Some f =>
      if f_is_valid f && f_is_dirty f then
        let '(d1, ok) := page_write (f_fd f) (f_page_id f) (f_buf f) d in
        if ok then (upd_frame i (set_dirty false) p, d1, result) else (p, d1, -1)
      else st
  end.

Definition buffer_pool_flush_all (p : buffer_pool) (d : disk) : buffer_pool * disk * Z :=
  fold_left flush_frame (seq 0 (length (bp_frames p))) (p, d, 0).

(** What is left of a pool: its pages on disk. *)
Definition buffer_pool_destroy (p : buffer_pool) (d : disk) : disk :=
  snd (fst (buffer_pool_flush_all p d)).

Definition buffer_pool_hit_count (p : buffer_pool) : Z := bp_hits p.
Definition buffer_pool_miss_count (p : buffer_pool) : Z := bp_misses p.

(** Through the pointer handed out by buffer_pool_fetch. *)
Definition frame_buf (p : buffer_pool) (fi : nat) : bytes := from_option f_buf [] (bp_frames p !! fi).
Definition frame_store (p : buffer_pool) (fi : nat) (b : bytes) : buffer_pool := upd_frame fi (set_buf b) p.

(** ** The LRU list as a list of frame numbers *)

Definition prev_at (l : list nat) (n : nat) : option nat :=
  match n with O => None | S m => l !! m end.

(** [l] is the list the links spell, most recent first. *)
Record dll (fs : list frame) (h t : option nat) (l : list nat) : Prop := Dll {
  dll_nodup : NoDup l;
  dll_head : h = l !! 0%nat;
  dll_tail : t = last l;
  dll_link : forall n i, l !! n = Some i ->
    exists f, fs !! i = Some f /\ f_lru_prev f = prev_at l n /\ f_lru_next f = l !! S n }.

(** A frame without its links. *)
Definition unlinked (f : frame) : frame := set_lru_next None (set_lru_prev None f).

(** ** The invariant *)

(** The bytes of a page on disk, as a read that succeeds returns them. *)
Definition disk_page (d : disk) (k : pkey) : option bytes :=
  match d_files d !! fst k with
  | None => None
  | Some f =>
      let data := slice (Z.to_nat (snd k * PAGE_SIZE)) PLEN f in
      Some (data ++ zeros (PLEN - length data))
  end.

(** The page is one of an open file. *)
Definition open_page (d : disk) (k : pkey) : Prop :=
  0 <= fst k /\ 0 <= snd k /\ is_Some (d_files d !! fst k).

Definition key_of (f : frame) : pkey := (f_fd f, f_page_id f).

Record frame_ok (d : disk) (f : frame) : Prop := FrameOk {
  fo_len : length (f_buf f) = PLEN;
  fo_pin : uint_ok 32 (f_pin_count f);
  fo_free : f_is_valid f = false -> f_pin_count f = 0;
  fo_open : f_is_valid f = true -> open_page d (key_of f);
  fo_clean : f_is_valid f = true -> f_is_dirty f = false -> disk_page d (key_of f) = Some (f_buf f) }.

(** Frame [i] is valid and holds page [k]. *)
Definition holds (p : buffer_pool) (k : pkey) (i : nat) : Prop :=
  exists f, bp_frames p !! i = Some f /\ f_is_valid f = true /\ key_of f = k.

Record pool_ok (p : buffer_pool) (d : disk) (l : list nat) : Prop := PoolOk {
  ok_some : (0 < length (bp_frames p))%nat;
  ok_slots : length (bp_map p) = (length (bp_frames p) * MAP_FACTOR)%nat;
  ok_map : lp_inv (bp_map p);
  ok_has : forall k i, has (bp_map p) k i <-> holds p k i;
  ok_lru : dll (bp_frames p) (bp_lru_head p) (bp_lru_tail p) l;
  ok_list : forall i, i ∈ l <-> exists k, holds p k i;
  ok_frames : forall i f, bp_frames p !! i = Some f -> frame_ok d f }.

(** What a client sees of a page. *)
Definition view (p : buffer_pool) (d : disk) (k : pkey) : option bytes :=
  match pool_lookup p k with
  | Some i => Some (frame_buf p i)
  | None => disk_page d k
  end.

(** ** Links: lemmas *)

Lemma upd_frame_lookup i g p j :
  bp_frames (upd_frame i g p) !! j = (if decide (j = i) then g else id) <$> (bp_frames p !! j).
Proof.
  unfold upd_frame, with_frames. cbn [bp_frames]. case_decide as H.
  - subst. apply list_lookup_alter_eq.
  - rewrite list_lookup_alter_ne by congruence. by destruct (bp_frames p !! j).
Qed.

Lemma upd_frame_length i g p : length (bp_frames (upd_frame i g p)) = length (bp_frames p).
Proof. apply length_alter. Qed.

(** The frame [j] after the list was changed around frame [i]. *)
Definition bypass (i : nat) (a b : option nat) (j : nat) (f : frame) : frame :=
  let f1 := if decide (Some j = a) then set_lru_next b f else f in
  let f2 := if decide (Some j = b) then set_lru_prev a f1 else f1 in
  if decide (j = i) then unlinked f2 else f2.

Lemma frames_with_head p x : bp_frames (with_head p x) = bp_frames p.
Proof. done. Qed.
Lemma frames_with_tail p x : bp_frames (with_tail p x) = bp_frames p.
Proof. done. Qed.

(** Reads a frame through pending pool updates. *)
Ltac frame_lookup p j :=
  repeat (rewrite ?upd_frame_lookup, ?frames_with_head, ?frames_with_tail);
  destruct (bp_frames p !! j); cbn; repeat case_decide; simplify_eq; done.

Lemma lru_remove_frames p i f j : bp_frames p !! i = Some f ->
  bp_frames (lru_remove p i) !! j =
    bypass i (f_lru_prev f) (f_lru_next f) j <$> (bp_frames p !! j).
Proof.
  intros Hi. unfold lru_remove, bypass. rewrite Hi.
  destruct (f_lru_prev f) as [a|], (f_lru_next f) as [b|]; frame_lookup p j.
Qed.

Lemma lru_remove_ends p i f : bp_frames p !! i = Some f ->
  bp_lru_head (lru_remove p i) = match f_lru_prev f with Some _ => bp_lru_head p | None => f_lru_next f end /\
  bp_lru_tail (lru_remove p i) = match f_lru_next f with Some _ => bp_lru_tail p | None => f_lru_prev f end /\
  bp_map (lru_remove p i) = bp_map p /\
  length (bp_frames (lru_remove p i)) = length (bp_frames p).
Proof.
  intros Hi. unfold lru_remove. rewrite Hi.
  destruct (f_lru_prev f), (f_lru_next f);
    repeat (rewrite ?upd_frame_length, ?frames_with_head, ?frames_with_tail); done.
Qed.

Lemma lru_push_front_frames p i j : bp_lru_head p <> Some i ->
  bp_frames (lru_push_front p i) !! j =
    (fun f => if decide (j = i) then set_lru_next (bp_lru_head p) (set_lru_prev None f)
              else if decide (Some j = bp_lru_head p) then set_lru_prev (Some i) f else f)
      <$> (bp_frames p !! j).
Proof.
  intros Hh. unfold lru_push_front.
  set (p1 := upd_frame i _ p). change (bp_lru_head p1) with (bp_lru_head p).
  destruct (bp_lru_head p) as [h|] eqn:E; case_match; unfold p1; frame_lookup p j.
Qed.

Lemma lru_push_front_ends p i :
  bp_lru_head (lru_push_front p i) = Some i /\
  bp_lru_tail (lru_push_front p i) = match bp_lru_tail p with Some t => Some t | None => Some i end /\
  bp_map (lru_push_front p i) = bp_map p /\
  length (bp_frames (lru_push_front p i)) = length (bp_frames p).
Proof.
  unfold lru_push_front. set (p1 := upd_frame i _ p).
  change (bp_lru_head p1) with (bp_lru_head p).
  set (p3 := with_head _ _).
  assert (H3 : bp_lru_tail p3 = bp_lru_tail p) by (unfold p3; by destruct (bp_lru_head p)).
  assert (Hm : bp_map p3 = bp_map p) by (unfold p3; by destruct (bp_lru_head p)).
  assert (Hl : length (bp_frames p3) = length (bp_frames p)).
  { unfold p3, p1. destruct (bp_lru_head p); by rewrite ?frames_with_head, ?upd_frame_length. }
  destruct (bp_lru_tail p) eqn:Ht; rewrite H3; done.
Qed.

Lemma last_delete (l : list nat) n i : l !! n = Some i ->
  match l !! S n with Some _ => last l | None => prev_at l n end = last (delete n l).
Proof.
  intros Hi. pose proof (lookup_lt_Some _ _ _ Hi). rewrite !last_lookup, length_delete by done.
  destruct (l !! S n) as [y|] eqn:E.
  - apply lookup_lt_Some in E. rewrite list_lookup_delete_ge by lia. f_equal. lia.
  - apply lookup_ge_None in E. destruct n as [|n]; cbn [prev_at].
    + symmetry. apply lookup_ge_None. rewrite length_delete by (by eexists). lia.
    + rewrite list_lookup_delete_lt by lia. f_equal. lia.
Qed.

Lemma bypass_links (l : list nat) n m j f :
  NoDup l -> (n < length l)%nat ->
  l !! (if decide (m < n)%nat then m else S m) = Some j ->
  f_lru_prev f = prev_at l (if decide (m < n)%nat then m else S m) ->
  f_lru_next f = l !! S (if decide (m < n)%nat then m else S m) ->
  let f1 := if decide (Some j = prev_at l n) then set_lru_next (l !! S n) f else f in
  let f2 := if decide (Some j = l !! S n) then set_lru_prev (prev_at l n) f1 else f1 in
  f_lru_prev f2 = prev_at (delete n l) m /\ f_lru_next f2 = delete n l !! S m.
Proof.
  intros Hnd Hn Hj Hp Hx f1 f2.
  assert (Hd1 : forall x, (x < n)%nat -> delete n l !! x = l !! x) by (intros; by rewrite list_lookup_delete_lt).
  assert (Hd2 : forall x, (n <= x)%nat -> delete n l !! x = l !! S x) by (intros; by rewrite list_lookup_delete_ge).
  assert (Heq : forall x, Some j = l !! x -> x = if decide (m < n)%nat then m else S m).
  { intros x Hx'. eapply NoDup_lookup; [done|by symmetry|done]. }
  assert (Hpn : Some j = prev_at l n <-> S m = n).
  { destruct n as [|n]; cbn [prev_at]; [split; [done|lia]|]. split.
    - intros Hz. apply Heq in Hz. case_decide; lia.
    - intros [= ->]. rewrite decide_True in Hj by lia. done. }
  assert (Hxn : Some j = l !! S n <-> m = n).
  { split; [intros Hz; apply Heq in Hz; case_decide; lia|].
    intros ->. rewrite decide_False in Hj by lia. done. }
  subst f2 f1. destruct (decide (m < n)%nat).
  - rewrite (decide_False (P := Some j = l !! S n)) by (rewrite Hxn; lia). split.
    + transitivity (f_lru_prev f); [by case_decide|]. rewrite Hp. destruct m; [done|]. cbn [prev_at].
      symmetry. apply Hd1. lia.
    + case_decide as E; cbn.
      * apply Hpn in E. rewrite Hd2 by lia. by rewrite E.
      * rewrite Hx. symmetry. apply Hd1. rewrite Hpn in E. lia.
  - rewrite (decide_False (P := Some j = prev_at l n)) by (rewrite Hpn; lia). split.
    + case_decide as E; cbn.
      * apply Hxn in E as ->. destruct n; [done|]. cbn [prev_at]. symmetry. apply Hd1. lia.
      * rewrite Hp. rewrite Hxn in E. destruct m as [|m]; [lia|]. cbn [prev_at]. symmetry. apply Hd2. lia.
    + transitivity (f_lru_next f); [by case_decide|]. rewrite Hx. symmetry. apply Hd2. lia.
Qed.

(** Taking frame [i] out of the list, and putting it in front. *)
Lemma dll_remove p l i n :
  dll (bp_frames p) (bp_lru_head p) (bp_lru_tail p) l -> l !! n = Some i ->
  let p' := lru_remove p i in
  dll (bp_frames p') (bp_lru_head p') (bp_lru_tail p') (delete n l).
Proof.
  intros [Hnd Hh Ht Hl] Hi. cbv zeta.
  destruct (Hl n i Hi) as (fi & Hfi & Hpi & Hni).
  destruct (lru_remove_ends p i fi Hfi) as (Eh & Et & _ & _). split.
  - apply (sublist_NoDup _ l); [done|]. apply sublist_delete.
  - rewrite Eh, Hpi. destruct n as [|n]; cbn [prev_at].
    + rewrite Hni. by rewrite list_lookup_delete_ge by lia.
    + rewrite Hh. destruct (l !! n) eqn:E; [by rewrite list_lookup_delete_lt by lia|].
      apply lookup_ge_None in E. pose proof (lookup_lt_Some _ _ _ Hi). lia.
  - rewrite Et, Hni, Hpi, Ht. by apply (last_delete l n i).
  - intros m j Hj. set (m' := if decide (m < n)%nat then m else S m).
    assert (Hj' : l !! m' = Some j).
    { unfold m'. case_decide; [by rewrite list_lookup_delete_lt in Hj|].
      by rewrite list_lookup_delete_ge in Hj by lia. }
    assert (m' <> n) by (unfold m'; case_decide; lia).
    destruct (Hl m' j Hj') as (f & Hf & Hp & Hn). rewrite (lru_remove_frames p i fi j Hfi), Hf.
    eexists. split; [done|]. unfold bypass.
    rewrite (decide_False (P := j = i)) by (intros ->; by apply (NoDup_lookup l m' n i) in Hj').
    rewrite Hpi, Hni. apply (bypass_links l n m j f); try done. by eapply lookup_lt_Some.
Qed.

Lemma dll_push_front p l i :
  dll (bp_frames p) (bp_lru_head p) (bp_lru_tail p) l -> i ∉ l -> is_Some (bp_frames p !! i) ->
  let p' := lru_push_front p i in
  dll (bp_frames p') (bp_lru_head p') (bp_lru_tail p') (i :: l).
Proof.
  intros [Hnd Hh Ht Hl] Hi [fi Hfi]. cbv zeta. destruct (lru_push_front_ends p i) as (Eh & Et & _ & _).
  assert (Hhi : bp_lru_head p <> Some i).
  { rewrite Hh. intros H. apply Hi. by eapply list_elem_of_lookup_2. }
  split.
  - by constructor.
  - by rewrite Eh.
  - rewrite Et, Ht. destruct l as [|x l] using rev_ind; [done|]. rewrite last_snoc.
    change (i :: l ++ [x]) with ((i :: l) ++ [x]). by rewrite last_snoc.
  - intros [|n] j Hj; cbn [lookup list_lookup] in Hj.
    + injection Hj as ->. rewrite lru_push_front_frames, Hfi by done. cbn. rewrite decide_True by done.
      eexists. split; [done|]. cbn. done.
    + destruct (Hl n j Hj) as (f & Hf & Hp & Hn). rewrite lru_push_front_frames, Hf by done.
      assert (j <> i) by (intros ->; apply Hi; by eapply list_elem_of_lookup_2).
      cbn. rewrite decide_False by done. eexists. split; [done|]. rewrite Hh.
      case_decide as He; cbn.
      * assert (n = 0%nat) as -> by (eapply NoDup_lookup; [exact Hnd|exact Hj|by symmetry]). done.
      * destruct n as [|n]; [by destruct He|]. done.
Qed.

(** ** Pages on disk: lemmas *)

(** A disk on which no pending call fails. *)
Definition steady (d : disk) : Prop := Forall (fun b => b = true) (d_faults d).

(** The page of file [f] at byte offset [off]. *)
Definition page_of (f : bytes) (off : nat) : bytes :=
  slice off PLEN f ++ zeros (PLEN - length (slice off PLEN f)).

Lemma length_page_of f off : length (page_of f off) = PLEN.
Proof. unfold page_of. rewrite length_app, length_zeros, length_slice. lia. Qed.

Lemma page_of_lookup f off i : (i < PLEN)%nat ->
  page_of f off !! i = Some (default 0 (f !! (off + i)%nat)).
Proof.
  intros Hi. unfold page_of. destruct (decide (i < length (slice off PLEN f))%nat) as [H|H].
  - rewrite lookup_app_l, lookup_slice, decide_True by done.
    rewrite length_slice in H. by destruct (lookup_lt_is_Some_2 f (off + i)%nat) as [x ->]; [lia|].
  - rewrite lookup_app_r by lia. rewrite length_slice in *. unfold zeros.
    rewrite lookup_replicate_2 by lia. by rewrite (lookup_ge_None_2 f) by lia.
Qed.

Lemma disk_page_of d k f : d_files d !! fst k = Some f ->
  disk_page d k = Some (page_of f (Z.to_nat (snd k * PAGE_SIZE))).
Proof. intros H. unfold disk_page. by rewrite H. Qed.

Lemma open_disk_page d k : open_page d k -> exists b, disk_page d k = Some b /\ length b = PLEN.
Proof.
  intros (_ & _ & [f Hf]). rewrite (disk_page_of d k f Hf). eexists. split; [done|]. apply length_page_of.
Qed.

Lemma io_tick_files d : d_files (io_tick d).2 = d_files d.
Proof. unfold io_tick. by destruct (d_faults d). Qed.

Lemma io_tick_steady d : steady d -> fst (io_tick d) = true /\ steady (io_tick d).2.
Proof.
  unfold steady, io_tick. destruct (d_faults d) as [|b bs] eqn:E.
  - intros _. cbn. rewrite E. auto.
  - intros [-> ?]%Forall_cons. auto.
Qed.

Lemma disk_page_files d d' k : d_files d' = d_files d -> disk_page d' k = disk_page d k.
Proof. unfold disk_page. by intros ->. Qed.

Lemma open_page_files d d' k : d_files d' = d_files d -> open_page d k -> open_page d' k.
Proof. unfold open_page. by intros ->. Qed.

Lemma page_read_spec d k d' r : page_read (fst k) (snd k) d = (d', r) ->
  d_files d' = d_files d /\
  (forall buf, r = Some buf -> disk_page d k = Some buf /\ length buf = PLEN) /\
  (steady d -> steady d' /\ (open_page d k -> is_Some r)).
Proof.
  unfold page_read. pose proof (io_tick_files d) as Hf. pose proof (io_tick_steady d) as Hs.
  destruct (Z.ltb_spec (fst k) 0) as [Hneg|Hpos].
  { intros [= <- <-]. split; [done|]. split; [done|]. intros ?. split; [done|]. unfold open_page. lia. }
  destruct (io_tick d) as [ok d1]. cbn [fst snd] in *. rewrite Hf.
  destruct (d_files d !! fst k) as [f|] eqn:Hk.
  2:{ intros [= <- <-]. split; [done|]. split; [done|]. intros Hst. split; [by apply Hs|].
      intros (_ & _ & [? ?]). congruence. }
  destruct ok; intros [= <- <-]; (split; [done|]); (split; [|intros Hst; split; [by apply Hs|]]).
  - intros buf [= <-]. rewrite (disk_page_of d k f Hk). split; [done|]. apply length_page_of.
  - by eexists.
  - done.
  - by destruct (Hs Hst).
Qed.

Lemma file_write_lookup (f buf : bytes) off j : length buf = PLEN ->
  default 0 (blit off buf (f ++ zeros (off + PLEN - length f)) !! j) =
    if decide (off <= j < off + PLEN)%nat then default 0 (buf !! (j - off)%nat) else default 0 (f !! j).
Proof.
  intros Hb. rewrite lookup_blit by (rewrite length_app, length_zeros; lia). rewrite Hb.
  case_decide; [done|]. destruct (decide (j < length f)%nat).
  - by rewrite lookup_app_l.
  - rewrite lookup_app_r, (lookup_ge_None_2 f) by lia. unfold zeros.
    destruct (replicate _ _ !! _) eqn:E; [|done]. by apply lookup_replicate in E as [-> _].
Qed.

Lemma page_of_write f buf off off' : length buf = PLEN ->
  (off' = off \/ off' + PLEN <= off \/ off + PLEN <= off')%nat ->
  page_of (blit off buf (f ++ zeros (off + PLEN - length f))) off' =
    if decide (off' = off) then buf else page_of f off'.
Proof.
  intros Hb Hd. apply list_eq. intros i. destruct (decide (i < PLEN)%nat) as [Hi|Hi].
  - rewrite page_of_lookup, file_write_lookup by done. case_decide as H1.
    + rewrite decide_True by lia. replace (off' + i - off)%nat with i by lia.
      by destruct (lookup_lt_is_Some_2 buf i) as [x ->]; [lia|].
    + rewrite decide_False by lia. by rewrite page_of_lookup.
  - rewrite !lookup_ge_None_2; [done|..]; [case_decide|]; rewrite ?length_page_of; lia.
Qed.

Lemma page_write_spec d k buf d' ok : page_write (fst k) (snd k) buf d = (d', ok) ->
  open_page d k -> length buf = PLEN ->
  (forall k', open_page d k' -> open_page d' k') /\
  (forall k', open_page d k' ->
     disk_page d' k' = if ok && bool_decide (k' = k) then Some buf else disk_page d k') /\
  (steady d -> steady d' /\ ok = true).
Proof.
  intros Hw (Hk1 & Hk2 & [f Hk]) Hb. unfold page_write in Hw.
  pose proof (io_tick_files d) as Hf. pose proof (io_tick_steady d) as Hs.
  destruct (Z.ltb_spec (fst k) 0) as [Hneg|Hpos]; [lia|].
  destruct (io_tick d) as [ok1 d1]. cbn [fst snd] in *. rewrite Hf, Hk in Hw.
  destruct ok1; injection Hw as <- <-; cbn [andb].
  2:{ split; [intros; by eapply open_page_files|]. split; [|intros Hst; by destruct (Hs Hst)].
      intros. by apply disk_page_files. }
  split; [|split; [|intros Hst; by destruct (Hs Hst)]].
  - intros k' (? & ? & ?). split; [done|]. split; [done|]. cbn [d_files].
    destruct (decide (fst k' = fst k)) as [->|]; [by rewrite lookup_insert_eq|by rewrite lookup_insert_ne].
  - intros k' (Hp1 & Hp2 & [f' Hk']). unfold disk_page. cbn [d_files].
    change (Z.to_nat 4096) with PLEN. destruct (decide (fst k' = fst k)) as [He|He].
    + rewrite He, lookup_insert_eq. rewrite He, Hk in Hk'. injection Hk' as <-. rewrite Hk.
      fold (page_of f (Z.to_nat (snd k' * PAGE_SIZE))).
      set (w := blit _ _ _). fold (page_of w (Z.to_nat (snd k' * PAGE_SIZE))). unfold w.
      rewrite page_of_write; [|done|unfold PAGE_SIZE; lia].
      destruct (decide (snd k' = snd k)) as [He2|He2].
      * rewrite He2, decide_True, bool_decide_true by (done || (destruct k, k'; cbn in *; congruence)). done.
      * rewrite bool_decide_false by congruence. rewrite decide_False; [done|]. unfold PAGE_SIZE. lia.
    + rewrite lookup_insert_ne, bool_decide_false by congruence. by rewrite Hk'.
Qed.

(** ** Map and frames agree: lemmas *)

Lemma pool_lookup_holds p d l k i : pool_ok p d l -> pool_lookup p k = Some i <-> holds p k i.
Proof.
  intros Hp. pose proof (map_find_lookup (bp_map p) k (ok_map _ _ _ Hp)) as H.
  unfold pool_lookup. rewrite <- (ok_has _ _ _ Hp). destruct (map_find (bp_map p) k) as [j|].
  - destruct H as (v & Hj & Hv). rewrite Hj. cbn. rewrite Hv. split; congruence.
  - split; [done|]. intros Hh. by apply H in Hh.
Qed.

Lemma pool_lookup_none p d l k : pool_ok p d l -> pool_lookup p k = None -> forall i, ~ holds p k i.
Proof. intros Hp Hn i Hi. apply (pool_lookup_holds p d l k i Hp) in Hi. congruence. Qed.

(** A page is cached at most once. *)
Lemma holds_inj p d l k i j : pool_ok p d l -> holds p k i -> holds p k j -> i = j.
Proof. intros Hp Hi Hj. apply (pool_lookup_holds p d l k _ Hp) in Hi, Hj. congruence. Qed.

Lemma holds_fun p k k' i : holds p k i -> holds p k' i -> k = k'.
Proof. intros (f & Hf & _ & <-) (f' & Hf' & _ & <-). congruence. Qed.

Lemma dll_bound fs h t l i : dll fs h t l -> i ∈ l -> (i < length fs)%nat.
Proof.
  intros Hd [n Hn]%list_elem_of_lookup_1. destruct (dll_link _ _ _ _ Hd n i Hn) as (f & Hf & _).
  by apply lookup_lt_Some in Hf.
Qed.

(** There are four buckets per frame, so some bucket is free. *)
Lemma pool_room p d l : pool_ok p d l -> room (bp_map p).
Proof.
  intros Hp. pose proof (ok_some _ _ _ Hp) as Hn. pose proof (ok_slots _ _ _ Hp) as Hsl.
  destruct (Forall_Exists_dec (fun b => is_Some b) (fun b => b = None)
    (fun b => ltac:(destruct b; [left; by eexists|by right])) (bp_map p)) as [Hall|Hex].
  - exfalso. set (g := fun b : option (pkey * nat) => default 0%nat (snd <$> b)).
    assert (Hval : forall j x, (g <$> bp_map p) !! j = Some x ->
      exists k, bucket_get (bp_map p) j = Some (k, x) /\ holds p k x).
    { intros j x Hj. rewrite list_lookup_fmap in Hj. destruct (bp_map p !! j) as [b|] eqn:Hb; [|done].
      injection Hj as <-. pose proof (proj1 (Forall_lookup _ _) Hall j b Hb) as [[k v] ->].
      assert (Hg : bucket_get (bp_map p) j = Some (k, v)) by (unfold bucket_get; by rewrite Hb).
      exists k. split; [done|]. apply (ok_has _ _ _ Hp). by exists j. }
    assert (Hnd : NoDup (g <$> bp_map p)).
    { apply NoDup_alt. intros j j' x Hj Hj'. destruct (Hval j x Hj) as (k & Hk & Hh).
      destruct (Hval j' x Hj') as (k' & Hk' & Hh'). rewrite (holds_fun p k' k x Hh' Hh) in Hk'.
      by apply (lp_uniq _ (ok_map _ _ _ Hp) j j' k x x). }
    assert (Hle : (length (g <$> bp_map p) <= length (seq 0 (length (bp_frames p))))%nat).
    { apply submseteq_length, NoDup_submseteq; [done|]. intros x [j Hj]%list_elem_of_lookup_1.
      destruct (Hval j x Hj) as (k & _ & f & Hf & _). apply lookup_lt_Some in Hf. apply elem_of_seq. lia. }
    rewrite length_fmap, length_seq, Hsl in Hle. unfold MAP_FACTOR in Hle. lia.
  - apply Exists_exists in Hex as (b & [j Hj]%list_elem_of_lookup_1 & ->). exists j.
    split; [by eapply lookup_lt_Some|]. unfold bucket_get. by rewrite Hj.
Qed.

Lemma length_lru_le p d l : pool_ok p d l -> (length l <= length (bp_frames p))%nat.
Proof.
  intros Hp. rewrite <- (length_seq (length (bp_frames p)) 0).
  apply submseteq_length, NoDup_submseteq; [apply (ok_lru _ _ _ Hp)|].
  intros i Hi. apply elem_of_seq. pose proof (dll_bound _ _ _ _ _ (ok_lru _ _ _ Hp) Hi). lia.
Qed.

(** Frames that differ in their links only. *)
Lemma frame_ok_unlinked d f g : unlinked f = unlinked g -> frame_ok d f -> frame_ok d g.
Proof. destruct f, g. unfold unlinked. cbn. intros [= -> -> -> -> -> ->] []. constructor; done. Qed.

(** [same p p' j]: frame [j] has the same contents and status in both pools. *)
Definition same (p p' : buffer_pool) (j : nat) : Prop :=
  unlinked <$> (bp_frames p' !! j) = unlinked <$> (bp_frames p !! j).

Lemma same_lookup p p' j f' : same p p' j -> bp_frames p' !! j = Some f' ->
  exists f, bp_frames p !! j = Some f /\ unlinked f = unlinked f'.
Proof.
  unfold same. intros Hs Hf. rewrite Hf in Hs. cbn in Hs. symmetry in Hs.
  apply fmap_Some in Hs as (f & Hf0 & Hu). by exists f.
Qed.

Lemma same_sym p p' j : same p p' j -> same p' p j.
Proof. unfold same. congruence. Qed.

Lemma same_trans p p' p'' j : same p p' j -> same p' p'' j -> same p p'' j.
Proof. unfold same. congruence. Qed.

Lemma same_holds p p' j k : same p p' j -> holds p k j -> holds p' k j.
Proof.
  intros Hs (f & Hf & Hv & Hk). destruct (same_lookup p' p j f (same_sym _ _ _ Hs) Hf) as (f' & Hf' & Hu).
  exists f'. split; [done|]. destruct f, f'. unfold unlinked in Hu. cbn in *. by simplify_eq.
Qed.

Lemma same_buf p p' j : same p p' j -> frame_buf p' j = frame_buf p j.
Proof.
  unfold same, frame_buf. intros Hs. destruct (bp_frames p' !! j), (bp_frames p !! j); cbn in *; [|done..].
  apply (inj Some) in Hs. by apply (f_equal f_buf) in Hs.
Qed.

Lemma upd_frame_same i g p j : j <> i -> same p (upd_frame i g p) j.
Proof. intros H. unfold same. rewrite upd_frame_lookup, decide_False by done. by destruct (bp_frames p !! j). Qed.

Lemma lru_remove_same p i j : is_Some (bp_frames p !! i) -> same p (lru_remove p i) j.
Proof.
  intros [f Hi]. unfold same. rewrite (lru_remove_frames p i f j Hi).
  destruct (bp_frames p !! j) as [g|]; [|done]. cbn. f_equal. unfold bypass. by repeat case_decide.
Qed.

Lemma lru_push_front_same p i j : bp_lru_head p <> Some i -> same p (lru_push_front p i) j.
Proof.
  intros Hi. unfold same. rewrite lru_push_front_frames by done.
  destruct (bp_frames p !! j) as [g|]; [|done]. cbn. f_equal. by repeat case_decide.
Qed.

(** ** Each step keeps the invariant *)

(** Changing pin count, dirty bit or contents of a frame. *)
Lemma pool_ok_upd p d l i g : pool_ok p d l ->
  (forall f, bp_frames p !! i = Some f ->
     key_of (g f) = key_of f /\ f_is_valid (g f) = f_is_valid f /\
     f_lru_prev (g f) = f_lru_prev f /\ f_lru_next (g f) = f_lru_next f /\ frame_ok d (g f)) ->
  pool_ok (upd_frame i g p) d l.
Proof.
  intros Hp Hg.
  assert (Hup : forall j f, bp_frames p !! j = Some f ->
    bp_frames (upd_frame i g p) !! j = Some ((if decide (j = i) then g else id) f)).
  { intros j f Hf. by rewrite upd_frame_lookup, Hf. }
  assert (Hh : forall k j, holds (upd_frame i g p) k j <-> holds p k j).
  { intros k j. unfold holds. setoid_rewrite upd_frame_lookup. split.
    - intros (f & Hf & Hv & Hk). destruct (bp_frames p !! j) as [f0|] eqn:E; [|done].
      exists f0. split; [done|]. cbn in Hf. injection Hf as <-. case_decide as Hj; [|done].
      subst j. destruct (Hg f0 E) as (<- & <- & _). done.
    - intros (f & Hf & Hv & Hk). rewrite Hf. eexists. split; [done|]. case_decide as Hj; [|done].
      subst j. destruct (Hg f Hf) as (-> & -> & _). done. }
  destruct Hp as [H1 H2 H3 H4 [D1 D2 D3 D4] H6 H7]. constructor; try done.
  - by rewrite upd_frame_length.
  - by rewrite upd_frame_length.
  - intros k j. rewrite Hh. apply H4.
  - constructor; [done|done|done|]. intros n j Hj. destruct (D4 n j Hj) as (f & Hf & Hfp & Hfn).
    rewrite (Hup j f Hf). eexists. split; [done|]. case_decide as E; [|done]. subst j.
    destruct (Hg f Hf) as (_ & _ & -> & -> & _). done.
  - intros j. rewrite H6. by setoid_rewrite Hh.
  - intros j f. rewrite upd_frame_lookup. destruct (bp_frames p !! j) as [f0|] eqn:E; [|done].
    intros [= <-]. case_decide as Hj; [subst j; by apply Hg|]. by apply (H7 j).
Qed.

Lemma delete_notin (l : list nat) n i : NoDup l -> l !! n = Some i -> i ∉ delete n l.
Proof.
  intros Hnd Hn. rewrite delete_take_drop. apply NoDup_app_middle. by rewrite take_drop_middle.
Qed.

Lemma elem_of_delete (l : list nat) n i j : l !! n = Some i -> j ∈ l <-> j = i \/ j ∈ delete n l.
Proof.
  intros Hn. rewrite <- (take_drop_middle l n i Hn) at 1.
  rewrite delete_take_drop, !elem_of_app, elem_of_cons. tauto.
Qed.

(** Moving a cached page to the front. *)
Lemma lru_touch_ok p d l n i : pool_ok p d l -> l !! n = Some i ->
  pool_ok (lru_touch p i) d (i :: delete n l) /\ (forall j, same p (lru_touch p i) j).
Proof.
  intros Hp Hn. pose proof (dll_remove p l i n (ok_lru _ _ _ Hp) Hn) as Hd. cbv zeta in Hd.
  destruct (dll_link _ _ _ _ (ok_lru _ _ _ Hp) n i Hn) as (f & Hf & _).
  assert (Hni : i ∉ delete n l).
  { apply delete_notin; [apply (ok_lru _ _ _ Hp)|done]. }
  destruct (lru_remove_ends p i f Hf) as (_ & _ & Em & El).
  assert (Hfr : is_Some (bp_frames (lru_remove p i) !! i)).
  { apply lookup_lt_is_Some_2. rewrite El. by eapply lookup_lt_Some. }
  assert (Hhd : bp_lru_head (lru_remove p i) <> Some i).
  { rewrite (dll_head _ _ _ _ Hd). intros H. apply Hni. by eapply list_elem_of_lookup_2. }
  assert (Hsame : forall j, same p (lru_touch p i) j).
  { intros j. eapply same_trans; [apply lru_remove_same; by exists f|]. by apply lru_push_front_same. }
  split; [|done]. pose proof (dll_push_front _ _ i Hd Hni Hfr) as Hd2. cbv zeta in Hd2.
  destruct (lru_push_front_ends (lru_remove p i) i) as (_ & _ & Em2 & El2).
  assert (Hh : forall k j, holds (lru_touch p i) k j <-> holds p k j).
  { intros k j. split; apply same_holds; [by apply same_sym|done]. }
  unfold lru_touch in *. destruct Hp as [H1 H2 H3 H4 H5 H6 H7]. constructor.
  - lia.
  - by rewrite Em2, Em, El2, El.
  - by rewrite Em2, Em.
  - intros k j. by rewrite Em2, Em, Hh.
  - done.
  - intros j. setoid_rewrite Hh. rewrite <- H6. by rewrite (elem_of_delete l n i), elem_of_cons.
  - intros j g Hg. destruct (same_lookup _ _ _ _ (Hsame j) Hg) as (g0 & Hg0 & Hu).
    eapply frame_ok_unlinked; [done|]. by apply (H7 j).
Qed.

(** The list only depends on the links. *)
Lemma dll_ext fs fs' h t l : dll fs h t l ->
  (forall j f, fs !! j = Some f ->
     exists f', fs' !! j = Some f' /\ f_lru_prev f' = f_lru_prev f /\ f_lru_next f' = f_lru_next f) ->
  dll fs' h t l.
Proof.
  intros [H1 H2 H3 H4] He. constructor; [done|done|done|]. intros n i Hn.
  destruct (H4 n i Hn) as (f & Hf & <- & <-). by apply He.
Qed.

Lemma upd_frame_links i g p :
  (forall f, f_lru_prev (g f) = f_lru_prev f /\ f_lru_next (g f) = f_lru_next f) ->
  forall j f, bp_frames p !! j = Some f ->
    exists f', bp_frames (upd_frame i g p) !! j = Some f' /\
      f_lru_prev f' = f_lru_prev f /\ f_lru_next f' = f_lru_next f.
Proof.
  intros Hg j f Hf. rewrite upd_frame_lookup, Hf. eexists. split; [done|]. case_decide; [apply Hg|done].
Qed.

Lemma upd_frame_id i g p f : bp_frames p !! i = Some f -> g f = f -> upd_frame i g p = p.
Proof.
  intros Hf Hg. unfold upd_frame, with_frames. destruct p as [fs ?????]. cbn [bp_frames] in *. f_equal.
  apply list_eq. intros j. destruct (decide (j = i)) as [->|].
  - rewrite list_lookup_alter_eq, Hf. cbn. by rewrite Hg.
  - by rewrite list_lookup_alter_ne.
Qed.

Lemma listed p d l i f : pool_ok p d l -> i ∈ l -> bp_frames p !! i = Some f -> holds p (key_of f) i.
Proof.
  intros Hp Hi Hf. apply (ok_list _ _ _ Hp) in Hi as (k & f' & Hf' & Hv & Hk).
  exists f. split; [done|]. replace f' with f in * by congruence. done.
Qed.

Lemma frame_ok_disk d d1 f : frame_ok d f ->
  (forall k, open_page d k -> open_page d1 k) ->
  (f_is_valid f = true -> open_page d (key_of f) -> disk_page d1 (key_of f) = disk_page d (key_of f)) ->
  frame_ok d1 f.
Proof.
  intros [H1 H2 H5 H3 H4] Ho Hd. constructor; [done|done|done|auto|]. intros Hv Hc.
  rewrite Hd by auto. by apply H4.
Qed.

(** Evicting frame [i], whose contents were or were not written back. *)
Lemma evict_ok p d d1 l n i f b : pool_ok p d l -> l !! n = Some i -> bp_frames p !! i = Some f -> f_pin_count f = 0 ->
  (forall k, open_page d k -> open_page d1 k) ->
  (forall k, open_page d k -> k <> key_of f -> disk_page d1 k = disk_page d k) ->
  let p1 := upd_frame i (set_dirty b) p in
  let p2 := with_map p1 (map_remove (bp_map p1) (key_of f)) in
  let p' := upd_frame i (set_valid false) (lru_remove p2 i) in
  pool_ok p' d1 (delete n l) /\ (forall j, j <> i -> same p p' j) /\
  (exists f', bp_frames p' !! i = Some f' /\ f_is_valid f' = false).
Proof.
  intros Hp Hn Hf Hunp Hopen Hdisk p1 p2 p'. pose proof (list_elem_of_lookup_2 _ _ _ Hn) as Hil.
  assert (Hhi : holds p (key_of f) i) by by eapply listed.
  assert (Hf2 : bp_frames p2 !! i = Some (set_dirty b f)).
  { change (bp_frames p2) with (bp_frames p1). unfold p1. by rewrite upd_frame_lookup, Hf, decide_True. }
  assert (Hd2 : dll (bp_frames p2) (bp_lru_head p2) (bp_lru_tail p2) l).
  { eapply dll_ext; [apply (ok_lru _ _ _ Hp)|]. by apply upd_frame_links. }
  pose proof (dll_remove p2 l i n Hd2 Hn) as Hd3. cbv zeta in Hd3.
  destruct (lru_remove_ends p2 i _ Hf2) as (_ & _ & Em0 & El).
  assert (Em : bp_map p' = map_remove (bp_map p) (key_of f)) by exact Em0.
  destruct (map_remove_inv (bp_map p) (key_of f) (ok_map _ _ _ Hp) (pool_room _ _ _ Hp)) as (Hm1 & Hm2 & Hm3).
  assert (Hlen : length (bp_frames p') = length (bp_frames p)).
  { unfold p'. rewrite upd_frame_length, El. apply upd_frame_length. }
  assert (Hsame : forall j, j <> i -> same p p' j).
  { intros j Hj. eapply same_trans; [by apply (upd_frame_same i (set_dirty b))|].
    eapply same_trans; [|by apply upd_frame_same]. apply (lru_remove_same p2). by eexists. }
  assert (Hinv : exists f', bp_frames p' !! i = Some f' /\ f_is_valid f' = false /\
                   f_buf f' = f_buf f /\ f_pin_count f' = f_pin_count f).
  { unfold p'. rewrite upd_frame_lookup, (lru_remove_frames _ _ _ _ Hf2), Hf2, decide_True by done.
    eexists. split; [done|]. unfold bypass. by repeat case_decide. }
  destruct Hinv as (fi & Hfi & Hiv & Hib & Hip).
  assert (Hh : forall k j, holds p' k j <-> j <> i /\ holds p k j).
  { intros k j. destruct (decide (j = i)) as [->|Hj].
    - split; [|tauto]. intros (g & Hg & Hv & _). congruence.
    - split; [intros H; split; [done|]|intros [_ H]]; (eapply same_holds; [|done]); auto using same_sym. }
  split; [|split; [done|by exists fi]]. constructor.
  - rewrite Hlen. apply (ok_some _ _ _ Hp).
  - rewrite Hlen, Em. by rewrite Hm2, (ok_slots _ _ _ Hp).
  - by rewrite Em.
  - intros k j. rewrite Em, Hm3, Hh, (ok_has _ _ _ Hp).
    split; intros [H1 H2]; (split; [|done]); intros ->; [|by apply H1, (holds_inj p d l (key_of f))].
    by apply H1, (holds_fun p k (key_of f) i).
  - eapply dll_ext; [exact Hd3|]. by apply upd_frame_links.
  - intros j. setoid_rewrite Hh. split.
    + intros Hj. assert (j <> i) by (intros ->; by apply (delete_notin l n i) in Hj; [|apply (ok_lru _ _ _ Hp)|]).
      assert (Hjl : j ∈ l) by (apply (elem_of_delete l n i); auto).
      apply (ok_list _ _ _ Hp) in Hjl as [k Hk]. by exists k.
    + intros (k & Hj & Hk). assert (Hjl : j ∈ l) by (apply (ok_list _ _ _ Hp); by exists k).
      apply (elem_of_delete l n i) in Hjl as [|]; done.
  - intros j g Hg. destruct (decide (j = i)) as [->|Hj].
    + replace g with fi by congruence. destruct (ok_frames _ _ _ Hp i f Hf).
      constructor; [by rewrite Hib|by rewrite Hip|congruence..].
    + destruct (same_lookup _ _ _ _ (Hsame j Hj) Hg) as (g0 & Hg0 & Hu).
      eapply frame_ok_unlinked; [done|]. apply (frame_ok_disk d); [by apply (ok_frames _ _ _ Hp j)|done|].
      intros Hv Ho. apply Hdisk; [done|]. intros Hk. apply Hj. apply (holds_inj p d l (key_of f)); [done| |done].
      by exists g0.
Qed.

(** Installing a page read from disk in an unused frame. *)
Lemma install_ok p d l i f k buf pin : pool_ok p d l ->
  bp_frames p !! i = Some f -> f_is_valid f = false -> open_page d k ->
  disk_page d k = Some buf -> length buf = PLEN -> uint_ok 32 pin -> (forall j, ~ holds p k j) ->
  let p1 := upd_frame i (fun f => Frame buf (fst k) (snd k) pin false true (f_lru_prev f) (f_lru_next f)) p in
  let p2 := with_map p1 (map_insert (bp_map p1) k i) in
  let p' := lru_push_front p2 i in
  pool_ok p' d (i :: l) /\ (forall j, j <> i -> same p p' j) /\
  (exists f', bp_frames p' !! i = Some f' /\ key_of f' = k /\ f_is_valid f' = true /\
     f_buf f' = buf /\ f_pin_count f' = pin /\ f_is_dirty f' = false).
Proof.
  intros Hp Hf Hinv Hopen Hdisk Hlb Hpin Hnew p1 p2 p'.
  assert (Hno : forall k', ~ holds p k' i) by (intros k' (g & Hg & Hv & _); congruence).
  assert (Hil : i ∉ l) by (intros [k' Hk']%(ok_list _ _ _ Hp); by eapply Hno).
  assert (Hf2 : is_Some (bp_frames p2 !! i)).
  { change (bp_frames p2) with (bp_frames p1). unfold p1. rewrite upd_frame_lookup, Hf. by eexists. }
  assert (Hd2 : dll (bp_frames p2) (bp_lru_head p2) (bp_lru_tail p2) l).
  { eapply dll_ext; [apply (ok_lru _ _ _ Hp)|]. by apply upd_frame_links. }
  pose proof (dll_push_front p2 l i Hd2 Hil Hf2) as Hd3. cbv zeta in Hd3. fold p' in Hd3.
  destruct (lru_push_front_ends p2 i) as (_ & _ & Em0 & El). fold p' in El.
  assert (Em : bp_map p' = map_insert (bp_map p) k i) by exact Em0.
  assert (Hhd : bp_lru_head p2 <> Some i).
  { rewrite (dll_head _ _ _ _ Hd2). intros H. apply Hil. by eapply list_elem_of_lookup_2. }
  destruct (map_insert_inv (bp_map p) k i (ok_map _ _ _ Hp) (pool_room _ _ _ Hp)) as (Hm1 & Hm2 & Hm3).
  { intros v Hv. apply (ok_has _ _ _ Hp) in Hv. by eapply Hnew. }
  assert (Hlen : length (bp_frames p') = length (bp_frames p)) by (rewrite El; apply upd_frame_length).
  assert (Hsame : forall j, j <> i -> same p p' j).
  { intros j Hj. eapply same_trans; [by apply upd_frame_same|]. by apply (lru_push_front_same p2). }
  assert (Hnew' : exists f', bp_frames p' !! i = Some f' /\ key_of f' = k /\ f_is_valid f' = true /\
     f_buf f' = buf /\ f_pin_count f' = pin /\ f_is_dirty f' = false).
  { unfold p'. rewrite lru_push_front_frames by done. change (bp_frames p2) with (bp_frames p1). unfold p1.
    rewrite upd_frame_lookup, Hf, decide_True by done. cbn. rewrite decide_True by done.
    eexists. split; [done|]. by destruct k. }
  split; [|by split]. destruct Hnew' as (fi & Hfi & Hfk & Hfv & Hfb & Hfp & Hfd).
  assert (Hh : forall k' j, holds p' k' j <-> (k' = k /\ j = i) \/ holds p k' j).
  { intros k' j. destruct (decide (j = i)) as [->|Hj].
    - split; [intros (g & Hg & _ & <-); left; split; [congruence|done]|].
      intros [[-> _]|H]; [by exists fi|by destruct (Hno k')].
    - split; [intros H; right|intros [[_ ?]|H]; [done|]]; (eapply same_holds; [|done]); auto using same_sym. }
  constructor.
  - rewrite Hlen. apply (ok_some _ _ _ Hp).
  - rewrite Hlen, Em. by rewrite Hm2, (ok_slots _ _ _ Hp).
  - by rewrite Em.
  - intros k' j. rewrite Em, Hm3, Hh. by rewrite (ok_has _ _ _ Hp).
  - done.
  - intros j. setoid_rewrite Hh. rewrite elem_of_cons, (ok_list _ _ _ Hp). split.
    + intros [->|[k' Hk']]; [exists k; by left|exists k'; by right].
    + intros (k' & [[_ ->]|Hk']); [by left|right; by exists k'].
  - intros j g Hg. destruct (decide (j = i)) as [->|Hj].
    + replace g with fi by congruence. constructor; congruence.
    + destruct (same_lookup _ _ _ _ (Hsame j Hj) Hg) as (g0 & Hg0 & Hu).
      eapply frame_ok_unlinked; [done|]. by apply (ok_frames _ _ _ Hp j).
Qed.

(** ** Victims: lemmas *)

Lemma find_invalid_spec fs i0 :
  match find_invalid fs i0 with
  | Some i => exists f, fs !! (i - i0)%nat = Some f /\ f_is_valid f = false /\ (i0 <= i)%nat
  | None => forall j f, fs !! j = Some f -> f_is_valid f = true
  end.
Proof.
  revert i0. induction fs as [|f fs IH]; intros i0; cbn [find_invalid]; [done|].
  destruct (f_is_valid f) eqn:Hv.
  - specialize (IH (S i0)). destruct (find_invalid fs (S i0)) as [i|].
    + destruct IH as (g & Hg & Hgv & Hle). exists g. split; [|split; [done|lia]].
      by replace (i - i0)%nat with (S (i - S i0)) by lia.
    + intros [|j] g Hg; [cbn in Hg; congruence|]. by eapply IH.
  - exists f. split; [by rewrite Nat.sub_diag|]. auto.
Qed.

(** The walk from position [n]: the last unpinned page before it. *)
Lemma walk_lru_spec fs h t l fuel n : dll fs h t l -> (n <= length l)%nat -> (n <= fuel)%nat ->
  match walk_lru fuel fs (prev_at l n) with
  | Some i => exists m f, (m < n)%nat /\ l !! m = Some i /\ fs !! i = Some f /\ f_pin_count f = 0 /\
      forall x j g, (m < x < n)%nat -> l !! x = Some j -> fs !! j = Some g -> f_pin_count g <> 0
  | None => forall x j g, (x < n)%nat -> l !! x = Some j -> fs !! j = Some g -> f_pin_count g <> 0
  end.
Proof.
  intros Hd. revert n. induction fuel as [|fuel IH]; intros n Hn Hf.
  { assert (n = 0%nat) as -> by lia. cbn. lia. }
  destruct n as [|n]; [cbn; lia|]. cbn [prev_at].
  destruct (lookup_lt_is_Some_2 l n ltac:(lia)) as [i Hi]. rewrite Hi. cbn [walk_lru].
  destruct (dll_link _ _ _ _ Hd n i Hi) as (f & Hfi & Hp & _). rewrite Hfi.
  destruct (Z.eqb_spec (f_pin_count f) 0) as [H0|H0].
  - exists n, f. repeat (split; [done || lia|]). lia.
  - rewrite Hp. specialize (IH n ltac:(lia) ltac:(lia)).
    assert (Hlast : forall x j g, (x < S n)%nat -> ~ (x < n)%nat -> l !! x = Some j -> fs !! j = Some g ->
              f_pin_count g <> 0).
    { intros x j g Hx Hx' Hj Hg. replace x with n in Hj by lia. congruence. }
    destruct (walk_lru fuel fs (prev_at l n)) as [i'|].
    + destruct IH as (m & f' & Hm & Hm1 & Hm2 & Hm3 & Hm4). exists m, f'.
      split; [lia|]. split; [done|]. split; [done|]. split; [done|]. intros x j g Hx Hj Hg.
      destruct (decide (x < n)%nat); [apply (Hm4 x j g)|apply (Hlast x j g)]; done || lia.
    + intros x j g Hx Hj Hg. destruct (decide (x < n)%nat); [apply (IH x j g)|apply (Hlast x j g)]; done || lia.
Qed.

Lemma filter_notin (l : list nat) i : i ∉ l -> filter (fun j => j <> i) l = l.
Proof.
  induction l as [|x l IH]; intros Hi; [done|]. apply not_elem_of_cons in Hi as [Hx Hl].
  rewrite filter_cons_True by congruence. by rewrite IH.
Qed.

Lemma filter_delete (l : list nat) n i : NoDup l -> l !! n = Some i ->
  filter (fun j => j <> i) l = delete n l.
Proof.
  intros Hnd Hn. pose proof (delete_notin l n i Hnd Hn) as Hni. rewrite delete_take_drop in *.
  rewrite <- (take_drop_middle l n i Hn) at 1. rewrite filter_app, filter_cons_False by tauto.
  rewrite not_elem_of_app in Hni. destruct Hni as [H1 H2].
  by rewrite !filter_notin.
Qed.

Lemma view_holds p d l k i : pool_ok p d l -> holds p k i -> view p d k = Some (frame_buf p i).
Proof. intros Hp Hh. unfold view. by apply (pool_lookup_holds _ _ _ _ _ Hp) in Hh as ->. Qed.

Lemma view_disk p d l k : pool_ok p d l -> (forall i, ~ holds p k i) -> view p d k = disk_page d k.
Proof.
  intros Hp Hno. unfold view. destruct (pool_lookup p k) as [i|] eqn:E; [|done].
  apply (pool_lookup_holds _ _ _ _ _ Hp) in E. by destruct (Hno i).
Qed.

(** What a victim search leaves behind. *)
Record victim_ok (p : buffer_pool) (d : disk) (l : list nat) (p1 : buffer_pool) (d1 : disk) (i : nat) : Prop := VictimOk {
  vo_ok : pool_ok p1 d1 (filter (fun j => j <> i) l);
  vo_same : forall j, j <> i -> same p p1 j;
  vo_free : exists f, bp_frames p1 !! i = Some f /\ f_is_valid f = false;
  vo_policy : forall n, l !! n = Some i ->
    (forall j f, bp_frames p !! j = Some f -> f_is_valid f = true) /\
    (forall f, bp_frames p !! i = Some f -> f_pin_count f = 0) /\
    (forall m j f, (n < m)%nat -> l !! m = Some j -> bp_frames p !! j = Some f -> f_pin_count f <> 0);
  vo_open : forall k, open_page d k -> open_page d1 k;
  vo_steady : steady d -> steady d1;
  vo_view : forall k, open_page d k -> steady d \/ ~ holds p k i -> view p1 d1 k = view p d k }.

Lemma last_prev_at (l : list nat) : last l = prev_at l (length l).
Proof. rewrite last_lookup. by destruct l. Qed.

(** The write-back of a frame touches no other page; on a steady disk it
    leaves the frame's contents there. *)
Lemma write_back d f : frame_ok d f -> f_is_valid f = true ->
  let d1 := if f_is_dirty f then fst (page_write (f_fd f) (f_page_id f) (f_buf f) d) else d in
  (forall k, open_page d k -> open_page d1 k) /\
  (forall k, open_page d k -> k <> key_of f -> disk_page d1 k = disk_page d k) /\
  (steady d -> disk_page d1 (key_of f) = Some (f_buf f)) /\
  (steady d -> steady d1).
Proof.
  intros [H1 H2 _ H3 H4] Hv d1. unfold d1. destruct (f_is_dirty f) eqn:Hd.
  2:{ split; [done|]. split; [done|]. split; [|done]. intros _. by apply H4. }
  destruct (page_write (f_fd f) (f_page_id f) (f_buf f) d) as [d' ok] eqn:Hw. cbn [fst].
  destruct (page_write_spec d (key_of f) (f_buf f) d' ok Hw (H3 Hv) H1) as (W1 & W2 & W3).
  split; [done|]. split; [|split].
  - intros k Hk Hne. rewrite (W2 k Hk), bool_decide_false, andb_false_r by done. done.
  - intros Hs. destruct (W3 Hs) as [_ ->]. by rewrite (W2 _ (H3 Hv)), bool_decide_true.
  - intros Hs. by destruct (W3 Hs).
Qed.

Lemma evict_view p d l p1 d1 l1 i f k : pool_ok p d l -> pool_ok p1 d1 l1 ->
  bp_frames p !! i = Some f -> f_is_valid f = true ->
  (forall j, j <> i -> same p p1 j) ->
  (exists f', bp_frames p1 !! i = Some f' /\ f_is_valid f' = false) ->
  (forall k, open_page d k -> k <> key_of f -> disk_page d1 k = disk_page d k) ->
  (steady d -> disk_page d1 (key_of f) = Some (f_buf f)) ->
  open_page d k -> steady d \/ ~ holds p k i -> view p1 d1 k = view p d k.
Proof.
  intros Hp Hp1 Hf Hv Hsame (f' & Hf' & Hv') Hother Hwb Hk Hs.
  assert (Hh : holds p (key_of f) i) by (by exists f).
  assert (Hni : forall k, ~ holds p1 k i) by (intros k' (g & Hg & Hgv & _); congruence).
  destruct (pool_lookup p k) as [j|] eqn:E.
  - apply (pool_lookup_holds _ _ _ _ _ Hp) in E. rewrite (view_holds p d l k j Hp E).
    destruct (decide (j = i)) as [->|Hj].
    + assert (k = key_of f) as -> by by eapply holds_fun. destruct Hs as [Hs|Hs]; [|by destruct Hs].
      rewrite (view_disk p1 d1 l1 _ Hp1); [|].
      * rewrite Hwb by done. unfold frame_buf. by rewrite Hf.
      * intros j Hj. destruct (decide (j = i)) as [->|Hne]; [by eapply Hni|].
        apply Hne. apply (holds_inj p d l (key_of f)); [done| |done].
        eapply same_holds; [|done]. auto using same_sym.
    + rewrite (view_holds p1 d1 l1 k j Hp1); [by rewrite (same_buf _ _ _ (Hsame j Hj))|].
      by eapply same_holds; [apply Hsame|].
  - pose proof (pool_lookup_none _ _ _ _ Hp E) as Hno. rewrite (view_disk p d l k Hp Hno).
    rewrite (view_disk p1 d1 l1 k Hp1).
    + apply Hother; [done|]. intros ->. by apply (Hno i).
    + intros j Hj. destruct (decide (j = i)) as [->|Hne]; [by eapply Hni|].
      apply (Hno j). eapply same_holds; [|done]. auto using same_sym.
Qed.

Lemma find_victim_spec p d l : pool_ok p d l ->
  let '(p1, d1, v) := find_victim p d in
  match v with
  | Some i => victim_ok p d l p1 d1 i
  | None => p1 = p /\ d1 = d /\ forall j f, bp_frames p !! j = Some f -> f_is_valid f = true /\ f_pin_count f <> 0
  end.
Proof.
  intros Hp. unfold find_victim. pose proof (find_invalid_spec (bp_frames p) 0) as Hinv.
  destruct (find_invalid (bp_frames p) 0) as [i|].
  - destruct Hinv as (f & Hf & Hv & _). rewrite Nat.sub_0_r in Hf.
    assert (Hil : i ∉ l) by (intros (k & g & Hg & Hgv & _)%(ok_list _ _ _ Hp); congruence).
    constructor; try done; [|by exists f|].
    + by rewrite filter_notin.
    + intros n Hn. destruct Hil. by eapply list_elem_of_lookup_2.
  - pose proof (walk_lru_spec (bp_frames p) _ _ l (length (bp_frames p)) (length l) (ok_lru _ _ _ Hp)
      ltac:(lia) (length_lru_le _ _ _ Hp)) as Hw.
    rewrite (dll_tail _ _ _ _ (ok_lru _ _ _ Hp)), last_prev_at.
    destruct (walk_lru _ _ _) as [i|].
    2:{ split; [done|]. split; [done|]. intros j f Hf. split; [by eapply Hinv|].
        assert (Hj : j ∈ l) by (apply (ok_list _ _ _ Hp); exists (key_of f), f; eauto).
        apply list_elem_of_lookup_1 in Hj as [x Hx]. eapply Hw; [|done|done]. by eapply lookup_lt_Some. }
    destruct Hw as (n & f & Hn & Hln & Hf & Hpin & Hlater). rewrite Hf.
    assert (Hv : f_is_valid f = true) by by eapply Hinv.
    pose proof (ok_frames _ _ _ Hp i f Hf) as Hfo.
    set (d1 := if f_is_dirty f then fst (page_write (f_fd f) (f_page_id f) (f_buf f) d) else d).
    destruct (write_back d f Hfo Hv) as (Hopen & Hother & Hwb & Hst). fold d1 in Hopen, Hother, Hwb, Hst.
    destruct (evict_ok p d d1 l n i f false Hp Hln Hf Hpin Hopen Hother) as (Hok & Hsame & Hfree).
    set (p' := upd_frame i (set_valid false) _) in *.
    replace (if f_is_dirty f then _ else _) with (d1, upd_frame i (set_dirty false) p).
    2:{ unfold d1. destruct (f_is_dirty f) eqn:Hdirty; [done|].
        rewrite (upd_frame_id i (set_dirty false) p f Hf); [done|]. destruct f. cbn in *. by subst. }
    rewrite <- (filter_delete l n i (dll_nodup _ _ _ _ (ok_lru _ _ _ Hp)) Hln) in Hok.
    constructor; try done.
    + intros n' Hn'. split; [exact Hinv|]. split; [intros g Hg; by replace g with f by congruence|].
      rewrite (NoDup_lookup l n' n i (dll_nodup _ _ _ _ (ok_lru _ _ _ Hp)) Hn' Hln).
      intros m j g Hm Hj Hg. eapply (Hlater m); [|done|done]. split; [done|]. by eapply lookup_lt_Some.
    + intros k Hk Hs. by eapply evict_view.
Qed.

(** ** Fetching *)

(** The pin count of frame [j]. *)
Definition pins (p : buffer_pool) (j : nat) : Z := from_option f_pin_count 0 (bp_frames p !! j).

(** What a fetch of page [k] that handed out frame [i] guarantees. *)
Record fetched (p : buffer_pool) (d : disk) (l : list nat) (k : pkey)
    (p' : buffer_pool) (d' : disk) (i : nat) : Prop := Fetched {
  fe_ok : pool_ok p' d' (i :: filter (fun j => j <> i) l);
  fe_holds : holds p' k i;
  fe_buf : view p d k = Some (frame_buf p' i);
  fe_pins : pins p' i = u32 ((if bool_decide (is_Some (pool_lookup p k)) then pins p i else 0) + 1);
  fe_same : forall j, j <> i -> same p p' j;
  fe_policy : pool_lookup p k = None -> forall n, l !! n = Some i ->
    (forall j f, bp_frames p !! j = Some f -> f_is_valid f = true) /\ pins p i = 0 /\
    (forall m j, (n < m)%nat -> l !! m = Some j -> pins p j <> 0);
  fe_view : forall k', open_page d k' -> steady d \/ ~ holds p k' i \/ k' = k -> view p' d' k' = view p d k' }.

Lemma pool_ok_hit p d l : pool_ok p d l -> pool_ok (add_hit p) d l.
Proof. intros [H1 H2 H3 H4 H5 H6 H7]. exact (PoolOk (add_hit p) d l H1 H2 H3 H4 H5 H6 H7). Qed.

Lemma pool_ok_miss p d l : pool_ok p d l -> pool_ok (add_miss p) d l.
Proof. intros [H1 H2 H3 H4 H5 H6 H7]. exact (PoolOk (add_miss p) d l H1 H2 H3 H4 H5 H6 H7). Qed.

Lemma fetch_hit p d l k i : pool_ok p d l -> open_page d k -> pool_lookup p k = Some i ->
  fetched p d l k (add_hit (lru_touch (upd_frame i (fun f => set_pin (u32 (f_pin_count f + 1)) f) p) i)) d i.
Proof.
  intros Hp Hk Hl. pose proof (proj1 (pool_lookup_holds _ _ _ _ _ Hp) Hl) as (f & Hf & Hv & Hkf).
  assert (Hil : i ∈ l) by (apply (ok_list _ _ _ Hp); exists k, f; eauto).
  apply list_elem_of_lookup_1 in Hil as [n Hn].
  set (p1 := upd_frame i (fun f => set_pin (u32 (f_pin_count f + 1)) f) p).
  assert (Hp1 : pool_ok p1 d l).
  { apply pool_ok_upd; [done|]. intros g Hg. repeat (split; [done|]).
    destruct (ok_frames _ _ _ Hp i g Hg). constructor; try done; cbn; [by apply wrap_range|congruence]. }
  destruct (lru_touch_ok p1 d l n i Hp1 Hn) as [Hp2 Hs2].
  rewrite <- (filter_delete l n i (dll_nodup _ _ _ _ (ok_lru _ _ _ Hp)) Hn) in Hp2.
  set (p' := add_hit (lru_touch p1 i)).
  assert (Hp' : pool_ok p' d (i :: filter (fun j => j <> i) l)) by (by apply pool_ok_hit).
  assert (Hf1 : bp_frames p1 !! i = Some (set_pin (u32 (f_pin_count f + 1)) f)).
  { unfold p1. by rewrite upd_frame_lookup, Hf, decide_True. }
  assert (Hf' : exists f', bp_frames p' !! i = Some f' /\ unlinked f' = unlinked (set_pin (u32 (f_pin_count f + 1)) f)).
  { pose proof (Hs2 i) as Hsi. unfold same in Hsi. rewrite Hf1 in Hsi. change (bp_frames p') with (bp_frames (lru_touch p1 i)).
    destruct (bp_frames (lru_touch p1 i) !! i) as [f'|]; [|done]. exists f'. split; [done|]. by apply (inj Some) in Hsi. }
  destruct Hf' as (f' & Hf' & Hu).
  assert (Hbuf : frame_buf p' i = frame_buf p i).
  { unfold frame_buf. rewrite Hf', Hf. cbn. by apply (f_equal f_buf) in Hu. }
  assert (Hh' : holds p' k i).
  { exists f'. split; [done|]. apply (f_equal key_of) in Hu as Hu1. apply (f_equal f_is_valid) in Hu as Hu2.
    unfold key_of in *. cbn in Hu1, Hu2. rewrite Hu2. split; [done|]. rewrite <- Hkf. exact Hu1. }
  assert (Hsame : forall j, j <> i -> same p p' j).
  { intros j Hj. eapply same_trans; [by apply upd_frame_same|]. apply Hs2. }
  constructor; try done.
  - rewrite (view_holds p d l k i Hp); [by rewrite Hbuf|]. by exists f.
  - rewrite bool_decide_true by by eexists. unfold pins. rewrite Hf', Hf. cbn. by apply (f_equal f_pin_count) in Hu.
  - congruence.
  - intros k' Hk' _. destruct (pool_lookup p k') as [j|] eqn:E.
    + apply (pool_lookup_holds _ _ _ _ _ Hp) in E. rewrite (view_holds p d l k' j Hp E).
      destruct (decide (j = i)) as [->|Hj].
      * replace k' with k; [by rewrite (view_holds p' d _ k i Hp' Hh'), Hbuf|]. eapply holds_fun; [|done]. by exists f.
      * rewrite (view_holds p' d _ k' j Hp'); [by rewrite (same_buf _ _ _ (Hsame j Hj))|].
        by eapply same_holds; [apply Hsame|].
    + pose proof (pool_lookup_none _ _ _ _ Hp E) as Hno.
      rewrite (view_disk p d l k' Hp Hno), (view_disk p' d _ k' Hp'); [done|].
      intros j Hj. destruct (decide (j = i)) as [->|Hne].
      * replace k' with k in Hno by by eapply holds_fun. apply (Hno i). by exists f.
      * apply (Hno j). eapply same_holds; [|done]. auto using same_sym.
Qed.

Lemma victim_unpinned p d l p1 d1 i : pool_ok p d l -> victim_ok (add_miss p) d l p1 d1 i -> pins p i = 0.
Proof.
  intros Hp Hv. unfold pins. destruct (bp_frames p !! i) as [f|] eqn:Hf; [|done]. cbn.
  destruct (f_is_valid f) eqn:Hvf; [|by apply (fo_free _ _ (ok_frames _ _ _ Hp i f Hf))].
  assert (Hi : i ∈ l) by (apply (ok_list _ _ _ Hp); exists (key_of f), f; eauto).
  apply list_elem_of_lookup_1 in Hi as [n Hn]. destruct (vo_policy _ _ _ _ _ _ Hv n Hn) as (_ & P & _).
  by apply P.
Qed.

(** A frame just filled from disk after its victim was dealt with. *)
Lemma fetch_fill p d l k p1 d1 d2 i buf : pool_ok p d l -> open_page d k -> pool_lookup p k = None ->
  victim_ok p d l p1 d1 i ->
  d_files d2 = d_files d1 -> disk_page d1 k = Some buf -> length buf = PLEN ->
  let p2 := upd_frame i (fun f => Frame buf (fst k) (snd k) 1 false true (f_lru_prev f) (f_lru_next f)) p1 in
  let p3 := with_map p2 (map_insert (bp_map p2) k i) in
  fetched p d l k (lru_push_front p3 i) d2 i.
Proof.
  intros Hp Hk Hnone Hvo Hfiles Hdisk Hlen p2 p3.
  pose proof (pool_lookup_none _ _ _ _ Hp Hnone) as Hno.
  destruct (vo_free _ _ _ _ _ _ Hvo) as (f1 & Hf1 & Hv1).
  assert (Hni : forall k', ~ holds p1 k' i) by (intros k' (g & Hg & Hgv & _); congruence).
  assert (Hback : forall k' j, holds p1 k' j -> j <> i /\ holds p k' j).
  { intros k' j Hj. destruct (decide (j = i)) as [->|Hne]; [by destruct (Hni k')|]. split; [done|].
    eapply same_holds; [|done]. apply same_sym. by apply (vo_same _ _ _ _ _ _ Hvo). }
  assert (Hp1 : pool_ok p1 d2 (filter (fun j => j <> i) l)).
  { destruct (vo_ok _ _ _ _ _ _ Hvo) as [A1 A2 A3 A4 A5 A6 A7]. constructor; try done.
    intros j f Hf. apply (frame_ok_disk d1); [by apply (A7 j)|intros; by eapply open_page_files|].
    intros _ _. by apply disk_page_files. }
  destruct (install_ok p1 d2 _ i f1 k buf 1 Hp1 Hf1 Hv1) as (Hok & Hsame & f' & Hf' & Hfk & Hfv & Hfb & Hfp & _).
  { eapply open_page_files; [exact Hfiles|]. by apply (vo_open _ _ _ _ _ _ Hvo). }
  { by rewrite (disk_page_files d1). }
  { done. } { done. }
  { intros j Hj. destruct (Hback k j Hj). by destruct (Hno j). }
  fold p2 p3 in Hok, Hsame, Hf'. set (p' := lru_push_front p3 i) in *.
  assert (Hh' : holds p' k i) by by exists f'.
  assert (Hbuf : frame_buf p' i = buf) by (unfold frame_buf; by rewrite Hf').
  assert (Hs : forall j, j <> i -> same p p' j).
  { intros j Hj. eapply same_trans; [by apply (vo_same _ _ _ _ _ _ Hvo)|by apply Hsame]. }
  assert (Hvk : view p1 d1 k = view p d k).
  { apply (vo_view _ _ _ _ _ _ Hvo); [done|]. right. apply Hno. }
  assert (Hv1k : view p1 d1 k = disk_page d1 k).
  { apply (view_disk p1 d1 _ k (vo_ok _ _ _ _ _ _ Hvo)). intros j Hj. destruct (Hback k j Hj). by destruct (Hno j). }
  constructor; try done.
  - rewrite Hbuf. congruence.
  - rewrite Hnone, bool_decide_false by (intros [? ?]; done). unfold pins. rewrite Hf'. cbn. by rewrite Hfp.
  - intros _ n Hn. destruct (vo_policy _ _ _ _ _ _ Hvo n Hn) as (P1 & P2 & P3). split; [exact P1|].
    assert (Hin : forall x j, l !! x = Some j -> is_Some (bp_frames p !! j)).
    { intros x j Hj. destruct (dll_link _ _ _ _ (ok_lru _ _ _ Hp) x j Hj) as (g & Hg & _). by exists g. }
    split.
    + unfold pins. destruct (Hin n i Hn) as [g Hg]. rewrite Hg. by apply P2.
    + intros m j Hm Hj. unfold pins. destruct (Hin m j Hj) as [g Hg]. rewrite Hg. by apply (P3 m j g).
  - intros k' Hk' Hcase. destruct (decide (k' = k)) as [->|Hkk].
    + rewrite (view_holds p' d2 _ k i Hok Hh'), Hbuf. congruence.
    + transitivity (view p1 d1 k').
      2:{ apply (vo_view _ _ _ _ _ _ Hvo); [done|]. destruct Hcase as [?|[?|?]]; [by left|by right|done]. }
      assert (Hp1' := vo_ok _ _ _ _ _ _ Hvo). destruct (pool_lookup p1 k') as [j|] eqn:E.
      * apply (pool_lookup_holds _ _ _ _ _ Hp1') in E. destruct (Hback k' j E) as [Hj _].
        rewrite (view_holds p1 d1 _ k' j Hp1' E), (view_holds p' d2 _ k' j Hok).
        -- by rewrite (same_buf p1 p' j (Hsame j Hj)).
        -- eapply same_holds; [by apply Hsame|done].
      * pose proof (pool_lookup_none _ _ _ _ Hp1' E) as Hno1.
        rewrite (view_disk p1 d1 _ k' Hp1' Hno1), (view_disk p' d2 _ k' Hok); [by apply disk_page_files|].
        intros j Hj. destruct (decide (j = i)) as [->|Hne]; [apply Hkk; by eapply holds_fun|].
        apply (Hno1 j). eapply same_holds; [|done]. apply same_sym. by apply Hsame.
Qed.

(** A failed fetch keeps every pinned frame; on a steady disk it only happens
    when all frames are pinned. *)
Record fetch_failed (p : buffer_pool) (d : disk) (p' : buffer_pool) (d' : disk) : Prop := FetchFailed {
  ff_ok : exists l', pool_ok p' d' l';
  ff_same : forall j, pins p j <> 0 -> same p p' j;
  ff_steady : steady d -> (forall j f, bp_frames p !! j = Some f -> f_is_valid f = true /\ f_pin_count f <> 0) /\
    forall k, view p' d' k = view p d k }.

Lemma fetch_spec p d l k : pool_ok p d l -> open_page d k ->
  let '(p', d', r) := buffer_pool_fetch p d (fst k) (snd k) in
  (forall k', open_page d k' -> open_page d' k') /\ (steady d -> steady d') /\
  match r with
  | Some i => fetched p d l k p' d' i
  | None => fetch_failed p d p' d'
  end.
Proof.
  intros Hp Hk. unfold buffer_pool_fetch.
  assert (Hkk : (fst k, snd k) = k) by by destruct k. rewrite !Hkk.
  destruct (pool_lookup p k) as [i|] eqn:Hl.
  { split; [done|]. split; [done|]. by apply fetch_hit. }
  pose proof (find_victim_spec (add_miss p) d l (pool_ok_miss _ _ _ Hp)) as Hv.
  destruct (find_victim (add_miss p) d) as [[p1 d1] [i|]].
  2:{ destruct Hv as (-> & -> & Hall). split; [done|]. split; [done|].
      constructor; [exists l; by apply pool_ok_miss|done|]. intros _. split; [exact Hall|done]. }
  destruct (page_read (fst k) (snd k) d1) as [d2 r] eqn:Hr.
  destruct (page_read_spec d1 k d2 r Hr) as (R1 & R2 & R3).
  pose proof (vo_open _ _ _ _ _ _ Hv) as Hopen. pose proof (vo_steady _ _ _ _ _ _ Hv) as Hst.
  destruct r as [buf|]; (split; [intros k' Hk'; eapply open_page_files; [exact R1|by apply Hopen]|]);
    (split; [intros Hs; by apply R3, Hst|]).
  - destruct (R2 buf eq_refl) as [Hb1 Hb2].
    pose proof (fetch_fill (add_miss p) d l k p1 d1 d2 i buf (pool_ok_miss _ _ _ Hp) Hk Hl Hv R1 Hb1 Hb2) as Hf.
    cbv zeta in Hf. rewrite Hkk in Hf || idtac. destruct Hf. constructor; done.
  - constructor.
    + exists (filter (fun j => j <> i) l). destruct (vo_ok _ _ _ _ _ _ Hv) as [A1 A2 A3 A4 A5 A6 A7].
      constructor; try done. intros j f Hf.
      apply (frame_ok_disk d1); [by apply (A7 j)|intros; by eapply open_page_files|].
      intros _ _. by apply disk_page_files.
    + intros j Hj. apply (vo_same _ _ _ _ _ _ Hv). intros ->. apply Hj. by eapply victim_unpinned.
    + intros Hs. destruct (R3 (Hst Hs)) as [_ R4]. destruct (R4 (Hopen k Hk)) as [? [=]].
Qed.

(** ** Storing, unpinning, flushing *)

Lemma view_upd i g p d k : (forall f, f_buf (g f) = f_buf f) -> view (upd_frame i g p) d k = view p d k.
Proof.
  intros Hg. unfold view. change (pool_lookup (upd_frame i g p) k) with (pool_lookup p k).
  destruct (pool_lookup p k) as [j|]; [|done]. f_equal. unfold frame_buf. rewrite upd_frame_lookup.
  destruct (bp_frames p !! j); [|done]. cbn. case_decide; [apply Hg|done].
Qed.

Lemma upd_frame_compose i g h p : upd_frame i g (upd_frame i h p) = upd_frame i (g ∘ h) p.
Proof. unfold upd_frame, with_frames. cbn. f_equal. apply list_eq. intros j.
  destruct (decide (j = i)) as [->|]; [|by rewrite !list_lookup_alter_ne].
  rewrite !list_lookup_alter_eq. by destruct (bp_frames p !! i).
Qed.

Lemma pins_upd i g p j : (forall f, f_pin_count (g f) = f_pin_count f) -> pins (upd_frame i g p) j = pins p j.
Proof.
  intros Hg. unfold pins. rewrite upd_frame_lookup. destruct (bp_frames p !! j); [|done]. cbn.
  case_decide; [apply Hg|done].
Qed.

Lemma holds_upd i g p k j : (forall f, key_of (g f) = key_of f /\ f_is_valid (g f) = f_is_valid f) ->
  holds (upd_frame i g p) k j <-> holds p k j.
Proof.
  intros Hg. unfold holds. setoid_rewrite upd_frame_lookup. destruct (bp_frames p !! j) as [f|].
  - split; intros (g0 & [= <-] & Hv & Hk); eexists; (split; [done|]); case_decide; cbn in *; auto;
      destruct (Hg f) as [E1 E2]; rewrite ?E1, ?E2 in *; auto.
  - split; intros (? & ? & _); done.
Qed.

(** Writing through a page pointer and marking the page dirty. *)
Definition put_page (p : buffer_pool) (i : nat) (fd page_id : Z) (b : bytes) : buffer_pool :=
  buffer_pool_mark_dirty (frame_store p i b) fd page_id.

Lemma put_page_eq p d l i k b : pool_ok p d l -> holds p k i ->
  put_page p i (fst k) (snd k) b = upd_frame i (set_dirty true ∘ set_buf b) p.
Proof.
  intros Hp Hh. unfold put_page, buffer_pool_mark_dirty, frame_store.
  replace (fst k, snd k) with k by by destruct k.
  change (pool_lookup (upd_frame i (set_buf b) p) k) with (pool_lookup p k).
  apply (pool_lookup_holds _ _ _ _ _ Hp) in Hh. rewrite Hh. apply upd_frame_compose.
Qed.

Lemma put_page_spec p d l i k b : pool_ok p d l -> holds p k i -> length b = PLEN ->
  let p' := put_page p i (fst k) (snd k) b in
  pool_ok p' d l /\ (forall j, pins p' j = pins p j) /\ (forall k' j, holds p' k' j <-> holds p k' j) /\
  frame_buf p' i = b /\ (forall k', view p' d k' = if decide (k' = k) then Some b else view p d k').
Proof.
  intros Hp Hh Hb. cbv zeta. rewrite (put_page_eq p d l i k b Hp Hh). set (p' := upd_frame _ _ p).
  assert (Hok : pool_ok p' d l).
  { apply pool_ok_upd; [done|]. intros f Hf. repeat (split; [done|]).
    destruct (ok_frames _ _ _ Hp i f Hf). by constructor. }
  assert (Hhs : forall k' j, holds p' k' j <-> holds p k' j) by (intros; by apply holds_upd).
  assert (Hbuf : forall j, frame_buf p' j = if decide (j = i) then b else frame_buf p j).
  { intros j. unfold frame_buf, p'. rewrite upd_frame_lookup. destruct Hh as (f & Hf & _).
    case_decide as Hj; [by rewrite Hj, Hf|]. by destruct (bp_frames p !! j). }
  split; [done|]. split; [intros; by apply pins_upd|]. split; [done|].
  split; [by rewrite Hbuf, decide_True|]. intros k'. case_decide as Hk.
  - subst k'. rewrite (view_holds p' d l k i Hok); [|by apply Hhs]. by rewrite Hbuf, decide_True.
  - unfold view. change (pool_lookup p' k') with (pool_lookup p k').
    destruct (pool_lookup p k') as [j|] eqn:E; [|done]. rewrite Hbuf, decide_False; [done|].
    intros ->. apply Hk. apply (pool_lookup_holds _ _ _ _ _ Hp) in E. by eapply holds_fun.
Qed.

Lemma unpin_spec p d l i k : pool_ok p d l -> holds p k i ->
  let p' := buffer_pool_unpin p (fst k) (snd k) in
  pool_ok p' d l /\ (forall j, pins p' j = if decide (j = i) then Z.max 0 (pins p i - 1) else pins p j) /\
  (forall k' j, holds p' k' j <-> holds p k' j) /\ (forall k', view p' d k' = view p d k').
Proof.
  intros Hp Hh. cbv zeta. unfold buffer_pool_unpin. replace (fst k, snd k) with k by by destruct k.
  pose proof Hh as Hl. apply (pool_lookup_holds _ _ _ _ _ Hp) in Hl. rewrite Hl.
  set (g := fun f => if f_pin_count f =? 0 then f else set_pin (f_pin_count f - 1) f).
  assert (Hg : forall f, key_of (g f) = key_of f /\ f_is_valid (g f) = f_is_valid f /\ f_buf (g f) = f_buf f /\
     f_is_dirty (g f) = f_is_dirty f /\ f_lru_prev (g f) = f_lru_prev f /\ f_lru_next (g f) = f_lru_next f).
  { intros f. unfold g. by destruct (_ =? _). }
  destruct Hh as (f & Hf & Hv & Hk). split; [|split; [|split]].
  - apply pool_ok_upd; [done|]. intros f0 Hf0. destruct (Hg f0) as (E1 & E2 & E3 & E4 & E5 & E6).
    repeat (split; [done|]). destruct (ok_frames _ _ _ Hp i f0 Hf0) as [H1 H2 H3 H4 H5].
    constructor; rewrite ?E1, ?E2, ?E3, ?E4; try done; unfold g; destruct (Z.eqb_spec (f_pin_count f0) 0);
      cbn; [done|by unfold uint_ok in *; lia|done|congruence].
  - intros j. unfold pins. rewrite upd_frame_lookup. case_decide as Hj; [|by destruct (bp_frames p !! j)].
    subst j. rewrite Hf. cbn. destruct (fo_pin _ _ (ok_frames _ _ _ Hp i f Hf)) as [? _]. unfold g.
    destruct (Z.eqb_spec (f_pin_count f) 0); cbn; lia.
  - intros. apply holds_upd. intros f0. by destruct (Hg f0) as (? & ? & _).
  - intros. apply view_upd. intros f0. by destruct (Hg f0) as (_ & _ & ? & _).
Qed.

(** The state of the flush loop after the frames [done], started from [(p0, d0)]. *)
Record flushing (p0 : buffer_pool) (d0 : disk) (l : list nat) (done : list nat)
    (p : buffer_pool) (d : disk) (rc : Z) : Prop := Flushing {
  fl_ok : pool_ok p d l;
  fl_pins : forall j, pins p j = pins p0 j;
  fl_holds : forall k j, holds p k j <-> holds p0 k j;
  fl_open : forall k, open_page d0 k -> open_page d k;
  fl_view : forall k, open_page d0 k -> view p d k = view p0 d0 k;
  fl_rc : rc = 0 \/ rc = -1;
  fl_clean : rc = 0 -> forall j f, j ∈ done -> bp_frames p !! j = Some f -> f_is_valid f = true -> f_is_dirty f = false;
  fl_steady : steady d0 -> steady d /\ rc = 0 }.

(** Writing one dirty frame back. *)
Lemma flush_write p d l i f d1 ok : pool_ok p d l -> bp_frames p !! i = Some f -> f_is_valid f = true ->
  page_write (f_fd f) (f_page_id f) (f_buf f) d = (d1, ok) ->
  let p' := if ok then upd_frame i (set_dirty false) p else p in
  pool_ok p' d1 l /\ (forall k, open_page d k -> open_page d1 k) /\
  (forall k, open_page d k -> view p' d1 k = view p d k) /\ (steady d -> steady d1 /\ ok = true).
Proof.
  intros Hp Hf Hv Hw p'. pose proof (ok_frames _ _ _ Hp i f Hf) as Hfo.
  destruct (page_write_spec d (key_of f) (f_buf f) d1 ok Hw (fo_open _ _ Hfo Hv) (fo_len _ _ Hfo)) as (W1 & W2 & W3).
  assert (Hother : forall j g, j <> i -> bp_frames p !! j = Some g -> frame_ok d1 g).
  { intros j g Hj Hg. apply (frame_ok_disk d); [by apply (ok_frames _ _ _ Hp j)|done|]. intros Hgv Hgo.
    rewrite (W2 _ Hgo), bool_decide_false, andb_false_r; [done|]. intros Hk. apply Hj.
    apply (holds_inj p d l (key_of f)); [done| |by exists f]. by exists g. }
  assert (Hi : frame_ok d1 (if ok then set_dirty false f else f)).
  { destruct Hfo as [H1 H2 H3 H4 H5]. destruct ok; constructor; cbn; auto; intros ? Hdf.
    - change (key_of (set_dirty false f)) with (key_of f). by rewrite (W2 _ (H4 Hv)), bool_decide_true.
    - rewrite (W2 _ (H4 Hv)). by apply H5. }
  assert (Hpd : pool_ok p' d1 l).
  { assert (Hframes : forall j g, bp_frames p' !! j = Some g -> frame_ok d1 g).
    { intros j g. destruct (decide (j = i)) as [->|Hj]; unfold p'; destruct ok; rewrite ?upd_frame_lookup.
      - rewrite Hf, decide_True by done. by intros [= <-].
      - rewrite Hf. by intros [= <-].
      - rewrite decide_False by done. destruct (bp_frames p !! j) eqn:E; [|done]. intros [= <-]. by eapply Hother.
      - by apply Hother. }
    destruct Hp as [A1 A2 A3 A4 A5 A6 A7]. unfold p' in *. destruct ok; [|by constructor]. constructor; try done.
    - by rewrite upd_frame_length.
    - by rewrite upd_frame_length.
    - intros k j. rewrite holds_upd by done. apply A4.
    - eapply dll_ext; [exact A5|]. by apply upd_frame_links.
    - intros j. rewrite A6. setoid_rewrite holds_upd; [|done]. done. }
  split; [done|]. split; [done|]. split; [|done]. intros k Hk.
  assert (Hbufs : forall j, frame_buf p' j = frame_buf p j).
  { intros j. unfold p', frame_buf. destruct ok; [|done]. rewrite upd_frame_lookup.
    destruct (bp_frames p !! j); [|done]. cbn. by case_decide. }
  assert (Hmap : pool_lookup p' k = pool_lookup p k) by (unfold p'; by destruct ok).
  unfold view. rewrite Hmap. destruct (pool_lookup p k) as [j|] eqn:E; [by rewrite Hbufs|].
  rewrite (W2 k Hk), bool_decide_false, andb_false_r; [done|]. intros ->.
  apply (pool_lookup_none _ _ _ _ Hp E i). by exists f.
Qed.

Lemma flush_frame_spec p0 d0 l dn p d rc i : flushing p0 d0 l dn p d rc ->
  let '(p', d', rc') := flush_frame (p, d, rc) i in flushing p0 d0 l (dn ++ [i]) p' d' rc'.
Proof.
  intros [F1 F2 F3 F4 F5 F6 F7 F8]. cbn [flush_frame].
  assert (Hkeep : (forall f, bp_frames p !! i = Some f -> f_is_valid f = true -> f_is_dirty f = false) ->
            flushing p0 d0 l (dn ++ [i]) p d rc).
  { intros Hi. constructor; try done. intros Hrc j f [Hj|Hj]%elem_of_app Hf Hv; [by eapply F7|].
    apply list_elem_of_singleton in Hj as ->. by apply Hi. }
  destruct (bp_frames p !! i) as [f|] eqn:Hf; [|by apply Hkeep].
  destruct (f_is_valid f && f_is_dirty f) eqn:E.
  2:{ apply Hkeep. intros g [= <-] Hv. rewrite Hv in E. done. }
  apply andb_true_iff in E as [Hv Hd].
  destruct (page_write (f_fd f) (f_page_id f) (f_buf f) d) as [d1 ok] eqn:Hw.
  destruct (flush_write p d l i f d1 ok F1 Hf Hv Hw) as (G1 & G2 & G3 & G4).
  assert (Hview : forall k, open_page d0 k -> view (if ok then upd_frame i (set_dirty false) p else p) d1 k = view p0 d0 k).
  { intros k Hk. rewrite G3 by auto. auto. }
  destruct ok; constructor; try done; auto.
  - intros j. rewrite pins_upd by done. apply F2.
  - intros k j. rewrite holds_upd by done. apply F3.
  - intros Hrc j g [Hj|Hj]%elem_of_app; rewrite upd_frame_lookup.
    + destruct (bp_frames p !! j) as [g0|] eqn:Hg; [|done]. intros [= <-]. case_decide; [done|]. cbn. by eapply F7.
    + apply list_elem_of_singleton in Hj as ->. rewrite Hf, decide_True by done. by intros [= <-].
  - intros Hs. destruct (F8 Hs) as [Hs1 ->]. by destruct (G4 Hs1).
  - intros Hs. destruct (F8 Hs) as [Hs1 ->]. by destruct (G4 Hs1).
Qed.

Lemma flush_all_spec p d l : pool_ok p d l ->
  let '(p', d', rc) := buffer_pool_flush_all p d in
  flushing p d l (seq 0 (length (bp_frames p))) p' d' rc.
Proof.
  intros Hp. unfold buffer_pool_flush_all.
  assert (Hgen : forall js dn p1 d1 rc, flushing p d l dn p1 d1 rc ->
    let '(p', d', rc') := fold_left flush_frame js (p1, d1, rc) in flushing p d l (dn ++ js) p' d' rc').
  { induction js as [|i js IH]; intros dn p1 d1 rc Hfl; [by rewrite app_nil_r|]. cbn [fold_left].
    pose proof (flush_frame_spec _ _ _ _ _ _ _ i Hfl) as H1. destruct (flush_frame (p1, d1, rc) i) as [[p2 d2] rc2].
    specialize (IH _ _ _ _ H1). by rewrite <- app_assoc in IH. }
  apply (Hgen _ [] p d 0). constructor; try done; [by left|]. intros _ j f Hj. by apply not_elem_of_nil in Hj.
Qed.

Lemma pool_create_ok n p d : buffer_pool_create n = Some p -> pool_ok p d [].
Proof.
  unfold buffer_pool_create. destruct (Nat.eqb_spec n 0); [done|]. intros [= <-].
  assert (Hfr : forall i f, replicate n (Frame (zeros PLEN) (-1) INVALID_PAGE_ID 0 false false None None) !! i = Some f ->
            f_is_valid f = false /\ frame_ok d f).
  { intros i f [-> _]%lookup_replicate. split; [done|]. constructor; try done. }
  assert (Hg : forall j, bucket_get (replicate (n * MAP_FACTOR) None) j = None).
  { intros j. unfold bucket_get. destruct (_ !! j) eqn:E; [|done]. by apply lookup_replicate in E as [-> _]. }
  assert (Hno : forall k i, ~ holds (BufferPool (replicate n (Frame (zeros PLEN) (-1) INVALID_PAGE_ID 0 false false None None))
       (replicate (n * MAP_FACTOR) None) None None 0 0) k i).
  { intros k i (f & Hf & Hv & _). destruct (Hfr i f Hf). congruence. }
  constructor; cbn [bp_frames bp_map bp_lru_head bp_lru_tail].
  - rewrite length_replicate. lia.
  - by rewrite !length_replicate.
  - constructor; intros *; rewrite Hg; done.
  - intros k i. split; [|by intros ?%Hno]. intros [j Hj]. by rewrite Hg in Hj.
  - constructor; [constructor|done|done|done].
  - intros i. split; [by intros ?%elem_of_nil|]. intros (k & H). by apply Hno in H.
  - intros i f Hf. by apply (Hfr i f).
Qed.

(** ** Properties *)

(** C40: cache coherence of buffer_pool_fetch.  From any pool in order and for
    any page of an open file, whatever the disk does: the pool stays in order,
    frames pinned by other clients keep their page and contents, and a page
    handed out holds exactly the latest contents (the cached ones or, on a miss,
    the disk's) with one more pin.  While no disk call fails, no page changes for
    any client, the evicted one included, and a fetch only fails when every
    frame is pinned. *)
Theorem buffer_pool_fetch_coherent p d l fd page_id :
  pool_ok p d l -> open_page d (fd, page_id) ->
  let '(p', d', r) := buffer_pool_fetch p d fd page_id in
  (exists l', pool_ok p' d' l') /\
  (forall j, pins p j <> 0 -> r <> Some j -> same p p' j) /\
  match r with
  | Some i => holds p' (fd, page_id) i /\ view p d (fd, page_id) = Some (frame_buf p' i) /\
      pins p' i = u32 ((if bool_decide (is_Some (pool_lookup p (fd, page_id))) then pins p i else 0) + 1)
  | None => steady d -> forall j f, bp_frames p !! j = Some f -> f_is_valid f = true /\ f_pin_count f <> 0
  end /\
  (steady d -> steady d' /\ forall k, open_page d k -> view p' d' k = view p d k).
Proof.
  intros Hp Hk. pose proof (fetch_spec p d l (fd, page_id) Hp Hk) as Hs. cbn [fst snd] in Hs.
  destruct (buffer_pool_fetch p d fd page_id) as [[p' d'] [i|]]; destruct Hs as (_ & Hst & Hf).
  - split; [eexists; apply Hf|]. split; [intros j _ Hj; apply (fe_same _ _ _ _ _ _ _ Hf); congruence|].
    destruct Hf as [F1 F2 F3 F4 F5 F6 F7]. split; [done|]. intros Hsd. split; [auto|]. intros k Hk'.
    apply F7; auto.
  - destruct Hf as [F1 F2 F3]. split; [done|]. split; [auto|]. split; [intros Hsd; by apply F3|].
    intros Hsd. split; [auto|]. intros k _. by apply F3.
Qed.

(** A pool of two frames, and a data file of three pages. *)
Definition pool2 : buffer_pool :=
  BufferPool (replicate 2 (Frame (zeros PLEN) (-1) INVALID_PAGE_ID 0 false false None None)) (replicate 8 None) None None 0 0.
Definition disk3 : disk := Disk {[ 5 := zeros (3 * PLEN) ]} [].

Lemma pool2_ok : pool_ok pool2 disk3 [].
Proof. by apply (pool_create_ok 2). Qed.

Lemma open3 n : 0 <= n -> open_page disk3 (5, n).
Proof. intros. split; [cbn; lia|]. split; [cbn; lia|]. by eexists. Qed.

Lemma buffer_pool_fetch_coherent_witness :
  let '(p', d', r) := buffer_pool_fetch pool2 disk3 5 1 in
  r = Some 0%nat /\ pins p' 0 = 1 /\ holds p' (5, 1) 0.
Proof.
  pose proof (buffer_pool_fetch_coherent pool2 disk3 [] 5 1 pool2_ok (open3 1 ltac:(lia))) as H.
  assert (Hr : snd (buffer_pool_fetch pool2 disk3 5 1) = Some 0%nat) by (vm_compute; reflexivity).
  destruct (buffer_pool_fetch pool2 disk3 5 1) as [[p' d'] r]. cbn [snd] in Hr. subst r.
  destruct H as (_ & _ & (H1 & _ & H2) & _). split; [reflexivity|]. split; [exact H2|exact H1].
Defined.

(** The replacement policy is LRU.  The frame handed out is the most
    recently used one of the new recency list and the order of all others is
    kept.  On a miss, a frame in use is only taken when no frame is unused, and
    then it is the least recently used unpinned one: everything older than it is
    pinned. *)
Theorem buffer_pool_fetch_lru p d l fd page_id :
  pool_ok p d l -> open_page d (fd, page_id) ->
  let '(p', d', r) := buffer_pool_fetch p d fd page_id in
  forall i, r = Some i ->
  pool_ok p' d' (i :: filter (fun j => j <> i) l) /\
  (pool_lookup p (fd, page_id) = None -> forall n, l !! n = Some i ->
     (forall j f, bp_frames p !! j = Some f -> f_is_valid f = true) /\ pins p i = 0 /\
     (forall m j, (n < m)%nat -> l !! m = Some j -> pins p j <> 0)).
Proof.
  intros Hp Hk. pose proof (fetch_spec p d l (fd, page_id) Hp Hk) as Hs. cbn [fst snd] in Hs.
  destruct (buffer_pool_fetch p d fd page_id) as [[p' d'] r]. intros i ->. destruct Hs as (_ & _ & Hf).
  destruct Hf as [F1 F2 F3 F4 F5 F6 F7]. split; auto.
Qed.

(** Pages 0 and 1 fetched and unpinned, in this order. *)
Definition pool2_full : buffer_pool :=
  let p1 := buffer_pool_unpin (fst (fst (buffer_pool_fetch pool2 disk3 5 0))) 5 0 in
  buffer_pool_unpin (fst (fst (buffer_pool_fetch p1 disk3 5 1))) 5 1.

(** A fetch that succeeds, then an unpin. *)
Lemma fetch_unpin_ok p d l k : pool_ok p d l -> open_page d k ->
  forall p' d' i, buffer_pool_fetch p d (fst k) (snd k) = (p', d', Some i) ->
  pool_ok (buffer_pool_unpin p' (fst k) (snd k)) d' (i :: filter (fun j => j <> i) l).
Proof.
  intros Hp Hk p' d' i He. pose proof (fetch_spec p d l k Hp Hk) as Hs. rewrite He in Hs.
  destruct Hs as (_ & _ & Hf). destruct Hf as [F1 F2]. by apply (unpin_spec p' d' _ i k).
Qed.

Lemma pool2_full_ok : pool_ok pool2_full disk3 [1%nat; 0%nat].
Proof.
  unfold pool2_full. set (p1 := buffer_pool_unpin _ 5 0).
  assert (H1 : pool_ok p1 disk3 [0%nat]).
  { apply (fetch_unpin_ok pool2 disk3 [] (5, 0) pool2_ok (open3 0 ltac:(lia)) _ disk3 0%nat). vm_compute. reflexivity. }
  apply (fetch_unpin_ok p1 disk3 [0%nat] (5, 1) H1 (open3 1 ltac:(lia)) _ disk3 1%nat). vm_compute. reflexivity.
Qed.

(** A third page takes the frame of page 0, the older one. *)
Lemma buffer_pool_fetch_lru_witness :
  let '(p', d', r) := buffer_pool_fetch pool2_full disk3 5 2 in
  r = Some 0%nat /\ pool_ok p' d' [0%nat; 1%nat].
Proof.
  pose proof (buffer_pool_fetch_lru pool2_full disk3 _ 5 2 pool2_full_ok (open3 2 ltac:(lia))) as H.
  assert (Hr : snd (buffer_pool_fetch pool2_full disk3 5 2) = Some 0%nat) by (vm_compute; reflexivity).
  destruct (buffer_pool_fetch pool2_full disk3 5 2) as [[p' d'] r]. cbn [snd] in Hr. subst r.
  split; [reflexivity|]. exact (proj1 (H 0%nat eq_refl)).
Defined.

(** Flushing.  Whatever write-backs fail, no client sees a page change and no
    pin or mapping is lost.  When the result is 0, every page of every open file
    is on disk with the contents clients see, and the result is 0 whenever no
    disk call fails. *)
Theorem buffer_pool_flush_all_durable p d l :
  pool_ok p d l ->
  let '(p', d', rc) := buffer_pool_flush_all p d in
  pool_ok p' d' l /\ (forall j, pins p' j = pins p j) /\
  (forall k, open_page d k -> open_page d' k /\ view p' d' k = view p d k) /\
  (rc = 0 -> forall k, open_page d k -> disk_page d' k = view p d k) /\
  (rc = 0 \/ rc = -1) /\ (steady d -> rc = 0).
Proof.
  intros Hp. pose proof (flush_all_spec p d l Hp) as Hf. destruct (buffer_pool_flush_all p d) as [[p' d'] rc].
  destruct Hf as [F1 F2 F3 F4 F5 F6 F7 F8]. split; [done|]. split; [done|]. split; [auto|]. split; [|split; [done|]].
  - intros Hrc k Hk. rewrite <- (F5 k Hk). destruct (pool_lookup p' k) as [i|] eqn:E.
    + apply (pool_lookup_holds _ _ _ _ _ F1) in E. rewrite (view_holds p' d' l k i F1 E).
      destruct E as (f & Hfi & Hv & <-). unfold frame_buf. rewrite Hfi. cbn.
      destruct (ok_frames _ _ _ F1 i f Hfi) as [_ _ _ _ Hclean]. apply Hclean; [done|].
      apply (F7 Hrc i f); [|done|done]. apply elem_of_seq. split; [lia|].
      pose proof (proj1 (F3 (key_of f) i) ltac:(by exists f)) as (g & Hg & _). apply lookup_lt_Some in Hg. lia.
    + by rewrite (view_disk p' d' l k F1 (pool_lookup_none _ _ _ _ F1 E)).
  - intros Hs. by destruct (F8 Hs).
Qed.

(** Page 1 dirtied in [pool2_full]. *)
Definition pool2_dirty : buffer_pool := put_page pool2_full 1 5 1 (replicate PLEN 7).

Lemma pool2_dirty_ok : pool_ok pool2_dirty disk3 [1%nat; 0%nat].
Proof.
  apply (put_page_spec pool2_full disk3 _ 1 (5, 1) (replicate PLEN 7) pool2_full_ok).
  - apply (pool_lookup_holds _ _ _ (5, 1) 1 pool2_full_ok). vm_compute. reflexivity.
  - apply length_replicate.
Qed.

Lemma buffer_pool_flush_all_durable_witness :
  let '(p', d', rc) := buffer_pool_flush_all pool2_dirty disk3 in
  rc = 0 /\ disk_page d' (5, 1) = Some (replicate PLEN 7).
Proof.
  pose proof (buffer_pool_flush_all_durable pool2_dirty disk3 _ pool2_dirty_ok) as H.
  assert (Hv : view pool2_dirty disk3 (5, 1) = Some (replicate PLEN 7)) by (vm_compute; reflexivity).
  assert (Hs : steady disk3) by apply Forall_nil_2.
  destruct (buffer_pool_flush_all pool2_dirty disk3) as [[p' d'] rc].
  destruct H as (_ & _ & _ & H & _ & Hrc). split; [exact (Hrc Hs)|].
  rewrite <- Hv. exact (H (Hrc Hs) (5, 1) (open3 1 ltac:(lia))).
Defined.

(** The eviction of a dirty page whose write fails loses the page's contents:
    find_victim clears the dirty bit and drops the page all the same. *)
Example evict_failed_write_loses :
  let d := Disk (d_files disk3) [false] in
  let p1 := buffer_pool_unpin (fst (fst (buffer_pool_fetch pool2_dirty d 5 0))) 5 0 in
  let '(p2, d2, r) := buffer_pool_fetch p1 (Disk (d_files disk3) [false; true]) 5 2 in
  r = Some 1%nat /\ view p1 disk3 (5, 1) = Some (replicate PLEN 7) /\ view p2 d2 (5, 1) = Some (zeros PLEN).
Proof. vm_compute. repeat split. Qed.
