(* ===== verification/PageStore.v ===== *)
(** * The page store: what the buffer pool promises the table layer

    [PageOps] are the calls table.c makes on a pool and its data files;
    [PageLaws] is the contract its theorems use, in terms of the pages of each
    file as a list of byte buffers.  Between two table operations the store is
    [ps_idle]: nothing is pinned.  [ps_held] is the state between a fetch and its
    unpin.  The instance is the buffer pool of BufferPool.v over the files of
    Page.v, on a disk that does not fail. *)

From stdpp Require Import base tactics numbers list gmap.
From Stdlib Require Import ZArith Lia.
From S2P Require Import Prelude Types Page PageMap BufferPool.

#[local] Open Scope Z_scope.

Class PageOps (S : Type) := {
  ps_fetch : S -> Z -> Z -> S * option nat;
  ps_buf : S -> nat -> bytes;
  ps_store : S -> nat -> bytes -> S;
  ps_mark_dirty : S -> Z -> Z -> S;
  ps_unpin : S -> Z -> Z -> S;
  ps_flush_all : S -> S * Z;
  ps_alloc : S -> Z -> Z -> S * Z;
  ps_count : S -> Z -> Z }.

Class PageLaws (S : Type) {ops : PageOps S} := {
  ps_pages : S -> Z -> option (list bytes);
  ps_idle : S -> Prop;
  ps_held : S -> Z -> Z -> nat -> Prop;
  ps_fetch_ok : forall s fd pid ps b, ps_idle s -> ps_pages s fd = Some ps -> ps !! pid = Some b ->
    exists s' i, ps_fetch s fd (Z.of_nat pid) = (s', Some i) /\ ps_held s' fd (Z.of_nat pid) i /\
      ps_buf s' i = b /\ forall fd', ps_pages s' fd' = ps_pages s fd';
  ps_unpin_ok : forall s fd pid i, ps_held s fd pid i ->
    ps_idle (ps_unpin s fd pid) /\ forall fd', ps_pages (ps_unpin s fd pid) fd' = ps_pages s fd';
  ps_put_ok : forall s fd pid i b, ps_held s fd (Z.of_nat pid) i -> length b = PLEN ->
    let s' := ps_mark_dirty (ps_store s i b) fd (Z.of_nat pid) in
    ps_held s' fd (Z.of_nat pid) i /\ ps_buf s' i = b /\
    forall fd', ps_pages s' fd' = if decide (fd' = fd) then <[pid := b]> <$> ps_pages s fd else ps_pages s fd';
  ps_count_ok : forall s fd ps, ps_pages s fd = Some ps -> (Z.of_nat (length ps) < 2 ^ 32)%Z ->
    ps_count s fd = Z.of_nat (length ps);
  ps_alloc_ok : forall s fd rs ps, ps_idle s -> ps_pages s fd = Some ps ->
    (Z.of_nat (length ps) < 2 ^ 32)%Z -> rs <> 0 ->
    exists s', ps_alloc s fd rs = (s', Z.of_nat (length ps)) /\ ps_idle s' /\
      forall fd', ps_pages s' fd' =
        if decide (fd' = fd) then Some (ps ++ [page_init_header (Z.of_nat (length ps)) rs]) else ps_pages s fd';
  ps_flush_ok : forall s, ps_idle s ->
    exists s', ps_flush_all s = (s', 0) /\ ps_idle s' /\ forall fd', ps_pages s' fd' = ps_pages s fd' }.

(** ** The instance *)

Definition pool_store : Type := buffer_pool * disk.

#[export] Instance pool_ops : PageOps pool_store := {
  ps_fetch s fd pid := let '(p, d, r) := buffer_pool_fetch s.1 s.2 fd pid in ((p, d), r);
  ps_buf s i := frame_buf s.1 i;
  ps_store s i b := (frame_store s.1 i b, s.2);
  ps_mark_dirty s fd pid := (buffer_pool_mark_dirty s.1 fd pid, s.2);
  ps_unpin s fd pid := (buffer_pool_unpin s.1 fd pid, s.2);
  ps_flush_all s := let '(p, d, rc) := buffer_pool_flush_all s.1 s.2 in ((p, d), rc);
  ps_alloc s fd rs := let '(d, pid) := page_alloc fd rs s.2 in ((s.1, d), pid);
  ps_count s fd := page_get_count fd s.2 }.

(** The number of whole pages of a file. *)
Definition whole_pages (f : bytes) : nat := (length f / PLEN)%nat.
#[global] Arguments whole_pages : simpl never.

Definition file_pages (d : disk) (fd : Z) : option nat :=
  if fd <? 0 then None else whole_pages <$> (d_files d !! fd).

Definition pool_pages (s : pool_store) (fd : Z) : option (list bytes) :=
  (fun n => (fun i => default [] (view s.1 s.2 (fd, Z.of_nat i))) <$> seq 0 n) <$> file_pages s.2 fd.

(** Every cached page lies inside its file. *)
Definition in_files (p : buffer_pool) (d : disk) : Prop :=
  forall k i, holds p k i -> exists n, file_pages d (fst k) = Some n /\ 0 <= snd k < Z.of_nat n.

Definition pool_quiet (s : pool_store) (pinned : nat -> Z) : Prop :=
  (exists l, pool_ok s.1 s.2 l) /\ steady s.2 /\ (forall j, pins s.1 j = pinned j) /\ in_files s.1 s.2.

Definition pool_idle (s : pool_store) : Prop := pool_quiet s (fun _ => 0).
Definition pool_held (s : pool_store) (fd pid : Z) (i : nat) : Prop :=
  pool_quiet s (fun j => if decide (j = i) then 1 else 0) /\ holds s.1 (fd, pid) i.

(** ** File lengths *)

Definition lens_same (d d' : disk) : Prop :=
  forall fd, length <$> (d_files d' !! fd) = length <$> (d_files d !! fd).

Lemma lens_same_refl d : lens_same d d.
Proof. done. Qed.

Lemma lens_same_trans d d1 d2 : lens_same d d1 -> lens_same d1 d2 -> lens_same d d2.
Proof. intros H1 H2 fd. by rewrite H2, H1. Qed.

Lemma lens_file_pages d d' fd : lens_same d d' -> file_pages d' fd = file_pages d fd.
Proof.
  intros H. specialize (H fd). unfold file_pages. case_match; [done|].
  unfold whole_pages. destruct (d_files d' !! fd), (d_files d !! fd); cbn [fmap option_fmap option_map] in *; congruence.
Qed.

Lemma file_pages_open d fd n pid : file_pages d fd = Some n -> 0 <= pid -> open_page d (fd, pid).
Proof.
  unfold file_pages. destruct (Z.ltb_spec fd 0); [done|]. destruct (d_files d !! fd) as [f|] eqn:E; [|done].
  intros _ ?. split; [done|]. split; [done|]. by exists f.
Qed.

Lemma page_write_lens d k n buf : file_pages d (fst k) = Some n -> 0 <= snd k < Z.of_nat n -> length buf = PLEN ->
  lens_same d (fst (page_write (fst k) (snd k) buf d)).
Proof.
  unfold file_pages, page_write. destruct (Z.ltb_spec (fst k) 0); [done|]. intros Hn Hk Hb.
  pose proof (io_tick_files d) as Hf. destruct (io_tick d) as [ok d1]. cbn [snd] in Hf. rewrite Hf.
  destruct (d_files d !! fst k) as [f|] eqn:E; [|done]. injection Hn as <-.
  destruct ok; intros fd; cbn [fst d_files]; [|by rewrite Hf]. 
  assert (Hle : (Z.to_nat (snd k * PAGE_SIZE) + PLEN <= length f)%nat).
  { pose proof (Nat.Div0.mul_div_le (length f) PLEN) as Hd. unfold PAGE_SIZE. rewrite Z2Nat.inj_mul by lia.
    assert (Hs : (S (Z.to_nat (snd k)) <= length f / PLEN)%nat).
    { revert Hk. unfold whole_pages. generalize (length f / PLEN)%nat. clear. lia. }
    apply (Nat.mul_le_mono_l _ _ PLEN) in Hs. rewrite Nat.mul_succ_r in Hs.
    rewrite (Nat.mul_comm _ PLEN). etrans; [exact Hs|exact Hd]. }
  destruct (decide (fd = fst k)) as [->|]; [|by rewrite lookup_insert_ne, ?Hf].
  rewrite lookup_insert_eq, E. cbn. f_equal. rewrite length_blit; rewrite length_app, length_zeros; lia.
Qed.

Lemma page_read_lens d fd pid : lens_same d (fst (page_read fd pid d)).
Proof.
  unfold page_read. pose proof (io_tick_files d) as Hf. destruct (io_tick d) as [ok d1]. cbn [snd] in Hf.
  intros x. repeat case_match; cbn [fst]; by rewrite ?Hf.
Qed.

Lemma find_victim_lens p d l : pool_ok p d l -> in_files p d -> lens_same d (snd (fst (find_victim p d))).
Proof.
  intros Hp Hin. unfold find_victim.
  pose proof (find_invalid_spec (bp_frames p) 0) as Hval. destruct (find_invalid _ _); [done|].
  destruct (walk_lru _ _ _) as [i|] eqn:Hw; [|done]. destruct (bp_frames p !! i) as [f|] eqn:Hf; [|done].
  destruct (f_is_dirty f); [|done]. cbn [fst snd].
  destruct (Hin (key_of f) i) as (n & Hn & Hk); [exists f; eauto|].
  apply (page_write_lens d (key_of f) n); [done|done|]. apply (fo_len _ _ (ok_frames _ _ _ Hp i f Hf)).
Qed.

Lemma fetch_lens p d l fd pid : pool_ok p d l -> in_files p d ->
  lens_same d (snd (fst (buffer_pool_fetch p d fd pid))).
Proof.
  intros Hp Hin. unfold buffer_pool_fetch. destruct (pool_lookup p (fd, pid)); [done|].
  pose proof (find_victim_lens (add_miss p) d l (pool_ok_miss _ _ _ Hp) Hin) as Hv.
  destruct (find_victim (add_miss p) d) as [[p1 d1] [i|]]; [|done]. cbn [fst snd] in Hv.
  pose proof (page_read_lens d1 fd pid) as Hr. destruct (page_read fd pid d1) as [d2 [buf|]]; cbn [fst snd] in *;
    by eapply lens_same_trans.
Qed.

Lemma flush_frame_lens p0 d0 l dn p d rc i : flushing p0 d0 l dn p d rc -> in_files p d ->
  let '(p', d', rc') := flush_frame (p, d, rc) i in lens_same d d' /\ in_files p' d'.
Proof.
  intros Hfl Hin. cbn [flush_frame]. destruct (bp_frames p !! i) as [f|] eqn:Hf; [|done].
  destruct (f_is_valid f && f_is_dirty f) eqn:E; [|done]. apply andb_true_iff in E as [Hv _].
  destruct (Hin (key_of f) i) as (n & Hn & Hk); [exists f; eauto|].
  pose proof (page_write_lens d (key_of f) n (f_buf f) Hn Hk (fo_len _ _ (ok_frames _ _ _ (fl_ok _ _ _ _ _ _ _ Hfl) i f Hf))) as Hl.
  cbn [key_of fst snd] in Hl. destruct (page_write (f_fd f) (f_page_id f) (f_buf f) d) as [d1 ok]. cbn [fst] in Hl.
  assert (Hin1 : in_files p d1).
  { intros k j Hkj. destruct (Hin k j Hkj) as (m & Hm & ?). exists m. by rewrite (lens_file_pages d). }
  destruct ok; (split; [done|]); [|done]. intros k j Hkj. apply (Hin1 k j). by apply holds_upd in Hkj.
Qed.

Lemma flush_all_lens p d l : pool_ok p d l -> in_files p d ->
  let '(p', d', rc) := buffer_pool_flush_all p d in lens_same d d' /\ in_files p' d'.
Proof.
  intros Hp Hin. unfold buffer_pool_flush_all.
  assert (Hgen : forall js dn p1 d1 rc, flushing p d l dn p1 d1 rc -> lens_same d d1 -> in_files p1 d1 ->
    let '(p', d', rc') := fold_left flush_frame js (p1, d1, rc) in lens_same d d' /\ in_files p' d').
  { induction js as [|j js IH]; intros dn p1 d1 rc Hfl Hl Hi; [done|]. cbn [fold_left].
    pose proof (flush_frame_spec _ _ _ _ _ _ _ j Hfl) as H1. pose proof (flush_frame_lens _ _ _ _ _ _ _ j Hfl Hi) as H2.
    destruct (flush_frame (p1, d1, rc) j) as [[p2 d2] rc2]. destruct H2 as [H2 H3].
    apply (IH (dn ++ [j])); [done| |done]. by eapply lens_same_trans. }
  apply (Hgen _ [] p d 0); [|done|done].
  constructor; try done; [by left|]. intros _ j f Hj. by apply not_elem_of_nil in Hj.
Qed.

(** ** The laws *)

Lemma pool_pages_lookup s fd ps pid b : pool_pages s fd = Some ps -> ps !! pid = Some b ->
  exists n, file_pages s.2 fd = Some n /\ (pid < n)%nat /\ b = default [] (view s.1 s.2 (fd, Z.of_nat pid)).
Proof.
  unfold pool_pages. destruct (file_pages s.2 fd) as [n|]; [|done]. cbn. intros [= <-].
  rewrite list_lookup_fmap. destruct (decide (pid < n)%nat).
  - rewrite lookup_seq_lt by done. cbn. intros [= <-]. by exists n.
  - rewrite lookup_seq_ge by lia. done.
Qed.

(** The pages of all files, when lengths and views are kept. *)
Lemma pool_pages_same p d p' d' : lens_same d d' ->
  (forall k, open_page d k -> view p' d' k = view p d k) ->
  forall fd, pool_pages (p', d') fd = pool_pages (p, d) fd.
Proof.
  intros Hl Hv fd. unfold pool_pages. cbn [fst snd]. rewrite (lens_file_pages d d' fd Hl).
  destruct (file_pages d fd) as [n|] eqn:E; [|done]. cbn. f_equal. apply list_fmap_ext. intros i x Hi.
  rewrite Hv; [done|]. apply (file_pages_open d fd n); [done|lia].
Qed.

Lemma pool_fetch_ok s fd pid ps b : pool_idle s -> pool_pages s fd = Some ps -> ps !! pid = Some b ->
  exists s' i, ps_fetch s fd (Z.of_nat pid) = (s', Some i) /\ pool_held s' fd (Z.of_nat pid) i /\
    ps_buf s' i = b /\ forall fd', pool_pages s' fd' = pool_pages s fd'.
Proof.
  destruct s as [p d]. intros ((l & Hp) & Hst & Hpins & Hin) Hps Hb.
  destruct (pool_pages_lookup _ _ _ _ _ Hps Hb) as (n & Hn & Hpid & ->). cbn [fst snd] in *.
  assert (Hopen : open_page d (fd, Z.of_nat pid)) by (apply (file_pages_open d fd n); [done|lia]).
  pose proof (fetch_spec p d l (fd, Z.of_nat pid) Hp Hopen) as Hf. pose proof (fetch_lens p d l fd (Z.of_nat pid) Hp Hin) as Hl.
  cbn [fst snd] in Hf. cbn [ps_fetch pool_ops fst snd].
  destruct (buffer_pool_fetch p d fd (Z.of_nat pid)) as [[p' d'] [i|]]; destruct Hf as (Ho & Hs & Hf); cbn [fst snd] in Hl.
  - destruct Hf as [F1 F2 F3 F4 F5 F6 F7]. exists (p', d'), i. split; [done|].
    assert (Hpages : forall fd', pool_pages (p', d') fd' = pool_pages (p, d) fd').
    { apply pool_pages_same; [done|]. intros k Hk. apply F7; auto. }
    split; [|split; [cbn [ps_buf pool_ops fst]; by rewrite F3|done]]. split; [|done].
    split; [by eexists|]. split; [by apply Hs|]. cbn [fst snd]. split.
    + intros j. case_decide as Hj.
      * subst j. rewrite F4, Hpins. by case_bool_decide.
      * unfold pins in *. specialize (F5 j Hj). unfold same in F5. rewrite <- (Hpins j).
        destruct (bp_frames p' !! j), (bp_frames p !! j); cbn in *; try done.
        apply (inj Some) in F5. by apply (f_equal f_pin_count) in F5.
    + intros k j Hkj. rewrite (lens_file_pages d d' _ Hl). destruct (decide (j = i)) as [->|Hj].
      * rewrite (holds_fun p' k (fd, Z.of_nat pid) i Hkj F2). cbn. exists n. split; [done|lia].
      * apply (Hin k j). eapply same_holds; [|done]. apply same_sym. by apply F5.
  - exfalso. destruct Hf as [_ _ F3]. destruct (F3 Hst) as [Hall _]. destruct Hp as [Hsome _ _ _ _ _ _].
    destruct (lookup_lt_is_Some_2 _ _ Hsome) as [f Hf]. destruct (Hall _ _ Hf) as [_ Hpin].
    specialize (Hpins 0%nat). unfold pins in Hpins. rewrite Hf in Hpins. done.
Qed.

Lemma quiet_pages_view s pinned p' : pool_quiet s pinned -> (forall k, view p' s.2 k = view s.1 s.2 k) ->
  forall fd, pool_pages (p', s.2) fd = pool_pages s fd.
Proof. destruct s as [p d]. intros _ Hv. apply pool_pages_same; [apply lens_same_refl|]. intros; apply Hv. Qed.

Lemma pool_unpin_ok s fd pid i : pool_held s fd pid i ->
  pool_idle (ps_unpin s fd pid) /\ forall fd', pool_pages (ps_unpin s fd pid) fd' = pool_pages s fd'.
Proof.
  destruct s as [p d]. intros [((l & Hp) & Hst & Hpins & Hin) Hh]. cbn [fst snd] in *.
  destruct (unpin_spec p d l i (fd, pid) Hp Hh) as (U1 & U2 & U3 & U4). cbn [fst snd] in *.
  cbn [ps_unpin pool_ops fst snd]. set (p' := buffer_pool_unpin p fd pid) in *. split.
  - split; [by exists l|]. split; [done|]. cbn [fst snd]. split.
    + intros j. rewrite U2. case_decide as E; rewrite Hpins; [by rewrite decide_True|by rewrite decide_False].
    + intros k j Hkj. apply (Hin k j). by apply U3.
  - apply pool_pages_same; [apply lens_same_refl|]. intros; apply U4.
Qed.

Lemma pool_put_ok s fd pid i b : pool_held s fd (Z.of_nat pid) i -> length b = PLEN ->
  let s' := ps_mark_dirty (ps_store s i b) fd (Z.of_nat pid) in
  pool_held s' fd (Z.of_nat pid) i /\ ps_buf s' i = b /\
  forall fd', pool_pages s' fd' = if decide (fd' = fd) then <[pid := b]> <$> pool_pages s fd else pool_pages s fd'.
Proof.
  destruct s as [p d]. intros [((l & Hp) & Hst & Hpins & Hin) Hh] Hb. cbn [fst snd] in *.
  destruct (put_page_spec p d l i (fd, Z.of_nat pid) b Hp Hh Hb) as (U1 & U2 & U3 & U4 & U5).
  cbn [ps_mark_dirty ps_store ps_buf pool_ops fst snd] in *. unfold put_page in *. cbv zeta.
  set (p' := buffer_pool_mark_dirty _ fd _) in *. split; [split; [|by apply U3]|split; [exact U4|]].
  - split; [by exists l|]. split; [done|]. split; [intros j; cbn [fst]; by rewrite U2|].
    intros k j Hkj. apply (Hin k j). by apply U3.
  - intros fd'. unfold pool_pages. cbn [fst snd]. destruct (file_pages d fd') as [n|] eqn:E.
    2:{ case_decide; [subst fd'; by rewrite E|done]. }
    cbn [fmap option_fmap option_map]. case_decide as Hfd.
    + subst fd'. rewrite E. cbn [fmap option_fmap option_map]. f_equal. apply list_eq. intros x.
      rewrite list_lookup_fmap. destruct (decide (x < n)%nat).
      * rewrite lookup_seq_lt by done. cbn [fmap option_fmap option_map]. rewrite U5. destruct (decide (x = pid)) as [->|Hx].
        -- rewrite decide_True by done. rewrite list_lookup_insert_eq; [done|]. by rewrite length_fmap, length_seq.
        -- rewrite decide_False by (intros [= ?]; lia). rewrite list_lookup_insert_ne by done.
           by rewrite list_lookup_fmap, lookup_seq_lt.
      * rewrite lookup_seq_ge by lia. symmetry. apply lookup_ge_None. rewrite length_insert, length_fmap, length_seq. lia.
    + f_equal. apply list_fmap_ext. intros x y _. rewrite U5, decide_False; [done|]. congruence.
Qed.

Lemma pool_pages_file s fd ps : pool_pages s fd = Some ps ->
  exists f, 0 <= fd /\ d_files s.2 !! fd = Some f /\ length ps = whole_pages f.
Proof.
  unfold pool_pages, file_pages. destruct (Z.ltb_spec fd 0); [done|].
  destruct (d_files s.2 !! fd) as [f|]; [|done]. cbn [fmap option_fmap option_map]. intros [= <-].
  exists f. by rewrite length_fmap, length_seq.
Qed.

Lemma pool_count_ok s fd ps : pool_pages s fd = Some ps -> (Z.of_nat (length ps) < 2 ^ 32)%Z ->
  ps_count s fd = Z.of_nat (length ps).
Proof.
  intros Hps Hlt. destruct (pool_pages_file _ _ _ Hps) as (f & Hfd & Hf & Hl).
  cbn [ps_count pool_ops]. unfold page_get_count. destruct (Z.ltb_spec fd 0); [lia|]. rewrite Hf.
  assert (Heq : Z.of_nat (length f) / PAGE_SIZE = Z.of_nat (length ps)).
  { rewrite Hl. unfold whole_pages. rewrite Nat2Z.inj_div. done. }
  rewrite Heq. apply u32_small. lia.
Qed.

(** The file after a page was written behind its last one. *)
Lemma append_len (f buf : bytes) : length buf = PLEN ->
  let off := Z.to_nat (Z.of_nat (whole_pages f) * PAGE_SIZE) in
  whole_pages (blit off buf (f ++ zeros (off + PLEN - length f))) = S (whole_pages f).
Proof.
  intros Hb off. assert (Hoff : off = (PLEN * whole_pages f)%nat).
  { unfold off, PAGE_SIZE. rewrite Z2Nat.inj_mul, Nat2Z.id by lia. apply Nat.mul_comm. }
  pose proof (Nat.div_mod_eq (length f) PLEN) as Hdm. pose proof (Nat.mod_upper_bound (length f) PLEN ltac:(lia)) as Hm.
  fold (whole_pages f) in Hdm. rewrite <- Hoff in Hdm.
  assert (Hlen : length (blit off buf (f ++ zeros (off + PLEN - length f))) = (off + PLEN)%nat).
  { rewrite length_blit; rewrite length_app, length_zeros; lia. }
  unfold whole_pages at 1. rewrite Hlen, Hoff, Nat.mul_comm, Nat.div_add_l by lia.
  rewrite Nat.div_same by lia. lia.
Qed.

Lemma pool_alloc_ok s fd rs ps : pool_idle s -> pool_pages s fd = Some ps ->
  (Z.of_nat (length ps) < 2 ^ 32)%Z -> rs <> 0 ->
  exists s', ps_alloc s fd rs = (s', Z.of_nat (length ps)) /\ pool_idle s' /\
    forall fd', pool_pages s' fd' =
      if decide (fd' = fd) then Some (ps ++ [page_init_header (Z.of_nat (length ps)) rs]) else pool_pages s fd'.
Proof.
  intros Hidle Hps Hlt Hrs. pose proof (pool_count_ok s fd ps Hps Hlt) as Hcount.
  destruct (pool_pages_file _ _ _ Hps) as (f & Hfd & Hf & Hl). destruct s as [p d].
  destruct Hidle as ((l & Hp) & Hst & Hpins & Hin). cbn [fst snd ps_count ps_alloc pool_ops] in *.
  set (n := length ps) in *. set (hdr := page_init_header (Z.of_nat n) rs).
  assert (Hopen : open_page d (fd, Z.of_nat n)) by (split; [done|split; [cbn; lia|by exists f]]).
  destruct (page_write fd (Z.of_nat n) hdr d) as [d' ok] eqn:Hw.
  destruct (page_write_spec d (fd, Z.of_nat n) hdr d' ok Hw Hopen (length_page_init _ _)) as (W1 & W2 & W3).
  destruct (W3 Hst) as [Hst' ->]. exists (p, d').
  split. { unfold page_alloc. destruct (Z.ltb_spec fd 0); [lia|]. destruct (Z.eqb_spec rs 0); [done|].
    cbn [orb]. rewrite Hcount. fold hdr. by rewrite Hw. }
  assert (Hno : forall i, ~ holds p (fd, Z.of_nat n) i).
  { intros i Hi. destruct (Hin _ _ Hi) as (m & Hm & Hk). cbn [fst snd] in *. unfold file_pages in Hm.
    destruct (Z.ltb_spec fd 0); [lia|]. rewrite Hf in Hm. cbn [fmap option_fmap option_map] in Hm.
    injection Hm as <-. rewrite <- Hl in Hk. lia. }
  assert (Hfp : forall fd', file_pages d' fd' = if decide (fd' = fd) then Some (S n) else file_pages d fd').
  { intros fd'. unfold page_write in Hw. destruct (Z.ltb_spec fd 0); [lia|].
    pose proof (io_tick_files d) as Ht. destruct (io_tick d) as [okt d1]. cbn [snd] in Ht. rewrite Ht, Hf in Hw.
    destruct okt; [|done]. injection Hw as <-. unfold file_pages. cbn [d_files]. case_decide as E.
    - subst fd'. destruct (Z.ltb_spec fd 0); [lia|]. rewrite lookup_insert_eq. cbn [fmap option_fmap option_map].
      f_equal. rewrite Hl. apply append_len. apply length_page_init.
    - case_match; [done|]. by rewrite lookup_insert_ne. }
  assert (Hp' : pool_ok p d' l).
  { destruct Hp as [A1 A2 A3 A4 A5 A6 A7]. constructor; try done. intros i g Hg.
    apply (frame_ok_disk d); [by apply (A7 i)|done|]. intros Hv Ho. rewrite (W2 _ Ho), bool_decide_false; [done|].
    intros Hk. apply (Hno i). by exists g. }
  assert (Hview : forall k, open_page d k -> view p d' k = if decide (k = (fd, Z.of_nat n)) then Some hdr else view p d k).
  { intros k Hk. case_decide as E.
    - subst k. rewrite (view_disk p d' l _ Hp' Hno), (W2 _ Hopen). by rewrite bool_decide_true.
    - unfold view. destruct (pool_lookup p k); [done|]. by rewrite (W2 _ Hk), bool_decide_false. }
  split; [split; [by exists l|]; split; [done|]; split; [done|]|].
  - intros k i Hki. destruct (Hin k i Hki) as (m & Hm & Hk). cbn [fst snd] in *. rewrite Hfp. case_decide as E.
    + eexists. split; [done|]. rewrite E in Hm. unfold file_pages in Hm. destruct (Z.ltb_spec fd 0); [lia|].
      rewrite Hf in Hm. cbn [fmap option_fmap option_map] in Hm. injection Hm as <-. rewrite <- Hl in Hk. lia.
    + by exists m.
  - intros fd'. unfold pool_pages in *. cbn [fst snd] in *. rewrite Hfp. case_decide as E.
    + subst fd'. cbn [fmap option_fmap option_map]. f_equal. rewrite seq_S, fmap_app. f_equal.
      * destruct (file_pages d fd) as [m|] eqn:Hm; [|done]. cbn [fmap option_fmap option_map] in Hps. injection Hps as Hps.
        assert (m = n) as ->. { unfold n. by rewrite <- Hps, length_fmap, length_seq. }
        rewrite <- Hps. apply list_fmap_ext. intros x y Hx. apply lookup_seq in Hx as [-> ?].
        rewrite Hview, decide_False; [done|intros [= ?]; lia|]. split; [done|]. split; [cbn; lia|by exists f].
      * cbn. by rewrite Hview, decide_True.
    + destruct (file_pages d fd') as [m|] eqn:Hm; [|done]. cbn [fmap option_fmap option_map]. f_equal.
      apply list_fmap_ext. intros x y _. rewrite Hview, decide_False; [done|congruence|].
      by apply (file_pages_open d fd' m); [|lia].
Qed.

Lemma pool_flush_ok s : pool_idle s ->
  exists s', ps_flush_all s = (s', 0) /\ pool_idle s' /\ forall fd', pool_pages s' fd' = pool_pages s fd'.
Proof.
  destruct s as [p d]. intros ((l & Hp) & Hst & Hpins & Hin). cbn [fst snd ps_flush_all pool_ops] in *.
  pose proof (flush_all_spec p d l Hp) as Hf. pose proof (flush_all_lens p d l Hp Hin) as Hl.
  destruct (buffer_pool_flush_all p d) as [[p' d'] rc]. destruct Hl as [Hl Hin'].
  destruct Hf as [F1 F2 F3 F4 F5 F6 F7 F8]. destruct (F8 Hst) as [Hst' ->]. exists (p', d'). split; [done|].
  split; [|by apply pool_pages_same]. split; [by exists l|]. split; [done|]. split; [|done].
  intros j. cbn [fst]. by rewrite F2.
Qed.

#[export] Instance pool_laws : PageLaws pool_store := {
  ps_pages := pool_pages; ps_idle := pool_idle; ps_held := pool_held;
  ps_fetch_ok := pool_fetch_ok; ps_unpin_ok := pool_unpin_ok; ps_put_ok := pool_put_ok;
  ps_count_ok := pool_count_ok; ps_alloc_ok := pool_alloc_ok; ps_flush_ok := pool_flush_ok }.
