(* ===== verification/DataFiles.v ===== *)
(** * Data files behind a buffer pool

    page_file_create, page_file_open and page_file_close of page.c: a descriptor
    comes to stand for the contents of a file, and is given back.  What a flushed
    pool leaves in the files is what a new pool finds there. *)

From stdpp Require Import base tactics numbers list gmap.
From Stdlib Require Import ZArith Lia.
From S2P Require Import Prelude Types Page PageMap BufferPool PageStore.

#[local] Open Scope Z_scope.

(** [fd] is what open() returned for a file with contents [f], empty after O_TRUNC;
    the advisory lock is not waited for. *)
Definition page_file_attach (fd : Z) (f : bytes) (s : pool_store) : pool_store :=
  if fd <? 0 then s else (s.1, Disk (<[fd := f]> (d_files s.2)) (d_faults s.2)).

(** O_CREAT and O_TRUNC. *)
Definition page_file_create (fd : Z) (s : pool_store) : pool_store := page_file_attach fd [] s.

Definition page_file_close (fd : Z) (s : pool_store) : pool_store :=
  if fd <? 0 then s else (s.1, Disk (delete fd (d_files s.2)) (d_faults s.2)).

(** The whole pages of a file. *)
Definition file_list (f : bytes) : list bytes :=
  (fun i => page_of f (Z.to_nat (Z.of_nat i * PAGE_SIZE))) <$> seq 0 (whole_pages f).

(** No cached page waits to be written back. *)
Definition clean (p : buffer_pool) : Prop :=
  forall i f, bp_frames p !! i = Some f -> f_is_valid f && f_is_dirty f = false.

Lemma disk_page_file d fd pid f : d_files d !! fd = Some f ->
  disk_page d (fd, pid) = Some (page_of f (Z.to_nat (pid * PAGE_SIZE))).
Proof. intros E. unfold disk_page. cbn [fst snd]. by rewrite E. Qed.

(** ** Opening *)

Section attach.
Context (s : pool_store) (fd : Z) (f : bytes) (Hs : pool_idle s) (Hfd : 0 <= fd) (Hnew : d_files s.2 !! fd = None).

Let s' : pool_store := (s.1, Disk (<[fd := f]> (d_files s.2)) (d_faults s.2)).

Lemma attach_eq : page_file_attach fd f s = s'.
Proof using Hfd. unfold page_file_attach. by destruct (Z.ltb_spec fd 0); [lia|]. Qed.

Lemma attach_page k : fst k <> fd -> disk_page s'.2 k = disk_page s.2 k.
Proof using. intros Hk. unfold disk_page. cbn. by rewrite lookup_insert_ne. Qed.

Lemma attach_open k : open_page s.2 k -> open_page s'.2 k /\ fst k <> fd.
Proof using Hnew.
  intros (H1 & H2 & [g Hg]). assert (fst k <> fd) by (intros E; rewrite E in Hg; congruence). split; [|done].
  split; [done|]. split; [done|]. exists g. cbn. by rewrite lookup_insert_ne.
Qed.

Lemma attach_idle : pool_idle s'.
Proof using Hs Hnew.
  destruct Hs as ([l Hp] & Hst & Hpins & Hin). split; [exists l|split; [exact Hst|split; [exact Hpins|]]].
  - destruct Hp as [A1 A2 A3 A4 A5 A6 A7]. constructor; try done. intros i g Hi. destruct (A7 i g Hi) as [F1 F2 F3 F4 F5].
    constructor; try done; [intros Hv; by apply attach_open, F4|].
    intros Hv Hd. destruct (attach_open _ (F4 Hv)) as [_ Hne]. rewrite (attach_page (key_of g) Hne). by apply F5.
  - intros k i Hk. destruct (Hin k i Hk) as (n & Hn & Hr). exists n. split; [|done].
    unfold file_pages in *. destruct (fst k <? 0); [done|]. cbn. destruct (decide (fst k = fd)) as [E|E].
    + rewrite E, Hnew in Hn. done.
    + by rewrite lookup_insert_ne.
Qed.

Lemma attach_unheld pid : pool_lookup s.1 (fd, pid) = None.
Proof using Hs Hnew.
  destruct Hs as ([l Hp] & _ & _ & Hin). destruct (pool_lookup s.1 (fd, pid)) as [i|] eqn:E; [|done].
  apply (pool_lookup_holds _ _ _ _ _ Hp) in E. destruct (Hin _ _ E) as (n & Hn & _). unfold file_pages in Hn. cbn in Hn.
  destruct (fd <? 0); [done|]. by rewrite Hnew in Hn.
Qed.

Lemma attach_ok :
  pool_idle s' /\ pool_pages s' fd = Some (file_list f) /\
  (forall fd', fd' <> fd -> pool_pages s' fd' = pool_pages s fd').
Proof using Hs Hfd Hnew.
  split; [apply attach_idle|]. split.
  - unfold pool_pages, file_pages. destruct (Z.ltb_spec fd 0); [lia|]. cbn [snd d_files s']. rewrite lookup_insert_eq.
    cbn [fmap option_fmap option_map]. f_equal. apply list_fmap_ext. intros i pid _. unfold view. cbn [fst s'].
    rewrite attach_unheld. rewrite (disk_page_file _ fd _ f); [done|]. cbn. by rewrite lookup_insert_eq.
  - intros fd' Hne. unfold pool_pages, file_pages. cbn [snd d_files s']. rewrite lookup_insert_ne by done.
    destruct (fd' <? 0); [done|]. destruct (d_files s.2 !! fd') as [g|] eqn:E; [|done]. cbn [fmap option_fmap option_map].
    f_equal. apply list_fmap_ext. intros i pid _. f_equal. unfold view. cbn [fst s'].
    destruct (pool_lookup _ _); [done|]. exact (attach_page (fd', Z.of_nat pid) Hne).
Qed.
End attach.

(** A new pool, before any file is opened. *)
Lemma fresh_idle n p faults : buffer_pool_create n = Some p -> Forall (fun b => b = true) faults ->
  pool_idle (p, Disk ∅ faults).
Proof.
  intros Hc Hf. pose proof (pool_create_ok n p (Disk ∅ faults) Hc) as Hp. split; [by exists []|]. split; [done|].
  unfold buffer_pool_create in Hc. destruct (n =? 0)%nat; [done|]. injection Hc as Hc. split.
  - intros j. unfold pins. rewrite <- Hc. cbn [fst bp_frames]. destruct (_ !! j) as [g|] eqn:E; [|done].
    by apply lookup_replicate in E as [-> _].
  - intros k i Hk. assert (Hi : i ∈ ([] : list nat)) by (apply (ok_list _ _ _ Hp); by exists k). by apply not_elem_of_nil in Hi.
Qed.

(** ** Flushing *)

Lemma flush_clean p d : clean p -> buffer_pool_flush_all p d = (p, d, 0).
Proof.
  intros Hc. unfold buffer_pool_flush_all. generalize (seq 0 (length (bp_frames p))) as js.
  induction js as [|i js IH]; [done|]. cbn [fold_left flush_frame].
  destruct (bp_frames p !! i) as [f|] eqn:Hf; [|exact IH]. by rewrite (Hc i f Hf).
Qed.

(** A flushed pool is clean, and the files hold its pages. *)
Lemma flush_files s : pool_idle s ->
  let s' := (ps_flush_all s).1 in
  clean s'.1 /\ forall fd ps, pool_pages s fd = Some ps -> 0 <= fd /\ exists f, d_files s'.2 !! fd = Some f /\ file_list f = ps.
Proof.
  intros Hs. destruct (pool_flush_ok s Hs) as (s1 & He & Hs1 & Hpg). destruct Hs as ([l Hp] & Hst & _ & Hin).
  pose proof (flush_all_spec s.1 s.2 l Hp) as Hf. cbn [ps_flush_all pool_ops] in *.
  destruct (buffer_pool_flush_all s.1 s.2) as [[p d] rc] eqn:E. injection He as <- ->. cbn [fst snd].
  destruct Hf as [F1 F2 F3 F4 F5 F6 F7 F8].
  assert (Hlen : length (bp_frames p) = length (bp_frames s.1)).
  { assert (Hf : forall js st, length (bp_frames (fold_left flush_frame js st).1.1) = length (bp_frames st.1.1)).
    { induction js as [|i js IH]; intros [[p0 d0] r0]; [done|]. cbn [fold_left]. rewrite IH. cbn [flush_frame fst].
      destruct (bp_frames p0 !! i) as [g|]; [|done]. destruct (_ && _); [|done]. destruct (page_write _ _ _ _) as [d1 ok].
      destruct ok; [apply upd_frame_length|done]. }
    unfold buffer_pool_flush_all in E. pose proof (Hf (seq 0 (length (bp_frames s.1))) (s.1, s.2, 0)) as H. by rewrite E in H. }
  assert (Hcl : clean p).
  { intros i f Hi. destruct (f_is_valid f) eqn:Ev; [|done]. cbn. apply (F7 eq_refl i f); [|done|done].
    apply elem_of_seq. apply lookup_lt_Some in Hi. lia. }
  split; [exact Hcl|]. intros fd ps Hps. rewrite <- Hpg in Hps. unfold pool_pages, file_pages in Hps. cbn [fst snd] in Hps.
  destruct (Z.ltb_spec fd 0) as [|H0]; [done|]. split; [done|]. destruct (d_files d !! fd) as [f|] eqn:Ef; [|done].
  exists f. split; [done|]. cbn [fmap option_fmap option_map] in Hps. injection Hps as <-. unfold file_list.
  apply list_fmap_ext. intros i pid _. unfold view.
  destruct (pool_lookup p (fd, Z.of_nat pid)) as [j|] eqn:Ej; [|by rewrite (disk_page_file d fd _ f Ef)].
  apply (pool_lookup_holds _ _ _ _ _ F1) in Ej as (g & Hg & Hv & Hk). cbn. unfold frame_buf. rewrite Hg. cbn.
  pose proof (Hcl j g Hg) as Hd. rewrite Hv in Hd. pose proof (fo_clean _ _ (ok_frames _ _ _ F1 j g Hg) Hv Hd) as Hb.
  rewrite Hk, (disk_page_file d fd _ f Ef) in Hb. by injection Hb as <-.
Qed.
