(* ===== verification/Table.v ===== *)
(** * Tables (server/storage/table.c)

    The operations of one table over a page store, an index and the log.  The
    storage mutex makes each public operation one step: it is the [_unlocked]
    body.  [env] is the state all tables share, a [table] its own handle.

    [table_rep] is the abstract view: a table is a finite map from ids to the
    bytes of its live records. *)

From stdpp Require Import base tactics numbers list gmap.
From Stdlib Require Import ZArith Lia.
From S2P Require Import Prelude Types Utils Page BTree Wal BufferPool PageStore.

#[local] Open Scope Z_scope.

Definition CURRENT_TXN_ID : Z := 0.

(** Page store, log (with the outcomes of its coming writes), id counters. *)
Record env (S : Type) := Env {
  en_store : S; en_wal : wal; en_writes : writes; en_ids : list Z }.
Arguments Env {S}. Arguments en_store {S}. Arguments en_wal {S}.
Arguments en_writes {S}. Arguments en_ids {S}.

Record table (I : Type) := Table {
  t_id : Z; t_record_size : Z; t_data_fd : Z; t_pk_index : I }.
Arguments Table {I}. Arguments t_id {I}. Arguments t_record_size {I}.
Arguments t_data_fd {I}. Arguments t_pk_index {I}.

Definition set_store {S} (e : env S) (s : S) : env S := Env s (en_wal e) (en_writes e) (en_ids e).
Definition set_wal {S} (e : env S) (w : wal) (ws : writes) : env S := Env (en_store e) w ws (en_ids e).
Definition set_ids {S} (e : env S) (ids : list Z) : env S := Env (en_store e) (en_wal e) (en_writes e) ids.
Definition set_pk {I} (t : table I) (x : I) : table I := Table (t_id t) (t_record_size t) (t_data_fd t) x.

Section table_ops.
Context {S I : Type} {P : PageOps S} {X : IndexStore I}.
Implicit Types (e : env S) (t : table I).

(** ** Lifecycle *)

(** [fd] is what page_file_create or page_file_open returned, [index] what the
    index call returned. *)
Definition table_create e (id fd : Z) (index : option I) : option (table I) :=
  let record_size := etp_record_size id in
  if record_size =? 0 then None
  else if fd <? 0 then None
  else
    match index with
    | None => None
    | Some x => Some (Table id record_size fd x)
    end.

(** The largest id in the slots of one page; [None] for a legacy record. *)
Fixpoint max_id_slots (id : Z) (page : bytes) (slots : list nat) (max_id : Z) : option Z :=
  match slots with
  | [] => Some max_id
  | slot :: rest =>
      match page_get_record page (Z.of_nat slot) with
      | None => max_id_slots id page rest max_id
      | Some record =>
          let record_id := rd 4 (key_offset id) record in
          if (id =? TABLE_BOOKING_SEATS) && (record_id =? 0) then None
          else max_id_slots id page rest (if max_id <? record_id then record_id else max_id)
      end
  end.

Fixpoint max_id_pages (s : S) (id fd : Z) (pids : list nat) (max_id : Z) : S * option Z :=
  match pids with
  | [] => (s, Some max_id)
  | pid :: rest =>
      let '(s1, page) := ps_fetch s fd (Z.of_nat pid) in
      match page with
      | None => (s1, None)
      | Some i =>
          let buf := ps_buf s1 i in
          let r := max_id_slots id buf (seq 0 (Z.to_nat (page_get_record_count buf))) max_id in
          let s2 := ps_unpin s1 fd (Z.of_nat pid) in
          match r with
          | None => (s2, None)
          | Some m => max_id_pages s2 id fd rest m
          end
      end
  end.

Definition table_open e (id fd : Z) (index : option I) : env S * option (table I) :=
  let record_size := etp_record_size id in
  if record_size =? 0 then (e, None)
  else if fd <? 0 then (e, None)
  else
    match index with
    | None => (e, None)
    | Some x =>
        let pages := ps_count (en_store e) fd in
        let '(s1, r) := max_id_pages (en_store e) id fd (seq 0 (Z.to_nat pages)) 0 in
        let e1 := set_store e s1 in
        match r with
        | None => (e1, None)
        | Some max_id =>
            if max_id =? 4294967295 then (e1, None)
            else (set_ids e1 (etp_set_next_id (en_ids e1) id (u32 (max_id + 1))), Some (Table id record_size fd x))
        end
    end.

Definition table_flush_unlocked e : env S * Z :=
  let '(s, rc) := ps_flush_all (en_store e) in (set_store e s, rc).

(** ** Insert *)

(** The last page when it has space, else a new one. *)
Definition find_target (s : S) (t : table I) : S * Z :=
  let num_pages := ps_count s (t_data_fd t) in
  let '(s1, target) :=
    if 0 <? num_pages then
      let last_page := num_pages - 1 in
      let '(s1, page) := ps_fetch s (t_data_fd t) last_page in
      match page with
      | Some i =>
          let full := page_is_full (ps_buf s1 i) in
          (ps_unpin s1 (t_data_fd t) last_page, if full then INVALID_PAGE_ID else last_page)
      | None => (s1, INVALID_PAGE_ID)
      end
    else (s, INVALID_PAGE_ID) in
  if target =? INVALID_PAGE_ID then ps_alloc s1 (t_data_fd t) (t_record_size t) else (s1, target).

(** From the insertion into a pinned page on. *)
Definition insert_finish e t (new_id target : Z) (i : nat) (buf : bytes) (slot_id : Z)
    : env S * table I * etp_result_t * option Z :=
  let s1 := ps_store (en_store e) i buf in
  let s2 := ps_mark_dirty s1 (t_data_fd t) target in
  let s3 := ps_unpin s2 (t_data_fd t) target in
  let '(x, rc) := ix_insert (t_pk_index t) new_id (RecordPtr target (u16 slot_id)) in
  if negb (rc =? 0) then (set_store e s3, set_pk t x, ETP_ERR_IO, None)
  else (set_store e s3, set_pk t x, ETP_OK, Some new_id).

Definition table_insert_unlocked e t (record : bytes) : env S * table I * etp_result_t * option Z :=
  let '(ids, new_id) := etp_next_id (en_ids e) (t_id t) in
  let record := wr 4 (key_offset (t_id t)) new_id record in
  let '(s1, target) := find_target (en_store e) t in
  let e1 := set_ids (set_store e s1) ids in
  if target =? INVALID_PAGE_ID then (e1, t, ETP_ERR_IO, None)
  else
    let '(w, ws, lsn) := wal_log_insert (en_wal e1) (en_writes e1) CURRENT_TXN_ID (t_id t)
                           new_id record (t_record_size t) in
    let e2 := set_wal e1 w ws in
    if lsn =? INVALID_LSN then (e2, t, ETP_ERR_IO, None)
    else
      let '(s2, page) := ps_fetch (en_store e2) (t_data_fd t) target in
      let e3 := set_store e2 s2 in
      match page with
      | None => (e3, t, ETP_ERR_IO, None)
      | Some i =>
          let '(buf, slot_id) := page_insert_record (ps_buf s2 i) record in
          if slot_id <? 0 then
            let s3 := ps_unpin s2 (t_data_fd t) target in
            let '(s4, target) := ps_alloc s3 (t_data_fd t) (t_record_size t) in
            if target =? INVALID_PAGE_ID then (set_store e3 s4, t, ETP_ERR_FULL, None)
            else
              let '(s5, page) := ps_fetch s4 (t_data_fd t) target in
              match page with
              | None => (set_store e3 s5, t, ETP_ERR_IO, None)
              | Some i =>
                  let '(buf, slot_id) := page_insert_record (ps_buf s5 i) record in
                  if slot_id <? 0 then
                    (set_store e3 (ps_unpin s5 (t_data_fd t) target), t, ETP_ERR_FULL, None)
                  else insert_finish (set_store e3 s5) t new_id target i buf slot_id
              end
          else insert_finish e3 t new_id target i buf slot_id
      end.

(** ** Lookup, update and delete *)

Definition table_find_by_id_unlocked e t (id : Z) : env S * etp_result_t * option bytes :=
  match ix_search (t_pk_index t) id with
  | None => (e, ETP_ERR_NOT_FOUND, None)
  | Some ptr =>
      let '(s1, page) := ps_fetch (en_store e) (t_data_fd t) (rp_page_id ptr) in
      match page with
      | None => (set_store e s1, ETP_ERR_IO, None)
      | Some i =>
          let e' := set_store e (ps_unpin s1 (t_data_fd t) (rp_page_id ptr)) in
          match page_get_record (ps_buf s1 i) (rp_slot_id ptr) with
          | None => (e', ETP_ERR_NOT_FOUND, None)
          | Some record =>
              if is_record_deleted (t_id t) record then (e', ETP_ERR_NOT_FOUND, None)
              else (e', ETP_OK, Some (take (Z.to_nat (t_record_size t)) record))
          end
      end
  end.

Definition table_update_unlocked e t (id : Z) (new_record : bytes) : env S * etp_result_t :=
  match ix_search (t_pk_index t) id with
  | None => (e, ETP_ERR_NOT_FOUND)
  | Some ptr =>
      let fd := t_data_fd t in
      let pid := rp_page_id ptr in
      let '(s1, page) := ps_fetch (en_store e) fd pid in
      match page with
      | None => (set_store e s1, ETP_ERR_IO)
      | Some i =>
          let e1 := set_store e s1 in
          let unpinned e := set_store e (ps_unpin (en_store e) fd pid) in
          match page_get_record (ps_buf s1 i) (rp_slot_id ptr) with
          | None => (unpinned e1, ETP_ERR_NOT_FOUND)
          | Some old_record =>
              if is_record_deleted (t_id t) old_record then (unpinned e1, ETP_ERR_NOT_FOUND)
              else
                let '(w, ws, lsn) := wal_log_update (en_wal e1) (en_writes e1) CURRENT_TXN_ID (t_id t)
                                       id old_record new_record (t_record_size t) in
                let e2 := set_wal e1 w ws in
                if lsn =? INVALID_LSN then (unpinned e2, ETP_ERR_IO)
                else
                  let '(buf, rc) := page_update_record (ps_buf s1 i) (rp_slot_id ptr) new_record in
                  if negb (rc =? 0) then (unpinned e2, ETP_ERR_IO)
                  else (unpinned (set_store e2 (ps_mark_dirty (ps_store (en_store e2) i buf) fd pid)), ETP_OK)
          end
      end
  end.

(** The deletion flag is set through the record pointer, into the page buffer. *)
Definition set_deleted_in_page (id : Z) (page : bytes) (slot_id : Z) : bytes :=
  wr 1 (Z.to_nat (record_offset slot_id (h_record_size page)) + get_deleted_flag_offset id) 1 page.

Definition table_delete_unlocked e t (id : Z) : env S * table I * etp_result_t :=
  match ix_search (t_pk_index t) id with
  | None => (e, t, ETP_ERR_NOT_FOUND)
  | Some ptr =>
      let fd := t_data_fd t in
      let pid := rp_page_id ptr in
      let '(s1, page) := ps_fetch (en_store e) fd pid in
      match page with
      | None => (set_store e s1, t, ETP_ERR_IO)
      | Some i =>
          let e1 := set_store e s1 in
          let unpinned e := set_store e (ps_unpin (en_store e) fd pid) in
          match page_get_record (ps_buf s1 i) (rp_slot_id ptr) with
          | None => (unpinned e1, t, ETP_ERR_NOT_FOUND)
          | Some record =>
              if is_record_deleted (t_id t) record then (unpinned e1, t, ETP_ERR_NOT_FOUND)
              else
                let '(w, ws, lsn) := wal_log_delete (en_wal e1) (en_writes e1) CURRENT_TXN_ID (t_id t)
                                       id record (t_record_size t) in
                let e2 := set_wal e1 w ws in
                if lsn =? INVALID_LSN then (unpinned e2, t, ETP_ERR_IO)
                else
                  let buf := set_deleted_in_page (t_id t) (ps_buf s1 i) (rp_slot_id ptr) in
                  let s2 := ps_store (en_store e2) i buf in
                  let '(x, _) := ix_delete (t_pk_index t) id in
                  (unpinned (set_store e2 (ps_mark_dirty s2 fd pid)), set_pk t x, ETP_OK)
          end
      end
  end.

(** ** Scans *)

(** The slots of one page; [acc] is the result buffer so far. *)
Fixpoint scan_slots (id : Z) (filter : option (bytes -> bool)) (max_results : Z) (page : bytes)
    (slots : list nat) (acc : list bytes) : list bytes :=
  match slots with
  | [] => acc
  | slot :: rest =>
      if Z.of_nat (length acc) <? max_results then
        match page_get_record page (Z.of_nat slot) with
        | None => scan_slots id filter max_results page rest acc
        | Some record =>
            if is_record_deleted id record then scan_slots id filter max_results page rest acc
            else if match filter with Some f => negb (f record) | None => false end
            then scan_slots id filter max_results page rest acc
            else scan_slots id filter max_results page rest (acc ++ [record])
        end
      else acc
  end.

Fixpoint scan_pages (s : S) (id fd : Z) (filter : option (bytes -> bool)) (max_results : Z)
    (pids : list nat) (acc : list bytes) : S * list bytes :=
  match pids with
  | [] => (s, acc)
  | pid :: rest =>
      if Z.of_nat (length acc) <? max_results then
        let '(s1, page) := ps_fetch s fd (Z.of_nat pid) in
        match page with
        | None => scan_pages s1 id fd filter max_results rest acc
        | Some i =>
            let buf := ps_buf s1 i in
            let acc' := scan_slots id filter max_results buf (seq 0 (Z.to_nat (page_get_record_count buf))) acc in
            scan_pages (ps_unpin s1 fd (Z.of_nat pid)) id fd filter max_results rest acc'
        end
      else (s, acc)
  end.

(** The records copied out; the count returned is their number. *)
Definition table_scan_unlocked e t (filter : option (bytes -> bool)) (max_results : Z) : env S * list bytes :=
  if max_results <=? 0 then (e, [])
  else
    let num_pages := ps_count (en_store e) (t_data_fd t) in
    let '(s, found) := scan_pages (en_store e) (t_id t) (t_data_fd t) filter max_results
                         (seq 0 (Z.to_nat num_pages)) [] in
    (set_store e s, found).

Fixpoint count_slots (id : Z) (page : bytes) (slots : list nat) (count : Z) : Z :=
  match slots with
  | [] => count
  | slot :: rest =>
      match page_get_record page (Z.of_nat slot) with
      | None => count_slots id page rest count
      | Some record => count_slots id page rest (if is_record_deleted id record then count else count + 1)
      end
  end.

Fixpoint count_pages (s : S) (id fd : Z) (pids : list nat) (count : Z) : S * Z :=
  match pids with
  | [] => (s, count)
  | pid :: rest =>
      let '(s1, page) := ps_fetch s fd (Z.of_nat pid) in
      match page with
      | None => count_pages s1 id fd rest count
      | Some i =>
          let buf := ps_buf s1 i in
          let count' := count_slots id buf (seq 0 (Z.to_nat (page_get_record_count buf))) count in
          count_pages (ps_unpin s1 fd (Z.of_nat pid)) id fd rest count'
      end
  end.

Definition table_count_unlocked e t : env S * Z :=
  let num_pages := ps_count (en_store e) (t_data_fd t) in
  let '(s, n) := count_pages (en_store e) (t_id t) (t_data_fd t) (seq 0 (Z.to_nat num_pages)) 0 in
  (set_store e s, n).

End table_ops.
