(* ===== verification/TableSpec.v ===== *)
(** * Tables as finite maps

    The specification of Table.v and its proof, over the interfaces [PageLaws]
    and [IndexStore].  [table_rep] says that a handle represents a map from ids
    to live record bytes; each operation keeps it, with the map the
    specification names, whether the log accepts its record or not. *)

From stdpp Require Import base tactics numbers list list_numbers gmap.
From Stdlib Require Import ZArith Lia.
From S2P Require Import Prelude Types Utils Page BTree Wal BufferPool PageStore Table.

#[local] Open Scope Z_scope.

(** ** Records of a table's pages *)

Definition key (id : Z) (r : bytes) : Z := rd 4 (key_offset id) r.
Definition live (id : Z) (r : bytes) : bool := negb (is_record_deleted id r).

(** The record a pointer addresses. *)
Definition at_ptr (ps : list bytes) (ptr : record_ptr) : option bytes :=
  pg ← ps !! Z.to_nat (rp_page_id ptr); page_slots pg !! Z.to_nat (rp_slot_id ptr).

(** All live records, in page and slot order: what a scan goes through. *)
Definition live_records (id : Z) (ps : list bytes) : list bytes :=
  filter (fun r => live id r = true) (mjoin (page_slots <$> ps)).

(** [ptr] addresses the live record [r]. *)
Definition locates (id : Z) (ps : list bytes) (ptr : record_ptr) (r : bytes) : Prop :=
  record_ptr_ok ptr /\ at_ptr ps ptr = Some r /\ live id r = true.

(** Pages, index map and the finite map agree. *)
Record indexed (id : Z) (ps : list bytes) (ix : gmap Z record_ptr) (M : gmap Z bytes) : Prop := Indexed {
  in_index : forall k ptr, ix !! k = Some ptr <-> exists r, locates id ps ptr r /\ key id r = k;
  in_map : forall k r, M !! k = Some r <-> exists ptr, locates id ps ptr r /\ key id r = k }.

Section rep.
Context {S I : Type} {P : PageOps S} {L : PageLaws S} {X : IndexStore I}.

Record table_pages (s : S) (ids : list Z) (t : table I) (room : Z) (ps : list bytes) (M : gmap Z bytes) : Prop := TablePages {
  tp_id : table_in_range (t_id t) = true;
  tp_size : t_record_size t = etp_record_size (t_id t);
  tp_pages : ps_pages s (t_data_fd t) = Some ps;
  tp_wf : Forall (page_wf (t_record_size t)) ps;
  tp_len : 0 <= room /\ Z.of_nat (length ps) + room < INVALID_PAGE_ID;
  tp_ix : ix_wf (t_pk_index t);
  tp_indexed : indexed (t_id t) ps (ix_map (t_pk_index t)) M;
  tp_next : exists n, ids !! Z.to_nat (t_id t) = Some n /\ 0 < n /\ n + room < 2 ^ 32 /\
    forall ptr r, at_ptr ps ptr = Some r -> 0 < key (t_id t) r < n }.

(** A handle represents the map [M] and can take [room] more insertions before
    its page numbers or ids run out of 32 bits. *)
Definition table_rep (s : S) (ids : list Z) (t : table I) (room : Z) (M : gmap Z bytes) : Prop :=
  exists ps, table_pages s ids t room ps M.
End rep.

(** ** Records and pages: lemmas *)

Lemma at_ptr_page ps ptr r : at_ptr ps ptr = Some r <->
  exists pg, ps !! Z.to_nat (rp_page_id ptr) = Some pg /\ page_slots pg !! Z.to_nat (rp_slot_id ptr) = Some r.
Proof. unfold at_ptr. apply bind_Some. Qed.

(** A page replaced: only its own slots can change. *)
Lemma at_ptr_insert ps pid pg pg' ptr : ps !! pid = Some pg ->
  at_ptr (<[pid := pg']> ps) ptr =
    if decide (Z.to_nat (rp_page_id ptr) = pid) then page_slots pg' !! Z.to_nat (rp_slot_id ptr) else at_ptr ps ptr.
Proof.
  intros Hpg. unfold at_ptr. case_decide as H.
  - rewrite H, list_lookup_insert_eq by (by eapply lookup_lt_Some). done.
  - by rewrite list_lookup_insert_ne by congruence.
Qed.

Lemma at_ptr_snoc ps pg ptr : page_slots pg = [] -> at_ptr (ps ++ [pg]) ptr = at_ptr ps ptr.
Proof.
  intros Hpg. unfold at_ptr. destruct (decide (Z.to_nat (rp_page_id ptr) < length ps)%nat).
  - by rewrite lookup_app_l.
  - rewrite lookup_app_r, (lookup_ge_None_2 ps) by lia.
    destruct (Z.to_nat (rp_page_id ptr) - length ps)%nat as [|m] eqn:E; cbn; [by rewrite Hpg|done].
Qed.

Lemma ptr_eq ptr ptr' : record_ptr_ok ptr -> record_ptr_ok ptr' ->
  Z.to_nat (rp_page_id ptr) = Z.to_nat (rp_page_id ptr') -> Z.to_nat (rp_slot_id ptr) = Z.to_nat (rp_slot_id ptr') ->
  ptr = ptr'.
Proof. destruct ptr, ptr'. unfold record_ptr_ok. cbn. intros. f_equal; lia. Qed.

(** Replacing the content of one location. *)
Definition upd_at (at0 : record_ptr -> option bytes) (p0 : record_ptr) (r : bytes) (ptr : record_ptr) : option bytes :=
  if decide (ptr = p0) then Some r else at0 ptr.

Lemma at_ptr_overwrite ps pid pg pg' p0 r :
  ps !! pid = Some pg -> record_ptr_ok p0 -> pid = Z.to_nat (rp_page_id p0) ->
  (Z.to_nat (rp_slot_id p0) < length (page_slots pg))%nat ->
  page_slots pg' = <[Z.to_nat (rp_slot_id p0) := r]> (page_slots pg) ->
  forall ptr, record_ptr_ok ptr -> at_ptr (<[pid := pg']> ps) ptr = upd_at (at_ptr ps) p0 r ptr.
Proof.
  intros Hpg Hp0 -> Hslot Hs ptr Hptr. rewrite (at_ptr_insert _ _ pg) by done. unfold upd_at.
  case_decide as H1; case_decide as H2.
  - subst ptr. rewrite Hs. by apply list_lookup_insert_eq.
  - rewrite Hs, list_lookup_insert_ne.
    + unfold at_ptr. by rewrite H1, Hpg.
    + intros He. apply H2. by apply ptr_eq.
  - subst ptr. done.
  - done.
Qed.

Lemma at_ptr_append ps pid pg pg' p0 r :
  ps !! pid = Some pg -> record_ptr_ok p0 -> pid = Z.to_nat (rp_page_id p0) ->
  Z.to_nat (rp_slot_id p0) = length (page_slots pg) ->
  page_slots pg' = page_slots pg ++ [r] ->
  forall ptr, record_ptr_ok ptr -> at_ptr (<[pid := pg']> ps) ptr = upd_at (at_ptr ps) p0 r ptr.
Proof.
  intros Hpg Hp0 -> Hslot Hs ptr Hptr. rewrite (at_ptr_insert _ _ pg) by done. unfold upd_at.
  case_decide as H1; case_decide as H2.
  - subst ptr. rewrite Hs, Hslot. by apply list_lookup_middle.
  - rewrite Hs. unfold at_ptr. rewrite H1, Hpg. cbn [mbind option_bind].
    assert (Hne : Z.to_nat (rp_slot_id ptr) <> length (page_slots pg)).
    { rewrite <- Hslot. intros He. apply H2. by apply ptr_eq. }
    destruct (decide (Z.to_nat (rp_slot_id ptr) < length (page_slots pg))%nat).
    + by rewrite lookup_app_l.
    + rewrite !lookup_ge_None_2; [done| |rewrite length_app; cbn]; lia.
  - subst ptr. done.
  - done.
Qed.

(** ** The map under changes of one location *)

Section indexed.
Context (id : Z) (ps ps' : list bytes) (ix : gmap Z record_ptr) (M : gmap Z bytes).

Lemma locates_inj ptr ptr' r r' : indexed id ps ix M -> locates id ps ptr r -> locates id ps ptr' r' ->
  key id r = key id r' -> ptr = ptr' /\ r = r'.
Proof.
  intros Hi H H' Hk. assert (H1 : ix !! key id r = Some ptr) by (apply (in_index _ _ _ _ Hi); eauto).
  assert (H2 : ix !! key id r = Some ptr') by (apply (in_index _ _ _ _ Hi); rewrite Hk; eauto).
  assert (ptr = ptr') as <- by congruence. split; [done|]. destruct H as (_ & ? & _), H' as (_ & ? & _). congruence.
Qed.

(** The lookup path of the operations: index, then page. *)
Lemma indexed_lookup k : indexed id ps ix M ->
  match ix !! k with
  | Some ptr => exists r, locates id ps ptr r /\ key id r = k /\ M !! k = Some r
  | None => M !! k = None
  end.
Proof.
  intros Hi. destruct (ix !! k) as [ptr|] eqn:E.
  - pose proof E as (r & Hr & Hk)%(in_index _ _ _ _ Hi). exists r. split; [done|]. split; [done|].
    apply (in_map _ _ _ _ Hi). eauto.
  - destruct (M !! k) as [r|] eqn:EM; [|done]. apply (in_map _ _ _ _ Hi) in EM as (ptr & Hr & Hk).
    assert (ix !! k = Some ptr) by (apply (in_index _ _ _ _ Hi); eauto). congruence.
Qed.

Lemma indexed_ext : indexed id ps ix M -> (forall ptr, at_ptr ps' ptr = at_ptr ps ptr) -> indexed id ps' ix M.
Proof.
  intros [H1 H2] He. assert (Hl : forall ptr r, locates id ps' ptr r <-> locates id ps ptr r).
  { intros. unfold locates. by rewrite He. }
  constructor; intros; [rewrite H1|rewrite H2]; by setoid_rewrite Hl.
Qed.

Context (p0 : record_ptr) (r0 : bytes).
Hypothesis (Hp0 : record_ptr_ok p0).
Hypothesis (Hat : forall ptr, record_ptr_ok ptr -> at_ptr ps' ptr = upd_at (at_ptr ps) p0 r0 ptr).

Lemma locates_upd ptr r : locates id ps' ptr r <->
  (ptr = p0 /\ r = r0 /\ live id r0 = true) \/ (ptr <> p0 /\ locates id ps ptr r).
Proof.
  unfold locates. split.
  - intros (Hok & Ha & Hl). rewrite Hat in Ha by done. unfold upd_at in Ha. case_decide as E.
    + left. injection Ha as <-. done.
    + by right.
  - intros [(-> & -> & Hl)|(Hne & Hok & Ha & Hl)]; (split; [done|]); rewrite Hat by done; unfold upd_at.
    + by rewrite decide_True.
    + by rewrite decide_False.
Qed.

(** A live record at a location that held none. *)
Lemma indexed_insert k : indexed id ps ix M -> at_ptr ps p0 = None -> live id r0 = true -> key id r0 = k ->
  M !! k = None -> indexed id ps' (<[k := p0]> ix) (<[k := r0]> M).
Proof.
  intros Hi Hnone Hlive Hk Hnew.
  assert (Hno : forall ptr r, locates id ps ptr r -> ptr <> p0 /\ key id r <> k).
  { intros ptr r Hl. split.
    - intros ->. destruct Hl as (_ & Ha & _). congruence.
    - intros Hkr. assert (M !! k = Some r) by (apply (in_map _ _ _ _ Hi); eauto). congruence. }
  constructor.
  - intros k' ptr. rewrite lookup_insert_Some, (in_index _ _ _ _ Hi). setoid_rewrite locates_upd. split.
    + intros [[<- <-]|(Hne & r & Hr & Hkr)]; [exists r0; split; [by left|done]|].
      exists r. split; [|done]. right. split; [by apply (Hno ptr r)|done].
    + intros (r & [(-> & -> & _)|(_ & Hr)] & <-); [by left|].
      right. split; [destruct (Hno ptr r Hr); congruence|eauto].
  - intros k' r. rewrite lookup_insert_Some, (in_map _ _ _ _ Hi). setoid_rewrite locates_upd. split.
    + intros [[<- <-]|(Hne & ptr & Hr & Hkr)]; [exists p0; split; [by left|done]|].
      exists ptr. split; [|done]. right. split; [by apply (Hno ptr r)|done].
    + intros (ptr & [(-> & -> & _)|(_ & Hr)] & <-); [by left|].
      right. split; [destruct (Hno ptr r Hr); congruence|eauto].
Qed.

(** A live record over the live record with the same key. *)
Lemma indexed_update k old : indexed id ps ix M -> locates id ps p0 old -> key id old = k ->
  live id r0 = true -> key id r0 = k -> indexed id ps' ix (<[k := r0]> M).
Proof.
  intros Hi Hold Hko Hlive Hk.
  assert (Hno : forall ptr r, locates id ps ptr r -> key id r = k <-> ptr = p0).
  { intros ptr r Hl. split.
    - intros Hkr. by destruct (locates_inj ptr p0 r old Hi Hl Hold ltac:(congruence)).
    - intros ->. destruct Hl as (_ & ? & _), Hold as (_ & ? & _). congruence. }
  constructor.
  - intros k' ptr. rewrite (in_index _ _ _ _ Hi). setoid_rewrite locates_upd. split.
    + intros (r & Hr & Hkr). destruct (decide (ptr = p0)) as [->|Hne].
      * exists r0. split; [by left|]. rewrite <- Hkr, Hk. symmetry. by apply (Hno p0 r Hr).
      * exists r. split; [by right|done].
    + intros (r & [(-> & -> & _)|(Hne & Hr)] & Hkr); [exists old; split; [done|congruence]|eauto].
  - intros k' r. rewrite lookup_insert_Some, (in_map _ _ _ _ Hi). setoid_rewrite locates_upd. split.
    + intros [[<- <-]|(Hne & ptr & Hr & Hkr)]; [exists p0; split; [by left|done]|].
      exists ptr. split; [|done]. right. split; [|done]. intros ->. apply Hne. rewrite <- Hkr.
      symmetry. by apply (Hno p0 r Hr).
    + intros (ptr & [(-> & -> & _)|(Hne & Hr)] & <-); [by left|]. right.
      split; [|eauto]. intros He. apply Hne. by apply (Hno ptr r Hr).
Qed.

(** A dead record over the live record of [k]. *)
Lemma indexed_delete k old : indexed id ps ix M -> locates id ps p0 old -> key id old = k ->
  live id r0 = false -> indexed id ps' (delete k ix) (delete k M).
Proof.
  intros Hi Hold Hko Hdead.
  assert (Hno : forall ptr r, locates id ps ptr r -> key id r = k <-> ptr = p0).
  { intros ptr r Hl. split.
    - intros Hkr. by destruct (locates_inj ptr p0 r old Hi Hl Hold ltac:(congruence)).
    - intros ->. destruct Hl as (_ & ? & _), Hold as (_ & ? & _). congruence. }
  constructor; intros k' v; rewrite lookup_delete_Some, ?(in_index _ _ _ _ Hi), ?(in_map _ _ _ _ Hi);
    setoid_rewrite locates_upd; split.
  - intros (Hne & r & Hr & Hkr). exists r. split; [|done]. right. split; [|done].
    intros ->. apply Hne. rewrite <- Hkr. symmetry. by apply (Hno p0 r Hr).
  - intros (r & [(_ & _ & ?)|(Hne & Hr)] & <-); [congruence|]. split; [|eauto].
    intros He. apply Hne. by apply (Hno v r Hr).
  - intros (Hne & ptr & Hr & Hkr). exists ptr. split; [|done]. right. split; [|done].
    intros ->. apply Hne. rewrite <- Hkr. symmetry. by apply (Hno p0 v Hr).
  - intros (ptr & [(_ & _ & ?)|(Hne & Hr)] & <-); [congruence|]. split; [|eauto].
    intros He. apply Hne. by apply (Hno ptr v Hr).
Qed.
End indexed.

(** ** Key and deletion flag *)

Lemma table_cases id : table_in_range id = true ->
  id = TABLE_USERS \/ id = TABLE_EVENTS \/ id = TABLE_SEATS \/ id = TABLE_BOOKINGS \/ id = TABLE_BOOKING_SEATS.
Proof.
  unfold table_in_range, TABLE_COUNT, TABLE_USERS, TABLE_EVENTS, TABLE_SEATS, TABLE_BOOKINGS, TABLE_BOOKING_SEATS.
  intros. bool_to_prop. lia.
Qed.

(** Both lie inside the record and do not overlap. *)
Lemma key_flag_offsets id : table_in_range id = true ->
  (key_offset id + 4 <= Z.to_nat (etp_record_size id))%nat /\
  (get_deleted_flag_offset id + 1 <= Z.to_nat (etp_record_size id))%nat /\
  (key_offset id + 4 <= get_deleted_flag_offset id \/ get_deleted_flag_offset id + 1 <= key_offset id)%nat /\
  0 < etp_record_size id <= 4080.
Proof. intros [->|[->|[->|[->| ->]]]]%table_cases; vm_compute; repeat split; try discriminate; (left + right; lia). Qed.

Lemma key_set_key id n r : table_in_range id = true -> length r = Z.to_nat (etp_record_size id) -> 0 <= n < 2 ^ 32 ->
  key id (wr 4 (key_offset id) n r) = n /\ live id (wr 4 (key_offset id) n r) = live id r /\
  length (wr 4 (key_offset id) n r) = length r.
Proof.
  intros Hid Hl Hn. destruct (key_flag_offsets id Hid) as (H1 & H2 & H3 & _). unfold key, live, is_record_deleted.
  split; [rewrite rd_wr_same by lia; by apply u32_small|]. split; [|apply length_wr; lia].
  rewrite rd_wr_disjoint; [done|lia|lia].
Qed.

Lemma key_mark_deleted id r : table_in_range id = true -> length r = Z.to_nat (etp_record_size id) ->
  key id (mark_record_deleted id r) = key id r /\ live id (mark_record_deleted id r) = false /\
  length (mark_record_deleted id r) = length r.
Proof.
  intros Hid Hl. destruct (key_flag_offsets id Hid) as (H1 & H2 & H3 & _).
  unfold key, live, is_record_deleted, mark_record_deleted.
  split; [rewrite rd_wr_disjoint; [done|lia|lia]|]. split; [|apply length_wr; lia].
  rewrite rd_wr_same by lia. done.
Qed.

(** Setting the flag through the page buffer is writing the flagged record back. *)
Lemma set_deleted_spec id pg slot r : table_in_range id = true -> page_wf (etp_record_size id) pg ->
  0 <= slot -> page_slots pg !! Z.to_nat slot = Some r ->
  let pg' := set_deleted_in_page id pg slot in
  page_wf (etp_record_size id) pg' /\
  page_slots pg' = <[Z.to_nat slot := mark_record_deleted id r]> (page_slots pg) /\
  length r = Z.to_nat (etp_record_size id).
Proof.
  intros Hid Hwf Hs Hr. destruct (key_flag_offsets id Hid) as (_ & H2 & _ & _).
  pose proof (lookup_lt_Some _ _ _ Hr) as Hlt. rewrite length_page_slots in Hlt.
  pose proof (page_count_range _ _ Hwf) as Hcr.
  destruct (slot_poke _ pg slot (get_deleted_flag_offset id) 1 r Hwf ltac:(lia) Hr ltac:(lia)) as (Hp & Hl & Hl' & Hok).
  unfold set_deleted_in_page. rewrite (wf_rs _ _ Hwf), Hp. fold (mark_record_deleted id r).
  set (q := slot_write slot (mark_record_deleted id r) pg).
  assert (Hb : Forall byte_ok (mark_record_deleted id r)) by (unfold mark_record_deleted; auto with etp).
  assert (Hq : wr 2 10 (h_flags q) q = q).
  { destruct (slot_write_eq _ pg slot (mark_record_deleted id r) Hwf) as [Hq Hle];
      [destruct Hwf; lia|done|]. fold q in Hq.
    assert (Hlq : length q = PLEN) by (rewrite Hq, length_blit; destruct Hwf; lia).
    assert (Hbq : Forall byte_ok q) by (rewrite Hq; apply Forall_blit; [done|apply Hwf]).
    unfold wr, h_flags. rewrite le_enc_rd by (done || lia).
    apply blit_id; rewrite length_slice; [lia|]. f_equal. lia. }
  destruct (page_wf_flags _ pg (h_flags q) slot (mark_record_deleted id r) Hwf ltac:(lia) Hl' Hb) as (W1 & W2 & _).
  fold q in W1, W2. rewrite Hq in W1, W2. done.
Qed.

(** Overwriting one slot keeps the ids below a bound. *)
Lemma next_upd ps id ptr pg pg' r old n : ps !! Z.to_nat (rp_page_id ptr) = Some pg ->
  page_slots pg' = <[Z.to_nat (rp_slot_id ptr) := r]> (page_slots pg) ->
  at_ptr ps ptr = Some old -> key id r = key id old ->
  (forall q x, at_ptr ps q = Some x -> 0 < key id x < n) ->
  forall q x, at_ptr (<[Z.to_nat (rp_page_id ptr) := pg']> ps) q = Some x -> 0 < key id x < n.
Proof.
  intros Hpg Hs Hold Hk Hn q x. rewrite (at_ptr_insert _ _ pg) by done. case_decide as E; [|by apply Hn].
  rewrite Hs. intros [(_ & -> & _)|[_ Hx]]%list_lookup_insert_Some.
  - rewrite Hk. by apply (Hn ptr).
  - apply (Hn q). unfold at_ptr. by rewrite E, Hpg.
Qed.

(** Distinct positions with distinct keys: the keys of the live records. *)
Lemma NoDup_live id (l : list bytes) :
  (forall i j x y, l !! i = Some x -> l !! j = Some y -> live id x = true -> live id y = true ->
     key id x = key id y -> i = j) ->
  NoDup (key id <$> filter (fun r => live id r = true) l).
Proof.
  induction l as [|x l IH]; intros H; [constructor|].
  assert (IH' : NoDup (key id <$> filter (fun r => live id r = true) l)).
  { apply IH. intros i j a b Ha Hb La Lb Hk. specialize (H (Datatypes.S i) (Datatypes.S j) a b Ha Hb La Lb Hk). lia. }
  destruct (decide (live id x = true)) as [Hx|Hx].
  - rewrite filter_cons_True by done. rewrite fmap_cons. constructor; [|done].
    intros (y & Hk & [Hy [j Hj]%list_elem_of_lookup_1]%list_elem_of_filter)%list_elem_of_fmap.
    specialize (H 0%nat (Datatypes.S j) x y eq_refl Hj Hx Hy Hk). lia.
  - by rewrite filter_cons_False.
Qed.

(** ** One operation on one table *)

Section spec.
Context {S I : Type} {P : PageOps S} {L : PageLaws S} {X : IndexStore I}.
Implicit Types (e : env S) (t : table I) (M : gmap Z bytes).

(** The store changed in file [fd] only, to the pages [ps]. *)
Definition store_step (s s' : S) (fd : Z) (ps : list bytes) : Prop :=
  ps_idle s' /\ forall fd', ps_pages s' fd' = if decide (fd' = fd) then Some ps else ps_pages s fd'.

(** Other tables' files are as before. *)
Definition others_kept (s s' : S) (fd : Z) : Prop :=
  ps_idle s' /\ forall fd', fd' <> fd -> ps_pages s' fd' = ps_pages s fd'.

Lemma store_step_kept s s' fd ps : store_step s s' fd ps -> others_kept s s' fd.
Proof. intros [H1 H2]. split; [done|]. intros fd' Hne. by rewrite H2, decide_False. Qed.

Lemma same_step s s' fd ps : ps_idle s' -> ps_pages s fd = Some ps ->
  (forall fd', ps_pages s' fd' = ps_pages s fd') -> store_step s s' fd ps.
Proof. intros H1 Hps H2. split; [done|]. intros fd'. rewrite H2. case_decide; [by subst|done]. Qed.

Lemma store_step_trans s s1 s2 fd ps1 ps2 : store_step s s1 fd ps1 -> store_step s1 s2 fd ps2 -> store_step s s2 fd ps2.
Proof. intros [_ H1] [H2 H3]. split; [done|]. intros fd'. rewrite H3. case_decide; [done|]. by rewrite H1, decide_False. Qed.

Lemma store_step_pages s s' fd ps : store_step s s' fd ps -> ps_pages s' fd = Some ps.
Proof. intros [_ H]. by rewrite H, decide_True. Qed.

Lemma located_page s ids t room ps M ptr r : table_pages s ids t room ps M -> locates (t_id t) ps ptr r ->
  exists pg, ps !! Z.to_nat (rp_page_id ptr) = Some pg /\ page_wf (t_record_size t) pg /\
    page_get_record pg (rp_slot_id ptr) = Some r /\ page_slots pg !! Z.to_nat (rp_slot_id ptr) = Some r /\
    0 <= rp_slot_id ptr < h_record_count pg /\ length r = Z.to_nat (t_record_size t) /\ Forall byte_ok r /\
    Z.of_nat (Z.to_nat (rp_page_id ptr)) = rp_page_id ptr.
Proof.
  intros Ht (Hok & Hat & _). apply at_ptr_page in Hat as (pg & Hpg & Hr). exists pg.
  pose proof (Forall_lookup_1 _ _ _ _ (tp_wf _ _ _ _ _ _ Ht) Hpg) as Hwf.
  destruct Hok as [Hp Hs]. split; [done|]. split; [done|].
  split; [rewrite (page_get_record_slots _ _ _ Hwf) by lia; done|]. split; [done|].
  pose proof (lookup_lt_Some _ _ _ Hr) as Hlt. rewrite length_page_slots in Hlt.
  pose proof (page_count_range _ _ Hwf). split; [lia|].
  destruct (slot_poke _ pg (rp_slot_id ptr) 0 0 r Hwf ltac:(lia) Hr) as (_ & Hl & _ & Hb).
  { destruct Hwf. lia. }
  split; [done|]. split; [done|]. lia.
Qed.

(** Fetching the page of a located record. *)
Lemma fetch_located s ids t room ps M ptr r : ps_idle s -> table_pages s ids t room ps M -> locates (t_id t) ps ptr r ->
  exists s1 i pg, ps_fetch s (t_data_fd t) (rp_page_id ptr) = (s1, Some i) /\
    ps_held s1 (t_data_fd t) (rp_page_id ptr) i /\ ps_buf s1 i = pg /\
    (forall fd, ps_pages s1 fd = ps_pages s fd) /\ ps !! Z.to_nat (rp_page_id ptr) = Some pg /\
    page_get_record pg (rp_slot_id ptr) = Some r.
Proof.
  intros Hidle Ht Hl. destruct (located_page _ _ _ _ _ _ _ _ Ht Hl) as (pg & Hpg & _ & Hr & _ & _ & _ & _ & Hpid).
  destruct (ps_fetch_ok s _ _ ps pg Hidle (tp_pages _ _ _ _ _ _ Ht) Hpg) as (s1 & i & Hf & Hh & Hb & Hp).
  rewrite Hpid in Hf, Hh. by exists s1, i, pg.
Qed.

(** Writing the held page back and unpinning it. *)
Lemma put_unpin s0 s1 fd pid i ps b : ps_held s1 fd pid i -> 0 <= pid ->
  (forall fd', ps_pages s1 fd' = ps_pages s0 fd') -> ps_pages s0 fd = Some ps -> length b = PLEN ->
  store_step s0 (ps_unpin (ps_mark_dirty (ps_store s1 i b) fd pid) fd pid) fd (<[Z.to_nat pid := b]> ps).
Proof.
  intros Hh Hpid Hp Hps Hb. replace pid with (Z.of_nat (Z.to_nat pid)) in Hh |- * by lia.
  destruct (ps_put_ok s1 fd _ i b Hh Hb) as (Hh2 & _ & Hp2).
  destruct (ps_unpin_ok _ _ _ _ Hh2) as [Hi Hp3]. split; [done|]. intros fd'. rewrite Hp3, Hp2. rewrite Nat2Z.id.
  case_decide; [by rewrite Hp, Hps|done].
Qed.

Lemma rep_step s s' ids t room M : table_rep s ids t room M -> ps_pages s' (t_data_fd t) = ps_pages s (t_data_fd t) ->
  table_rep s' ids t room M.
Proof. intros (ps & [A1 A2 A3 A4 A5 A6 A7 A8]) Hp. exists ps. constructor; try done. by rewrite Hp. Qed.

(** Other tables are not touched. *)
Lemma rep_others s s' ids t fd room M : table_rep s ids t room M -> others_kept s s' fd -> t_data_fd t <> fd -> table_rep s' ids t room M.
Proof. intros Hr [_ Hp] Hne. eapply rep_step; [done|]. by apply Hp. Qed.

(** ** table_find_by_id *)

Lemma find_spec e t id room M : ps_idle (en_store e) -> table_rep (en_store e) (en_ids e) t room M -> uint_ok 32 id ->
  let '(e', rc, out) := table_find_by_id_unlocked e t id in
  (rc, out) = match M !! id with Some r => (ETP_OK, Some r) | None => (ETP_ERR_NOT_FOUND, None) end /\
  en_wal e' = en_wal e /\ en_writes e' = en_writes e /\ en_ids e' = en_ids e /\
  ps_idle (en_store e') /\ (forall fd, ps_pages (en_store e') fd = ps_pages (en_store e) fd).
Proof.
  intros Hidle (ps & Ht) Hid. unfold table_find_by_id_unlocked.
  rewrite (ix_search_ok _ _ (tp_ix _ _ _ _ _ _ Ht) Hid).
  pose proof (indexed_lookup _ _ _ _ id (tp_indexed _ _ _ _ _ _ Ht)) as Hl.
  destruct (ix_map (t_pk_index t) !! id) as [ptr|]; [|by rewrite Hl].
  destruct Hl as (r & Hloc & Hk & HM). rewrite HM.
  destruct (fetch_located _ _ _ _ _ _ _ _ Hidle Ht Hloc) as (s1 & i & pg & Hf & Hh & Hb & Hp & Hpg & Hr).
  destruct (located_page _ _ _ _ _ _ _ _ Ht Hloc) as (_ & _ & _ & _ & _ & _ & Hlen & _).
  rewrite Hf, Hb, Hr. destruct Hloc as (_ & _ & Hlive). unfold live in Hlive. apply negb_true_iff in Hlive. rewrite Hlive.
  destruct (ps_unpin_ok _ _ _ _ Hh) as [Hi Hp2]. split; [by rewrite take_ge by lia|].
  split; [done|]. split; [done|]. split; [done|]. split; [done|]. intros fd. cbn. by rewrite Hp2, Hp.
Qed.

(** ** table_update *)

(** The outcome of a logged operation: when the log accepted the record, the map
    [M1] and success; otherwise [M] and an I/O error.  The log always is what the
    logging call left. *)
Definition logged (l : wal * writes * Z) (e' : env S) : Prop :=
  en_wal e' = l.1.1 /\ en_writes e' = l.1.2.

Lemma update_spec e t id room M r : ps_idle (en_store e) -> table_rep (en_store e) (en_ids e) t room M -> uint_ok 32 id ->
  length r = Z.to_nat (t_record_size t) -> Forall byte_ok r -> live (t_id t) r = true -> key (t_id t) r = id ->
  let '(e', rc) := table_update_unlocked e t id r in
  en_ids e' = en_ids e /\ others_kept (en_store e) (en_store e') (t_data_fd t) /\
  match M !! id with
  | None => rc = ETP_ERR_NOT_FOUND /\ e' = e
  | Some old =>
      let l := wal_log_update (en_wal e) (en_writes e) CURRENT_TXN_ID (t_id t) id old r (t_record_size t) in
      logged l e' /\
      if l.2 =? INVALID_LSN then rc = ETP_ERR_IO /\ table_rep (en_store e') (en_ids e') t room M
      else rc = ETP_OK /\ table_rep (en_store e') (en_ids e') t room (<[id := r]> M)
  end.
Proof.
  intros Hidle (ps & Ht) Hid Hlr Hbr Hlive Hk. unfold table_update_unlocked.
  rewrite (ix_search_ok _ _ (tp_ix _ _ _ _ _ _ Ht) Hid).
  pose proof (indexed_lookup _ _ _ _ id (tp_indexed _ _ _ _ _ _ Ht)) as Hl.
  destruct (ix_map (t_pk_index t) !! id) as [ptr|]; [|by rewrite Hl].
  destruct Hl as (old & Hloc & Hko & HM). rewrite HM.
  destruct (fetch_located _ _ _ _ _ _ _ _ Hidle Ht Hloc) as (s1 & i & pg & Hf & Hh & Hb & Hp & Hpg & Hr).
  destruct (located_page _ _ _ _ _ _ _ _ Ht Hloc) as (pg' & Hpg' & Hwf & _ & Hsl & Hslot & _).
  assert (pg' = pg) as -> by congruence.
  rewrite Hf, Hb, Hr. pose proof Hloc as (Hptr & _ & Hlo). pose proof Hlo as Hlo'.
  unfold live in Hlo. apply negb_true_iff in Hlo. rewrite Hlo.
  cbn [set_store en_wal en_writes]. set (l := wal_log_update _ _ _ _ _ _ _ _). destruct l as [[w ws] lsn] eqn:El.
  cbn [fst snd]. destruct (Z.eqb_spec lsn INVALID_LSN) as [Hlsn|Hlsn].
  - destruct (ps_unpin_ok _ _ _ _ Hh) as [Hi Hp2]. cbn [set_store set_wal en_store en_ids].
    split; [done|]. split; [split; [done|]; intros; by rewrite Hp2, Hp|]. split; [done|]. split; [done|].
    eapply rep_step; [by exists ps|]. by rewrite Hp2, Hp.
  - destruct (page_update_spec _ pg (rp_slot_id ptr) r Hwf Hslot Hlr Hbr) as (pg' & Hu & Hwf' & Hsl').
    rewrite Hu. cbn [Z.eqb negb set_store set_wal en_store en_ids].
    pose proof (put_unpin _ s1 _ _ i ps pg' Hh ltac:(unfold record_ptr_ok in Hptr; lia) Hp (tp_pages _ _ _ _ _ _ Ht) (wf_length _ _ Hwf')) as Hst.
    split; [done|]. split; [by eapply store_step_kept|]. split; [done|]. split; [done|].
    exists (<[Z.to_nat (rp_page_id ptr) := pg']> ps).
    assert (Hat : forall q, record_ptr_ok q ->
      at_ptr (<[Z.to_nat (rp_page_id ptr) := pg']> ps) q = upd_at (at_ptr ps) ptr r q).
    { apply (at_ptr_overwrite ps _ pg pg' ptr r Hpg Hptr eq_refl); [|done]. by eapply lookup_lt_Some. }
    destruct Ht as [A1 A2 A3 A4 A5 A6 A7 (n & A8 & A9 & A9r & A10)]. constructor; try done.
    + by apply store_step_pages in Hst.
    + by apply Forall_insert.
    + by rewrite length_insert.
    + by apply (indexed_update _ ps _ _ M ptr r Hptr Hat id old).
    + exists n. split; [done|]. split; [done|]. split; [done|]. apply (next_upd ps _ ptr pg pg' r old); [done|done|apply Hloc|congruence|done].
Qed.

(** ** table_delete *)

Lemma delete_spec e t id room M : ps_idle (en_store e) -> table_rep (en_store e) (en_ids e) t room M -> uint_ok 32 id ->
  let '(e', t', rc) := table_delete_unlocked e t id in
  en_ids e' = en_ids e /\ others_kept (en_store e) (en_store e') (t_data_fd t) /\
  t_id t' = t_id t /\ t_data_fd t' = t_data_fd t /\
  match M !! id with
  | None => rc = ETP_ERR_NOT_FOUND /\ e' = e /\ t' = t
  | Some old =>
      let l := wal_log_delete (en_wal e) (en_writes e) CURRENT_TXN_ID (t_id t) id old (t_record_size t) in
      logged l e' /\
      if l.2 =? INVALID_LSN then rc = ETP_ERR_IO /\ table_rep (en_store e') (en_ids e') t' room M
      else rc = ETP_OK /\ table_rep (en_store e') (en_ids e') t' room (delete id M)
  end.
Proof.
  intros Hidle (ps & Ht) Hid. unfold table_delete_unlocked.
  rewrite (ix_search_ok _ _ (tp_ix _ _ _ _ _ _ Ht) Hid).
  pose proof (indexed_lookup _ _ _ _ id (tp_indexed _ _ _ _ _ _ Ht)) as Hl.
  destruct (ix_map (t_pk_index t) !! id) as [ptr|] eqn:Eix; [|by rewrite Hl].
  destruct Hl as (old & Hloc & Hko & HM). rewrite HM.
  destruct (fetch_located _ _ _ _ _ _ _ _ Hidle Ht Hloc) as (s1 & i & pg & Hf & Hh & Hb & Hp & Hpg & Hr).
  destruct (located_page _ _ _ _ _ _ _ _ Ht Hloc) as (pg' & Hpg' & Hwf & _ & Hsl & Hslot & _).
  assert (pg' = pg) as -> by congruence.
  rewrite Hf, Hb, Hr. pose proof Hloc as (Hptr & _ & Hlo).
  unfold live in Hlo. apply negb_true_iff in Hlo. rewrite Hlo.
  cbn [set_store en_wal en_writes]. set (l := wal_log_delete _ _ _ _ _ _ _). destruct l as [[w ws] lsn] eqn:El.
  cbn [fst snd]. destruct (Z.eqb_spec lsn INVALID_LSN) as [Hlsn|Hlsn].
  - destruct (ps_unpin_ok _ _ _ _ Hh) as [Hi Hp2]. cbn [set_store set_wal en_store en_ids].
    split; [done|]. split; [split; [done|]; intros; by rewrite Hp2, Hp|]. split; [done|]. split; [done|].
    split; [done|]. split; [done|]. eapply rep_step; [by exists ps|]. by rewrite Hp2, Hp.
  - pose proof (tp_id _ _ _ _ _ _ Ht) as Htid. pose proof (tp_size _ _ _ _ _ _ Ht) as Hsz. rewrite Hsz in Hwf.
    destruct (set_deleted_spec (t_id t) pg (rp_slot_id ptr) old Htid Hwf ltac:(lia) Hsl) as (Hwf' & Hsl' & Hlo2).
    set (pg' := set_deleted_in_page _ _ _) in *.
    destruct (key_mark_deleted (t_id t) old Htid Hlo2) as (Hk' & Hdead & _).
    destruct (ix_delete (t_pk_index t) id) as [x rc] eqn:Ex.
    pose proof (ix_delete_ok _ _ _ _ (tp_ix _ _ _ _ _ _ Ht) Hid Ex) as Hix. rewrite Eix in Hix. destruct Hix as (-> & Hxwf & Hxm).
    cbn [set_store set_wal set_pk en_store en_ids].
    pose proof (put_unpin _ s1 _ _ i ps pg' Hh ltac:(unfold record_ptr_ok in Hptr; lia) Hp (tp_pages _ _ _ _ _ _ Ht) (wf_length _ _ Hwf')) as Hst.
    split; [done|]. split; [by eapply store_step_kept|]. do 4 (split; [done|]).
    exists (<[Z.to_nat (rp_page_id ptr) := pg']> ps).
    assert (Hat : forall q, record_ptr_ok q ->
      at_ptr (<[Z.to_nat (rp_page_id ptr) := pg']> ps) q = upd_at (at_ptr ps) ptr (mark_record_deleted (t_id t) old) q).
    { apply (at_ptr_overwrite ps _ pg pg' ptr _ Hpg Hptr eq_refl); [|done]. by eapply lookup_lt_Some. }
    destruct Ht as [A1 A2 A3 A4 A5 A6 A7 (n & A8 & A9 & A9r & A10)].
    constructor; cbn [set_pk t_id t_data_fd t_record_size t_pk_index]; try done.
    + by apply store_step_pages in Hst.
    + apply Forall_insert; [done|]. by rewrite A2.
    + by rewrite length_insert.
    + rewrite Hxm. by apply (indexed_delete _ ps _ _ M ptr _ Hptr Hat id old).
    + exists n. split; [done|]. split; [done|]. split; [done|].
      apply (next_upd ps _ ptr pg pg' (mark_record_deleted (t_id t) old) old); [done|done|apply Hloc|done|done].
Qed.

(** ** table_insert *)

(** A page with room at the end of the file. *)
Lemma find_target_spec s ids t room ps M : ps_idle s -> table_pages s ids t room ps M ->
  0 < room ->
  exists s' target ps' pg, find_target s t = (s', target) /\ store_step s s' (t_data_fd t) ps' /\
    ps' !! Z.to_nat target = Some pg /\ 0 <= target < INVALID_PAGE_ID /\ page_wf (t_record_size t) pg /\
    page_is_full pg = false /\ Forall (page_wf (t_record_size t)) ps' /\
    Z.of_nat (length ps') + (room - 1) < INVALID_PAGE_ID /\ forall ptr, at_ptr ps' ptr = at_ptr ps ptr.
Proof.
  intros Hidle Ht Hroom. pose proof Ht as [A1 A2 A3 A4 [_ A5] A6 A7 A8]. unfold INVALID_PAGE_ID in *.
  assert (Hrs : 0 < t_record_size t <= 4080) by (rewrite A2; by apply key_flag_offsets).
  assert (Hfresh : forall s1, ps_idle s1 -> (forall fd, ps_pages s1 fd = ps_pages s fd) ->
    exists s' target ps' pg, ps_alloc s1 (t_data_fd t) (t_record_size t) = (s', target) /\ store_step s s' (t_data_fd t) ps' /\
      ps' !! Z.to_nat target = Some pg /\ 0 <= target < 4294967295 /\ page_wf (t_record_size t) pg /\
      page_is_full pg = false /\ Forall (page_wf (t_record_size t)) ps' /\
      Z.of_nat (length ps') + (room - 1) < 4294967295 /\ forall ptr, at_ptr ps' ptr = at_ptr ps ptr).
  { intros s1 Hi1 Hp1. destruct (ps_alloc_ok s1 (t_data_fd t) (t_record_size t) ps Hi1) as (s' & Ha & Hi' & Hp');
      [by rewrite Hp1|lia|lia|]. set (pg := page_init_header _ _) in *.
    assert (Hwf : page_wf (t_record_size t) pg) by by apply page_init_wf.
    assert (Hsl : page_slots pg = []) by by apply page_init_slots with (rs := t_record_size t).
    exists s', (Z.of_nat (length ps)), (ps ++ [pg]), pg. split; [done|].
    split; [split; [done|]; intros fd; rewrite Hp'; case_decide; [done|apply Hp1]|].
    rewrite Nat2Z.id. split; [by apply list_lookup_middle|]. split; [lia|]. split; [done|]. split.
    - destruct (page_is_full pg) eqn:E; [|done]. apply (page_is_full_iff _ _ Hwf) in E.
      pose proof (length_page_slots pg) as Hc. rewrite Hsl in Hc. cbn in Hc.
      pose proof (Z.div_str_pos 4080 (t_record_size t) ltac:(lia)). pose proof (page_count_range _ _ Hwf). lia.
    - split; [apply Forall_app; auto|]. rewrite length_app. cbn [length]. split; [lia|].
      intros ptr. by apply at_ptr_snoc. }
  unfold find_target. rewrite (ps_count_ok s _ ps A3) by lia.
  destruct (Z.ltb_spec 0 (Z.of_nat (length ps))) as [Hpos|Hzero].
  2:{ rewrite Z.eqb_refl. by apply Hfresh. }
  destruct (lookup_lt_is_Some_2 ps (length ps - 1)%nat ltac:(lia)) as [pg Hpg].
  destruct (ps_fetch_ok s _ _ ps pg Hidle A3 Hpg) as (s1 & i & Hf & Hh & Hb & Hp).
  replace (Z.of_nat (length ps) - 1) with (Z.of_nat (length ps - 1)) by lia. rewrite Hf, Hb.
  destruct (ps_unpin_ok _ _ _ _ Hh) as [Hi2 Hp2].
  assert (Hsame : forall fd, ps_pages (ps_unpin s1 (t_data_fd t) (Z.of_nat (length ps - 1))) fd = ps_pages s fd)
    by (intros; by rewrite Hp2, Hp).
  destruct (page_is_full pg) eqn:Efull.
  { rewrite Z.eqb_refl. by apply Hfresh. }
  unfold INVALID_PAGE_ID. destruct (Z.eqb_spec (Z.of_nat (length ps - 1)) 4294967295); [lia|].
  eexists _, _, ps, pg. split; [reflexivity|]. split; [by apply same_step|]. rewrite Nat2Z.id.
  split; [done|]. split; [lia|]. split; [by eapply Forall_lookup_1|]. split; [done|]. split; [done|]. split; [lia|done].
Qed.

Lemma insert_spec e t r n room M : ps_idle (en_store e) -> table_rep (en_store e) (en_ids e) t room M ->
  en_ids e !! Z.to_nat (t_id t) = Some n -> 0 < room ->
  length r = Z.to_nat (t_record_size t) -> Forall byte_ok r -> live (t_id t) r = true ->
  let r' := wr 4 (key_offset (t_id t)) n r in
  let '(e', t', rc, out) := table_insert_unlocked e t r in
  let l := wal_log_insert (en_wal e) (en_writes e) CURRENT_TXN_ID (t_id t) n r' (t_record_size t) in
  en_ids e' = <[Z.to_nat (t_id t) := n + 1]> (en_ids e) /\ others_kept (en_store e) (en_store e') (t_data_fd t) /\
  t_id t' = t_id t /\ t_data_fd t' = t_data_fd t /\ t_record_size t' = t_record_size t /\
  M !! n = None /\ logged l e' /\
  if l.2 =? INVALID_LSN then rc = ETP_ERR_IO /\ out = None /\ table_rep (en_store e') (en_ids e') t' (room - 1) M
  else rc = ETP_OK /\ out = Some n /\ table_rep (en_store e') (en_ids e') t' (room - 1) (<[n := r']> M).
Proof.
  intros Hidle (ps & Ht) Hn Hroom Hlr Hbr Hlive r'.
  pose proof Ht as [A1 A2 A3 A4 A5 A6 A7 (n0 & A8 & A9 & A9r & A10)].
  assert (n0 = n) as -> by congruence. clear A8. unfold INVALID_PAGE_ID in *.
  destruct (key_set_key (t_id t) n r A1 ltac:(by rewrite <- A2) ltac:(lia)) as (Hk & Hl' & Hlen). fold r' in Hk, Hl', Hlen.
  assert (HMn : M !! n = None).
  { destruct (M !! n) as [x|] eqn:E; [|done]. apply (in_map _ _ _ _ A7) in E as (ptr & (_ & Hat & _) & Hkx).
    pose proof (A10 _ _ Hat). lia. }
  destruct (find_target_spec _ _ _ _ _ _ Hidle Ht Hroom) as (s1 & target & ps1 & pg & Hft & Hst1 & Hpg & Htar & Hwf & Hfull & Hall & Hlen1 & Hat1).
  unfold table_insert_unlocked. rewrite (next_id_spec _ _ _ Hn A1), Hft. fold r'.
  rewrite (u32_small (n + 1)) by lia. unfold INVALID_PAGE_ID in *.
  destruct (Z.eqb_spec target 4294967295); [lia|]. cbn [set_ids set_store en_wal en_writes].
  set (l := wal_log_insert _ _ _ _ _ _ _). destruct l as [[w ws] lsn] eqn:El. cbn [fst snd].
  set (ids' := <[Z.to_nat (t_id t) := n + 1]> (en_ids e)).
  assert (Hrep1 : forall s', store_step (en_store e) s' (t_data_fd t) ps1 -> table_pages s' ids' t (room - 1) ps1 M).
  { intros s' Hs'. constructor; try done; [by apply store_step_pages in Hs'|split; [lia|done]|by eapply indexed_ext|].
    exists (n + 1). split; [apply list_lookup_insert_eq; by eapply lookup_lt_Some|]. split; [lia|]. split; [lia|].
    intros ptr x Hx. rewrite Hat1 in Hx. pose proof (A10 _ _ Hx). lia. }
  destruct (Z.eqb_spec lsn INVALID_LSN) as [Hlsn|Hlsn].
  { cbn [set_wal set_ids set_store en_ids en_store]. split; [done|]. split; [by eapply store_step_kept|].
    do 5 (split; [done|]). split; [done|]. split; [done|]. exists ps1. by apply Hrep1. }
  pose proof (Hrep1 s1 Hst1) as Ht1. pose proof Hst1 as [Hi1 _].
  destruct (ps_fetch_ok s1 (t_data_fd t) _ ps1 pg Hi1 (tp_pages _ _ _ _ _ _ Ht1) Hpg) as (s2 & i & Hf & Hh & Hb & Hp2).
  rewrite Z2Nat.id in Hf, Hh by lia. cbn [set_wal set_ids set_store en_store]. rewrite Hf, Hb.
  destruct (page_insert_spec _ pg r' Hwf Hfull ltac:(lia) ltac:(unfold r'; auto with etp)) as (pg' & Hins & Hwf' & Hsl & _).
  rewrite Hins. pose proof (page_count_range _ _ Hwf) as Hcr. destruct (Z.ltb_spec (h_record_count pg) 0); [lia|].
  unfold insert_finish. cbn [set_wal set_ids set_store en_store]. rewrite u16_small by lia.
  set (p0 := RecordPtr target (h_record_count pg)).
  assert (Hp0 : record_ptr_ok p0) by (unfold record_ptr_ok; cbn; lia).
  destruct (ix_insert (t_pk_index t) n p0) as [x rc] eqn:Ex.
  pose proof (ix_insert_ok _ n _ _ _ A6 ltac:(lia) Ex) as Hix.
  assert (Hixn : ix_map (t_pk_index t) !! n = None).
  { pose proof (indexed_lookup _ _ _ _ n A7) as Hl. destruct (ix_map (t_pk_index t) !! n); [|done].
    destruct Hl as (y & _ & _ & Hy). congruence. }
  rewrite Hixn in Hix. destruct Hix as (-> & Hxwf & Hxm). cbn [Z.eqb negb en_wal en_writes en_ids en_store set_pk set_store set_wal].
  pose proof (put_unpin s1 s2 _ _ i ps1 pg' Hh ltac:(lia) Hp2 (tp_pages _ _ _ _ _ _ Ht1) (wf_length _ _ Hwf')) as Hst2.
  split; [done|]. split; [eapply store_step_kept, store_step_trans; [exact Hst1|exact Hst2]|].
  do 5 (split; [done|]). split; [done|]. split; [done|].
  exists (<[Z.to_nat target := pg']> ps1).
  assert (Hat : forall q, record_ptr_ok q -> at_ptr (<[Z.to_nat target := pg']> ps1) q = upd_at (at_ptr ps1) p0 r' q).
  { apply (at_ptr_append ps1 _ pg pg' p0 r' Hpg Hp0 eq_refl); [|done]. by rewrite length_page_slots. }
  constructor; cbn [set_pk t_id t_data_fd t_record_size t_pk_index]; try done.
  - by apply store_step_pages in Hst2.
  - by apply Forall_insert.
  - rewrite length_insert. split; [lia|done].
  - rewrite Hxm. apply (indexed_insert _ ps1 _ _ M p0 r' Hp0 Hat n); [apply (tp_indexed _ _ _ _ _ _ Ht1)| |congruence|done|done].
    unfold at_ptr. cbn. rewrite Hpg. cbn. apply lookup_ge_None. by rewrite length_page_slots.
  - exists (n + 1). split; [apply list_lookup_insert_eq; by eapply lookup_lt_Some|]. split; [lia|]. split; [lia|].
    intros ptr y. rewrite (at_ptr_insert _ _ pg) by done. case_decide as E.
    + rewrite Hsl. intros Hy. apply lookup_app_Some in Hy as [Hy|[_ Hy]].
      * assert (at_ptr ps ptr = Some y) as Hy' by (rewrite <- Hat1; unfold at_ptr; by rewrite E, Hpg).
        pose proof (A10 _ _ Hy'). lia.
      * apply list_lookup_singleton_Some in Hy as [_ <-]. rewrite Hk. lia.
    + rewrite Hat1. intros Hy. pose proof (A10 _ _ Hy). lia.
Qed.

(** ** Scans *)

(** The filter of a scan; NULL accepts everything. *)
Definition accepts (f : option (bytes -> bool)) (r : bytes) : bool :=
  match f with Some g => g r | None => true end.

Definition wanted (id : Z) (f : option (bytes -> bool)) (r : bytes) : Prop := live id r = true /\ accepts f r = true.

#[local] Instance wanted_dec id f r : Decision (wanted id f r).
Proof. unfold wanted. apply _. Defined.

Lemma drop_lookup {A} (l : list A) i x : l !! i = Some x -> drop i l = x :: drop (Datatypes.S i) l.
Proof. intros H. by apply drop_S. Qed.

Lemma scan_slots_spec rs id f mx pg : page_wf rs pg -> forall m i acc, (i + m = length (page_slots pg))%nat ->
  scan_slots id f mx pg (seq i m) acc =
    acc ++ take (Z.to_nat mx - length acc) (filter (wanted id f) (drop i (page_slots pg))).
Proof.
  intros Hwf. induction m as [|m IH]; intros i acc Hi; cbn [seq scan_slots].
  - rewrite drop_ge by lia. by rewrite filter_nil, take_nil, app_nil_r.
  - destruct (Z.ltb_spec (Z.of_nat (length acc)) mx) as [Hlt|Hge].
    2:{ replace (Z.to_nat mx - length acc)%nat with 0%nat by lia. by rewrite take_0, app_nil_r. }
    destruct (lookup_lt_is_Some_2 (page_slots pg) i ltac:(lia)) as [r Hr].
    rewrite (page_get_record_slots _ _ _ Hwf), Nat2Z.id, Hr, (drop_lookup _ _ _ Hr) by lia.
    assert (Hlive : live id r = negb (is_record_deleted id r)) by done.
    destruct (is_record_deleted id r); cbn [negb] in Hlive.
    { rewrite IH by lia. rewrite filter_cons_False; [done|]. intros [? _]. congruence. }
    assert (Ha : match f with Some g => negb (g r) | None => false end = negb (accepts f r)) by by destruct f.
    rewrite Ha. destruct (accepts f r) eqn:E; cbn [negb].
    + rewrite IH, filter_cons_True by (done || lia). rewrite <- app_assoc, length_app. cbn [length].
      replace (Z.to_nat mx - length acc)%nat with (Datatypes.S (Z.to_nat mx - (length acc + 1))) by lia. done.
    + rewrite IH by lia. rewrite filter_cons_False; [done|]. intros [_ ?]. congruence.
Qed.

Lemma scan_pages_spec rs id fd f mx ps : Forall (page_wf rs) ps -> forall m i s acc,
  ps_idle s -> ps_pages s fd = Some ps -> (i + m = length ps)%nat ->
  exists s', scan_pages s id fd f mx (seq i m) acc =
      (s', acc ++ take (Z.to_nat mx - length acc) (filter (wanted id f) (mjoin (page_slots <$> drop i ps)))) /\
    ps_idle s' /\ forall fd', ps_pages s' fd' = ps_pages s fd'.
Proof.
  intros Hwf. induction m as [|m IH]; intros i s acc Hidle Hps Hi; cbn [seq scan_pages].
  - exists s. rewrite drop_ge by lia. cbn. by rewrite take_nil, app_nil_r.
  - destruct (Z.ltb_spec (Z.of_nat (length acc)) mx) as [Hlt|Hge].
    2:{ exists s. replace (Z.to_nat mx - length acc)%nat with 0%nat by lia. by rewrite take_0, app_nil_r. }
    destruct (lookup_lt_is_Some_2 ps i ltac:(lia)) as [pg Hpg].
    destruct (ps_fetch_ok s fd i ps pg Hidle Hps Hpg) as (s1 & j & Hf & Hh & Hb & Hp). rewrite Hf, Hb.
    destruct (ps_unpin_ok _ _ _ _ Hh) as [Hi2 Hp2].
    pose proof (Forall_lookup_1 _ _ _ _ Hwf Hpg) as Hpw.
    unfold page_get_record_count. rewrite <- length_page_slots.
    rewrite (scan_slots_spec _ id f mx pg Hpw) by lia. rewrite drop_0.
    set (acc' := acc ++ _). destruct (IH (Datatypes.S i) (ps_unpin s1 fd (Z.of_nat i)) acc') as (s' & He & Hi3 & Hp3);
      [done|by rewrite Hp2, Hp|lia|].
    exists s'. split; [|split; [done|intros; by rewrite Hp3, Hp2, Hp]]. rewrite He. f_equal.
    rewrite (drop_lookup _ _ _ Hpg), fmap_cons. cbn [mjoin list_join]. rewrite filter_app. unfold acc'.
    rewrite <- app_assoc, take_app. do 3 f_equal. rewrite length_app, length_take. lia.
Qed.

(** The live records of a table, each once. *)
Lemma live_records_spec s ids t room ps M : table_pages s ids t room ps M ->
  NoDup (key (t_id t) <$> live_records (t_id t) ps) /\
  forall r, r ∈ live_records (t_id t) ps <-> M !! key (t_id t) r = Some r.
Proof.
  intros [A1 A2 A3 A4 A5 A6 A7 A8]. set (id := t_id t) in *.
  assert (Hptr : forall j l i r, (page_slots <$> ps) !! j = Some l -> l !! i = Some r -> live id r = true ->
    locates id ps (RecordPtr (Z.of_nat j) (Z.of_nat i)) r).
  { intros j l i r Hj Hi Hr. rewrite list_lookup_fmap in Hj. destruct (ps !! j) as [pg|] eqn:Hpg; [|done].
    injection Hj as <-. pose proof (lookup_lt_Some _ _ _ Hpg). pose proof (lookup_lt_Some _ _ _ Hi) as Hc.
    rewrite length_page_slots in Hc. pose proof (page_count_range _ _ (Forall_lookup_1 _ _ _ _ A4 Hpg)).
    unfold INVALID_PAGE_ID in *. split; [unfold record_ptr_ok; cbn; lia|]. split; [|done].
    apply at_ptr_page. exists pg. cbn. rewrite !Nat2Z.id. done. }
  split.
  - apply NoDup_live. intros k1 k2 r1 r2 H1 H2 L1 L2 Hk.
    apply join_lookup_Some in H1 as (j1 & l1 & i1 & Hj1 & Hi1 & ->).
    apply join_lookup_Some in H2 as (j2 & l2 & i2 & Hj2 & Hi2 & ->).
    destruct (locates_inj id ps _ M _ _ _ _ A7 (Hptr _ _ _ _ Hj1 Hi1 L1) (Hptr _ _ _ _ Hj2 Hi2 L2) Hk) as [He _].
    injection He as He1 He2. apply Nat2Z.inj in He1, He2. by subst.
  - intros r. unfold live_records. rewrite list_elem_of_filter, (in_map _ _ _ _ A7). split.
    + intros [Hr [k Hk]%list_elem_of_lookup_1]. apply join_lookup_Some in Hk as (j & l & i & Hj & Hi & _).
      eexists. split; [by eapply Hptr|done].
    + intros (ptr & (_ & Hat & Hr) & _). split; [done|]. apply at_ptr_page in Hat as (pg & Hpg & Hs).
      apply list_elem_of_join. exists (page_slots pg). split; [by eapply list_elem_of_lookup_2|].
      apply list_elem_of_fmap. exists pg. split; [done|]. by eapply list_elem_of_lookup_2.
Qed.

Lemma scan_spec e t f mx room M : ps_idle (en_store e) -> table_rep (en_store e) (en_ids e) t room M ->
  exists recs, NoDup (key (t_id t) <$> recs) /\ (forall r, r ∈ recs <-> M !! key (t_id t) r = Some r) /\
  exists e', table_scan_unlocked e t f mx = (e', take (Z.to_nat mx) (filter (fun r => accepts f r = true) recs)) /\
    en_wal e' = en_wal e /\ en_writes e' = en_writes e /\ en_ids e' = en_ids e /\
    ps_idle (en_store e') /\ forall fd, ps_pages (en_store e') fd = ps_pages (en_store e) fd.
Proof.
  intros Hidle (ps & Ht). destruct (live_records_spec _ _ _ _ _ _ Ht) as [Hnd Hel].
  exists (live_records (t_id t) ps). split; [done|]. split; [done|]. unfold table_scan_unlocked.
  destruct (Z.leb_spec mx 0) as [Hmx|Hmx].
  { exists e. by replace (Z.to_nat mx) with 0%nat by lia. }
  pose proof (tp_pages _ _ _ _ _ _ Ht) as Hps. pose proof (tp_len _ _ _ _ _ _ Ht) as [? Hlen]. unfold INVALID_PAGE_ID in Hlen.
  rewrite (ps_count_ok _ _ ps Hps), Nat2Z.id by lia.
  destruct (scan_pages_spec (t_record_size t) (t_id t) (t_data_fd t) f mx ps (tp_wf _ _ _ _ _ _ Ht)
    (length ps) 0 (en_store e) [] Hidle Hps eq_refl) as (s' & He & Hi & Hp).
  rewrite He. exists (set_store e s'). split; [|done]. cbn [length]. rewrite Nat.sub_0_r, drop_0. cbn [app].
  unfold live_records. rewrite list_filter_filter. f_equal. f_equal. apply list_filter_iff. intros r. unfold wanted. tauto.
Qed.

(** ** Counting *)

Lemma count_slots_spec rs id pg : page_wf rs pg -> forall m i c, (i + m = length (page_slots pg))%nat ->
  count_slots id pg (seq i m) c =
    c + Z.of_nat (length (filter (fun r => live id r = true) (drop i (page_slots pg)))).
Proof.
  intros Hwf. induction m as [|m IH]; intros i c Hi; cbn [seq count_slots].
  - rewrite drop_ge by lia. cbn. lia.
  - destruct (lookup_lt_is_Some_2 (page_slots pg) i ltac:(lia)) as [r Hr].
    rewrite (page_get_record_slots _ _ _ Hwf), Nat2Z.id, Hr, (drop_lookup _ _ _ Hr), IH by lia.
    assert (Hlive : live id r = negb (is_record_deleted id r)) by done.
    destruct (is_record_deleted id r); cbn [negb] in Hlive.
    + by rewrite filter_cons_False by congruence.
    + rewrite filter_cons_True by done. cbn [length]. lia.
Qed.

Lemma count_pages_spec rs id fd ps : Forall (page_wf rs) ps -> forall m i s c,
  ps_idle s -> ps_pages s fd = Some ps -> (i + m = length ps)%nat ->
  exists s', count_pages s id fd (seq i m) c =
      (s', c + Z.of_nat (length (filter (fun r => live id r = true) (mjoin (page_slots <$> drop i ps))))) /\
    ps_idle s' /\ forall fd', ps_pages s' fd' = ps_pages s fd'.
Proof.
  intros Hwf. induction m as [|m IH]; intros i s c Hidle Hps Hi; cbn [seq count_pages].
  - exists s. rewrite drop_ge by lia. cbn. by rewrite Z.add_0_r.
  - destruct (lookup_lt_is_Some_2 ps i ltac:(lia)) as [pg Hpg].
    destruct (ps_fetch_ok s fd i ps pg Hidle Hps Hpg) as (s1 & j & Hf & Hh & Hb & Hp). rewrite Hf, Hb.
    destruct (ps_unpin_ok _ _ _ _ Hh) as [Hi2 Hp2].
    pose proof (Forall_lookup_1 _ _ _ _ Hwf Hpg) as Hpw.
    unfold page_get_record_count. rewrite <- length_page_slots.
    rewrite (count_slots_spec _ id pg Hpw) by lia. rewrite drop_0. set (c' := c + _).
    destruct (IH (Datatypes.S i) (ps_unpin s1 fd (Z.of_nat i)) c') as (s' & He & Hi3 & Hp3);
      [done|by rewrite Hp2, Hp|lia|].
    exists s'. split; [|split; [done|intros; by rewrite Hp3, Hp2, Hp]]. rewrite He. f_equal.
    rewrite (drop_lookup _ _ _ Hpg), fmap_cons. cbn [mjoin list_join]. rewrite filter_app, length_app. unfold c'. rewrite Nat2Z.inj_add. apply symmetry, Z.add_assoc.
Qed.

(** A list with distinct keys that has the pairs of [M] is as long as [M] is big. *)
Lemma size_keys id (recs : list bytes) M : NoDup (key id <$> recs) ->
  (forall r, r ∈ recs <-> M !! key id r = Some r) -> (forall k r, M !! k = Some r -> key id r = k) ->
  size M = length recs.
Proof.
  intros Hnd Hel Hk.
  assert (HM : M = list_to_map ((fun r => (key id r, r)) <$> recs)).
  { apply map_eq. intros k. apply option_eq. intros r.
    rewrite <- elem_of_list_to_map by (rewrite <- list_fmap_compose; exact Hnd).
    rewrite list_elem_of_fmap. split.
    - intros Hr. exists r. rewrite Hel. pose proof (Hk _ _ Hr). subst k. done.
    - intros (x & [= -> <-] & Hx). by apply Hel. }
  rewrite HM, map_size_list_to_map by (rewrite <- list_fmap_compose; exact Hnd). apply length_fmap.
Qed.

Lemma count_spec e t room M : ps_idle (en_store e) -> table_rep (en_store e) (en_ids e) t room M ->
  exists e', table_count_unlocked e t = (e', Z.of_nat (size M)) /\
    en_wal e' = en_wal e /\ en_writes e' = en_writes e /\ en_ids e' = en_ids e /\
    ps_idle (en_store e') /\ forall fd, ps_pages (en_store e') fd = ps_pages (en_store e) fd.
Proof.
  intros Hidle (ps & Ht). destruct (live_records_spec _ _ _ _ _ _ Ht) as [Hnd Hel]. unfold table_count_unlocked.
  pose proof (tp_pages _ _ _ _ _ _ Ht) as Hps. pose proof (tp_len _ _ _ _ _ _ Ht) as [? Hlen]. unfold INVALID_PAGE_ID in Hlen.
  rewrite (ps_count_ok _ _ ps Hps), Nat2Z.id by lia.
  destruct (count_pages_spec (t_record_size t) (t_id t) (t_data_fd t) ps (tp_wf _ _ _ _ _ _ Ht)
    (length ps) 0 (en_store e) 0 Hidle Hps eq_refl) as (s' & He & Hi & Hp).
  rewrite He. exists (set_store e s'). split; [|done]. f_equal. rewrite drop_0.
  rewrite (size_keys (t_id t) (live_records (t_id t) ps) M Hnd Hel); [done|].
  intros k r (ptr & _ & Hk)%(in_map _ _ _ _ (tp_indexed _ _ _ _ _ _ Ht)). done.
Qed.

(** ** table_open *)

Lemma max_id_slots_spec rs id pg : page_wf rs pg ->
  (forall r, r ∈ page_slots pg -> 0 < key id r) -> forall m i mx, (i + m = length (page_slots pg))%nat ->
  exists mx', max_id_slots id pg (seq i m) mx = Some mx' /\ mx <= mx' /\
    (forall r, r ∈ drop i (page_slots pg) -> key id r <= mx') /\
    (mx' = mx \/ exists r, r ∈ page_slots pg /\ key id r = mx').
Proof.
  intros Hwf Hpos. induction m as [|m IH]; intros i mx Hi; cbn [seq max_id_slots].
  - exists mx. rewrite drop_ge by lia. split; [done|]. split; [lia|]. split; [by intros r ?%not_elem_of_nil|by left].
  - destruct (lookup_lt_is_Some_2 (page_slots pg) i ltac:(lia)) as [r Hr].
    rewrite (page_get_record_slots _ _ _ Hwf), Nat2Z.id, Hr, (drop_lookup _ _ _ Hr) by lia. fold (key id r).
    pose proof (list_elem_of_lookup_2 _ _ _ Hr) as Hin. specialize (Hpos r Hin).
    destruct (Z.eqb_spec (key id r) 0); [lia|]. rewrite andb_false_r.
    set (mx1 := if mx <? key id r then key id r else mx).
    assert (Hmx1 : mx <= mx1 /\ key id r <= mx1 /\ (mx1 = mx \/ mx1 = key id r)).
    { unfold mx1. destruct (Z.ltb_spec mx (key id r)); lia. }
    destruct (IH (Datatypes.S i) mx1) as (mx' & He & Hle & Hall & Hcase); [lia|]. exists mx'.
    split; [done|]. split; [lia|]. split.
    + intros x [->|Hx]%elem_of_cons; [lia|by apply Hall].
    + destruct Hcase as [->|?]; [|by right]. destruct Hmx1 as (_ & _ & [?|?]); [by left|right; by exists r].
Qed.

Lemma max_id_pages_spec rs id fd ps : Forall (page_wf rs) ps ->
  (forall pg r, pg ∈ ps -> r ∈ page_slots pg -> 0 < key id r) -> forall m i s mx,
  ps_idle s -> ps_pages s fd = Some ps -> (i + m = length ps)%nat ->
  exists s' mx', max_id_pages s id fd (seq i m) mx = (s', Some mx') /\
    ps_idle s' /\ (forall fd', ps_pages s' fd' = ps_pages s fd') /\ mx <= mx' /\
    (forall pg r, pg ∈ drop i ps -> r ∈ page_slots pg -> key id r <= mx') /\
    (mx' = mx \/ exists pg r, pg ∈ ps /\ r ∈ page_slots pg /\ key id r = mx').
Proof.
  intros Hwf Hpos. induction m as [|m IH]; intros i s mx Hidle Hps Hi; cbn [seq max_id_pages].
  - exists s, mx. rewrite drop_ge by lia. do 3 (split; [done|]). split; [lia|].
    split; [by intros pg r ?%not_elem_of_nil|by left].
  - destruct (lookup_lt_is_Some_2 ps i ltac:(lia)) as [pg Hpg].
    pose proof (list_elem_of_lookup_2 _ _ _ Hpg) as Hin.
    destruct (ps_fetch_ok s fd i ps pg Hidle Hps Hpg) as (s1 & j & Hf & Hh & Hb & Hp). rewrite Hf, Hb.
    destruct (ps_unpin_ok _ _ _ _ Hh) as [Hi2 Hp2].
    pose proof (Forall_lookup_1 _ _ _ _ Hwf Hpg) as Hpw.
    unfold page_get_record_count. rewrite <- length_page_slots.
    destruct (max_id_slots_spec _ id pg Hpw ltac:(intros; by eapply Hpos) (length (page_slots pg)) 0%nat mx eq_refl)
      as (m1 & Hm1 & Hle1 & Hall1 & Hc1). rewrite Hm1. rewrite drop_0 in Hall1.
    destruct (IH (Datatypes.S i) (ps_unpin s1 fd (Z.of_nat i)) m1) as (s' & mx' & He & Hi3 & Hp3 & Hle & Hall & Hc);
      [done|by rewrite Hp2, Hp|lia|].
    exists s', mx'. split; [done|]. split; [done|]. split; [intros; by rewrite Hp3, Hp2, Hp|]. split; [lia|].
    rewrite (drop_lookup _ _ _ Hpg). split.
    + intros pg' r [->|Hx]%elem_of_cons Hr; [pose proof (Hall1 r Hr); lia|by eapply Hall].
    + destruct Hc as [->|?]; [|by right]. destruct Hc1 as [->|(r & Hr & Hk)]; [by left|right; by exists pg, r].
Qed.

(** Reopening: the counter restarts above every stored id, dead ones included. *)
Lemma open_spec e id fd x room ps M : ps_idle (en_store e) -> table_in_range id = true -> 0 <= fd ->
  ps_pages (en_store e) fd = Some ps -> Forall (page_wf (etp_record_size id)) ps ->
  0 <= room -> Z.of_nat (length ps) + room < INVALID_PAGE_ID -> ix_wf x -> indexed id ps (ix_map x) M ->
  (forall ptr r, at_ptr ps ptr = Some r -> 0 < key id r < 2 ^ 32 - 1 - room) -> is_Some (en_ids e !! Z.to_nat id) ->
  exists e' n, table_open e id fd (Some x) = (e', Some (Table id (etp_record_size id) fd x)) /\
    en_wal e' = en_wal e /\ en_writes e' = en_writes e /\ en_ids e' = <[Z.to_nat id := n]> (en_ids e) /\
    ps_idle (en_store e') /\ (forall fd', ps_pages (en_store e') fd' = ps_pages (en_store e) fd') /\
    table_rep (en_store e') (en_ids e') (Table id (etp_record_size id) fd x) room M /\
    (n = 1 \/ exists ptr r, at_ptr ps ptr = Some r /\ n = key id r + 1).
Proof.
  intros Hidle Hid Hfd Hps Hwf Hroom Hlen Hxwf Hix Hkeys Hids. unfold INVALID_PAGE_ID in Hlen.
  destruct (key_flag_offsets id Hid) as (_ & _ & _ & Hrs). unfold table_open.
  destruct (Z.eqb_spec (etp_record_size id) 0); [lia|]. destruct (Z.ltb_spec fd 0); [lia|].
  rewrite (ps_count_ok _ _ ps Hps), Nat2Z.id by lia.
  assert (Hat : forall pg r, pg ∈ ps -> r ∈ page_slots pg -> 0 < key id r < 2 ^ 32 - 1 - room).
  { intros pg r [i Hi]%list_elem_of_lookup_1 [j Hj]%list_elem_of_lookup_1.
    apply (Hkeys (RecordPtr (Z.of_nat i) (Z.of_nat j))). apply at_ptr_page. exists pg. cbn. by rewrite !Nat2Z.id. }
  destruct (max_id_pages_spec _ id fd ps Hwf ltac:(intros pg r Hpg Hr; by apply (Hat pg r))
    (length ps) 0 (en_store e) 0 Hidle Hps eq_refl) as (s' & mx & He & Hi & Hp & Hle & Hall & Hc).
  rewrite He. rewrite drop_0 in Hall.
  assert (Hmx : 0 <= mx < 2 ^ 32 - 1 - room).
  { split; [done|]. destruct Hc as [->|(pg & r & Hpg & Hr & <-)]; [lia|by apply (Hat pg r)]. }
  destruct (Z.eqb_spec mx 4294967295); [lia|]. rewrite u32_small by lia.
  eexists _, (mx + 1). split; [reflexivity|]. cbn [set_ids set_store en_wal en_writes en_ids en_store].
  unfold etp_set_next_id. rewrite Hid. do 5 (split; [done|]). split.
  2:{ destruct Hc as [->|(pg & r & Hpg & Hr & <-)]; [by left|right].
      apply list_elem_of_lookup_1 in Hpg as [i Hpg]. apply list_elem_of_lookup_1 in Hr as [j Hr].
      exists (RecordPtr (Z.of_nat i) (Z.of_nat j)), r. split; [|done]. apply at_ptr_page. exists pg. cbn. by rewrite !Nat2Z.id. }
  exists ps.
  constructor; cbn [t_id t_record_size t_data_fd t_pk_index]; try done; [by rewrite Hp|].
  exists (mx + 1). split; [by apply list_lookup_insert_eq, lookup_lt_is_Some|]. split; [lia|]. split; [lia|].
  intros ptr r Hr. pose proof (Hkeys _ _ Hr). apply at_ptr_page in Hr as (pg & Hpg & Hs).
  pose proof (Hall pg r ltac:(by eapply list_elem_of_lookup_2) ltac:(by eapply list_elem_of_lookup_2)). lia.
Qed.
End spec.
