(* ===== verification/TableHistory.v ===== *)
(** * Histories of table operations

    A table is compared with an abstract machine made of a finite map, the next
    id and the log: each operation attempts at most one log record, and the map
    changes exactly when the log accepts it.  On top of this, recovery of the log
    is shown to rebuild the table. *)

From stdpp Require Import base tactics numbers list list_numbers gmap.
From Stdlib Require Import ZArith Lia.
From S2P Require Import Prelude Types Utils Page PageMap BTree Wal BufferPool PageStore Table TableSpec.

#[local] Open Scope Z_scope.

(** ** Operations and their outcomes *)

Inductive table_op :=
  | TInsert (record : bytes) | TFind (id : Z) | TUpdate (id : Z) (record : bytes) | TDelete (id : Z)
  | TScan (filter : option (bytes -> bool)) (max_results : Z) | TCount | TFlush.

Inductive table_out :=
  | OInsert (rc : etp_result_t) (id : option Z) | OFind (rc : etp_result_t) (record : option bytes)
  | ORc (rc : etp_result_t) | OScan (records : list bytes) | OInt (n : Z).

Section steps.
Context {S I : Type} {P : PageOps S} {X : IndexStore I}.

Definition table_step (st : env S * table I) (o : table_op) : (env S * table I) * table_out :=
  let '(e, t) := st in
  match o with
  | TInsert r => let '(e', t', rc, id) := table_insert_unlocked e t r in ((e', t'), OInsert rc id)
  | TFind id => let '(e', rc, r) := table_find_by_id_unlocked e t id in ((e', t), OFind rc r)
  | TUpdate id r => let '(e', rc) := table_update_unlocked e t id r in ((e', t), ORc rc)
  | TDelete id => let '(e', t', rc) := table_delete_unlocked e t id in ((e', t'), ORc rc)
  | TScan f n => let '(e', rs) := table_scan_unlocked e t f n in ((e', t), OScan rs)
  | TCount => let '(e', n) := table_count_unlocked e t in ((e', t), OInt n)
  | TFlush => let '(e', rc) := table_flush_unlocked e in ((e', t), OInt rc)
  end.

Fixpoint table_run (st : env S * table I) (ops : list table_op) : (env S * table I) * list table_out :=
  match ops with
  | [] => (st, [])
  | o :: ops' =>
      let '(st1, out) := table_step st o in
      let '(st2, outs) := table_run st1 ops' in (st2, out :: outs)
  end.
End steps.

(** ** The abstract machine *)

Record abs := Abs { ab_map : gmap Z bytes; ab_next : Z; ab_wal : wal; ab_writes : writes }.

Definition with_key (id n : Z) (r : bytes) : bytes := wr 4 (key_offset id) n r.

(** The log record an operation attempts. *)
Definition attempt (id : Z) (a : abs) (o : table_op) : option log_op :=
  match o with
  | TInsert r => Some (LogInsert CURRENT_TXN_ID id (ab_next a) (with_key id (ab_next a) r))
  | TUpdate k r => (fun old => LogUpdate CURRENT_TXN_ID id k old r) <$> (ab_map a !! k)
  | TDelete k => (fun old => LogDelete CURRENT_TXN_ID id k old) <$> (ab_map a !! k)
  | _ => None
  end.

(** What an accepted log record does to the map. *)
Definition apply_log (M : gmap Z bytes) (o : log_op) : gmap Z bytes :=
  match o with
  | LogInsert _ _ k r | LogUpdate _ _ k _ r => <[k := r]> M
  | LogDelete _ _ k _ => delete k M
  | _ => M
  end.

Definition next_after (a : abs) (o : table_op) : Z :=
  match o with TInsert _ => ab_next a + 1 | _ => ab_next a end.

(** The next state, and whether the log accepted the record, if there was one. *)
Definition abs_step (id : Z) (a : abs) (o : table_op) : abs * bool :=
  match attempt id a o with
  | None => (Abs (ab_map a) (next_after a o) (ab_wal a) (ab_writes a), true)
  | Some l =>
      let '(w, ws, lsn) := log_step (ab_wal a) (ab_writes a) l in
      if lsn =? INVALID_LSN then (Abs (ab_map a) (next_after a o) w ws, false)
      else (Abs (apply_log (ab_map a) l) (next_after a o) w ws, true)
  end.

(** The outcome an operation must have in state [a]. *)
Definition out_ok (id : Z) (a : abs) (o : table_op) (ok : bool) (out : table_out) : Prop :=
  match o with
  | TInsert _ => out = if ok then OInsert ETP_OK (Some (ab_next a)) else OInsert ETP_ERR_IO None
  | TFind k => out = match ab_map a !! k with Some r => OFind ETP_OK (Some r) | None => OFind ETP_ERR_NOT_FOUND None end
  | TUpdate k _ | TDelete k =>
      out = ORc (match ab_map a !! k with
                 | Some _ => if ok then ETP_OK else ETP_ERR_IO
                 | None => ETP_ERR_NOT_FOUND
                 end)
  | TScan f n => exists recs, NoDup (key id <$> recs) /\ (forall r, r ∈ recs <-> ab_map a !! key id r = Some r) /\
      out = OScan (take (Z.to_nat n) (filter (fun r => accepts f r = true) recs))
  | TCount => out = OInt (Z.of_nat (size (ab_map a)))
  | TFlush => out = OInt 0
  end.

Inductive abs_run (id : Z) : abs -> list table_op -> list table_out -> abs -> Prop :=
  | abs_nil a : abs_run id a [] [] a
  | abs_cons a o ops out outs a' :
      out_ok id a o (abs_step id a o).2 out -> abs_run id (abs_step id a o).1 ops outs a' ->
      abs_run id a (o :: ops) (out :: outs) a'.

(** Arguments the callers pass: records of the right size that are not flagged
    deleted and, in an update, carry their id. *)
Definition top_ok (id : Z) (o : table_op) : Prop :=
  let rec_ok r := length r = Z.to_nat (etp_record_size id) /\ Forall byte_ok r /\ live id r = true in
  match o with
  | TInsert r => rec_ok r
  | TUpdate k r => uint_ok 32 k /\ rec_ok r /\ key id r = k
  | TFind k | TDelete k => uint_ok 32 k
  | _ => True
  end.

Definition inserts (ops : list table_op) : Z :=
  Z.of_nat (length (filter (fun o => match o with TInsert _ => true | _ => false end = true) ops)).

Section refinement.
Context {S I : Type} {P : PageOps S} {L : PageLaws S} {X : IndexStore I}.

(** The concrete state represents the abstract one. *)
Record state_rep (id : Z) (st : env S * table I) (room : Z) (a : abs) : Prop := StateRep {
  sr_idle : ps_idle (en_store st.1);
  sr_id : t_id st.2 = id;
  sr_table : table_rep (en_store st.1) (en_ids st.1) st.2 room (ab_map a);
  sr_next : en_ids st.1 !! Z.to_nat id = Some (ab_next a);
  sr_wal : en_wal st.1 = ab_wal a;
  sr_writes : en_writes st.1 = ab_writes a }.

Lemma rep_record s ids t room M k r : table_rep s ids t room M -> M !! k = Some r ->
  length r = Z.to_nat (t_record_size t) /\ uint_ok 32 k /\ Z.of_nat (length r) = t_record_size t /\
  0 < t_record_size t < 2 ^ 16.
Proof.
  intros (ps & Ht) Hk. apply (in_map _ _ _ _ (tp_indexed _ _ _ _ _ _ Ht)) in Hk as (ptr & Hl & <-).
  destruct (located_page _ _ _ _ _ _ _ _ Ht Hl) as (_ & _ & _ & _ & _ & _ & Hlen & _).
  pose proof (key_flag_offsets _ (tp_id _ _ _ _ _ _ Ht)) as (_ & _ & _ & Hrs).
  rewrite <- (tp_size _ _ _ _ _ _ Ht) in Hrs. split; [done|].
  destruct (tp_next _ _ _ _ _ _ Ht) as (n & _ & _ & Hn & Hat). destruct Hl as (_ & Ha & _).
  pose proof (Hat _ _ Ha). pose proof (proj1 (tp_len _ _ _ _ _ _ Ht)). unfold uint_ok. lia.
Qed.

Lemma rep_size s ids t room M : table_rep s ids t room M -> t_record_size t = etp_record_size (t_id t) /\
  table_in_range (t_id t) = true /\ 0 < t_record_size t < 2 ^ 16 /\ 0 <= t_id t < 2 ^ 8.
Proof.
  intros (ps & Ht). pose proof (key_flag_offsets _ (tp_id _ _ _ _ _ _ Ht)) as (_ & _ & _ & Hrs).
  pose proof (tp_size _ _ _ _ _ _ Ht) as Hsz. pose proof (tp_id _ _ _ _ _ _ Ht) as Hid.
  rewrite <- Hsz in Hrs. split; [done|]. split; [done|].
  split; [lia|]. unfold table_in_range, TABLE_COUNT in Hid. bool_to_prop. lia.
Qed.

Lemma rep_next s ids t room M n : table_rep s ids t room M -> ids !! Z.to_nat (t_id t) = Some n ->
  0 < n /\ 0 <= room /\ n + room < 2 ^ 32 /\ 0 <= n < 2 ^ 32.
Proof.
  intros (ps & Ht) Hn. destruct (tp_next _ _ _ _ _ _ Ht) as (m & Hm & ? & ? & _).
  pose proof (proj1 (tp_len _ _ _ _ _ _ Ht)). assert (m = n) as <- by congruence. lia.
Qed.

(** Every log record attempted is well formed. *)
Lemma attempt_ok id st room a o l : state_rep id st room a -> top_ok id o -> inserts [o] <= room ->
  attempt id a o = Some l -> log_op_ok l.
Proof.
  intros [H1 H2 H3 H4 H5 H6] Ho Hroom Hl. destruct (rep_size _ _ _ _ _ H3) as (Hsz & Hr & Hrs & Hid).
  rewrite H2 in Hsz, Hr, Hid. unfold CURRENT_TXN_ID in Hl. destruct o as [r|k|k r|k|f n| |]; try discriminate Hl; cbn [top_ok] in Ho.
  - injection Hl as <-. cbn in Hroom. destruct Ho as (Hlr & _ & _).
    rewrite <- H2 in H4. destruct (rep_next _ _ _ _ _ _ H3 H4) as (_ & _ & _ & Hn).
    destruct (key_set_key id (ab_next a) r Hr Hlr Hn) as (_ & _ & Hl). unfold with_key, log_op_ok. rewrite Hl, Hlr, <- Hsz. unfold CURRENT_TXN_ID. lia.
  - cbn in Hl. destruct (ab_map a !! k) as [old|] eqn:E; [|done]. injection Hl as <-.
    destruct (rep_record _ _ _ _ _ _ _ H3 E) as (Hlo & Hk & _). destruct Ho as (Hu & (Hlr & _ & _) & _).
    unfold uint_ok in Hu. unfold log_op_ok, CURRENT_TXN_ID. split; [lia|]. rewrite Hlo, Hlr, Hsz. split; [lia|done].
  - cbn in Hl. destruct (ab_map a !! k) as [old|] eqn:E; [|done]. injection Hl as <-.
    destruct (rep_record _ _ _ _ _ _ _ H3 E) as (Hlo & Hk & _). unfold uint_ok in Ho. unfold log_op_ok, CURRENT_TXN_ID. lia.
Qed.

(** An operation that leaves files and counters as they are. *)
Lemma rep_quiet id e e' t room a : state_rep id (e, t) room a -> en_wal e' = en_wal e -> en_writes e' = en_writes e ->
  en_ids e' = en_ids e -> ps_idle (en_store e') -> (forall fd, ps_pages (en_store e') fd = ps_pages (en_store e) fd) ->
  state_rep id (e', t) room (Abs (ab_map a) (ab_next a) (ab_wal a) (ab_writes a)).
Proof.
  intros [H1 H2 H3 H4 H5 H6] Hw Hws Hi Hidle Hp. cbn [fst snd] in *.
  constructor; cbn [fst snd ab_map ab_next ab_wal ab_writes]; try congruence.
  rewrite Hi. by eapply rep_step.
Qed.

Lemma step_refines id st room a o : state_rep id st room a -> top_ok id o -> inserts [o] <= room ->
  let '(st', out) := table_step st o in
  out_ok id a o (abs_step id a o).2 out /\ state_rep id st' (room - inserts [o]) (abs_step id a o).1.
Proof.
  intros Hrep Ho Hroom. destruct st as [e t]. pose proof Hrep as [H1 H2 H3 H4 H5 H6]. cbn [fst snd] in *.
  destruct (rep_size _ _ _ _ _ H3) as (Hsz & Hr & Hrs & _). rewrite H2 in Hsz, Hr.
  assert (Hr0 : forall n, room - 0 = n -> room = n) by lia.
  destruct o as [r|k|k r|k|f n| |]; cbn [table_step]; cbn [inserts] in *.
  - destruct Ho as (Hlr & Hb & Hlive). change (inserts [TInsert r]) with 1 in *.
    rewrite <- H2 in H4, Hlive.
    pose proof (insert_spec e t r (ab_next a) room (ab_map a) H1 H3 H4 ltac:(lia) ltac:(by rewrite Hsz) Hb Hlive) as Hs.
    destruct (table_insert_unlocked e t r) as [[[e' t'] rc] out]. cbv zeta in Hs. rewrite H2, H5, H6 in Hs.
    destruct Hs as (Hids & [Hidle _] & Ht1 & _ & _ & Hnone & [Hw Hws] & Hcase).
    destruct (rep_next _ _ _ _ _ _ H3 H4) as (_ & _ & _ & Hn).
    destruct (key_set_key id (ab_next a) r Hr Hlr Hn) as (_ & _ & Hl).
    unfold abs_step. cbn [attempt log_step]. unfold with_key. rewrite Hl, Hlr, <- Hsz, Z2Nat.id by lia.
    destruct (wal_log_insert _ _ _ _ _ _ _) as [[w ws] lsn]. cbn [fst snd] in *.
    assert (Hnx : en_ids e' !! Z.to_nat id = Some (ab_next a + 1)).
    { rewrite Hids. apply list_lookup_insert_eq. rewrite <- H2. by eapply lookup_lt_Some. }
    destruct (lsn =? INVALID_LSN); destruct Hcase as (-> & -> & Hrep'); cbn [fst snd apply_log next_after];
      (split; [done|]); by constructor.
  - pose proof (find_spec e t k room (ab_map a) H1 H3 Ho) as Hs.
    destruct (table_find_by_id_unlocked e t k) as [[e' rc] out]. destruct Hs as (Hout & Hw & Hws & Hi & Hidle & Hp).
    split; [cbn; destruct (ab_map a !! k); by injection Hout as -> ->|]. change (inserts [TFind k]) with 0. rewrite Z.sub_0_r.
    by eapply rep_quiet.
  - destruct Ho as (Hu & (Hlr & Hb & Hlive) & Hk). change (inserts [TUpdate k r]) with 0. rewrite Z.sub_0_r.
    rewrite <- H2 in Hlive, Hk.
    pose proof (update_spec e t k room (ab_map a) r H1 H3 Hu ltac:(by rewrite Hsz) Hb Hlive Hk) as Hs.
    destruct (table_update_unlocked e t k r) as [e' rc]. destruct Hs as (Hids & [Hidle _] & Hs).
    unfold abs_step. cbn [attempt out_ok]. destruct (ab_map a !! k) as [old|] eqn:E.
    + cbv zeta in Hs. destruct Hs as ([Hw Hws] & Hcase). rewrite H2, H5, H6 in Hw, Hws, Hcase. cbn [fmap option_fmap option_map log_step].
      rewrite Hlr, <- Hsz, Z2Nat.id by lia.
      destruct (wal_log_update _ _ _ _ _ _ _ _) as [[w ws] lsn]. cbn [fst snd] in *.
      destruct (lsn =? INVALID_LSN); destruct Hcase as (-> & Hrep'); cbn [fst snd apply_log next_after];
        (split; [done|]); constructor; cbn [fst snd ab_map ab_next ab_wal ab_writes]; congruence.
    + destruct Hs as (-> & ->). split; [done|]. by eapply rep_quiet.
  - change (inserts [TDelete k]) with 0. rewrite Z.sub_0_r.
    pose proof (delete_spec e t k room (ab_map a) H1 H3 Ho) as Hs.
    destruct (table_delete_unlocked e t k) as [[e' t'] rc]. destruct Hs as (Hids & [Hidle _] & Ht1 & _ & Hs).
    unfold abs_step. cbn [attempt out_ok]. destruct (ab_map a !! k) as [old|] eqn:E.
    + cbv zeta in Hs. destruct Hs as ([Hw Hws] & Hcase). rewrite H2, H5, H6 in Hw, Hws, Hcase. cbn [fmap option_fmap option_map log_step].
      destruct (rep_record _ _ _ _ _ _ _ H3 E) as (_ & _ & -> & _).
      destruct (wal_log_delete _ _ _ _ _ _ _) as [[w ws] lsn]. cbn [fst snd] in *.
      destruct (lsn =? INVALID_LSN); destruct Hcase as (-> & Hrep'); cbn [fst snd apply_log next_after];
        (split; [done|]); constructor; cbn [fst snd ab_map ab_next ab_wal ab_writes]; congruence.
    + destruct Hs as (-> & -> & ->). split; [done|]. by eapply rep_quiet.
  - change (inserts [TScan f n]) with 0. rewrite Z.sub_0_r.
    destruct (scan_spec e t f n room (ab_map a) H1 H3) as (recs & Hnd & Hel & e' & He & Hw & Hws & Hi & Hidle & Hp).
    rewrite He. rewrite H2 in Hnd, Hel. split; [by exists recs|]. by eapply rep_quiet.
  - change (inserts [TCount]) with 0. rewrite Z.sub_0_r.
    destruct (count_spec e t room (ab_map a) H1 H3) as (e' & He & Hw & Hws & Hi & Hidle & Hp).
    rewrite He. split; [done|]. by eapply rep_quiet.
  - change (inserts [TFlush]) with 0. rewrite Z.sub_0_r. unfold table_flush_unlocked.
    destruct (ps_flush_ok (en_store e) H1) as (s' & He & Hidle & Hp). rewrite He. split; [done|]. by eapply rep_quiet.
Qed.

(** What an operation leaves to the other tables: their files and their ids. *)
Definition kept_beside (st st' : env S * table I) : Prop :=
  others_kept (en_store st.1) (en_store st'.1) (t_data_fd st.2) /\ t_data_fd st'.2 = t_data_fd st.2 /\
  forall j, j <> Z.to_nat (t_id st.2) -> en_ids st'.1 !! j = en_ids st.1 !! j.

Lemma same_beside (e e' : env S) (t t' : table I) : others_kept (en_store e) (en_store e') (t_data_fd t) ->
  t_data_fd t' = t_data_fd t -> en_ids e' = en_ids e -> kept_beside (e, t) (e', t').
Proof. intros H1 H2 H3. split; [done|]. split; [done|]. cbn. by rewrite H3. Qed.

Lemma quiet_beside (e e' : env S) (t : table I) : ps_idle (en_store e') -> en_ids e' = en_ids e ->
  (forall fd, ps_pages (en_store e') fd = ps_pages (en_store e) fd) -> kept_beside (e, t) (e', t).
Proof. intros H1 H2 H3. apply same_beside; [|done|done]. by split. Qed.

Lemma step_frame id st room a o : state_rep id st room a -> top_ok id o -> inserts [o] <= room ->
  kept_beside st (table_step st o).1.
Proof.
  intros Hrep Ho Hroom. destruct st as [e t]. pose proof Hrep as [H1 H2 H3 H4 H5 H6]. cbn [fst snd] in *.
  destruct (rep_size _ _ _ _ _ H3) as (Hsz & Hr & Hrs & _).
  destruct o as [r|k|k r|k|f n| |]; cbn [table_step top_ok] in *.
  - destruct Ho as (Hlr & Hb & Hlive). change (inserts [TInsert r]) with 1 in *. rewrite <- H2 in H4, Hlive, Hlr.
    pose proof (insert_spec e t r (ab_next a) room (ab_map a) H1 H3 H4 ltac:(lia) ltac:(by rewrite Hsz) Hb Hlive) as Hs.
    destruct (table_insert_unlocked e t r) as [[[e' t'] rc] out]. destruct Hs as (Hids & Hk & _ & Hfd & _).
    split; [done|]. split; [done|]. intros j Hj. cbn in *. rewrite Hids. by rewrite list_lookup_insert_ne.
  - pose proof (find_spec e t k room (ab_map a) H1 H3 Ho) as Hs.
    destruct (table_find_by_id_unlocked e t k) as [[e' rc] out]. destruct Hs as (_ & _ & _ & Hi & Hidle & Hp).
    by apply quiet_beside.
  - destruct Ho as (Hu & (Hlr & Hb & Hlive) & Hk). rewrite <- H2 in Hlive, Hk, Hlr.
    pose proof (update_spec e t k room (ab_map a) r H1 H3 Hu ltac:(by rewrite Hsz) Hb Hlive Hk) as Hs.
    destruct (table_update_unlocked e t k r) as [e' rc]. destruct Hs as (Hids & Hke & _). by apply same_beside.
  - pose proof (delete_spec e t k room (ab_map a) H1 H3 Ho) as Hs.
    destruct (table_delete_unlocked e t k) as [[e' t'] rc]. destruct Hs as (Hids & Hke & _ & Hfd & _). by apply same_beside.
  - destruct (scan_spec e t f n room (ab_map a) H1 H3) as (recs & _ & _ & e' & He & _ & _ & Hi & Hidle & Hp).
    rewrite He. by apply quiet_beside.
  - destruct (count_spec e t room (ab_map a) H1 H3) as (e' & He & _ & _ & Hi & Hidle & Hp). rewrite He. by apply quiet_beside.
  - unfold table_flush_unlocked. destruct (ps_flush_ok (en_store e) H1) as (s' & He & Hidle & Hp). rewrite He. by apply quiet_beside.
Qed.

(** A table beside it. *)
Lemma rep_beside st st' (t : table I) room room' M : kept_beside st st' -> table_rep (en_store st.1) (en_ids st.1) t room M ->
  t_data_fd t <> t_data_fd st.2 -> Z.to_nat (t_id t) <> Z.to_nat (t_id st.2) -> 0 <= room' <= room ->
  table_rep (en_store st'.1) (en_ids st'.1) t room' M.
Proof.
  intros ([_ Hp] & _ & Hi) (ps & [A1 A2 A3 A4 A5 A6 A7 (n & A8 & A9 & A9r & A10)]) Hfd Hid Hroom.
  exists ps. constructor; try done; [by rewrite Hp|lia|]. exists n. rewrite Hi by done. split; [done|]. split; [done|]. split; [lia|done].
Qed.

Lemma inserts_cons o ops : inserts (o :: ops) = inserts [o] + inserts ops.
Proof. unfold inserts. rewrite (filter_app _ [o] ops), length_app. apply Nat2Z.inj_add. Qed.

Lemma inserts_pos ops : 0 <= inserts ops.
Proof. unfold inserts. lia. Qed.

Lemma run_refines id ops : forall st room a, state_rep id st room a -> Forall (top_ok id) ops -> inserts ops <= room ->
  let '(st', outs) := table_run st ops in
  exists a', abs_run id a ops outs a' /\ state_rep id st' (room - inserts ops) a'.
Proof.
  induction ops as [|o ops IH]; intros st room a Hrep Hops Hroom; cbn [table_run].
  - exists a. split; [constructor|]. by rewrite Z.sub_0_r.
  - apply Forall_cons in Hops as [Ho Hops]. rewrite inserts_cons in *. pose proof (inserts_pos ops).
    pose proof (step_refines id st room a o Hrep Ho ltac:(lia)) as Hs.
    destruct (table_step st o) as [st1 out]. destruct Hs as [Hout Hrep1].
    pose proof (IH st1 _ _ Hrep1 Hops ltac:(lia)) as Hr. destruct (table_run st1 ops) as [st2 outs].
    destruct Hr as (a' & Hrun & Hrep2). exists a'. split; [by econstructor|].
    by replace (room - (inserts [o] + inserts ops)) with (room - inserts [o] - inserts ops) by lia.
Qed.

(** C21: a table refines the abstract machine.  From any state that represents a
    map, every history of insert, find, update, delete, scan, count and flush, on
    a page store and an index that keep their contracts and whatever the writes of
    the log do, has exactly the outcomes of the machine and ends in a state that
    represents the machine's map: an insert answers the next id and adds the
    record under it, an update or delete of an id that is absent or deleted is
    refused, a scan returns each live record that passes the filter once, up to
    the limit, and a record that the log did not accept changes nothing. *)
Theorem table_refines_machine id st room a ops :
  state_rep id st room a -> Forall (top_ok id) ops -> inserts ops <= room ->
  exists st' outs a', table_run st ops = (st', outs) /\
    abs_run id a ops outs a' /\ state_rep id st' (room - inserts ops) a'.
Proof.
  intros Hrep Hops Hroom. pose proof (run_refines id ops st room a Hrep Hops Hroom) as H.
  destruct (table_run st ops) as [st' outs]. destruct H as (a' & H1 & H2). by exists st', outs, a'.
Qed.
End refinement.

(** ** Recovery rebuilds the table *)

(** Replaying a recovered record of table [id]. *)
Definition replay_rec (id : Z) (M : gmap Z bytes) (r : wal_rec) : gmap Z bytes :=
  let h := wr_header r in
  if negb (wh_table_id h =? id) then M
  else if (wh_op_type h =? WAL_INSERT) || (wh_op_type h =? WAL_UPDATE)
  then <[wh_record_id h := default [] (wr_new r)]> M
  else if wh_op_type h =? WAL_DELETE then delete (wh_record_id h) M
  else M.

(** A record of this table with non-empty images. *)
Definition own_log (id : Z) (o : log_op) : Prop :=
  log_op_ok o /\
  match o with
  | LogInsert _ tb _ r => tb = id /\ r <> []
  | LogUpdate _ tb _ _ r => tb = id /\ r <> []
  | LogDelete _ tb _ r => tb = id /\ r <> []
  | _ => False
  end.

Lemma replay_op id lsn M o : own_log id o -> replay_rec id M (op_rec lsn o) = apply_log M o.
Proof.
  intros [_ Ho]. unfold replay_rec, op_rec.
  destruct o as [txn tb k r|txn tb k old r|txn tb k r|txn|txn|]; try done; destruct Ho as [-> Hr];
    cbn [wr_header wh_table_id wh_op_type wh_record_id wr_new]; rewrite Z.eqb_refl; cbn [negb].
  - destruct (Nat.eqb_spec (length r) 0) as [H|H]; [by apply nil_length_inv in H|]. done.
  - destruct (Nat.eqb_spec (length r) 0) as [H|H]; [by apply nil_length_inv in H|]. done.
  - done.
Qed.

Lemma replay_recs id acc : forall lsn M, Forall (own_log id) acc ->
  fold_left (replay_rec id) (op_recs lsn acc) M = fold_left apply_log acc M.
Proof.
  induction acc as [|o acc IH]; intros lsn M Hacc; [done|]. apply Forall_cons in Hacc as [Ho Hacc].
  cbn [op_recs fold_left]. by rewrite replay_op, IH.
Qed.

(** With no short write pending, a log call succeeds. *)
Lemma log_step_full w o : log_op_ok o -> 0 < w_next_lsn w < 2 ^ 64 - 1 ->
  log_step w [] o = ({| w_next_lsn := w_next_lsn w + 1; w_flushed_lsn := w_flushed_lsn w;
                        w_file := w_file w ++ rec_bytes (op_rec (w_next_lsn w) o) |}, [], w_next_lsn w).
Proof.
  intros Ho Hn. pose proof (log_step_cases w [] o Ho) as Hc.
  assert (Hfull : (log_step w [] o).1.2 = [] /\ (log_step w [] o).2 = w_next_lsn w).
  { destruct o as [txn tb k r|txn tb k old r|txn tb k r|txn|txn|]; cbn [log_step];
      unfold wal_log_insert, wal_log_update, wal_log_delete, wal_log_commit, wal_log_abort, wal_log_checkpoint,
        wal_append, os_write; rewrite length_header_bytes, Z.eqb_refl; cbn [negb];
      rewrite ?image_some, ?image_none, ?length_zeros; try done.
    - destruct (0 <? _); rewrite ?Z.eqb_refl; cbn [negb]; rewrite ?Z.eqb_refl; done.
    - destruct Ho as (_ & _ & Hl). rewrite <- Hl, image_some.
      destruct (0 <? _); rewrite ?Z.eqb_refl; cbn [negb]; rewrite ?Z.eqb_refl; done.
    - destruct (0 <? _); rewrite ?Z.eqb_refl; cbn [negb]; rewrite ?Z.eqb_refl; done. }
  destruct (log_step w [] o) as [[w' ws'] lsn]. cbn [fst snd] in Hfull. destruct Hfull as [-> ->].
  destruct Hc as [[_ ->]|[He _]]; [|unfold INVALID_LSN in He; lia].
  by rewrite u64_small by lia.
Qed.

Section recovery.
Context {S I : Type} {P : PageOps S} {L : PageLaws S} {X : IndexStore I}.

Lemma attempt_own id (st : env S * table I) room a o l : state_rep id st room a -> top_ok id o -> inserts [o] <= room ->
  attempt id a o = Some l -> own_log id l.
Proof.
  intros Hrep Ho Hroom Hl. split; [by eapply attempt_ok|].
  pose proof Hrep as [H1 H2 H3 H4 H5 H6]. destruct (rep_size _ _ _ _ _ H3) as (Hsz & Hr & Hrs & Hid).
  rewrite H2 in Hsz, Hr. destruct o as [r|k|k r|k|f n| |]; try discriminate Hl; cbn [attempt top_ok] in Hl, Ho.
  - injection Hl as <-. split; [done|]. destruct Ho as (Hlr & _). rewrite <- H2 in H4.
    destruct (rep_next _ _ _ _ _ _ H3 H4) as (_ & _ & _ & Hn).
    destruct (key_set_key id (ab_next a) r Hr Hlr Hn) as (_ & _ & Hl). intros He.
    unfold with_key in He. rewrite He in Hl. cbn in Hl. lia.
  - destruct (ab_map a !! k); [|done]. injection Hl as <-. split; [done|]. destruct Ho as (_ & (Hlr & _) & _).
    intros ->. cbn [length] in Hlr. lia.
  - destruct (ab_map a !! k) as [old|] eqn:E; [|done]. injection Hl as <-. split; [done|].
    destruct (rep_record _ _ _ _ _ _ _ H3 E) as (Hlo & _). intros ->. cbn [length] in Hlo. lia.
Qed.

(** The accepted records of a run on a log without short writes. *)
Lemma run_logs id ops : forall (st : env S * table I) room a, state_rep id st room a -> Forall (top_ok id) ops ->
  inserts ops <= room -> ab_writes a = [] -> 0 < w_next_lsn (ab_wal a) ->
  w_next_lsn (ab_wal a) + Z.of_nat (length ops) < 2 ^ 64 ->
  let '(st', _) := table_run st ops in
  exists acc a', state_rep id st' (room - inserts ops) a' /\ Forall (own_log id) acc /\ (length acc <= length ops)%nat /\
    ab_map a' = fold_left apply_log acc (ab_map a) /\
    w_file (ab_wal a') = w_file (ab_wal a) ++ log_bytes (w_next_lsn (ab_wal a)) acc.
Proof.
  induction ops as [|o ops IH]; intros st room a Hrep Hops Hroom Hws Hn Hb; cbn [table_run].
  { exists [], a. rewrite Z.sub_0_r. cbn. by rewrite app_nil_r. }
  apply Forall_cons in Hops as [Ho Hops]. rewrite inserts_cons in *. pose proof (inserts_pos ops). cbn [length] in Hb.
  pose proof (step_refines id st room a o Hrep Ho ltac:(lia)) as Hs.
  destruct (table_step st o) as [st1 out]. destruct Hs as [_ Hrep1].
  assert (Hstep : exists acc0, Forall (own_log id) acc0 /\ (length acc0 <= 1)%nat /\
    ab_map (abs_step id a o).1 = fold_left apply_log acc0 (ab_map a) /\ ab_writes (abs_step id a o).1 = [] /\
    w_next_lsn (ab_wal (abs_step id a o).1) = w_next_lsn (ab_wal a) + Z.of_nat (length acc0) /\
    w_file (ab_wal (abs_step id a o).1) = w_file (ab_wal a) ++ log_bytes (w_next_lsn (ab_wal a)) acc0).
  { unfold abs_step. destruct (attempt id a o) as [l|] eqn:El.
    - pose proof (attempt_own id st room a o l Hrep Ho ltac:(lia) El) as Hown. pose proof Hown as [Hlok _].
      rewrite Hws, log_step_full by (done || lia). destruct (Z.eqb_spec (w_next_lsn (ab_wal a)) INVALID_LSN) as [He|_];
        [unfold INVALID_LSN in He; lia|]. exists [l]. unfold log_bytes. cbn. rewrite app_nil_r. split; [by apply Forall_singleton|]. done.
    - exists []. unfold log_bytes. cbn. rewrite app_nil_r, Z.add_0_r. split; [constructor|]. split; [lia|]. done. }
  destruct Hstep as (acc0 & A1 & A2 & A3 & A4 & A5 & A6).
  pose proof (IH st1 _ _ Hrep1 Hops ltac:(lia) A4 ltac:(lia) ltac:(lia)) as Hr.
  destruct (table_run st1 ops) as [st2 outs]. destruct Hr as (acc & a' & B1 & B2 & B3 & B4 & B5).
  exists (acc0 ++ acc), a'. replace (room - (inserts [o] + inserts ops)) with (room - inserts [o] - inserts ops) by lia.
  split; [done|]. split; [by apply Forall_app|]. split; [rewrite length_app; cbn [length]; lia|].
  rewrite fold_left_app, <- A3. split; [done|]. rewrite B5, A6, A5. unfold log_bytes.
  by rewrite op_recs_app, map_app, concat_app, <- app_assoc.
Qed.

(** C22: write-ahead logging is complete.  For a table that starts empty with a
    fresh log, after any history in which no log write is cut short, recovery of
    the log returns records whose replay on the empty map is exactly the map the
    table represents: nothing is in the table that the log cannot rebuild. *)
Theorem recovery_rebuilds_table id (st : env S * table I) room ops :
  state_rep id st room (Abs ∅ 1 wal_create []) -> Forall (top_ok id) ops -> inserts ops <= room ->
  Z.of_nat (length ops) < 2 ^ 64 - 1 ->
  exists recs M, wal_recover (en_wal (table_run st ops).1.1) = Some recs /\
    fold_left (replay_rec id) recs ∅ = M /\
    table_rep (en_store (table_run st ops).1.1) (en_ids (table_run st ops).1.1) (table_run st ops).1.2
      (room - inserts ops) M.
Proof.
  intros Hrep Hops Hroom Hlen. pose proof (run_logs id ops st room _ Hrep Hops Hroom eq_refl) as Hr. cbn [ab_wal wal_create w_next_lsn] in Hr.
  specialize (Hr ltac:(lia) ltac:(lia)). destruct (table_run st ops) as [[e t] outs].
  destruct Hr as (acc & a' & [R1 R2 R3 R4 R5 R6] & B2 & B3 & B4 & B5). cbn [fst snd] in *.
  exists (op_recs 1 acc), (ab_map a'). cbn [ab_map] in B4. split; [|split; [by rewrite B4, replay_recs|done]].
  cbn [w_file wal_create app] in B5. rewrite R5. unfold wal_recover. rewrite B5.
  assert (Hok : Forall rec_ok (op_recs 1 acc)).
  { apply op_recs_ok; [|lia|lia]. eapply Forall_impl; [exact B2|]. by intros l [Hl _]. }
  rewrite <- (app_nil_r (log_bytes 1 acc)).
  apply recover_log; [done|by apply torn_recover; left|].
  apply recs_fuel in Hok. rewrite app_nil_r. unfold log_bytes. lia.
Qed.
End recovery.

(** ** Reopening *)

Section reopen.
Context {S I : Type} {P : PageOps S} {L : PageLaws S} {X : IndexStore I}.

Lemma reopen_spec id (e : env S) (t : table I) room a : state_rep id (e, t) room a -> 0 <= t_data_fd t ->
  exists e' n, table_open e id (t_data_fd t) (Some (t_pk_index t)) = (e', Some t) /\
    state_rep id (e', t) room (Abs (ab_map a) n (ab_wal a) (ab_writes a)) /\
    0 < n <= ab_next a /\ forall k, is_Some (ab_map a !! k) -> k < n.
Proof.
  intros [H1 H2 (ps & Ht) H4 H5 H6] Hfd. cbn [fst snd] in *. pose proof Ht as [A1 A2 A3 A4 [A5 A5'] A6 A7 (n0 & B1 & B2 & B3 & B4)].
  rewrite H2 in *. assert (n0 = ab_next a) as -> by congruence.
  destruct (open_spec e id (t_data_fd t) (t_pk_index t) room ps (ab_map a)) as (e' & n & Ho & Hw & Hws & Hi & Hidle & Hp & Hrep & Hn);
    try done; [by rewrite <- A2|intros ptr r Hr; pose proof (B4 _ _ Hr); lia|].
  exists e', n. destruct t as [tid rs fd x]. cbn [t_id t_record_size t_data_fd t_pk_index] in *. subst tid. rewrite <- A2 in *.
  split; [done|]. assert (Hids : en_ids e' !! Z.to_nat id = Some n) by (rewrite Hi; apply list_lookup_insert_eq; by eapply lookup_lt_Some).
  split; [constructor; cbn [fst snd ab_map ab_next ab_wal ab_writes]; try done; congruence|].
  destruct Hrep as (ps' & Ht'). destruct (tp_next _ _ _ _ _ _ Ht') as (m & C1 & C2 & _ & C4). cbn [t_id] in *.
  assert (m = n) as -> by congruence. split.
  - destruct Hn as [->|(ptr & r & Hr & ->)]; [lia|]. pose proof (B4 _ _ Hr). lia.
  - intros k [r Hk]. apply (in_map _ _ _ _ (tp_indexed _ _ _ _ _ _ Ht')) in Hk as (ptr & (_ & Ha & _) & <-).
    by apply (C4 ptr r).
Qed.

(** Reopening a table.  Opening the data file and index of a represented table
    gives a handle for the same map; the id counter restarts above every stored id,
    deleted ones included, and never above the old counter. *)
Theorem table_reopen_same_map id (e : env S) (t : table I) room a :
  state_rep id (e, t) room a -> 0 <= t_data_fd t ->
  exists e' n, table_open e id (t_data_fd t) (Some (t_pk_index t)) = (e', Some t) /\
    state_rep id (e', t) room (Abs (ab_map a) n (ab_wal a) (ab_writes a)) /\
    0 < n <= ab_next a /\ (forall k, is_Some (ab_map a !! k) -> k < n) /\
    forall ps, ps_pages (en_store e') (t_data_fd t) = Some ps -> forall ptr r, at_ptr ps ptr = Some r -> key id r < n.
Proof.
  intros Hrep Hfd. destruct (reopen_spec id e t room a Hrep Hfd) as (e' & n & H1 & H2 & H3 & H4).
  exists e', n. do 4 (split; [done|]). intros ps Hps ptr r Hr.
  destruct H2 as [_ Hid (ps' & Ht) Hn _ _]. cbn [fst snd ab_next] in *. pose proof (tp_pages _ _ _ _ _ _ Ht) as Hp.
  destruct (tp_next _ _ _ _ _ _ Ht) as (m & C1 & _ & _ & C4). rewrite Hid in *.
  assert (ps' = ps) as -> by congruence. assert (m = n) as -> by congruence. by apply (C4 ptr r).
Qed.
End reopen.

(** ** A seats table on the buffer pool, the B+ tree and an empty data file *)

Definition seats_store : pool_store := (pool2, Disk {[ 5 := [] ]} []).
Definition seats_env : env pool_store := Env seats_store wal_create [] g_next_ids.
Definition seats_table (x : btree) : table btree := Table TABLE_SEATS SEAT_RECORD_SIZE 5 x.
Definition fresh_index : btree :=
  {| bt_root := NLeaf {| l_addr := 0; l_keys := []; l_values := []; l_next := None |};
     bt_order := Z.to_nat BTREE_DEFAULT_ORDER; bt_size := 0; bt_dirty := true; bt_fresh := 1 |}.

Definition seat_of (event number status : Z) : bytes :=
  seat_bytes (SeatRecord 0 event 65 number status 0 0 (zeros 15)).

Definition seat_ops : list table_op :=
  [TInsert (seat_of 7 1 SEAT_AVAILABLE); TInsert (seat_of 7 2 SEAT_AVAILABLE);
   TUpdate 1 (with_key TABLE_SEATS 1 (seat_of 7 1 SEAT_BOOKED)); TDelete 2; TDelete 2; TFind 1; TFind 2;
   TScan None 10; TCount; TFlush].

Lemma fresh_index_ok : ix_wf fresh_index /\ ix_map fresh_index = ∅.
Proof. by apply (btree_create_wf (Z.to_nat BTREE_DEFAULT_ORDER)). Qed.

Lemma seats_store_idle : ps_idle seats_store.
Proof.
  split; [exists []; by apply (pool_create_ok 2)|]. split; [constructor|].
  split; [intros [|[|j]]; reflexivity|].
  intros k i Hk.
  assert (Hi : i ∈ ([] : list nat)).
  { apply (ok_list _ _ _ (pool_create_ok 2 pool2 disk3 eq_refl)). by exists k. }
  by apply not_elem_of_nil in Hi.
Qed.

(** It represents the empty map, with room for a million seats. *)
Lemma seats_rep : state_rep TABLE_SEATS (seats_env, seats_table fresh_index) 1000000 (Abs ∅ 1 wal_create []).
Proof.
  destruct fresh_index_ok as [Hwf Hmap]. constructor; try reflexivity; [apply seats_store_idle|]. exists [].
  assert (Hno : forall ptr, at_ptr [] ptr = None) by done.
  constructor; cbn [fst snd seats_env seats_table t_id t_record_size t_data_fd t_pk_index en_ids]; try done.
  - constructor; intros k v; [rewrite Hmap|]; cbn [ab_map]; rewrite lookup_empty; (split; [done|]);
      intros (? & (_ & Ha & _) & _); by rewrite Hno in Ha.
  - exists 1. done.
Qed.

Lemma seat_ops_ok : Forall (top_ok TABLE_SEATS) seat_ops.
Proof.
  repeat constructor; cbn [top_ok]; try (vm_compute; split; congruence); try (split; [reflexivity|]); try split;
    try reflexivity; try (unfold seat_of, with_key; auto 10 with etp); try (vm_compute; intuition congruence).
Qed.

Lemma table_refines_machine_witness :
  snd (table_run (seats_env, seats_table fresh_index) seat_ops) =
    [OInsert ETP_OK (Some 1); OInsert ETP_OK (Some 2); ORc ETP_OK; ORc ETP_OK; ORc ETP_ERR_NOT_FOUND;
     OFind ETP_OK (Some (with_key TABLE_SEATS 1 (seat_of 7 1 SEAT_BOOKED))); OFind ETP_ERR_NOT_FOUND None;
     OScan [with_key TABLE_SEATS 1 (seat_of 7 1 SEAT_BOOKED)]; OInt 1; OInt 0] /\
  exists a', abs_run TABLE_SEATS (Abs ∅ 1 wal_create []) seat_ops
    (snd (table_run (seats_env, seats_table fresh_index) seat_ops)) a'.
Proof.
  split; [vm_compute; reflexivity|].
  destruct (table_refines_machine TABLE_SEATS _ _ _ seat_ops seats_rep seat_ops_ok ltac:(vm_compute; discriminate))
    as (st' & outs & a' & He & Hr & _).
  exists a'. rewrite He. exact Hr.
Defined.

Lemma recovery_rebuilds_table_witness :
  exists recs M, wal_recover (en_wal (table_run (seats_env, seats_table fresh_index) seat_ops).1.1) = Some recs /\
    fold_left (replay_rec TABLE_SEATS) recs ∅ = M /\ length recs = 4%nat.
Proof.
  destruct (recovery_rebuilds_table TABLE_SEATS _ _ seat_ops seats_rep seat_ops_ok ltac:(vm_compute; discriminate)
    ltac:(vm_compute; reflexivity)) as (recs & M & Hr & Hf & _).
  exists recs, M. split; [exact Hr|]. split; [exact Hf|].
  assert (Hl : option_map length (wal_recover (en_wal (table_run (seats_env, seats_table fresh_index) seat_ops).1.1)) = Some 4%nat)
    by (vm_compute; reflexivity).
  rewrite Hr in Hl. injection Hl as Hl. exact Hl.
Defined.

(** The state after [seat_ops], whose second seat is deleted, reopened. *)
Lemma table_reopen_same_map_witness :
  let st := fst (table_run (seats_env, seats_table fresh_index) seat_ops) in
  exists e' n a, table_open st.1 TABLE_SEATS (t_data_fd st.2) (Some (t_pk_index st.2)) = (e', Some st.2) /\
    state_rep TABLE_SEATS (e', st.2) 999998 a /\ ab_next a = n /\ 0 < n.
Proof.
  pose proof (run_refines TABLE_SEATS seat_ops _ _ _ seats_rep seat_ops_ok ltac:(vm_compute; discriminate)) as H.
  assert (Hfd : t_data_fd (fst (table_run (seats_env, seats_table fresh_index) seat_ops)).2 = 5) by (vm_compute; reflexivity).
  destruct (table_run (seats_env, seats_table fresh_index) seat_ops) as [[e t] outs]. destruct H as (a' & _ & Hrep).
  cbn [fst snd] in *. change (1000000 - inserts seat_ops) with 999998 in Hrep.
  destruct (table_reopen_same_map TABLE_SEATS e t 999998 a' Hrep ltac:(rewrite Hfd; discriminate))
    as (e' & n & H1 & H2 & H3 & _).
  exists e', n. eexists. split; [exact H1|]. split; [exact H2|]. split; [reflexivity|apply H3].
Defined.
