(* ===== verification/Calls.v ===== *)
(** * The calls of the business logic

    booking_engine.c, event_mgr.c, auth.c and reports.c are sequences of calls on
    tables and on the transaction manager.  [prog] is a program of such calls: a
    tree whose nodes are calls and whose branches are the answers.  [world] is
    what the calls act on, the tables as finite maps of records (what
    TableHistory.v shows of table.c) and the exclusive locks with their owners
    (what TxnManager.v shows of the transaction layer).  [exec] is what a call
    does when no table or log write fails, [exec_fault] what it does when one
    fails; [call] runs a call with a script of faults, so that programs evaluate. *)

From stdpp Require Import base tactics numbers list gmap sorting.
From Stdlib Require Import ZArith Lia.
From S2P Require Import Prelude Types.

#[local] Open Scope Z_scope.

(** ** Tables *)

Inductive tbl : Type -> Type :=
  | Users : tbl user_record
  | Events : tbl event_record
  | Seats : tbl seat_record
  | Bookings : tbl booking_record
  | BookingSeats : tbl booking_seat_record.

(** The contents of a table and its next id. *)
Record tstate (R : Type) := TState { ts_map : gmap Z R; ts_next : Z }.
Arguments TState {R}. Arguments ts_map {R}. Arguments ts_next {R}.

Record world := World {
  w_users : tstate user_record;
  w_events : tstate event_record;
  w_seats : tstate seat_record;
  w_bookings : tstate booking_record;
  w_bseats : tstate booking_seat_record;
  w_locks : gmap (Z * Z) Z;      (** table and record to owning transaction *)
  w_next_txn : Z }.

Definition tget {R} (T : tbl R) (w : world) : tstate R :=
  match T in tbl R return tstate R with
  | Users => w_users w | Events => w_events w | Seats => w_seats w
  | Bookings => w_bookings w | BookingSeats => w_bseats w
  end.

Definition tput {R} (T : tbl R) : tstate R -> world -> world :=
  match T in tbl R return tstate R -> world -> world with
  | Users => fun s w => World s (w_events w) (w_seats w) (w_bookings w) (w_bseats w) (w_locks w) (w_next_txn w)
  | Events => fun s w => World (w_users w) s (w_seats w) (w_bookings w) (w_bseats w) (w_locks w) (w_next_txn w)
  | Seats => fun s w => World (w_users w) (w_events w) s (w_bookings w) (w_bseats w) (w_locks w) (w_next_txn w)
  | Bookings => fun s w => World (w_users w) (w_events w) (w_seats w) s (w_bseats w) (w_locks w) (w_next_txn w)
  | BookingSeats => fun s w => World (w_users w) (w_events w) (w_seats w) (w_bookings w) s (w_locks w) (w_next_txn w)
  end.

Definition set_locks (l : gmap (Z * Z) Z) (w : world) : world :=
  World (w_users w) (w_events w) (w_seats w) (w_bookings w) (w_bseats w) l (w_next_txn w).
Definition set_next_txn (n : Z) (w : world) : world :=
  World (w_users w) (w_events w) (w_seats w) (w_bookings w) (w_bseats w) (w_locks w) n.

(** The id table_insert stores in the record. *)
Definition set_key {R} (T : tbl R) (id : Z) : R -> R :=
  match T in tbl R return R -> R with
  | Users => fun r => UserRecord id (u_username r) (u_password_hash r) (u_role r) (u_created_at r) (u_is_deleted r) (u_pad r)
  | Events => fun r => EventRecord id (e_name r) (e_venue r) (e_event_date r) (e_event_time r) (e_organizer_id r)
      (e_total_rows r) (e_seats_per_row r) (e_price r) (e_status r) (e_is_deleted r) (e_pad r)
  | Seats => fun r => SeatRecord id (s_event_id r) (s_row_label r) (s_seat_number r) (s_status r) (s_booked_by r)
      (s_is_deleted r) (s_pad r)
  | Bookings => fun r => BookingRecord id (b_user_id r) (b_event_id r) (b_seat_count r) (b_total_amount r) (b_status r)
      (b_booked_at r) (b_is_deleted r) (b_pad r)
  | BookingSeats => fun r => BookingSeatRecord (bs_booking_id r) (bs_seat_id r) (bs_is_deleted r) id (bs_pad r)
  end.

(** A platform without data. *)
Definition no_records {R} : tstate R := TState ∅ 1.
Definition empty_world : world := World no_records no_records no_records no_records no_records ∅ 1.

(** ** Calls *)

(** A record, or the error a call returned. *)
Definition res (A : Type) : Type := A + etp_result_t.

Inductive cmd : Type -> Type :=
  | Find {R} (T : tbl R) (id : Z) : cmd (res R)
  | Insert {R} (T : tbl R) (r : R) : cmd (res Z)
  | Update {R} (T : tbl R) (id : Z) (r : R) : cmd etp_result_t
  | Delete {R} (T : tbl R) (id : Z) : cmd etp_result_t
  | Scan {R} (T : tbl R) (filter : R -> bool) (max_results : Z) : cmd (list R)
  | Begin : cmd Z
  | Lock (txn table rid : Z) : cmd Z            (** txn_lock with LOCK_EXCLUSIVE *)
  | Commit (txn : Z) : cmd Z
  | Abort (txn : Z) : cmd unit
  | Now : cmd Z.

Inductive prog (A : Type) : Type :=
  | Ret (a : A)
  | Call {R} (c : cmd R) (k : R -> prog A).
Arguments Ret {A}. Arguments Call {A R}.

Fixpoint bind {A B} (p : prog A) (f : A -> prog B) : prog B :=
  match p with
  | Ret a => f a
  | Call c k => Call c (fun r => bind (k r) f)
  end.

Notation "x <- c ; p" := (Call c (fun x => p)) (at level 100, c at next level, right associativity) : etp_scope.
Notation "c ;; p" := (Call c (fun _ => p)) (at level 100, right associativity) : etp_scope.

(** ** What a call does *)

(** Insertion in a table: the next id, and the record under it. *)
Definition tinsert {R} (T : tbl R) (r : R) (w : world) : world :=
  let s := tget T w in tput T (TState (<[ts_next s := set_key T (ts_next s) r]> (ts_map s)) (ts_next s + 1)) w.

(** table_insert takes the id before it logs: an insertion that fails uses it up. *)
Definition tskip {R} (T : tbl R) (w : world) : world :=
  let s := tget T w in tput T (TState (ts_map s) (ts_next s + 1)) w.

Definition tupdate {R} (T : tbl R) (id : Z) (r : R) (w : world) : world :=
  let s := tget T w in tput T (TState (<[id := r]> (ts_map s)) (ts_next s)) w.

Definition tdelete {R} (T : tbl R) (id : Z) (w : world) : world :=
  let s := tget T w in tput T (TState (delete id (ts_map s)) (ts_next s)) w.

Definition release (txn : Z) (w : world) : world :=
  set_locks (filter (fun kv => kv.2 <> txn) (w_locks w)) w.

(** The records of a scan: each live record once. *)
Definition scanned {R} (T : tbl R) (w : world) (recs : list R) : Prop :=
  exists ids, NoDup ids /\ Forall2 (fun id r => ts_map (tget T w) !! id = Some r) ids recs /\
    forall id, is_Some (ts_map (tget T w) !! id) -> id ∈ ids.

Definition exec {R} (w : world) (c : cmd R) : R -> world -> Prop :=
  match c in cmd R return R -> world -> Prop with
  | Find T id => fun r w' => w' = w /\
      r = match ts_map (tget T w) !! id with Some x => inl x | None => inr ETP_ERR_NOT_FOUND end
  | Insert T x => fun r w' => r = inl (ts_next (tget T w)) /\ w' = tinsert T x w
  | Update T id x => fun r w' =>
      match ts_map (tget T w) !! id with
      | Some _ => r = ETP_OK /\ w' = tupdate T id x w
      | None => r = ETP_ERR_NOT_FOUND /\ w' = w
      end
  | Delete T id => fun r w' =>
      match ts_map (tget T w) !! id with
      | Some _ => r = ETP_OK /\ w' = tdelete T id w
      | None => r = ETP_ERR_NOT_FOUND /\ w' = w
      end
  | Scan T f n => fun r w' => w' = w /\ exists recs, scanned T w recs /\
      r = take (Z.to_nat n) (filter (fun x => f x = true) recs)
  | Begin => fun r w' => (r = INVALID_TXN_ID /\ w' = w) \/
      (r = w_next_txn w /\ w' = set_next_txn (w_next_txn w + 1) w)
  | Lock txn tb rid => fun r w' => r = 0 /\
      match w_locks w !! (tb, rid) with
      | None => w' = set_locks (<[(tb, rid) := txn]> (w_locks w)) w
      | Some owner => owner = txn /\ w' = w
      end
  | Commit txn => fun r w' => r = 0 /\ w' = release txn w
  | Abort txn => fun _ w' => w' = release txn w
  | Now => fun _ w' => w' = w
  end.

(** The failures: a log write that fails leaves the records as they are (but an
    insertion has used up its id), a lock request can be refused, a commit that
    cannot be logged ends like an abort. *)
Definition exec_fault {R} (w : world) (c : cmd R) : R -> world -> Prop :=
  match c in cmd R return R -> world -> Prop with
  | Insert T _ => fun r w' => r = inr ETP_ERR_IO /\ w' = tskip T w
  | Update T _ _ => fun r w' => r = ETP_ERR_IO /\ w' = w
  | Delete T _ => fun r w' => r = ETP_ERR_IO /\ w' = w
  | Lock txn _ _ => fun r w' => r = -1 /\ w' = w
  | Commit txn => fun r w' => r = -1 /\ w' = release txn w
  | _ => fun _ _ => False
  end.

(** ** Running a program *)

Definition by_id {R} (a b : Z * R) : Prop := a.1 <= b.1.
#[export] Instance by_id_dec {R} (a b : Z * R) : Decision (by_id a b).
Proof. unfold by_id. apply _. Defined.

(** The records in insertion order. *)
Definition table_records {R} (T : tbl R) (w : world) : list R :=
  snd <$> merge_sort by_id (map_to_list (ts_map (tget T w))).

(** One call; [fault] makes it fail if it can.  A lock held by another
    transaction would block: no answer. *)
Definition call {R} (fault : bool) (now : Z) (w : world) (c : cmd R) : option (R * world) :=
  match c in cmd R return option (R * world) with
  | Find T id => Some (match ts_map (tget T w) !! id with Some x => inl x | None => inr ETP_ERR_NOT_FOUND end, w)
  | Insert T x => if fault then Some (inr ETP_ERR_IO, tskip T w) else Some (inl (ts_next (tget T w)), tinsert T x w)
  | Update T id x =>
      if fault then Some (ETP_ERR_IO, w)
      else match ts_map (tget T w) !! id with
           | Some _ => Some (ETP_OK, tupdate T id x w)
           | None => Some (ETP_ERR_NOT_FOUND, w)
           end
  | Delete T id =>
      if fault then Some (ETP_ERR_IO, w)
      else match ts_map (tget T w) !! id with
           | Some _ => Some (ETP_OK, tdelete T id w)
           | None => Some (ETP_ERR_NOT_FOUND, w)
           end
  | Scan T f n => Some (take (Z.to_nat n) (filter (fun x => f x = true) (table_records T w)), w)
  | Begin => Some (w_next_txn w, set_next_txn (w_next_txn w + 1) w)
  | Lock txn tb rid =>
      if fault then Some (-1, w)
      else match w_locks w !! (tb, rid) with
           | None => Some (0, set_locks (<[(tb, rid) := txn]> (w_locks w)) w)
           | Some owner => if owner =? txn then Some (0, w) else None
           end
  | Commit txn => Some (if fault then -1 else 0, release txn w)
  | Abort txn => Some (tt, release txn w)
  | Now => Some (now, w)
  end.

(** A program alone; call number [n] fails when [faults n] says so. *)
Fixpoint run {A} (p : prog A) (faults : nat -> bool) (now : Z) (w : world) : option (A * world) :=
  match p with
  | Ret a => Some (a, w)
  | Call c k =>
      match call (faults 0%nat) now w c with
      | None => None
      | Some (r, w') => run (k r) (fun n => faults (S n)) now w'
      end
  end.

Definition no_faults : nat -> bool := fun _ => false.

(** ** Lemmas *)

Lemma tget_tput {R} (T : tbl R) s w : tget T (tput T s w) = s.
Proof. by destruct T. Qed.

Lemma locks_tput {R} (T : tbl R) s w : w_locks (tput T s w) = w_locks w /\ w_next_txn (tput T s w) = w_next_txn w.
Proof. by destruct T. Qed.

Lemma tskip_next {R R'} (T' : tbl R') (T : tbl R) w : ts_next (tget T' w) <= ts_next (tget T' (tskip T w)).
Proof. destruct T, T'; cbn; lia. Qed.

Lemma tskip_locks {R} (T : tbl R) w : w_locks (tskip T w) = w_locks w /\ w_next_txn (tskip T w) = w_next_txn w.
Proof. apply locks_tput. Qed.

Lemma bind_call {A B R} (c : cmd R) (k : R -> prog A) (f : A -> prog B) :
  bind (Call c k) f = Call c (fun r => bind (k r) f).
Proof. done. Qed.

Lemma table_records_scanned {R} (T : tbl R) (w : world) : scanned T w (table_records T w).
Proof.
  unfold table_records. set (m := ts_map (tget T w)). set (l := merge_sort by_id (map_to_list m)).
  assert (Hl : l ≡ₚ map_to_list m) by apply merge_sort_Permutation.
  exists (l.*1). split; [|split].
  - rewrite Hl. apply NoDup_fst_map_to_list.
  - apply Forall2_fmap, Forall_Forall2_diag. rewrite Hl. apply Forall_forall. intros [i x]. by rewrite elem_of_map_to_list.
  - intros id [x Hx]. rewrite Hl. apply list_elem_of_fmap. exists (id, x). split; [done|]. by apply elem_of_map_to_list.
Qed.

(** The executable calls are possible ones. *)
Lemma call_exec {R} fault now w (c : cmd R) r w' :
  call fault now w c = Some (r, w') -> exec w c r w' \/ (fault = true /\ exec_fault w c r w').
Proof.
  destruct c; cbn [call exec exec_fault]; intros Hc; try (destruct fault; [by simplify_eq; auto|]);
    try (destruct (_ !! id) eqn:E; simplify_eq; by auto).
  - simplify_eq. auto.
  - simplify_eq. left. split; [done|]. eexists. split; [apply table_records_scanned|done].
  - simplify_eq. auto.
  - left. destruct (w_locks w !! (table, rid)) as [o|]; [|by simplify_eq].
    destruct (o =? txn) eqn:E; simplify_eq. apply Z.eqb_eq in E. auto.
  - simplify_eq. auto.
  - simplify_eq. auto.
  - simplify_eq. auto.
Qed.

(** ** Running alone *)

Definition alone {A} (now : Z) (w : world) (p : prog A) (Q : A -> world -> Prop) : Prop :=
  match run p no_faults now w with Some (a, w') => Q a w' | None => False end.

Lemma alone_call {A R} now w (c : cmd R) (k : R -> prog A) Q r w' :
  call false now w c = Some (r, w') -> alone now w' (k r) Q -> alone now w (Call c k) Q.
Proof. intros Hc. unfold alone. cbn [run]. change (no_faults 0) with false. by rewrite Hc. Qed.

Lemma alone_mono {A} now w (p : prog A) (Q Q' : A -> world -> Prop) :
  alone now w p Q -> (forall a w', Q a w' -> Q' a w') -> alone now w p Q'.
Proof. unfold alone. intros H HQ. destruct (run p no_faults now w) as [[a w']|]; auto. Qed.

Lemma alone_ret {A} now w (a : A) (Q : A -> world -> Prop) : Q a w -> alone now w (Ret a) Q.
Proof. done. Qed.
