(* ===== verification/Codec.v ===== *)
(** * Records of the business logic as table bytes

    booking_engine.c, event_mgr.c, auth.c and reports.c hand their packed structs
    to table.c as byte buffers.  Here each table of Calls.v gets the layout of its
    records from Types.v, and storing the new id in the buffer, as table_insert
    does, is shown to be setting the field of the struct. *)

From stdpp Require Import base tactics numbers list gmap.
From Stdlib Require Import ZArith Lia.
From S2P Require Import Prelude Types Table TableSpec TableHistory Calls.

#[local] Open Scope Z_scope.

Definition tbl_layout {R} (T : tbl R) : layout R :=
  match T in tbl R return layout R with
  | Users => user_layout | Events => event_layout | Seats => seat_layout
  | Bookings => booking_layout | BookingSeats => booking_seat_layout
  end.

Definition tbl_id {R} (T : tbl R) : Z := ly_table (tbl_layout T).
Definition encode {R} (T : tbl R) : R -> bytes := ly_enc (tbl_layout T).
Definition decode {R} (T : tbl R) : bytes -> R := ly_dec (tbl_layout T).
Definition rec_key {R} (T : tbl R) : R -> Z := ly_key (tbl_layout T).

(** A record as its table holds it: fields in range, not flagged deleted. *)
Definition valid {R} (T : tbl R) (x : R) : Prop := ly_ok (tbl_layout T) x /\ ly_deleted (tbl_layout T) x = 0.

Lemma tbl_law {R} (T : tbl R) : layout_law (tbl_layout T).
Proof.
  destruct T; [apply user_layout_law|apply event_layout_law|apply seat_layout_law|apply booking_layout_law|apply booking_seat_layout_law].
Qed.

Lemma tbl_id_range {R} (T : tbl R) : 0 <= tbl_id T < 5.
Proof. destruct T; cbn; unfold TABLE_USERS, TABLE_EVENTS, TABLE_SEATS, TABLE_BOOKINGS, TABLE_BOOKING_SEATS; lia. Qed.

(** Two tables with one id are the same table. *)
Lemma tbl_same {R R'} (T : tbl R) (T' : tbl R') (Q : forall R, tbl R -> Prop) : tbl_id T' = tbl_id T -> Q R T -> Q R' T'.
Proof. by destruct T, T'. Qed.

Section encode.
Context {R : Type} (T : tbl R) (x : R) (Hx : valid T x).

Lemma encode_length : length (encode T x) = Z.to_nat (etp_record_size (tbl_id T)).
Proof using Hx. destruct (tbl_law T x (proj1 Hx)) as (H & _). unfold encode, tbl_id. lia. Qed.

Lemma encode_bytes : Forall byte_ok (encode T x).
Proof using Hx. apply (tbl_law T x (proj1 Hx)). Qed.

Lemma decode_encode : decode T (encode T x) = x.
Proof using Hx. apply (tbl_law T x (proj1 Hx)). Qed.

Lemma encode_key : key (tbl_id T) (encode T x) = rec_key T x.
Proof using Hx. apply (tbl_law T x (proj1 Hx)). Qed.

Lemma encode_live : live (tbl_id T) (encode T x) = true.
Proof using Hx.
  destruct (tbl_law T x (proj1 Hx)) as (_ & _ & _ & _ & H). unfold live, encode, tbl_id. by rewrite H, (proj2 Hx).
Qed.
End encode.

(** The id written into the buffer is the id field of the struct. *)
Lemma wr_field (l1 l2 : bytes) n off v z : length l1 = off ->
  wr n off v (l1 ++ le_enc n z ++ l2) = l1 ++ le_enc n v ++ l2.
Proof.
  intros <-. unfold wr, blit. rewrite take_app_length, length_le_enc. f_equal. f_equal.
  rewrite drop_app_ge by lia. replace (length l1 + n - length l1)%nat with n by lia.
  by rewrite drop_app_length' by (by rewrite length_le_enc).
Qed.

Lemma encode_set_key {R} (T : tbl R) n (x : R) : valid T x -> uint_ok 32 n ->
  with_key (tbl_id T) n (encode T x) = encode T (set_key T n x) /\ valid T (set_key T n x) /\ rec_key T (set_key T n x) = n.
Proof.
  intros [Hok Hd] Hn. split; [|split; [|by destruct T]].
  - destruct T; unfold with_key, encode; cbn [tbl_layout ly_enc user_layout event_layout seat_layout booking_layout booking_seat_layout].
    1-4: apply (wr_field [] _ 4 0); reflexivity.
    unfold booking_seat_bytes. rewrite !app_assoc, <- !(app_assoc _ (le_enc 4 _)). apply (wr_field _ _ 4 9).
    by rewrite !length_app, !length_le_enc.
  - destruct T; (split; [|exact Hd]); cbn [tbl_layout ly_ok user_layout event_layout seat_layout booking_layout booking_seat_layout] in Hok |- *;
      unfold user_ok, event_ok, seat_ok, booking_ok, booking_seat_ok in *; destruct_and!; split_and!; assumption.
Qed.
