(* ===== verification/Platform.v ===== *)
(** * The platform: the business calls on the storage layer

    server_context_t of main.c as far as data goes: one page store, one log, the
    id counters, five tables, the transaction manager and the lock table.  [pcall]
    is what a call of Calls.v is there, on bytes and pages; [represents] says that
    a platform holds the tables and locks of a world, and [pcall_refines] that
    every call does on the platform what [exec] says it does on the world, or
    fails as [exec_fault] says. *)

From stdpp Require Import base tactics numbers list list_numbers gmap.
From Stdlib Require Import ZArith Lia.
From S2P Require Import Prelude Types Utils Page BTree Wal LockManager TxnManager TxnWorld PageStore Table TableSpec TableHistory Calls Codec.

#[local] Open Scope Z_scope.

Record platform (S I : Type) := Platform {
  pf_env : env S;
  pf_users : table I; pf_events : table I; pf_seats : table I; pf_bookings : table I; pf_bseats : table I;
  pf_txn_mgr : txn_manager; pf_lock_mgr : lock_manager }.
Arguments Platform {S I}. Arguments pf_env {S I}. Arguments pf_users {S I}. Arguments pf_events {S I}.
Arguments pf_seats {S I}. Arguments pf_bookings {S I}. Arguments pf_bseats {S I}.
Arguments pf_txn_mgr {S I}. Arguments pf_lock_mgr {S I}.

(** What a call leaves to its surroundings: whether fsync works, and the clock. *)
Record outside := Outside { os_synced : bool; os_now : Z }.

Section platform.
Context {S I : Type} {P : PageOps S} {X : IndexStore I}.
Implicit Types p : platform S I.

Definition handle {R} (T : tbl R) p : table I :=
  match T with
  | Users => pf_users p | Events => pf_events p | Seats => pf_seats p
  | Bookings => pf_bookings p | BookingSeats => pf_bseats p
  end.

(** After a table operation: the shared state and the handle. *)
Definition put_table {R} (T : tbl R) (et : env S * table I) p : platform S I :=
  let '(e, t) := et in
  match T with
  | Users => Platform e t (pf_events p) (pf_seats p) (pf_bookings p) (pf_bseats p) (pf_txn_mgr p) (pf_lock_mgr p)
  | Events => Platform e (pf_users p) t (pf_seats p) (pf_bookings p) (pf_bseats p) (pf_txn_mgr p) (pf_lock_mgr p)
  | Seats => Platform e (pf_users p) (pf_events p) t (pf_bookings p) (pf_bseats p) (pf_txn_mgr p) (pf_lock_mgr p)
  | Bookings => Platform e (pf_users p) (pf_events p) (pf_seats p) t (pf_bseats p) (pf_txn_mgr p) (pf_lock_mgr p)
  | BookingSeats => Platform e (pf_users p) (pf_events p) (pf_seats p) (pf_bookings p) t (pf_txn_mgr p) (pf_lock_mgr p)
  end.

Definition put_txn (tm : txn_manager) (lm : lock_manager) p : platform S I :=
  Platform (pf_env p) (pf_users p) (pf_events p) (pf_seats p) (pf_bookings p) (pf_bseats p) tm lm.

(** After the critical section of a commit or abort: the log, and the locks given back. *)
Definition put_closed (tm : txn_manager) (w : wal) (ws : writes) (ks : option (list lock_key)) p : platform S I :=
  Platform (set_wal (pf_env p) w ws) (pf_users p) (pf_events p) (pf_seats p) (pf_bookings p) (pf_bseats p) tm
    (match ks with Some ks => release_locks (pf_lock_mgr p) ks | None => pf_lock_mgr p end).

Definition table_op_on {R} (T : tbl R) p (o : table_op) : platform S I * table_out :=
  let '(et, out) := table_step (pf_env p, handle T p) o in (put_table T et p, out).

(** What the callers make of the outcomes of table.c. *)
Definition found {R} (T : tbl R) (out : table_out) : res R :=
  match out with
  | OFind ETP_OK (Some b) => inl (decode T b)
  | OFind rc _ => inr rc
  | _ => inr ETP_ERR_GENERIC
  end.
Definition new_id (out : table_out) : res Z :=
  match out with OInsert ETP_OK (Some id) => inl id | OInsert rc _ => inr rc | _ => inr ETP_ERR_GENERIC end.
Definition rc_of (out : table_out) : etp_result_t := match out with ORc rc => rc | _ => ETP_ERR_GENERIC end.
Definition records {R} (T : tbl R) (out : table_out) : list R :=
  match out with OScan rs => decode T <$> rs | _ => [] end.

(** A call; [None]: it has to wait for a lock. *)
Definition pcall {R} (o : outside) p (c : cmd R) : option (R * platform S I) :=
  match c in cmd R return option (R * platform S I) with
  | Find T id => let '(p', out) := table_op_on T p (TFind id) in Some (found T out, p')
  | Insert T x => let '(p', out) := table_op_on T p (TInsert (encode T x)) in Some (new_id out, p')
  | Update T id x => let '(p', out) := table_op_on T p (TUpdate id (encode T x)) in Some (rc_of out, p')
  | Delete T id => let '(p', out) := table_op_on T p (TDelete id) in Some (rc_of out, p')
  | Scan T f n => let '(p', out) := table_op_on T p (TScan (Some (fun b => f (decode T b))) n) in Some (records T out, p')
  | Begin => let '(tm, id) := txn_begin (pf_txn_mgr p) in Some (id, put_txn tm (pf_lock_mgr p) p)
  | Lock txn tb rid =>
      match txn_lock_now (pf_txn_mgr p) (pf_lock_mgr p) txn (tb, rid) with
      | Some (tm, lm, rc) => Some (rc, put_txn tm lm p)
      | None => None
      end
  | Commit txn =>
      let '(tm, w, ws, ks, rc) := commit_core (pf_txn_mgr p) (en_wal (pf_env p)) (en_writes (pf_env p)) (os_synced o) txn in
      Some (rc, put_closed tm w ws ks p)
  | Abort txn =>
      let '(tm, w, ws, ks) := abort_core (pf_txn_mgr p) (en_wal (pf_env p)) (en_writes (pf_env p)) txn in
      Some (tt, put_closed tm w ws ks p)
  | Now => Some (os_now o, p)
  end.
End platform.

(** ** Representation *)

Section refinement.
Context {S I : Type} {P : PageOps S} {L : PageLaws S} {X : IndexStore I}.
Implicit Types p : platform S I.

(** The table [T] holds the records of the world, and can take [room] more. *)
Record table_holds {R} (T : tbl R) (room : Z) p (ts : tstate R) : Prop := TableHolds {
  th_id : t_id (handle T p) = tbl_id T;
  th_rep : table_rep (en_store (pf_env p)) (en_ids (pf_env p)) (handle T p) room (encode T <$> ts_map ts);
  th_next : en_ids (pf_env p) !! Z.to_nat (tbl_id T) = Some (ts_next ts);
  th_valid : forall id x, ts_map ts !! id = Some x -> valid T x /\ rec_key T x = id }.

(** [room]: calls for which no counter of the platform runs out. *)
Record represents (room : Z) p (w : world) : Prop := Represents {
  rp_idle : ps_idle (en_store (pf_env p));
  rp_tables : forall R (T : tbl R), table_holds T room p (tget T w);
  rp_files : forall R R' (T : tbl R) (T' : tbl R'), tbl_id T <> tbl_id T' -> t_data_fd (handle T p) <> t_data_fd (handle T' p);
  rp_txn : txn_rep (pf_txn_mgr p) (pf_lock_mgr p) (w_locks w);
  rp_next_txn : tm_next_txn_id (pf_txn_mgr p) = w_next_txn w;
  rp_room : 0 <= room /\ w_next_txn w + room < 2 ^ 32 }.

Definition abs_of {R} (T : tbl R) p (ts : tstate R) : abs :=
  Abs (encode T <$> ts_map ts) (ts_next ts) (en_wal (pf_env p)) (en_writes (pf_env p)).

Lemma represents_state {R} (T : tbl R) room p w : represents room p w ->
  state_rep (tbl_id T) (pf_env p, handle T p) room (abs_of T p (tget T w)).
Proof. intros H. destruct (rp_tables _ _ _ H R T) as [H1 H2 H3 _]. constructor; try done. apply H. Qed.

Lemma table_room {R} (T : tbl R) room room' p ts : table_holds T room p ts -> 0 <= room' <= room -> table_holds T room' p ts.
Proof.
  intros [H1 (ps & [A1 A2 A3 A4 A5 A6 A7 (n & A8 & A9 & A9r & A10)]) H3 H4] Hr. constructor; try done.
  exists ps. constructor; try done; [lia|]. exists n. split; [done|]. split; [done|]. split; [lia|done].
Qed.

Lemma represents_room room room' p w : represents room p w -> 0 <= room' <= room -> represents room' p w.
Proof.
  intros [H1 H2 H3 H4 H5 H6] Hr. constructor; try done; [|lia]. intros R T. by apply (table_room T room).
Qed.

Lemma handle_put {R} (T : tbl R) et p : handle T (put_table T et p) = et.2 /\ pf_env (put_table T et p) = et.1 /\
  pf_txn_mgr (put_table T et p) = pf_txn_mgr p /\ pf_lock_mgr (put_table T et p) = pf_lock_mgr p.
Proof. destruct et. by destruct T. Qed.

Lemma handle_put_ne {R R'} (T : tbl R) (T' : tbl R') et p : tbl_id T' <> tbl_id T -> handle T' (put_table T et p) = handle T' p.
Proof. destruct et. by destruct T, T'. Qed.

Lemma tget_tput_other {R R'} (T : tbl R) (T' : tbl R') ts w : tbl_id T' <> tbl_id T -> tget T' (tput T ts w) = tget T' w.
Proof. by destruct T, T'. Qed.

(** One operation on one table: its outcome, and the platform afterwards. *)
Lemma table_op_refines {R} (T : tbl R) room p w o : represents room p w -> top_ok (tbl_id T) o -> inserts [o] <= room ->
  let a := abs_of T p (tget T w) in
  let '(p', out) := table_op_on T p o in
  out_ok (tbl_id T) a o (abs_step (tbl_id T) a o).2 out /\
  (forall ts, encode T <$> ts_map ts = ab_map (abs_step (tbl_id T) a o).1 -> ts_next ts = ab_next (abs_step (tbl_id T) a o).1 ->
     (forall id x, ts_map ts !! id = Some x -> valid T x /\ rec_key T x = id) ->
     represents (room - inserts [o]) p' (tput T ts w)) /\
  en_wal (pf_env p') = ab_wal (abs_step (tbl_id T) a o).1 /\ en_writes (pf_env p') = ab_writes (abs_step (tbl_id T) a o).1 /\
  pf_txn_mgr p' = pf_txn_mgr p.
Proof.
  intros Hrep Ho Hroom a. pose proof (represents_state T room p w Hrep) as Hst. fold a in Hst.
  pose proof (step_refines _ _ _ _ _ Hst Ho Hroom) as Hs. pose proof (step_frame _ _ _ _ _ Hst Ho Hroom) as Hf.
  unfold table_op_on. destruct (table_step (pf_env p, handle T p) o) as [et out]. cbn [fst] in Hf. destruct Hs as [Hout Hrep'].
  destruct (handle_put T et p) as (Hh & He & Ht & Hl). pose proof (inserts_pos [o]) as Hpos.
  split; [exact Hout|]. split; [|rewrite He; split; [apply Hrep'|split; [apply Hrep'|done]]].
  intros ts Hm Hn Hv. destruct Hrep as [R1 R2 R3 R4 R5 R6]. pose proof Hrep' as [S1 S2 S3 S4 _ _].
  pose proof (th_id _ _ _ _ (R2 R T)) as Hid.
  constructor.
  - by rewrite He.
  - intros R' T'. destruct (decide (tbl_id T' = tbl_id T)) as [E|E].
    + apply (tbl_same T T' (fun R' T' => table_holds T' _ _ (tget T' (tput T ts w))) E).
      rewrite tget_tput. constructor; [by rewrite Hh|by rewrite He, Hh, Hm|by rewrite He, Hn|exact Hv].
    + rewrite (tget_tput_other T T' ts w E). destruct (R2 R' T') as [B1 B2 B3 B4]. pose proof (tbl_id_range T'). pose proof (tbl_id_range T).
      constructor; rewrite ?He, ?(handle_put_ne T T' et p E); [done| |rewrite (proj2 (proj2 Hf)); [done|cbn; rewrite Hid; lia]|done].
      eapply rep_beside; [exact Hf|exact B2|by apply R3|cbn; rewrite Hid, B1; lia|lia].
  - intros R1' R2' T1 T2 Hne. assert (Hfd : forall R' (T' : tbl R'), t_data_fd (handle T' (put_table T et p)) = t_data_fd (handle T' p)).
    { intros R' T'. destruct (decide (tbl_id T' = tbl_id T)) as [E|E]; [|by rewrite (handle_put_ne T T' et p E)].
      apply (tbl_same T T' (fun R' T' => t_data_fd (handle T' _) = t_data_fd (handle T' _)) E). rewrite Hh. apply Hf. }
    rewrite !Hfd. by apply R3.
  - rewrite Ht, Hl. destruct (locks_tput T ts w) as [-> _]. exact R4.
  - rewrite Ht. destruct (locks_tput T ts w) as [_ ->]. exact R5.
  - destruct (locks_tput T ts w) as [_ ->]. lia.
Qed.

(** ** Calls on tables *)

(** The arguments a call must have. *)
Definition call_ok {R} (c : cmd R) : Prop :=
  match c with
  | Find _ id | Delete _ id => uint_ok 32 id
  | Insert T x => valid T x
  | Update T id x => uint_ok 32 id /\ valid T x /\ rec_key T x = id
  | _ => True
  end.

(** No write of the log will be cut short, and its sequence numbers do not run out. *)
Definition log_ready (n : Z) p : Prop :=
  en_writes (pf_env p) = [] /\ 0 < w_next_lsn (en_wal (pf_env p)) /\ w_next_lsn (en_wal (pf_env p)) + n < 2 ^ 64.

(** Which calls can fail. *)
Definition can_fail {R} p (c : cmd R) : Prop :=
  match c with
  | Insert _ _ | Update _ _ _ | Delete _ _ => ~ log_ready 1 p
  | Lock t _ _ => forall n, txn_open (pf_txn_mgr p) t n -> (MAX_LOCKS_PER_TXN <= n)%nat
  | Commit _ => True
  | _ => False
  end.

Definition outcome_of {R} room p w (c : cmd R) (r : R) p' : Prop :=
  exists w', (exec w c r w' \/ (can_fail p c /\ exec_fault w c r w')) /\ represents room p' w'.

Lemma valid_record {R} (T : tbl R) x : valid T x ->
  length (encode T x) = Z.to_nat (etp_record_size (tbl_id T)) /\ Forall byte_ok (encode T x) /\ live (tbl_id T) (encode T x) = true.
Proof. intros Hx. split; [by apply encode_length|]. split; [by apply encode_bytes|by apply encode_live]. Qed.

(** The log has grown by at most [k] records. *)
Definition log_moves (k : Z) (w w' : wal) (ws' : writes) : Prop :=
  ws' = [] /\ exists ops, Forall log_op_ok ops /\ Z.of_nat (length ops) <= k /\
    w_file w' = w_file w ++ log_bytes (w_next_lsn w) ops /\ w_next_lsn w' = w_next_lsn w + Z.of_nat (length ops).

Lemma log_stays k w : 0 <= k -> log_moves k w w [].
Proof. intros Hk. split; [done|]. exists []. cbn. rewrite app_nil_r. split; [constructor|]. split; [done|]. split; [done|]. lia. Qed.

Lemma log_moves_more j k w w' ws' : log_moves j w w' ws' -> j <= k -> log_moves k w w' ws'.
Proof. intros (H & ops & H1 & H2 & H3) Hk. split; [done|]. exists ops. split; [done|]. split; [lia|done]. Qed.

Lemma log_moves_trans j k w w1 w2 ws1 ws2 : log_moves j w w1 ws1 -> log_moves k w1 w2 ws2 -> log_moves (j + k) w w2 ws2.
Proof.
  intros (_ & o1 & A1 & A2 & A3 & A4) (H & o2 & B1 & B2 & B3 & B4). split; [done|]. exists (o1 ++ o2).
  split; [by apply Forall_app|]. rewrite length_app. split; [lia|]. split; [|lia].
  rewrite B3, A3, A4, <- app_assoc. unfold log_bytes. by rewrite op_recs_app, map_app, concat_app.
Qed.

Lemma log_step_moves w o : log_op_ok o -> 0 < w_next_lsn w < 2 ^ 64 - 1 ->
  let '(w', ws', _) := log_step w [] o in log_moves 1 w w' ws'.
Proof.
  intros Ho Hn. rewrite log_step_full by done. split; [done|]. exists [o]. split; [by constructor|].
  split; [done|]. cbn. by rewrite app_nil_r.
Qed.

(** A log that is ready accepts the record of an operation. *)
Lemma ready_accepts {R} (T : tbl R) room p w o : represents room p w -> top_ok (tbl_id T) o -> inserts [o] <= room ->
  log_ready 1 p ->
  let a' := abs_step (tbl_id T) (abs_of T p (tget T w)) o in
  a'.2 = true /\ log_moves 1 (en_wal (pf_env p)) (ab_wal a'.1) (ab_writes a'.1).
Proof.
  intros Hrep Ho Hroom (Hw & Hl & Hb). cbv zeta. unfold abs_step.
  destruct (attempt (tbl_id T) (abs_of T p (tget T w)) o) as [l|] eqn:E.
  - pose proof (attempt_ok _ _ _ _ _ _ (represents_state T room p w Hrep) Ho Hroom E) as Hok.
    pose proof (log_step_moves (en_wal (pf_env p)) l Hok ltac:(lia)) as Hm.
    cbn [abs_of ab_wal ab_writes]. rewrite Hw. rewrite log_step_full in * by (done || lia).
    destruct (Z.eqb_spec (w_next_lsn (en_wal (pf_env p))) INVALID_LSN) as [H|H]; [unfold INVALID_LSN in H; lia|].
    by split.
  - cbn [fst snd ab_wal ab_writes abs_of]. rewrite Hw. split; [done|by apply log_stays].
Qed.

Lemma not_ready {R} (T : tbl R) room p w o : represents room p w -> top_ok (tbl_id T) o -> inserts [o] <= room ->
  (abs_step (tbl_id T) (abs_of T p (tget T w)) o).2 = false -> ~ log_ready 1 p.
Proof. intros Hrep Ho Hroom E Hr. destruct (ready_accepts T room p w o Hrep Ho Hroom Hr) as [H _]. congruence. Qed.

(** A table whose map and counter stay. *)
Lemma tput_tget {R} (T : tbl R) w : tput T (TState (ts_map (tget T w)) (ts_next (tget T w))) w = w.
Proof. destruct w as [[] [] [] [] []]. by destruct T. Qed.

Lemma find_refines {R} (T : tbl R) id room o p w r p' : represents room p w -> uint_ok 32 id ->
  pcall o p (Find T id) = Some (r, p') -> outcome_of room p w (Find T id) r p'.
Proof.
  intros Hrep Hid. cbn [pcall]. pose proof (table_op_refines T room p w (TFind id) Hrep Hid (proj1 (rp_room _ _ _ Hrep))) as Ht.
  destruct (table_op_on T p (TFind id)) as [p1 out]. cbn [abs_step attempt fst snd ab_map ab_next next_after out_ok abs_of] in Ht.
  destruct Ht as (Hout & Hrep' & _). intros [= <- <-]. exists w. split; [left; split; [done|]|].
  - rewrite Hout, lookup_fmap. destruct (ts_map (tget T w) !! id) as [x|] eqn:E; [|done]. cbn.
    by rewrite decode_encode by (by eapply th_valid; [apply Hrep|]).
  - specialize (Hrep' (tget T w)). change (inserts [TFind id]) with 0 in Hrep'. rewrite Z.sub_0_r in Hrep'.
    replace (tput T (tget T w) w) with w in Hrep' by (symmetry; rewrite <- (tput_tget T w) at 3; by destruct (tget T w)).
    apply Hrep'; [done..|]. apply (th_valid _ _ _ _ (rp_tables _ _ _ Hrep R T)).
Qed.

Lemma next_range {R} (T : tbl R) room p w : represents room p w -> 0 < ts_next (tget T w) < 2 ^ 32.
Proof.
  intros Hrep. destruct (rp_tables _ _ _ Hrep R T) as [H1 H2 H3 _].
  rewrite <- H1 in H3. pose proof (rep_next _ _ _ _ _ _ H2 H3). lia.
Qed.

Lemma insert_refines {R} (T : tbl R) x room o p w r p' : represents room p w -> valid T x -> 1 <= room ->
  pcall o p (Insert T x) = Some (r, p') -> outcome_of (room - 1) p w (Insert T x) r p'.
Proof.
  intros Hrep Hx Hroom. pose proof (next_range T room p w Hrep) as Hn. pose proof (rp_tables _ _ _ Hrep R T) as [_ _ _ Hv].
  destruct (encode_set_key T (ts_next (tget T w)) x Hx ltac:(unfold uint_ok; lia)) as (Hk & Hxk & Hkey).
  assert (Ho : top_ok (tbl_id T) (TInsert (encode T x))) by (by apply valid_record).
  pose proof (table_op_refines T room p w (TInsert (encode T x)) Hrep Ho Hroom) as Ht.
  pose proof (not_ready T room p w (TInsert (encode T x)) Hrep Ho Hroom) as Hnr.
  cbn [pcall]. destruct (table_op_on T p _) as [p1 out]. change (inserts [TInsert (encode T x)]) with 1 in Ht.
  unfold abs_step in Ht, Hnr. cbn [attempt abs_of ab_next ab_map ab_wal ab_writes] in Ht, Hnr. rewrite Hk in Ht, Hnr.
  destruct (log_step _ _ _) as [[lw ws] lsn]. destruct (lsn =? INVALID_LSN); cbn [fst snd] in Ht, Hnr;
    cbn [out_ok ab_map ab_next next_after apply_log] in Ht; destruct Ht as (Hout & Hrep' & _); subst out;
    intros [= <- <-].
  - exists (tskip T w). split; [right; split; [by apply Hnr|done]|]. by apply (Hrep' (TState (ts_map (tget T w)) (ts_next (tget T w) + 1))).
  - exists (tinsert T x w). split; [left; done|]. apply (Hrep' (TState (<[ts_next (tget T w) := set_key T (ts_next (tget T w)) x]> (ts_map (tget T w))) (ts_next (tget T w) + 1))).
    + cbn [ts_map]. by rewrite fmap_insert.
    + done.
    + cbn [ts_map]. intros id y [[<- <-]|[_ Hy]]%lookup_insert_Some; [done|by apply Hv].
Qed.

Lemma update_refines {R} (T : tbl R) id x room o p w r p' : represents room p w -> call_ok (Update T id x) ->
  pcall o p (Update T id x) = Some (r, p') -> outcome_of room p w (Update T id x) r p'.
Proof.
  intros Hrep (Hid & Hx & Hkey). pose proof (rp_tables _ _ _ Hrep R T) as [_ _ _ Hv].
  assert (Ho : top_ok (tbl_id T) (TUpdate id (encode T x))).
  { split; [done|]. split; [by apply valid_record|]. by rewrite encode_key. }
  pose proof (proj1 (rp_room _ _ _ Hrep)) as Hroom.
  pose proof (table_op_refines T room p w (TUpdate id (encode T x)) Hrep Ho Hroom) as Ht.
  pose proof (not_ready T room p w (TUpdate id (encode T x)) Hrep Ho Hroom) as Hnr.
  cbn [pcall]. destruct (table_op_on T p _) as [p1 out]. change (inserts [TUpdate id (encode T x)]) with 0 in Ht.
  rewrite Z.sub_0_r in Ht. unfold abs_step in Ht, Hnr. cbn [attempt out_ok abs_of ab_next ab_map ab_wal ab_writes] in Ht, Hnr.
  rewrite lookup_fmap in Ht, Hnr. unfold outcome_of. cbn [exec exec_fault can_fail].
  destruct (ts_map (tget T w) !! id) as [old|] eqn:E; cbn [fmap option_fmap option_map] in Ht, Hnr.
  - destruct (log_step _ _ _) as [[lw ws] lsn]. destruct (lsn =? INVALID_LSN); cbn [fst snd] in Ht, Hnr;
      cbn [ab_map ab_next next_after apply_log] in Ht; destruct Ht as (Hout & Hrep' & _); subst out; intros [= <- <-].
    + exists w. split; [right; split; [by apply Hnr|done]|]. rewrite <- (tput_tget T w). by apply Hrep'.
    + exists (tupdate T id x w). split; [by left|]. apply (Hrep' (TState (<[id := x]> (ts_map (tget T w))) (ts_next (tget T w)))).
      * cbn [ts_map]. by rewrite fmap_insert.
      * done.
      * cbn [ts_map]. intros k y [[<- <-]|[_ Hy]]%lookup_insert_Some; [done|by apply Hv].
  - cbn [fst snd ab_map ab_next next_after] in Ht. destruct Ht as (Hout & Hrep' & _). subst out. intros [= <- <-].
    exists w. split; [by left|]. rewrite <- (tput_tget T w). by apply Hrep'.
Qed.

Lemma delete_refines {R} (T : tbl R) id room o p w r p' : represents room p w -> uint_ok 32 id ->
  pcall o p (Delete T id) = Some (r, p') -> outcome_of room p w (Delete T id) r p'.
Proof.
  intros Hrep Hid. pose proof (rp_tables _ _ _ Hrep R T) as [_ _ _ Hv]. pose proof (proj1 (rp_room _ _ _ Hrep)) as Hroom.
  pose proof (table_op_refines T room p w (TDelete id) Hrep Hid Hroom) as Ht.
  pose proof (not_ready T room p w (TDelete id) Hrep Hid Hroom) as Hnr.
  cbn [pcall]. destruct (table_op_on T p _) as [p1 out]. change (inserts [TDelete id]) with 0 in Ht.
  rewrite Z.sub_0_r in Ht. unfold abs_step in Ht, Hnr. cbn [attempt out_ok abs_of ab_next ab_map ab_wal ab_writes] in Ht, Hnr.
  rewrite lookup_fmap in Ht, Hnr. unfold outcome_of. cbn [exec exec_fault can_fail].
  destruct (ts_map (tget T w) !! id) as [old|] eqn:E; cbn [fmap option_fmap option_map] in Ht, Hnr.
  - destruct (log_step _ _ _) as [[lw ws] lsn]. destruct (lsn =? INVALID_LSN); cbn [fst snd] in Ht, Hnr;
      cbn [ab_map ab_next next_after apply_log] in Ht; destruct Ht as (Hout & Hrep' & _); subst out; intros [= <- <-].
    + exists w. split; [right; split; [by apply Hnr|done]|]. rewrite <- (tput_tget T w). by apply Hrep'.
    + exists (tdelete T id w). split; [by left|]. apply (Hrep' (TState (delete id (ts_map (tget T w))) (ts_next (tget T w)))).
      * cbn [ts_map]. by rewrite fmap_delete.
      * done.
      * cbn [ts_map]. intros k y [_ Hy]%lookup_delete_Some. by apply Hv.
  - cbn [fst snd ab_map ab_next next_after] in Ht. destruct Ht as (Hout & Hrep' & _). subst out. intros [= <- <-].
    exists w. split; [by left|]. rewrite <- (tput_tget T w). by apply Hrep'.
Qed.

(** The live records of the pages, decoded, are the records of the world. *)
Lemma decode_scanned {R} (T : tbl R) w (recs : list bytes) :
  (forall id x, ts_map (tget T w) !! id = Some x -> valid T x /\ rec_key T x = id) ->
  NoDup (key (tbl_id T) <$> recs) ->
  (forall b, b ∈ recs <-> (encode T <$> ts_map (tget T w)) !! key (tbl_id T) b = Some b) ->
  scanned T w (decode T <$> recs).
Proof.
  intros Hv Hnd Hel. exists (key (tbl_id T) <$> recs). split; [done|]. split.
  - apply Forall2_fmap, Forall_Forall2_diag, Forall_forall. intros b Hb. apply Hel in Hb. rewrite lookup_fmap in Hb.
    apply fmap_Some in Hb as (x & Hx & ->). rewrite Hx. f_equal. symmetry. by apply decode_encode, (Hv _ _ Hx).
  - intros id [x Hx]. destruct (Hv _ _ Hx) as [Hvx Hk]. apply list_elem_of_fmap. exists (encode T x).
    rewrite encode_key by done. split; [done|]. apply Hel. by rewrite encode_key, Hk, lookup_fmap, Hx.
Qed.

Lemma decode_filter {R} (T : tbl R) (f : R -> bool) (recs : list bytes) :
  decode T <$> filter (fun b => accepts (Some (fun b => f (decode T b))) b = true) recs =
  filter (fun x => f x = true) (decode T <$> recs).
Proof.
  induction recs as [|b l IH]; [done|]. rewrite fmap_cons, !filter_cons, <- IH.
  case_decide as H1; case_decide as H2; done.
Qed.

Lemma scan_refines {R} (T : tbl R) f n room o p w r p' : represents room p w ->
  pcall o p (Scan T f n) = Some (r, p') -> outcome_of room p w (Scan T f n) r p'.
Proof.
  intros Hrep. pose proof (rp_tables _ _ _ Hrep R T) as [_ _ _ Hv]. cbn [pcall]. set (op := TScan _ n).
  pose proof (table_op_refines T room p w op Hrep Logic.I (proj1 (rp_room _ _ _ Hrep))) as Ht.
  destruct (table_op_on T p op) as [p1 out]. change (inserts [op]) with 0 in Ht. rewrite Z.sub_0_r in Ht.
  cbn [abs_step attempt fst snd ab_map ab_next next_after out_ok abs_of op] in Ht.
  destruct Ht as ((recs & Hnd & Hel & ->) & Hrep' & _). intros [= <- <-]. exists w. split.
  - left. split; [done|]. exists (decode T <$> recs). split; [by apply decode_scanned|].
    cbn [records]. rewrite fmap_take. f_equal. apply decode_filter.
  - rewrite <- (tput_tget T w). by apply Hrep'.
Qed.

(** ** Calls on transactions *)

(** The tables do not depend on the transaction layer and the log. *)
Lemma represents_txn room room' p p' w w' : represents room p w ->
  (forall R (T : tbl R), handle T p' = handle T p) -> en_store (pf_env p') = en_store (pf_env p) ->
  en_ids (pf_env p') = en_ids (pf_env p) -> (forall R (T : tbl R), tget T w' = tget T w) ->
  txn_rep (pf_txn_mgr p') (pf_lock_mgr p') (w_locks w') -> tm_next_txn_id (pf_txn_mgr p') = w_next_txn w' ->
  0 <= room' <= room -> w_next_txn w' + room' < 2 ^ 32 -> represents room' p' w'.
Proof.
  intros H Hh Hs Hi Hw Ht Hn Hr Hx. apply (represents_room _ room') in H; [|done]. destruct H as [H1 H2 H3 _ _ _].
  constructor; try done; try (by rewrite Hs).
  - intros R T. destruct (H2 R T) as [A B C D]. constructor; rewrite ?Hh, ?Hs, ?Hi, ?Hw; done.
  - intros R R' T T' Hne. rewrite !Hh. by apply H3.
  - lia.
Qed.

Ltac same_tables Hrep := apply (represents_txn _ _ _ _ _ _ Hrep); [by intros ? []|done|done|by intros ? []|..];
  cbn [put_txn put_closed pf_txn_mgr pf_lock_mgr release set_locks set_next_txn w_locks w_next_txn]; try done; try lia.

Lemma begin_refines room o p w r p' : represents room p w -> 1 <= room ->
  pcall o p Begin = Some (r, p') -> outcome_of (room - 1) p w Begin r p'.
Proof.
  intros Hrep Hroom. pose proof Hrep as [H1 H2 H3 H4 H5 H6]. cbn [pcall]. destruct (txn_begin (pf_txn_mgr p)) as [tm id] eqn:E.
  intros [= <- <-]. destruct (txn_begin_rep _ _ _ _ _ H4 ltac:(lia) E) as [[-> ->]|(-> & Hn & Ht & _ & _)].
  - exists w. split; [left; by left|]. same_tables Hrep.
  - exists (set_next_txn (w_next_txn w + 1) w). split; [left; right; by rewrite H5|]. same_tables Hrep.
Qed.

Lemma lock_refines t tb rid room o p w r p' : represents room p w ->
  pcall o p (Lock t tb rid) = Some (r, p') -> outcome_of room p w (Lock t tb rid) r p'.
Proof.
  intros Hrep. pose proof Hrep as [H1 H2 H3 H4 H5 H6]. cbn [pcall].
  pose proof (txn_lock_rep _ _ _ t (tb, rid) H4) as Hl.
  destruct (txn_lock_now _ _ _ _) as [[[tm lm] rc]|]; [|done]. intros [= <- <-].
  destruct Hl as [(-> & -> & -> & Hfail)|(-> & Hn & Hl)].
  - exists w. split; [right; by split|]. same_tables Hrep.
  - unfold outcome_of. cbn [exec]. unfold lock_key in Hl. destruct (w_locks w !! (tb, rid)) as [owner|].
    + destruct Hl as (-> & -> & ->). exists w. split; [by left|]. same_tables Hrep.
    + destruct Hl as [Ht _]. exists (set_locks (<[(tb, rid) := t]> (w_locks w)) w). split; [by left|].
      same_tables Hrep.
Qed.

(** The end of a transaction: its locks go back, and nothing else moves. *)
Lemma closed_represents room p w tm lw ws ks t : represents room p w ->
  match ks with
  | None => active_txn (pf_txn_mgr p) t = None /\ tm = pf_txn_mgr p
  | Some ks => exists i x st, active_txn (pf_txn_mgr p) t = Some (i, x) /\ tm = close_txn (pf_txn_mgr p) i x st /\ ks = tx_locks x
  end ->
  represents room (put_closed tm lw ws ks p) (release t w).
Proof.
  intros Hrep Hks. pose proof Hrep as [H1 H2 H3 H4 H5 H6].
  same_tables Hrep.
  - destruct ks as [ks|].
    + destruct Hks as (i & x & st & Ha & -> & ->). by apply (close_rep _ _ _ t i x st).
    + destruct Hks as [Ha ->]. by rewrite (release_unknown _ _ _ t H4 Ha).
  - destruct ks; [|by destruct Hks as [_ ->]]. by destruct Hks as (i & x & st & _ & -> & _).
Qed.

Lemma commit_refines t room o p w r p' : represents room p w ->
  pcall o p (Commit t) = Some (r, p') -> outcome_of room p w (Commit t) r p'.
Proof.
  intros Hrep. cbn [pcall]. destruct (commit_core _ _ _ _ t) as [[[[tm lw] ws] ks] rc] eqn:E. intros [= <- <-].
  pose proof (commit_core_spec _ _ _ _ _ _ _ _ _ _ E) as Hks. pose proof (commit_core_rc _ _ _ _ _ _ _ _ _ _ E) as Hrc.
  exists (release t w). split; [|by apply closed_represents]. destruct Hrc as [-> | ->]; [by left|by right].
Qed.

Lemma abort_refines t room o p w r p' : represents room p w ->
  pcall o p (Abort t) = Some (r, p') -> outcome_of room p w (Abort t) r p'.
Proof.
  intros Hrep. cbn [pcall]. destruct (abort_core _ _ _ t) as [[[tm lw] ws] ks] eqn:E. intros [= <- <-].
  pose proof (abort_core_spec _ _ _ _ _ _ _ _ E) as Hks.
  exists (release t w). split; [by left|]. apply closed_represents; [done|]. destruct ks; [|done].
  destruct Hks as (i & x & ? & ? & ?). by exists i, x, TXN_ABORTED.
Qed.

(** ** Every call *)

Lemma pcall_refines {R} room o p w (c : cmd R) r p' : represents room p w -> call_ok c -> 1 <= room ->
  pcall o p c = Some (r, p') -> outcome_of (room - 1) p w c r p'.
Proof.
  intros Hrep Hc Hroom Hp. pose proof (represents_room room (room - 1) p w Hrep ltac:(lia)) as Hrep1.
  destruct c as [R T id|R T x|R T id x|R T id|R T f n| |t tb rid|t|t|].
  - by eapply find_refines.
  - by eapply insert_refines.
  - by eapply update_refines.
  - by eapply delete_refines.
  - by eapply scan_refines.
  - by eapply begin_refines.
  - by eapply lock_refines.
  - by eapply commit_refines.
  - by eapply abort_refines.
  - injection Hp as <- <-. exists w. split; [by left|done].
Qed.

Definition may_wait {R} (c : cmd R) : bool := match c with Lock _ _ _ => true | _ => false end.

(** A call waits on the platform only for a lock, and only while another
    transaction holds it. *)
Lemma pcall_goes {R} room o p w (c : cmd R) r w' : represents room p w -> exec w c r w' \/ may_wait c = false -> is_Some (pcall o p c).
Proof.
  intros Hrep Hx. destruct c as [R T id|R T x|R T id x|R T id|R T f n| |t tb rid|t|t|]; cbn [pcall exec] in *;
    try (destruct (table_op_on _ _ _); by eexists); try by eexists.
  - destruct (txn_begin _); by eexists.
  - destruct Hx as [Hx|[=]].
    pose proof (txn_lock_rep _ _ _ t (tb, rid) (rp_txn _ _ _ Hrep)) as Hl. destruct (txn_lock_now _ _ _ _) as [[[tm lm] rc]|]; [by eexists|].
    destruct Hl as (owner & Ho & Hne). unfold lock_key in Ho. rewrite Ho in Hx. by destruct Hx as (_ & -> & _).
  - destruct (commit_core _ _ _ _ _) as [[[[? ?] ?] ?] ?]; by eexists.
  - destruct (abort_core _ _ _ _) as [[[? ?] ?] ?]; by eexists.
Qed.

(** ** The log between calls *)

Lemma abort_moves tm w id : slots_ok tm -> 0 < w_next_lsn w < 2 ^ 64 - 1 ->
  let '(_, w', ws', _) := abort_core tm w [] id in log_moves 1 w w' ws'.
Proof.
  intros Hs Hn. unfold abort_core. destruct (active_txn tm id) as [[i t]|] eqn:E; [|by apply log_stays].
  apply active_txn_Some in E as (Hi & Ha & <- & _). destruct (so_txn _ Hs i t Hi Ha) as [_ Hid]. pose proof (so_next _ Hs).
  pose proof (log_step_moves w (LogAbort (tx_id t)) ltac:(unfold log_op_ok; lia) Hn) as Hm. cbn [log_step] in Hm.
  by destruct (wal_log_abort w [] (tx_id t)) as [[w1 ws1] lsn].
Qed.

Lemma log_moves_next k w w' ws' : log_moves k w w' ws' -> w_next_lsn w <= w_next_lsn w' <= w_next_lsn w + k.
Proof. intros (_ & ops & _ & H & _ & ->). lia. Qed.

Lemma commit_moves tm w synced id : slots_ok tm -> 0 < w_next_lsn w -> w_next_lsn w + 2 < 2 ^ 64 ->
  let '(_, w', ws', _, _) := commit_core tm w [] synced id in log_moves 2 w w' ws'.
Proof.
  intros Hs Hn Hb. unfold commit_core. destruct (active_txn tm id) as [[i t]|] eqn:E; [|by apply log_stays].
  pose proof E as E'. apply active_txn_Some in E' as (Hi & Ha & <- & _). destruct (so_txn _ Hs i t Hi Ha) as [_ Hid]. pose proof (so_next _ Hs).
  pose proof (log_step_moves w (LogCommit (tx_id t)) ltac:(unfold log_op_ok; lia) ltac:(lia)) as Hm. cbn [log_step] in Hm.
  destruct (wal_log_commit w [] (tx_id t)) as [[w1 ws1] lsn]. pose proof (log_moves_next _ _ _ _ Hm). pose proof (proj1 Hm) as Hws. subst ws1.
  assert (Hab : forall w2, log_moves 1 w w2 [] -> w_next_lsn w2 = w_next_lsn w1 ->
    let '(_, w', ws', _, _) := (abort_core tm w2 [] (tx_id t), -1) in log_moves 2 w w' ws').
  { intros w2 M2 E2. pose proof (abort_moves tm w2 (tx_id t) Hs ltac:(lia)) as H2.
    destruct (abort_core tm w2 [] (tx_id t)) as [[[tm' w3] ws3] ks]. exact (log_moves_trans 1 1 w w2 w3 [] ws3 M2 H2). }
  destruct (lsn =? INVALID_LSN); [by apply Hab|]. unfold wal_flush. destruct synced; cbn [negb].
  - apply (log_moves_more 1); [|lia]. exact Hm.
  - by apply Hab.
Qed.

Lemma op_moves {R} (T : tbl R) room p w o : represents room p w -> top_ok (tbl_id T) o -> inserts [o] <= room -> log_ready 1 p ->
  let '(p', _) := table_op_on T p o in log_moves 2 (en_wal (pf_env p)) (en_wal (pf_env p')) (en_writes (pf_env p')).
Proof.
  intros Hrep Ho Hroom Hl. pose proof (table_op_refines T room p w o Hrep Ho Hroom) as Ht.
  pose proof (ready_accepts T room p w o Hrep Ho Hroom Hl) as Hr. destruct (table_op_on T p o) as [p1 out].
  destruct Ht as (_ & _ & -> & -> & _). apply (log_moves_more 1); [apply Hr|lia].
Qed.

(** A call makes at most two log records. *)
Lemma pcall_moves {R} room o p w (c : cmd R) r p' : represents room p w -> call_ok c -> 1 <= room ->
  log_ready 2 p -> pcall o p c = Some (r, p') ->
  log_moves 2 (en_wal (pf_env p)) (en_wal (pf_env p')) (en_writes (pf_env p')).
Proof.
  intros Hrep Hc Hroom Hl Hp. pose proof Hl as (Hw & H0 & Hb).
  assert (Hl1 : log_ready 1 p) by (split; [done|lia]). pose proof (tr_slots _ _ _ (rp_txn _ _ _ Hrep)) as Hs.
  assert (Hstay : log_moves 2 (en_wal (pf_env p)) (en_wal (pf_env p)) (en_writes (pf_env p))).
  { rewrite Hw. by apply log_stays. }
  destruct c as [R T id|R T x|R T id x|R T id|R T f m| |t tb rid|t|t|]; cbn [pcall call_ok] in Hp, Hc.
  - pose proof (op_moves T room p w (TFind id) Hrep Hc (proj1 (rp_room _ _ _ Hrep)) Hl1) as Hm.
    destruct (table_op_on T p _) as [p1 out]. by injection Hp as <- <-.
  - pose proof (op_moves T room p w (TInsert (encode T x)) Hrep (valid_record T x Hc) Hroom Hl1) as Hm.
    destruct (table_op_on T p _) as [p1 out]. by injection Hp as <- <-.
  - destruct Hc as (Hid & Hx & Hk).
    pose proof (op_moves T room p w (TUpdate id (encode T x)) Hrep) as Hm.
    destruct (table_op_on T p _) as [p1 out]. injection Hp as <- <-. apply Hm; [|apply Hrep|done].
    split; [done|]. split; [by apply valid_record|]. by rewrite encode_key.
  - pose proof (op_moves T room p w (TDelete id) Hrep Hc (proj1 (rp_room _ _ _ Hrep)) Hl1) as Hm.
    destruct (table_op_on T p _) as [p1 out]. by injection Hp as <- <-.
  - match type of Hp with context [table_op_on T p ?op] =>
      pose proof (op_moves T room p w op Hrep Logic.I (proj1 (rp_room _ _ _ Hrep)) Hl1) as Hm end.
    destruct (table_op_on T p _) as [p1 out]. by injection Hp as <- <-.
  - destruct (txn_begin _) as [tm id]. by injection Hp as <- <-.
  - destruct (txn_lock_now _ _ _ _) as [[[tm lm] rc]|]; [|done]. by injection Hp as <- <-.
  - rewrite Hw in Hp. pose proof (commit_moves (pf_txn_mgr p) (en_wal (pf_env p)) (os_synced o) t Hs H0 ltac:(lia)) as Hm.
    destruct (commit_core _ _ _ _ _) as [[[[tm lw] ws] ks] rc]. by injection Hp as <- <-.
  - rewrite Hw in Hp. pose proof (abort_moves (pf_txn_mgr p) (en_wal (pf_env p)) t Hs ltac:(lia)) as Hm.
    destruct (abort_core _ _ _ _) as [[[tm lw] ws] ks]. injection Hp as <- <-. apply (log_moves_more 1); [exact Hm|lia].
  - by injection Hp as <- <-.
Qed.

Lemma pcall_log {R} n room o p w (c : cmd R) r p' : represents room p w -> call_ok c -> 1 <= room ->
  log_ready n p -> 2 <= n -> pcall o p c = Some (r, p') -> log_ready (n - 2) p'.
Proof.
  intros Hrep Hc Hroom Hl Hn Hp. pose proof Hl as (Hw & H0 & Hb).
  assert (Hl2 : log_ready 2 p) by (split; [done|lia]).
  pose proof (pcall_moves room o p w c r p' Hrep Hc Hroom Hl2 Hp) as Hm. pose proof (log_moves_next _ _ _ _ Hm).
  split; [apply Hm|]. lia.
Qed.

(** ** Open transactions between calls *)

Definition ends {R} (c : cmd R) (t : Z) : Prop :=
  match c with Commit t' | Abort t' => t' = t | _ => False end.
Definition locks_for {R} (c : cmd R) (t : Z) : nat :=
  match c with Lock t' _ _ => if decide (t' = t) then 1 else 0 | _ => 0 end.

Lemma txn_open_mono tm t n n' : txn_open tm t n -> (n <= n')%nat -> txn_open tm t n'.
Proof. intros (i & x & H & Hl) Hn. exists i, x. split; [done|lia]. Qed.

Lemma op_txns {R} (T : tbl R) p o : pf_txn_mgr (table_op_on T p o).1 = pf_txn_mgr p.
Proof.
  unfold table_op_on. destruct (table_step (pf_env p, handle T p) o) as [et out]. apply (handle_put T et p).
Qed.

(** A transaction stays open until it is committed or aborted, and takes a lock
    only where its thread asks for one. *)
Lemma pcall_open {R} room o p w (c : cmd R) r p' t n : represents room p w -> 1 <= room -> pcall o p c = Some (r, p') ->
  txn_open (pf_txn_mgr p) t n -> ~ ends c t -> txn_open (pf_txn_mgr p') t (n + locks_for c t).
Proof.
  intros Hrep Hroom Hp Ho He. pose proof (rp_txn _ _ _ Hrep) as Ht. pose proof (rp_room _ _ _ Hrep) as Hr.
  rewrite <- (rp_next_txn _ _ _ Hrep) in Hr.
  assert (Hstay : pf_txn_mgr p' = pf_txn_mgr p -> txn_open (pf_txn_mgr p') t n) by (by intros ->).
  destruct c as [R T id|R T x|R T id x|R T id|R T f m| |t' tb rid|t'|t'|]; cbn [pcall locks_for ends] in *;
    rewrite ?Nat.add_0_r in *;
    try (match type of Hp with context [table_op_on T p ?op] => pose proof (op_txns T p op) as Hx; destruct (table_op_on T p op) as [p1 out] end;
         injection Hp as <- <-; by apply Hstay).
  - destruct (txn_begin _) as [tm id] eqn:E. injection Hp as <- <-.
    destruct (txn_begin_rep _ _ _ _ _ Ht ltac:(lia) E) as [[-> ->]|(_ & _ & _ & _ & _ & Hk)]; [done|by apply Hk].
  - pose proof (txn_lock_rep _ _ _ t' (tb, rid) Ht) as Hk. destruct (txn_lock_now _ _ _ _) as [[[tm lm] rc]|]; [|done].
    injection Hp as <- <-. destruct Hk as [(_ & -> & _)|(_ & _ & Hk)]; [eapply txn_open_mono; [exact Ho|lia]|].
    unfold lock_key in Hk. destruct (w_locks w !! (tb, rid)); [destruct Hk as (_ & -> & _); eapply txn_open_mono; [exact Ho|lia]|].
    destruct Hk as (_ & K1 & K2). case_decide as E.
    + subst. rewrite Nat.add_1_r. by apply K1.
    + rewrite Nat.add_0_r. by apply K2.
  - destruct (commit_core _ _ _ _ _) as [[[[tm lw] ws] ks] rc] eqn:E. injection Hp as <- <-. cbn.
    pose proof (commit_core_spec _ _ _ _ _ _ _ _ _ _ E) as Hks. destruct ks; [|by destruct Hks as [_ ->]].
    destruct Hks as (i & x & st & Ha & -> & ->). apply (close_rep _ _ _ t' i x st Ht Ha); [by intros ->|done].
  - destruct (abort_core _ _ _ _) as [[[tm lw] ws] ks] eqn:E. injection Hp as <- <-. cbn.
    pose proof (abort_core_spec _ _ _ _ _ _ _ _ E) as Hks. destruct ks; [|by destruct Hks as [_ ->]].
    destruct Hks as (i & x & Ha & -> & ->). apply (close_rep _ _ _ t' i x TXN_ABORTED Ht Ha); [by intros ->|done].
  - injection Hp as <- <-. by apply Hstay.
Qed.

(** A new transaction is open, without locks, under an id nobody has. *)
Lemma begin_open room o p w t p' : represents room p w -> 1 <= room -> pcall o p Begin = Some (t, p') -> t <> INVALID_TXN_ID ->
  txn_open (pf_txn_mgr p') t 0 /\ 0 < t < 2 ^ 32 /\ forall n, ~ txn_open (pf_txn_mgr p) t n.
Proof.
  intros Hrep Hroom Hp Hne. pose proof (rp_txn _ _ _ Hrep) as Ht. pose proof (rp_room _ _ _ Hrep) as Hr.
  rewrite <- (rp_next_txn _ _ _ Hrep) in Hr. cbn [pcall] in Hp. destruct (txn_begin _) as [tm id] eqn:E. injection Hp as <- <-.
  destruct (txn_begin_rep _ _ _ _ _ Ht ltac:(lia) E) as [[-> _]|(-> & Hn & _ & Ho & H0 & _)]; [done|].
  split; [exact Ho|]. split; [lia|]. intros n (i & x & Ha & _). apply active_txn_Some in Ha as (Hi & Hact & Hid & _).
  destruct (so_txn _ (tr_slots _ _ _ Ht) i x Hi Hact). lia.
Qed.
End refinement.
