(* ===== verification/Lifecycle.v ===== *)
(** * Starting and stopping the server (server/main.c)

    server_init opens the log and the five tables, or creates them, and
    server_shutdown closes them again: the storage layer between its files and the
    [platform] of Platform.v, here with the buffer pool and the B+ tree.

    [storage] is the data directory while the server is down.  [storage_holds]
    says that it holds the tables of a world; the server started on it represents
    that world again ([init_represents]), and stopping a server that represents a
    world leaves a storage that holds it ([shutdown_holds]). *)

From stdpp Require Import base tactics numbers list list_numbers gmap.
From Stdlib Require Import ZArith Lia.
From S2P Require Import Prelude Types Utils Page BTree BTreeFile Wal LockManager TxnManager TxnWorld BufferPool PageStore DataFiles.
From S2P Require Import Table TableSpec TableHistory Calls Codec Platform.

#[local] Open Scope Z_scope.

(** The files: data and index by table, and the log. *)
Record storage := Storage { st_data : gmap Z bytes; st_index : gmap Z bytes; st_wal : option bytes }.

Definition no_files : storage := Storage ∅ ∅ None.

(** ** The code *)

Section code.
(** The two padding bytes behind each value in an index file. *)
Context (pad : record_ptr -> bytes).

(** btree_open, as table_open uses it.  A tree without a root, or reads and writes
    outside a node's arrays, come only of files that no btree_save has written
    (BTreeFile.v) and are not carried further. *)
Definition opened_index (r : rres btree) : option btree := match r with ROk x _ => Some x | _ => None end.

(** OPEN_OR_CREATE_TABLE; [fd] is what open() returns for the data file. *)
Definition open_or_create (e : env pool_store) (st : storage) (id fd : Z) : env pool_store * storage * option (table btree) :=
  match st_data st !! id with
  | Some f =>
      let '(e1, t) := table_open (set_store e (page_file_attach fd f (en_store e))) id fd
                        (opened_index (btree_open (st_index st !! id))) in
      (e1, st, t)
  | None =>
      let e1 := set_store e (page_file_create fd (en_store e)) in
      if fd <? 0 then (e1, st, None)
      else
        match btree_create_file pad (Z.to_nat BTREE_DEFAULT_ORDER) with
        | Some (x, f) =>
            (e1, Storage (<[id := []]> (st_data st)) (<[id := f]> (st_index st)) (st_wal st), table_create e1 id fd (Some x))
        | None => (e1, st, table_create e1 id fd None)
        end
  end.

(** server_init up to auth_bootstrap_admin.  [fds]: the descriptors of the data
    files; [faults], [ws]: what the disk calls and log writes to come will do. *)
Definition server_init (fds : Z -> Z) (faults : list bool) (ws : writes) (st : storage)
    : option (platform pool_store btree * storage) :=
  match buffer_pool_create (Z.to_nat BUFFER_POOL_FRAMES) with
  | None => None
  | Some bp =>
      match (match st_wal st with Some f => wal_open (Some f) | None => Some wal_create end) with
      | None => None
      | Some w =>
          let e := Env (bp, Disk ∅ faults) w ws g_next_ids in
          let '(e1, st1, users) := open_or_create e (Storage (st_data st) (st_index st) (Some (w_file w))) TABLE_USERS (fds TABLE_USERS) in
          let '(e2, st2, events) := open_or_create e1 st1 TABLE_EVENTS (fds TABLE_EVENTS) in
          let '(e3, st3, seats) := open_or_create e2 st2 TABLE_SEATS (fds TABLE_SEATS) in
          let '(e4, st4, bookings) := open_or_create e3 st3 TABLE_BOOKINGS (fds TABLE_BOOKINGS) in
          let '(e5, st5, bseats) := open_or_create e4 st4 TABLE_BOOKING_SEATS (fds TABLE_BOOKING_SEATS) in
          match users, events, seats, bookings, bseats with
          | Some u, Some ev, Some s, Some b, Some bs =>
              Some (Platform e5 u ev s b bs txn_mgr_create lock_mgr_create, st5)
          | _, _, _, _, _ => None
          end
      end
  end.

Definition table_close (e : env pool_store) (st : storage) (t : table btree) : env pool_store * storage :=
  let '(e1, _) := table_flush_unlocked e in
  let index := btree_close pad (t_pk_index t) (st_index st !! t_id t) in
  let data := d_files (en_store e1).2 !! t_data_fd t in
  (set_store e1 (page_file_close (t_data_fd t) (en_store e1)),
   Storage (partial_alter (fun _ => data) (t_id t) (st_data st)) (partial_alter (fun _ => index) (t_id t) (st_index st)) (st_wal st)).

(** The calls of table_close, one after the other. *)
Definition close_tables (e : env pool_store) (st : storage) (ts : list (table btree)) : storage :=
  snd (fold_left (fun '(e, st) t => table_close e st t) ts (e, st)).

(** The data directory after server_shutdown; [synced]: whether the last fsync works. *)
Definition server_shutdown (synced : bool) (p : platform pool_store btree) (st : storage) : storage :=
  let e := pf_env p in
  let '(w, _) := txn_mgr_destroy (pf_txn_mgr p) (en_wal e) (en_writes e) (pf_lock_mgr p) in
  let '(e1, _) := table_flush_unlocked e in
  let st1 := close_tables e1 st [pf_bseats p; pf_bookings p; pf_seats p; pf_events p; pf_users p] in
  Storage (st_data st1) (st_index st1) (Some (wal_close w synced)).
End code.

(** ** What a storage holds *)

(** The data file [f] and the index file hold the records of [ts]. *)
Record table_file {R} (T : tbl R) (room : Z) (f : bytes) (index : option bytes) (ts : tstate R) : Prop := TableFile {
  tf_pages : Forall (page_wf (etp_record_size (tbl_id T))) (file_list f);
  tf_len : Z.of_nat (length (file_list f)) + room < INVALID_PAGE_ID;
  tf_index : exists x, btree_open index = ROk x [] /\ btree_wf x /\ bt_order x = Z.to_nat BTREE_DEFAULT_ORDER /\
    indexed (tbl_id T) (file_list f) (bt_map x) (encode T <$> ts_map ts);
  tf_keys : forall ptr r, at_ptr (file_list f) ptr = Some r -> 0 < key (tbl_id T) r < ts_next ts }.

Record table_stored {R} (T : tbl R) (room : Z) (st : storage) (ts : tstate R) : Prop := TableStored {
  sd_file : match st_data st !! tbl_id T with
            | Some f => table_file T room f (st_index st !! tbl_id T) ts
            | None => ts_map ts = ∅
            end;
  sd_next : 0 < ts_next ts /\ ts_next ts + room < 2 ^ 32;
  sd_valid : forall id x, ts_map ts !! id = Some x -> valid T x /\ rec_key T x = id }.

(** A log in which every record is whole, with numbers left for [n] more. *)
Definition whole_log (n : Z) (file : bytes) (next : Z) : Prop :=
  exists ops, Forall log_op_ok ops /\ file = log_bytes 1 ops /\ next = 1 + Z.of_nat (length ops) /\ next + n < 2 ^ 64.

Record storage_holds (room n : Z) (st : storage) (w : world) : Prop := StorageHolds {
  sh_room : 0 <= room < 2 ^ 32 - 1;
  sh_tables : forall R (T : tbl R), table_stored T room st (tget T w);
  sh_log : match st_wal st with Some f => exists next, whole_log n f next | None => 1 + n < 2 ^ 64 end }.

(** An empty directory holds the empty world. *)
Lemma no_files_hold room n : 0 <= room < 2 ^ 32 - 1 -> 0 <= n < 2 ^ 64 - 1 -> storage_holds room n no_files empty_world.
Proof.
  intros Hr Hn. constructor; [done| |cbn; lia].
  intros R T. assert (Ht : tget T empty_world = no_records) by (by destruct T). rewrite Ht.
  constructor; [done|cbn; lia|]. intros id x. cbn. by rewrite lookup_empty.
Qed.

(** The index of a running table: changed since it was opened, or as in its file. *)
Definition index_file (st : storage) (id : Z) (x : btree) : Prop :=
  bt_order x = Z.to_nat BTREE_DEFAULT_ORDER /\
  (bt_dirty x = true \/
   exists x1, btree_open (st_index st !! id) = ROk x1 [] /\ btree_wf x1 /\
     bt_order x1 = Z.to_nat BTREE_DEFAULT_ORDER /\ bt_map x1 = bt_map x).

Lemma index_moved st id x x' : index_file st id x ->
  x' = x \/ (bt_dirty x' = true /\ bt_order x' = bt_order x) -> index_file st id x'.
Proof. intros [Ho Hx] [->|[Hd Ho']]; [done|]. split; [congruence|by left]. Qed.

(** ** Opening the tables *)

Section opening.
Context (pad : record_ptr -> bytes) (Hpad : forall r, length (pad r) = 2%nat).
Context (fds : Z -> Z).

(** A table that has been opened. *)
Record is_open {R} (T : tbl R) (room : Z) (e : env pool_store) (st : storage) (t : table btree) (ts : tstate R) : Prop := IsOpen {
  io_id : t_id t = tbl_id T;
  io_fd : t_data_fd t = fds (tbl_id T);
  io_rep : table_rep (en_store e) (en_ids e) t room (encode T <$> ts_map ts);
  io_next : en_ids e !! Z.to_nat (tbl_id T) = Some (ts_next ts);
  io_valid : forall id x, ts_map ts !! id = Some x -> valid T x /\ rec_key T x = id;
  io_index : index_file st (tbl_id T) (t_pk_index t) }.

(** Only the tables [ids] were opened. *)
Definition opens_only (ids : list Z) (e : env pool_store) (st : storage) (e' : env pool_store) (st' : storage) : Prop :=
  (forall fd, (forall id, id ∈ ids -> fd <> fds id) -> ps_pages (en_store e') fd = ps_pages (en_store e) fd) /\
  (forall id, 0 <= id -> id ∉ ids -> Forall (fun x => 0 <= x) ids -> en_ids e' !! Z.to_nat id = en_ids e !! Z.to_nat id) /\
  (forall id, id ∉ ids -> st_index st' !! id = st_index st !! id /\ st_data st' !! id = st_data st !! id) /\
  en_wal e' = en_wal e /\ en_writes e' = en_writes e /\ st_wal st' = st_wal st.

Lemma opens_trans l1 l2 e st e1 st1 e2 st2 : opens_only l1 e st e1 st1 -> opens_only l2 e1 st1 e2 st2 ->
  opens_only (l1 ++ l2) e st e2 st2.
Proof using.
  intros (A1 & A2 & A3 & A4 & A5 & A6) (B1 & B2 & B3 & B4 & B5 & B6). split; [|split; [|split]].
  - intros fd Hfd. rewrite B1, A1; [done|..]; intros id Hid; apply Hfd, elem_of_app; auto.
  - intros id H0 Hid [H1 H2]%Forall_app. rewrite not_elem_of_app in Hid. rewrite B2, A2; tauto.
  - intros id [H1 H2]%not_elem_of_app. destruct (A3 id H1) as [<- <-]. by apply B3.
  - split; [by rewrite B4|]. split; congruence.
Qed.

Lemma still_open {R} (T : tbl R) room e st e' st' t ts ids : is_open T room e st t ts -> opens_only ids e st e' st' ->
  tbl_id T ∉ ids -> Forall (fun x => 0 <= x) ids -> (forall id, id ∈ ids -> fds (tbl_id T) <> fds id) ->
  is_open T room e' st' t ts.
Proof using.
  intros [H1 H2 (ps & Ht) H4 H5 H6] (A1 & A2 & A3 & _) Hid H0 Hfd. pose proof (tbl_id_range T) as Hr.
  assert (Hi : en_ids e' !! Z.to_nat (tbl_id T) = en_ids e !! Z.to_nat (tbl_id T)) by (apply A2; [lia|done..]).
  constructor; try done; [|by rewrite Hi|].
  - destruct Ht as [B1 B2 B3 B4 B5 B6 B7 B8]. exists ps. constructor; try done.
    + rewrite A1; [done|]. intros id Hin. rewrite H2. by apply Hfd.
    + by rewrite H1, Hi, <- H1.
  - destruct H6 as [Ho Hx]. split; [done|]. destruct (A3 _ Hid) as [-> _]. exact Hx.
Qed.

Lemma unopened (s : pool_store) fd : pool_pages s fd = None -> 0 <= fd -> d_files s.2 !! fd = None.
Proof using.
  unfold pool_pages, file_pages. intros H Hfd. destruct (Z.ltb_spec fd 0); [lia|]. by destruct (d_files s.2 !! fd).
Qed.

(** The index a table starts with, new or from its file. *)
Lemma created_index : exists x f, btree_create_file pad (Z.to_nat BTREE_DEFAULT_ORDER) = Some (x, f) /\
  btree_wf x /\ bt_map x = ∅ /\ forall st id, st_index st !! id = Some f -> index_file st id x.
Proof using Hpad.
  set (x0 := fresh_index). destruct (btree_create_wf (Z.to_nat BTREE_DEFAULT_ORDER) x0 eq_refl) as [Hwf Hm].
  destruct (save_open pad x0 Hpad Hwf ltac:(vm_compute; congruence) ltac:(constructor)) as (x1 & Ho & S1 & S2 & _ & S4 & _ & _).
  exists (btree_save pad x0).1, (btree_save pad x0).2. split; [done|].
  assert (Hwf' : btree_wf (btree_save pad x0).1) by (destruct Hwf as [B1 B2 B3 B4 B5 B6]; constructor; done).
  split; [exact Hwf'|]. split; [exact Hm|]. intros st id Hf. split; [done|]. right. exists x1. rewrite Hf.
  split; [exact Ho|]. split; [done|]. split; [exact S4|]. rewrite S2. exact Hm.
Qed.

Lemma empty_indexed id : indexed id [] ∅ ∅.
Proof using.
  assert (Hno : forall ptr, at_ptr [] ptr = None) by done.
  constructor; intros k v; rewrite lookup_empty; (split; [done|]); intros (? & (_ & Ha & _) & _); by rewrite Hno in Ha.
Qed.

Lemma tbl_in_range {R} (T : tbl R) : table_in_range (tbl_id T) = true.
Proof using. by destruct T. Qed.

(** The state a table is opened in: its descriptor is new and its id counter untouched. *)
Definition ready_for (id : Z) (e : env pool_store) : Prop :=
  ps_idle (en_store e) /\ pool_pages (en_store e) (fds id) = None /\ en_ids e !! Z.to_nat id = Some 1.

Definition next_ok {R} (ts : tstate R) (n : Z) : Prop := 0 < n <= ts_next ts /\ forall id, is_Some (ts_map ts !! id) -> id < n.

Lemma table_create_ok {R} (T : tbl R) room e st ts : ready_for (tbl_id T) e -> 0 <= fds (tbl_id T) -> 0 <= room < 2 ^ 32 - 1 ->
  table_stored T room st ts -> st_data st !! tbl_id T = None ->
  exists e' st' t, open_or_create pad e st (tbl_id T) (fds (tbl_id T)) = (e', st', Some t) /\
    is_open T room e' st' t (TState (ts_map ts) 1) /\ next_ok ts 1 /\ ps_idle (en_store e') /\
    opens_only [tbl_id T] e st e' st'.
Proof using Hpad.
  intros (Hidle & Hnew & Hids) Hfd Hroom [Hf Hn Hv] Hnone. rewrite Hnone in Hf. unfold open_or_create. rewrite Hnone.
  apply unopened in Hnew; [|done]. unfold page_file_create. rewrite (attach_eq _ _ _ Hfd).
  destruct (Z.ltb_spec (fds (tbl_id T)) 0) as [|_]; [lia|].
  destruct created_index as (x & f & -> & Hwf & Hm & Hix). destruct (attach_ok (en_store e) (fds (tbl_id T)) [] Hidle Hfd Hnew) as (A1 & A2 & A3).
  pose proof (key_flag_offsets _ (tbl_in_range T)) as (_ & _ & _ & Hrs). unfold table_create.
  destruct (Z.eqb_spec (etp_record_size (tbl_id T)) 0) as [|_]; [lia|]. destruct (Z.ltb_spec (fds (tbl_id T)) 0) as [|_]; [lia|].
  eexists _, _, _. split; [reflexivity|]. split; [|split; [|split; [exact A1|]]].
  - constructor; cbn [t_id t_data_fd ts_map ts_next t_pk_index set_store en_store en_ids]; try done.
    + exists []. rewrite Hf, fmap_empty. constructor; cbn [t_id t_record_size t_data_fd t_pk_index]; try done.
      * apply tbl_in_range.
      * cbn [ix_map btree_index]. rewrite Hm. apply empty_indexed.
      * exists 1. split; [done|]. split; [done|]. split; [lia|done].
    + apply Hix. cbn. by rewrite lookup_insert_eq.
  - split; [lia|]. intros id. rewrite Hf, lookup_empty. by intros [].
  - split; [|split; [done|split; [|done]]].
    + intros fd Hne. apply A3, Hne. by left.
    + intros id Hid. cbn. rewrite !lookup_insert_ne by (intros E; apply Hid; rewrite E; by left). done.
Qed.

Lemma reopen_ok {R} (T : tbl R) room e st ts f : ready_for (tbl_id T) e -> 0 <= fds (tbl_id T) -> 0 <= room ->
  table_stored T room st ts -> st_data st !! tbl_id T = Some f ->
  exists e' st' t n, open_or_create pad e st (tbl_id T) (fds (tbl_id T)) = (e', st', Some t) /\
    is_open T room e' st' t (TState (ts_map ts) n) /\ next_ok ts n /\ ps_idle (en_store e') /\
    opens_only [tbl_id T] e st e' st'.
Proof using Hpad.
  intros (Hidle & Hnew & Hids) Hfd Hroom [Hf Hn Hv] Hsome. rewrite Hsome in Hf. unfold open_or_create. rewrite Hsome.
  apply unopened in Hnew; [|done]. rewrite (attach_eq _ _ _ Hfd).
  destruct (attach_ok (en_store e) (fds (tbl_id T)) f Hidle Hfd Hnew) as (A1 & A2 & A3).
  destruct Hf as [F1 F2 (x & X1 & X2 & X3 & X4) F4]. rewrite X1. cbn [opened_index].
  match goal with |- context [table_open ?e0] => set (e1 := e0) end.
  destruct (open_spec e1 (tbl_id T) (fds (tbl_id T)) x room (file_list f) (encode T <$> ts_map ts)) as
    (e' & n & -> & Hw & Hws & Hi & Hidle' & Hp & Hrep & Hnn); try done.
  { apply tbl_in_range. }
  { intros ptr r Hr. pose proof (F4 _ _ Hr). lia. }
  assert (Hin : en_ids e' !! Z.to_nat (tbl_id T) = Some n) by (rewrite Hi; apply list_lookup_insert_eq; by eapply lookup_lt_Some).
  destruct (rep_next _ _ _ _ _ _ Hrep Hin) as (N1 & _ & N2 & _).
  assert (Hkeys : forall id, is_Some (ts_map ts !! id) -> id < n).
  { intros id [y Hy]. destruct Hrep as (ps & Ht). destruct (tp_next _ _ _ _ _ _ Ht) as (m & C1 & _ & _ & C4). cbn [t_id] in *.
    assert (m = n) as -> by congruence. assert (He : (encode T <$> ts_map ts) !! id = Some (encode T y)) by (by rewrite lookup_fmap, Hy).
    apply (in_map _ _ _ _ (tp_indexed _ _ _ _ _ _ Ht)) in He as (ptr & (_ & Ha & _) & <-). by apply (C4 ptr). }
  eexists e', _, _, n. split; [reflexivity|]. split; [|split; [|split; [exact Hidle'|]]].
  - constructor; try done. split; [done|]. right. by exists x.
  - split; [|done]. split; [lia|]. destruct Hnn as [->|(ptr & r & Hr & ->)]; [lia|]. pose proof (F4 _ _ Hr). lia.
  - split; [|split; [|done]].
    + intros fd Hne. rewrite Hp. apply A3, Hne. by left.
    + intros id H0 Hid _. rewrite Hi. pose proof (tbl_id_range T). rewrite list_lookup_insert_ne; [done|].
      intros E. apply Hid. apply list_elem_of_singleton. lia.
Qed.

Lemma table_opened_ok {R} (T : tbl R) room e st ts : ready_for (tbl_id T) e -> 0 <= fds (tbl_id T) -> 0 <= room < 2 ^ 32 - 1 ->
  table_stored T room st ts ->
  exists e' st' t n, open_or_create pad e st (tbl_id T) (fds (tbl_id T)) = (e', st', Some t) /\
    is_open T room e' st' t (TState (ts_map ts) n) /\ next_ok ts n /\ ps_idle (en_store e') /\
    opens_only [tbl_id T] e st e' st'.
Proof using Hpad.
  intros He Hfd Hroom Hst. destruct (st_data st !! tbl_id T) as [f|] eqn:E.
  - apply (reopen_ok T room e st ts f); try done. lia.
  - destruct (table_create_ok T room e st ts He Hfd Hroom Hst E) as (e' & st' & t & H). by exists e', st', t, 1.
Qed.

(** ** The whole start *)

(** What open() gives: descriptors of their own. *)
Definition fds_ok : Prop :=
  (forall id, 0 <= id < 5 -> 0 <= fds id) /\ (forall id id', 0 <= id < 5 -> 0 <= id' < 5 -> fds id = fds id' -> id = id').

Definition apart (id : Z) (ids : list Z) : Prop := (id ∉ ids) /\ Forall (fun x => 0 <= x < 5) ids.

Lemma apart_fds {R} (T : tbl R) ids : fds_ok -> apart (tbl_id T) ids ->
  Forall (fun x => 0 <= x) ids /\ forall id, id ∈ ids -> fds (tbl_id T) <> fds id.
Proof using.
  intros [_ Hf] [Hid Hids]. split; [eapply Forall_impl; [exact Hids|]; cbn; lia|]. intros id Hin E.
  rewrite Forall_forall in Hids. apply Hf in E; [congruence|apply tbl_id_range|by apply Hids].
Qed.

(** A table whose turn has not come. *)
Definition waiting {R} (T : tbl R) (room : Z) (e : env pool_store) (st : storage) (ts : tstate R) : Prop :=
  pool_pages (en_store e) (fds (tbl_id T)) = None /\ en_ids e !! Z.to_nat (tbl_id T) = Some 1 /\ table_stored T room st ts.

Lemma still_waiting {R} (T : tbl R) room e st e' st' ts ids : fds_ok -> waiting T room e st ts -> opens_only ids e st e' st' ->
  apart (tbl_id T) ids -> waiting T room e' st' ts.
Proof using.
  intros Hfds (H1 & H2 & [S1 S2 S3]) (A1 & A2 & A3 & _) Hap. destruct (apart_fds T ids Hfds Hap) as [H0 Hne]. pose proof (tbl_id_range T).
  destruct Hap as [Hid _]. destruct (A3 _ Hid) as [Hx Hd]. split; [|split].
  - rewrite <- H1. by apply A1.
  - rewrite A2; [done|lia|done..].
  - constructor; [by rewrite Hd, Hx|done..].
Qed.

Lemma open_next {R} (T : tbl R) room e st ts : fds_ok -> 0 <= room < 2 ^ 32 - 1 -> ps_idle (en_store e) -> waiting T room e st ts ->
  exists e' st' t n, open_or_create pad e st (tbl_id T) (fds (tbl_id T)) = (e', st', Some t) /\
    is_open T room e' st' t (TState (ts_map ts) n) /\ next_ok ts n /\ ps_idle (en_store e') /\
    opens_only [tbl_id T] e st e' st'.
Proof using Hpad.
  intros Hfds Hroom Hidle (H1 & H2 & H3). apply table_opened_ok; [done| |done..]. apply Hfds, tbl_id_range.
Qed.

Lemma stays_open {R} (T : tbl R) room e st e' st' t ts ids : fds_ok -> is_open T room e st t ts -> opens_only ids e st e' st' ->
  apart (tbl_id T) ids -> is_open T room e' st' t ts.
Proof using. intros Hfds Ho Hb Hap. destruct (apart_fds T ids Hfds Hap). by eapply still_open; [..|apply Hap| |]. Qed.

(** The world a restarted server begins with: the same records under counters that
    are above every id, no lock and no transaction. *)
Definition reborn (w w' : world) : Prop :=
  (forall R (T : tbl R), ts_map (tget T w') = ts_map (tget T w) /\ next_ok (tget T w) (ts_next (tget T w'))) /\
  w_locks w' = ∅ /\ w_next_txn w' = 1.

(** Every index of the platform is dirty or as in its file. *)
Definition index_files (st : storage) (p : platform pool_store btree) : Prop :=
  forall R (T : tbl R), index_file st (tbl_id T) (t_pk_index (handle T p)).

Definition log_whole (n : Z) (p : platform pool_store btree) : Prop :=
  en_writes (pf_env p) = [] /\ whole_log n (w_file (en_wal (pf_env p))) (w_next_lsn (en_wal (pf_env p))).

Ltac apart := split; [apply (bool_decide_unpack _); by vm_compute|repeat constructor; by vm_compute].

(** Opening the five tables. *)
Lemma open_all room e st w : fds_ok -> 0 <= room < 2 ^ 32 - 1 -> ps_idle (en_store e) ->
  (forall R (T : tbl R), waiting T room e st (tget T w)) ->
  exists e1 st1 u e2 st2 ev e3 st3 s e4 st4 b e5 st5 bs,
    open_or_create pad e st TABLE_USERS (fds TABLE_USERS) = (e1, st1, Some u) /\
    open_or_create pad e1 st1 TABLE_EVENTS (fds TABLE_EVENTS) = (e2, st2, Some ev) /\
    open_or_create pad e2 st2 TABLE_SEATS (fds TABLE_SEATS) = (e3, st3, Some s) /\
    open_or_create pad e3 st3 TABLE_BOOKINGS (fds TABLE_BOOKINGS) = (e4, st4, Some b) /\
    open_or_create pad e4 st4 TABLE_BOOKING_SEATS (fds TABLE_BOOKING_SEATS) = (e5, st5, Some bs) /\
    ps_idle (en_store e5) /\ en_wal e5 = en_wal e /\ en_writes e5 = en_writes e /\
    let p := Platform e5 u ev s b bs txn_mgr_create lock_mgr_create in
    exists w', reborn w w' /\ forall R (T : tbl R), is_open T room e5 st5 (handle T p) (tget T w').
Proof using Hpad.
  intros Hfds Hroom Hi Hw.
  destruct (open_next Users room e st _ Hfds Hroom Hi (Hw _ Users)) as (e1 & st1 & u & n1 & E1 & O1 & K1 & I1 & B1).
  destruct (open_next Events room e1 st1 _ Hfds Hroom I1 (still_waiting Events _ _ _ _ _ _ _ Hfds (Hw _ Events) B1 ltac:(apart)))
    as (e2 & st2 & ev & n2 & E2 & O2 & K2 & I2 & B2). pose proof (opens_trans _ _ _ _ _ _ _ _ B1 B2) as C2.
  destruct (open_next Seats room e2 st2 _ Hfds Hroom I2 (still_waiting Seats _ _ _ _ _ _ _ Hfds (Hw _ Seats) C2 ltac:(apart)))
    as (e3 & st3 & s & n3 & E3 & O3 & K3 & I3 & B3). pose proof (opens_trans _ _ _ _ _ _ _ _ C2 B3) as C3.
  destruct (open_next Bookings room e3 st3 _ Hfds Hroom I3 (still_waiting Bookings _ _ _ _ _ _ _ Hfds (Hw _ Bookings) C3 ltac:(apart)))
    as (e4 & st4 & b & n4 & E4 & O4 & K4 & I4 & B4). pose proof (opens_trans _ _ _ _ _ _ _ _ C3 B4) as C4.
  destruct (open_next BookingSeats room e4 st4 _ Hfds Hroom I4 (still_waiting BookingSeats _ _ _ _ _ _ _ Hfds (Hw _ BookingSeats) C4 ltac:(apart)))
    as (e5 & st5 & bs & n5 & E5 & O5 & K5 & I5 & B5). pose proof (opens_trans _ _ _ _ _ _ _ _ C4 B5) as C5.
  exists e1, st1, u, e2, st2, ev, e3, st3, s, e4, st4, b, e5, st5, bs.
  do 6 (split; [assumption|]). destruct C5 as (_ & _ & _ & -> & -> & _). split; [done|]. split; [done|].
  pose proof (opens_trans _ _ _ _ _ _ _ _ B4 B5) as D4. pose proof (opens_trans _ _ _ _ _ _ _ _ B3 D4) as D3.
  pose proof (opens_trans _ _ _ _ _ _ _ _ B2 D3) as D2.
  exists (World (TState (ts_map (w_users w)) n1) (TState (ts_map (w_events w)) n2) (TState (ts_map (w_seats w)) n3)
           (TState (ts_map (w_bookings w)) n4) (TState (ts_map (w_bseats w)) n5) ∅ 1).
  split; [split; [|done]; intros R []; by split|].
  intros R []; cbn [handle tget pf_users pf_events pf_seats pf_bookings pf_bseats w_users w_events w_seats w_bookings w_bseats].
  - apply (stays_open Users _ _ _ _ _ _ _ _ Hfds O1 D2). apart.
  - apply (stays_open Events _ _ _ _ _ _ _ _ Hfds O2 D3). apart.
  - apply (stays_open Seats _ _ _ _ _ _ _ _ Hfds O3 D4). apart.
  - apply (stays_open Bookings _ _ _ _ _ _ _ _ Hfds O4 B5). apart.
  - exact O5.
Qed.

(** The log, opened or created, goes on where it ended. *)
Lemma open_log n st : match st_wal st with Some f => exists next, whole_log n f next | None => 1 + n < 2 ^ 64 end -> 0 <= n ->
  exists w, (match st_wal st with Some f => wal_open (Some f) | None => Some wal_create end) = Some w /\
    whole_log n (w_file w) (w_next_lsn w).
Proof using.
  intros Hl Hn. destruct (st_wal st) as [f|].
  - destruct Hl as (next & ops & H1 & -> & -> & H4). unfold wal_open.
    pose proof (recs_fuel _ (op_recs_ok ops 1 H1 ltac:(lia) ltac:(lia))) as Hf. rewrite length_op_recs in Hf.
    pose proof (open_scan_log ops 1 (Datatypes.S (length (log_bytes 1 ops))) H1 ltac:(lia) ltac:(lia)) as Ho.
    change (1 - 1) with 0 in Ho. rewrite Ho by (unfold log_bytes; lia). eexists. split; [reflexivity|]. exists ops. cbn [w_file w_next_lsn].
    rewrite u64_small by lia. split; [done|]. split; [done|]. lia.
  - exists wal_create. split; [done|]. exists []. cbn. split; [constructor|]. split; [done|]. lia.
Qed.

(** A server started on a storage that holds a world comes up and represents it. *)
Lemma init_represents room n faults st w : fds_ok -> Forall (fun b => b = true) faults -> 0 <= n -> storage_holds room n st w ->
  exists p st' w', server_init pad fds faults [] st = Some (p, st') /\ reborn w w' /\ represents room p w' /\
    index_files st' p /\ log_whole n p.
Proof using Hpad.
  intros Hfds Hfa Hn [Hroom Ht Hl]. unfold server_init.
  destruct (buffer_pool_create (Z.to_nat BUFFER_POOL_FRAMES)) as [bp|] eqn:Ebp; [|by vm_compute in Ebp].
  destruct (open_log n st Hl Hn) as (lw & -> & Hlw). set (e := Env (bp, Disk ∅ faults) lw [] g_next_ids).
  set (st0 := Storage (st_data st) (st_index st) (Some (w_file lw))).
  assert (Hw : forall R (T : tbl R), waiting T room e st0 (tget T w)).
  { intros R T. split; [|split; [by destruct T|]].
    - unfold pool_pages, file_pages. cbn [e en_store snd d_files]. rewrite lookup_empty. by destruct (_ <? 0).
    - destruct (Ht R T) as [H1 H2 H3]. by constructor. }
  destruct (open_all room e st0 w Hfds Hroom (fresh_idle _ _ _ Ebp Hfa) Hw)
    as (e1 & st1 & u & e2 & st2 & ev & e3 & st3 & s & e4 & st4 & b & e5 & st5 & bs &
        -> & -> & -> & -> & -> & Hidle & Ew & Ews & w' & Hre & Ho).
  eexists _, _, w'. split; [reflexivity|]. split; [exact Hre|]. destruct Hre as (_ & Hlocks & Hnt).
  split; [|split].
  - constructor; cbn [pf_env pf_txn_mgr pf_lock_mgr]; [exact Hidle| | |rewrite Hlocks; apply txn_rep_init|by rewrite Hnt|rewrite Hnt; lia].
    + intros R T. destruct (Ho R T). by constructor.
    + intros R R' T T' Hne. rewrite (io_fd _ _ _ _ _ _ (Ho R T)), (io_fd _ _ _ _ _ _ (Ho R' T')). intros E.
      apply Hfds in E; [done|apply tbl_id_range..].
  - intros R T. apply (Ho R T).
  - unfold log_whole. cbn [pf_env]. by rewrite Ew, Ews.
Qed.
End opening.

(** ** Closing the tables *)

Section closing.
Context (pad : record_ptr -> bytes) (Hpad : forall r, length (pad r) = 2%nat).

Lemma index_storable (s : pool_store) ids (t : table btree) room ps M : table_pages s ids t room ps M ->
  Forall storable (flat (bt_root (t_pk_index t))).
Proof using.
  intros Ht. destruct (tp_next _ _ _ _ _ _ Ht) as (n & _ & _ & Hn & Hk). pose proof (proj1 (tp_len _ _ _ _ _ _ Ht)).
  apply Forall_forall. intros [k ptr] Hin. apply (elem_of_list_to_map_1 _ _ _ (wf_flat_NoDup _ (tp_ix _ _ _ _ _ _ Ht))) in Hin.
  apply (in_index _ _ _ _ (tp_indexed _ _ _ _ _ _ Ht)) in Hin as (r & (Hok & Ha & _) & <-). pose proof (Hk _ _ Ha).
  split; [cbn; lia|done].
Qed.

(** The index file after table_close. *)
Lemma closed_index (s : pool_store) ids (t : table btree) room ps M st id : table_pages s ids t room ps M ->
  index_file st id (t_pk_index t) ->
  exists x, btree_open (btree_close pad (t_pk_index t) (st_index st !! id)) = ROk x [] /\ btree_wf x /\
    bt_order x = Z.to_nat BTREE_DEFAULT_ORDER /\ bt_map x = bt_map (t_pk_index t).
Proof using Hpad.
  intros Ht [Ho Hx]. unfold btree_close. destruct (bt_dirty (t_pk_index t)).
  - destruct (save_open pad (t_pk_index t) Hpad (tp_ix _ _ _ _ _ _ Ht)) as (x & Hs & Hwf & Hm & _ & Hox & _ & _);
      [rewrite Ho; by vm_compute|by eapply index_storable|].
    exists x. split; [exact Hs|]. split; [done|]. split; [congruence|done].
  - destruct Hx as [|Hx]; [done|]. exact Hx.
Qed.

Lemma close_step (e : env pool_store) st (t : table btree) f : clean (en_store e).1 -> 0 <= t_data_fd t ->
  d_files (en_store e).2 !! t_data_fd t = Some f ->
  exists e', table_close pad e st t =
      (e', Storage (<[t_id t := f]> (st_data st))
             (partial_alter (fun _ => btree_close pad (t_pk_index t) (st_index st !! t_id t)) (t_id t) (st_index st)) (st_wal st)) /\
    clean (en_store e').1 /\ d_files (en_store e').2 = delete (t_data_fd t) (d_files (en_store e).2).
Proof using.
  intros Hc Hfd Hf. unfold table_close, table_flush_unlocked. cbn [ps_flush_all pool_ops]. rewrite (flush_clean _ _ Hc).
  cbn [set_store en_store fst snd]. unfold page_file_close. destruct (Z.ltb_spec (t_data_fd t) 0); [lia|]. rewrite Hf.
  eexists. split; [reflexivity|]. by split.
Qed.

(** Every transaction still open is aborted: a record each. *)
Lemma destroy_moves tm w lm : slots_ok tm -> 0 < w_next_lsn w -> w_next_lsn w + Z.of_nat MAX_ACTIVE_TXNS < 2 ^ 64 ->
  log_moves (Z.of_nat MAX_ACTIVE_TXNS) w (txn_mgr_destroy tm w [] lm).1 [].
Proof using.
  intros Hs H0 Hn. unfold txn_mgr_destroy.
  match goal with |- context [fold_left ?g _ _] => set (f := g) end.
  assert (Hgen : forall js tm w lm, slots_ok tm -> 0 < w_next_lsn w -> w_next_lsn w + Z.of_nat (length js) < 2 ^ 64 ->
    let '(_, w', ws', _) := fold_left f js (tm, w, [], lm) in log_moves (Z.of_nat (length js)) w w' ws').
  { clear -Hs. clear tm Hs. induction js as [|i js IH]; intros tm w lm Hs H0 Hn; cbn [fold_left length] in *; [by apply log_stays|].
    assert (Hskip : let '(_, w', ws', _) := fold_left f js (tm, w, [], lm) in log_moves (Z.of_nat (Datatypes.S (length js))) w w' ws').
    { specialize (IH tm w lm Hs H0 ltac:(lia)). destruct (fold_left f js _) as [[[tm' w'] ws'] lm']. eapply log_moves_more; [exact IH|lia]. }
    unfold f at 2. destruct (tm_txns tm !! i) as [t|] eqn:Ei; [|exact Hskip]. destruct (_ && _); [|exact Hskip].
    pose proof (abort_moves tm w (tx_id t) Hs ltac:(lia)) as Hm.
    destruct (abort_core tm w [] (tx_id t)) as [[[tm1 w1] ws1] ks] eqn:E.
    pose proof (abort_core_spec _ _ _ _ _ _ _ _ E) as Hk. pose proof (log_moves_next _ _ _ _ Hm). pose proof (proj1 Hm) as Hws. subst ws1.
    assert (Hs1 : slots_ok tm1).
    { destruct ks as [ks|]; [|by destruct Hk as [_ ->]]. destruct Hk as (j & x & Ha & -> & _).
      apply active_txn_Some in Ha as (Hj & Hact & Hid & _). by eapply slots_ok_set. }
    assert (Hgo : forall lm1, let '(_, w', ws', _) := fold_left f js (tm1, w1, [], lm1) in log_moves (Z.of_nat (Datatypes.S (length js))) w w' ws').
    { intros lm1. specialize (IH tm1 w1 lm1 Hs1 ltac:(lia) ltac:(lia)). destruct (fold_left f js _) as [[[tm' w'] ws'] lm'].
      replace (Z.of_nat (Datatypes.S (length js))) with (1 + Z.of_nat (length js)) by lia. by eapply log_moves_trans. }
    destruct ks; apply Hgo. }
  specialize (Hgen (seq 0 MAX_ACTIVE_TXNS) tm w lm Hs H0). rewrite length_seq in Hgen. specialize (Hgen Hn).
  destruct (fold_left f _ _) as [[[tm' w'] ws'] lm']. cbn [fst]. by destruct Hgen as [-> Hg].
Qed.

(** The files of the tables once all are closed. *)
Lemma close_tables_files ts : forall (e : env pool_store) st, clean (en_store e).1 ->
  NoDup (t_id <$> ts) -> NoDup (t_data_fd <$> ts) ->
  Forall (fun t => 0 <= t_data_fd t /\ is_Some (d_files (en_store e).2 !! t_data_fd t)) ts ->
  let st' := close_tables pad e st ts in
  (forall id, id ∉ t_id <$> ts -> st_data st' !! id = st_data st !! id /\ st_index st' !! id = st_index st !! id) /\
  Forall (fun t => st_data st' !! t_id t = d_files (en_store e).2 !! t_data_fd t /\
    st_index st' !! t_id t = btree_close pad (t_pk_index t) (st_index st !! t_id t)) ts.
Proof using.
  clear Hpad. induction ts as [|t ts IH]; intros e st Hc Hid Hfd Hf; [by split|].
  apply NoDup_cons in Hid as [Hi1 Hid], Hfd as [Hf1 Hfd]. apply Forall_cons in Hf as [[H0 [f Ht]] Hf].
  destruct (close_step e st t f Hc H0 Ht) as (e1 & E & Hc1 & D1). unfold close_tables. cbn [fold_left]. rewrite E.
  match goal with |- context [fold_left _ ts (e1, ?x)] => set (st1 := x) in * end.
  assert (Hne : forall x, x ∈ ts -> t_id x <> t_id t /\ t_data_fd x <> t_data_fd t).
  { intros x Hx. split; intros E'; [apply Hi1|apply Hf1]; rewrite <- E'; apply list_elem_of_fmap; by exists x. }
  rewrite Forall_forall in Hf. destruct (IH e1 st1 Hc1 Hid Hfd) as [A1 A2]; fold (close_tables pad e1 st1 ts) in *.
  { apply Forall_forall. intros x Hx. destruct (Hf x Hx) as [G0 Hfx]. split; [done|].
    rewrite D1, lookup_delete_ne; [done|]. apply not_eq_sym, Hne, Hx. }
  split.
  - intros id Hin. rewrite fmap_cons, not_elem_of_cons in Hin. destruct (A1 id ltac:(tauto)) as [-> ->]. cbn [st_data st_index st1].
    rewrite lookup_insert_ne, lookup_partial_alter_ne by naive_solver. done.
  - constructor.
    + destruct (A1 (t_id t) Hi1) as [-> ->]. cbn [st_data st_index st1]. by rewrite lookup_insert_eq, lookup_partial_alter_eq.
    + rewrite Forall_forall in A2 |- *. intros x Hx. destruct (A2 x Hx) as [-> ->]. destruct (Hne x Hx). cbn [st_index st1].
      rewrite D1, lookup_delete_ne, lookup_partial_alter_ne by congruence. done.
Qed.

(** The tables in the order they are closed. *)
Definition closing_order : list (sigT tbl) :=
  [existT _ BookingSeats; existT _ Bookings; existT _ Seats; existT _ Events; existT _ Users].
Definition handles (p : platform pool_store btree) : list (table btree) := (fun T => handle (projT2 T) p) <$> closing_order.

Lemma in_handles {R} (T : tbl R) p : handle T p ∈ handles p.
Proof using.
  apply list_elem_of_fmap. exists (existT R T). split; [done|]. unfold closing_order.
  destruct T; rewrite !elem_of_cons; tauto.
Qed.

Lemma NoDup_handles p (g : table btree -> Z) :
  (forall R R' (T : tbl R) (T' : tbl R'), tbl_id T <> tbl_id T' -> g (handle T p) <> g (handle T' p)) -> NoDup (g <$> handles p).
Proof using.
  intros Hg. unfold handles. rewrite <- list_fmap_compose. apply NoDup_fmap_2_strong.
  - intros [R T] [R' T'] _ _ E. cbn in E. destruct (decide (tbl_id T = tbl_id T')) as [Eid|Hne]; [by destruct T, T'|].
    by apply Hg in Hne.
  - apply (NoDup_fmap_1 (fun T => tbl_id (projT2 T))). apply (bool_decide_unpack _). by vm_compute.
Qed.

(** The log file of the stopped server. *)
Lemma shutdown_log n room synced (p : platform pool_store btree) st w : represents room p w -> log_whole n p ->
  Z.of_nat MAX_ACTIVE_TXNS <= n ->
  exists f next, st_wal (server_shutdown pad synced p st) = Some f /\ whole_log (n - Z.of_nat MAX_ACTIVE_TXNS) f next.
Proof using.
  clear Hpad. intros Hrep (Hws & ops & H1 & H2 & H3 & H4) Hn. unfold server_shutdown. rewrite Hws.
  pose proof (destroy_moves (pf_txn_mgr p) (en_wal (pf_env p)) (pf_lock_mgr p) (tr_slots _ _ _ (rp_txn _ _ _ Hrep)) ltac:(lia) ltac:(lia)) as Hm.
  destruct (txn_mgr_destroy _ _ _ _) as [lw lm]. unfold table_flush_unlocked. destruct (ps_flush_all _) as [s1 rc].
  cbn [st_wal]. eexists _, (w_next_lsn lw). split; [reflexivity|]. destruct Hm as (_ & ops2 & M1 & M2 & M3 & M4). cbn [fst] in *.
  assert (Hfl : wal_close lw synced = w_file lw) by (by destruct synced).
  exists (ops ++ ops2). rewrite Hfl, M3, H2, H3. split; [by apply Forall_app|]. rewrite length_app. split; [|lia].
  unfold log_bytes. by rewrite op_recs_app, map_app, concat_app.
Qed.

(** Stopping the server leaves the records in its files. *)
Lemma shutdown_holds room n synced (p : platform pool_store btree) st w : represents room p w -> index_files st p ->
  log_whole n p -> Z.of_nat MAX_ACTIVE_TXNS <= n ->
  storage_holds room (n - Z.of_nat MAX_ACTIVE_TXNS) (server_shutdown pad synced p st) w.
Proof using Hpad.
  intros Hrep Hix Hlog Hn. pose proof Hrep as [H1 H2 H3 H4 H5 H6]. pose proof (so_next _ (tr_slots _ _ _ H4)) as Htn.
  constructor; [lia| |destruct (shutdown_log n room synced p st w Hrep Hlog Hn) as (f & next & -> & ?); by exists next].
  destruct (flush_files _ H1) as [Hc0 Hff]. set (e1 := set_store (pf_env p) (ps_flush_all (en_store (pf_env p))).1).
  destruct (close_tables_files (handles p) e1 st Hc0) as [_ Hcl].
  { apply NoDup_handles. intros R R' T T' Hne. by rewrite (th_id _ _ _ _ (H2 R T)), (th_id _ _ _ _ (H2 R' T')). }
  { by apply NoDup_handles. }
  { apply Forall_fmap, Forall_forall. intros [R T] _. cbn. destruct (th_rep _ _ _ _ (H2 R T)) as (ps & Ht).
    destruct (Hff _ _ (tp_pages _ _ _ _ _ _ Ht)) as (H0 & f & Hf & _). split; [done|by exists f]. }
  intros R T. destruct (H2 R T) as [A1 (ps & Ht) A3 A4]. rewrite Forall_forall in Hcl.
  destruct (Hcl _ (in_handles T p)) as [Hd Hi]. destruct (Hff _ _ (tp_pages _ _ _ _ _ _ Ht)) as (_ & f & Hf & Hl).
  destruct (closed_index _ _ _ _ _ _ st (tbl_id T) Ht (Hix R T)) as (x & X1 & X2 & X3 & X4). rewrite A1 in Hd, Hi.
  assert (Hst : st_data (server_shutdown pad synced p st) !! tbl_id T = Some f /\
    st_index (server_shutdown pad synced p st) !! tbl_id T = btree_close pad (t_pk_index (handle T p)) (st_index st !! tbl_id T)).
  { unfold server_shutdown. destruct (txn_mgr_destroy _ _ _ _) as [lw lm]. unfold table_flush_unlocked.
    destruct (ps_flush_all (en_store (pf_env p))) as [s1 rc]. cbn [st_data st_index]. split; [|exact Hi]. etrans; [exact Hd|exact Hf]. }
  destruct Hst as [Hd' Hi']. destruct (tp_next _ _ _ _ _ _ Ht) as (m & B1 & B2 & B3 & B4). rewrite A1 in *.
  assert (m = ts_next (tget T w)) as -> by congruence. constructor; [|done|done]. rewrite Hd', Hi'. destruct Ht as [T1 T2 T3 T4 [_ T5] T6 T7 _].
  rewrite A1 in *. subst ps. rewrite T2 in T4. constructor; try done. exists x. do 3 (split; [done|]). rewrite X4. exact T7.
Qed.
End closing.

(** ** Between start and stop *)

(** The operations of the index leave it alone or mark it dirty. *)
Definition moved (x x' : btree) : Prop := x' = x \/ (bt_dirty x' = true /\ bt_order x' = bt_order x).

Lemma insert_moved x k v : moved x (ix_insert x k v).1.
Proof. cbn. unfold btree_insert. destruct (insert_recursive _ _ _ _ _); first [by left|by right]. Qed.

Lemma delete_moved x k : moved x (ix_delete x k).1.
Proof. cbn. unfold btree_delete. destruct (find_leaf _ _); [|by left]. destruct (key_find_exact _ _); [by right|by left]. Qed.

Section table_index.
Context (e : env pool_store) (t : table btree).

Lemma finish_moved e' id target i buf slot : moved (t_pk_index t) (t_pk_index (insert_finish e' t id target i buf slot).1.1.2).
Proof.
  unfold insert_finish. pose proof (insert_moved (t_pk_index t) id (RecordPtr target (u16 slot))) as H.
  destruct (ix_insert _ _ _) as [x rc]. by destruct (negb _).
Qed.

Lemma insert_index r : moved (t_pk_index t) (t_pk_index (table_insert_unlocked e t r).1.1.2).
Proof.
  unfold table_insert_unlocked. repeat (case_match; try (by left)); apply finish_moved.
Qed.

Lemma delete_index id : moved (t_pk_index t) (t_pk_index (table_delete_unlocked e t id).1.2).
Proof.
  unfold table_delete_unlocked. pose proof (delete_moved (t_pk_index t) id) as H.
  repeat (case_match; try (by left)). exact H.
Qed.

Lemma step_index o : moved (t_pk_index t) (t_pk_index (table_step (e, t) o).1.2).
Proof.
  destruct o as [r|id|id r|id|f n| |]; cbn [table_step].
  - pose proof (insert_index r) as H. by destruct (table_insert_unlocked e t r) as [[[e' t'] rc] out].
  - destruct (table_find_by_id_unlocked e t id) as [[e' rc] out]. by left.
  - destruct (table_update_unlocked e t id r) as [e' rc]. by left.
  - pose proof (delete_index id) as H. by destruct (table_delete_unlocked e t id) as [[e' t'] rc].
  - destruct (table_scan_unlocked e t f n) as [e' rs]. by left.
  - destruct (table_count_unlocked e t) as [e' n]. by left.
  - destruct (table_flush_unlocked e) as [e' rc]. by left.
Qed.
End table_index.

Lemma op_index st {R} (T : tbl R) (p : platform pool_store btree) o : index_files st p -> index_files st (table_op_on T p o).1.
Proof.
  intros Hix. unfold table_op_on. pose proof (step_index (pf_env p) (handle T p) o) as Hm.
  destruct (table_step (pf_env p, handle T p) o) as [et out]. cbn [fst] in *. intros R' T'.
  destruct (decide (tbl_id T' = tbl_id T)) as [E|E]; [|rewrite (handle_put_ne T T' et p E); apply Hix].
  apply (tbl_same T T' (fun R' T' => index_file st (tbl_id T') (t_pk_index (handle T' (put_table T et p)))) E).
  destruct (handle_put T et p) as [-> _]. by apply (index_moved st _ (t_pk_index (handle T p))).
Qed.

(** Calls keep the indexes in that state. *)
Lemma pcall_index st {R} o (p : platform pool_store btree) (c : cmd R) r p' : index_files st p -> pcall o p c = Some (r, p') -> index_files st p'.
Proof.
  intros Hix Hp. assert (Htab : forall R' (T : tbl R'), handle T p' = handle T p -> index_file st (tbl_id T) (t_pk_index (handle T p'))).
  { intros R' T ->. apply Hix. }
  destruct c as [R T id|R T x|R T id x|R T id|R T f m| |t tb rid|t|t|]; cbn [pcall] in Hp;
    try (match type of Hp with context [table_op_on T p ?op] => pose proof (op_index st T p op Hix) as Hx; destruct (table_op_on T p op) as [p1 out] end;
         by injection Hp as <- <-).
  - destruct (txn_begin _) as [tm id]. injection Hp as <- <-. intros R' T. apply Htab. by destruct T.
  - destruct (txn_lock_now _ _ _ _) as [[[tm lm] rc]|]; [|done]. injection Hp as <- <-. intros R' T. apply Htab. by destruct T.
  - destruct (commit_core _ _ _ _ _) as [[[[tm lw] ws] ks] rc]. injection Hp as <- <-. intros R' T. apply Htab. by destruct T.
  - destruct (abort_core _ _ _ _) as [[[tm lw] ws] ks]. injection Hp as <- <-. intros R' T. apply Htab. by destruct T.
  - by injection Hp as <- <-.
Qed.

(** And the log whole. *)
Lemma whole_ready n p : log_whole n p -> log_ready n p.
Proof. intros (H & ops & _ & _ & H1 & H2). split; [done|]. lia. Qed.

Lemma pcall_whole {R} n room o (p : platform pool_store btree) w (c : cmd R) r p' : represents room p w -> call_ok c -> 1 <= room ->
  log_whole n p -> 2 <= n -> pcall o p c = Some (r, p') -> log_whole (n - 2) p'.
Proof.
  intros Hrep Hc Hroom Hl Hn Hp. destruct (whole_ready _ _ Hl) as (Hw & H0 & Hb).
  destruct (pcall_moves room o p w c r p' Hrep Hc Hroom ltac:(split; [done|lia]) Hp) as (Hws & ops2 & M1 & M2 & M3 & M4).
  destruct Hl as (_ & ops & H1 & H2 & H3 & H4). split; [done|]. exists (ops ++ ops2). rewrite M3, M4, H2, H3.
  split; [by apply Forall_app|]. rewrite length_app. split; [|lia]. unfold log_bytes. by rewrite op_recs_app, map_app, concat_app.
Qed.

Lemma log_whole_less n n' p : log_whole n p -> n' <= n -> log_whole n' p.
Proof. intros (H & ops & H1 & H2 & H3 & H4) Hn. split; [done|]. exists ops. do 3 (split; [done|]). lia. Qed.
