(* ===== verification/StorageTests.v ===== *)
(** * The storage tests (tests/test_storage.c)

    The ten tests of the storage engine, run on the definitions of this library: each
    is [None] if it reaches TEST_PASS and its message if an assertion fails.  The time
    the records are stamped with, the padding bytes of the index files and what fsync
    returns are any. *)

From stdpp Require Import base tactics numbers list list_numbers gmap strings.
From Stdlib Require Import ZArith Lia.
From S2P Require Import Prelude Types Utils Page BTree BTreeFile Wal PageMap BufferPool PageStore DataFiles Table Lifecycle Float32.

#[local] Open Scope Z_scope.

Definition test_result : Type := option string.
Definition TEST_PASS : test_result := None.

(** ASSERT_TEST *)
Notation "'ASSERT_TEST' c , m ; k" := (if c then k else Some m)
  (at level 100, c at level 99, m at level 99, k at level 200, right associativity) : etp_scope.
#[local] Open Scope etp_scope.

Section tests.
Context (now : Z) (synced : bool) (pad1 pad2 : record_ptr -> Z).

Definition pad (r : record_ptr) : bytes := [pad1 r; pad2 r].

(** page_file_create on a disk that works. *)
Definition new_file (fd : Z) : disk := Disk {[ fd := [] ]} [].

(** A buffer read from the disk; reads of open files do not fail here. *)
Definition buf_of (r : disk * option bytes) : bytes := default [] r.2.

Definition alice : user_record :=
  UserRecord 1 (strlcpy_field (lit "alice") 32) (strlcpy_field (lit "abc123hash") 65) ROLE_CUSTOMER now 0 (zeros 17).

Definition test_page_basic : test_result :=
  let '(d, pid) := page_alloc 3 USER_RECORD_SIZE (new_file 3) in
  ASSERT_TEST negb (pid =? INVALID_PAGE_ID), "page_alloc failed";
  match page_read 3 pid d with
  | (_, None) => Some "page_read failed"%string
  | (d, Some buf) =>
      let '(buf, slot) := page_insert_record buf (user_bytes alice) in
      ASSERT_TEST 0 <=? slot, "page_insert_record failed";
      match page_get_record buf slot with
      | None => Some "page_get_record returned NULL"%string
      | Some rec =>
          let read_back := user_of_bytes rec in
          ASSERT_TEST u_user_id read_back =? 1, "user_id mismatch";
          ASSERT_TEST strcmp_eq (cstr (u_username read_back)) (lit "alice"), "username mismatch";
          let '(d, ok) := page_write 3 pid buf d in
          ASSERT_TEST ok, "page_write failed";
          match page_read 3 pid d with
          | (_, None) => Some "page_read after write failed"%string
          | (_, Some buf2) =>
              let read_back2 := user_of_bytes (default [] (page_get_record buf2 slot)) in
              ASSERT_TEST u_user_id read_back2 =? 1, "re-read user_id mismatch";
              TEST_PASS
          end
      end
  end.

Definition multi_seat (i : nat) : seat_record :=
  let i := Z.of_nat i in SeatRecord (i + 1) 100 (65 + i / 5) (i mod 5 + 1) SEAT_AVAILABLE 0 0 (zeros 15).

Definition test_page_multiple_records : test_result :=
  let '(d, pid) := page_alloc 3 SEAT_RECORD_SIZE (new_file 3) in
  let buf := buf_of (page_read 3 pid d) in
  let max := page_get_max_records SEAT_RECORD_SIZE in
  let '(buf, inserted) := foldl (fun '(buf, inserted) i =>
      let '(buf, slot) := page_insert_record buf (seat_bytes (multi_seat i)) in
      (buf, if 0 <=? slot then inserted + 1 else inserted))
    (buf, 0) (seq 0 (Nat.min (Z.to_nat max) 20)) in
  ASSERT_TEST inserted =? 20, "expected 20 inserts";
  ASSERT_TEST page_get_record_count buf =? 20, "record count mismatch";
  TEST_PASS.

(** Insertions of the keys 1 to n, [None] at the first that fails. *)
Fixpoint insert_keys (ptr : Z -> record_ptr) (keys : list Z) (t : btree) : option btree :=
  match keys with
  | [] => Some t
  | k :: rest => let '(t, rc) := btree_insert t k (ptr k) in if rc =? 0 then insert_keys ptr rest t else None
  end.

Definition found (t : btree) (key : Z) (page : Z) : bool :=
  match btree_search t key with Some r => rp_page_id r =? page | None => false end.

Definition test_btree_basic : test_result :=
  match btree_create 4 with
  | None => Some "btree_create failed"%string
  | Some tree =>
      match insert_keys (fun i => RecordPtr (i * 10) (u16 (i mod 5))) (seqZ 1 20) tree with
      | None => Some "insert failed"%string
      | Some tree =>
          ASSERT_TEST btree_size tree =? 20, "size should be 20";
          ASSERT_TEST bool_decide (is_Some (btree_search tree 15)), "search for 15 failed";
          ASSERT_TEST found tree 15 150, "page_id mismatch for key 15";
          let '(tree, rc) := btree_delete tree 10 in
          ASSERT_TEST rc =? 0, "delete 10 failed";
          ASSERT_TEST btree_size tree =? 19, "size should be 19 after delete";
          ASSERT_TEST bool_decide (btree_search tree 10 = None), "search for deleted key should fail";
          let '(_, rc) := btree_insert tree 5 (RecordPtr 999 0) in
          ASSERT_TEST negb (rc =? 0), "duplicate insert should fail";
          TEST_PASS
      end
  end.

Definition test_btree_persistence : test_result :=
  match btree_create_file pad 4 with
  | None => Some "btree_create failed"%string
  | Some (tree, file) =>
      let tree := foldl (fun t i => fst (btree_insert t i (RecordPtr i 0))) tree (seqZ 1 50) in
      match btree_open (btree_close pad tree (Some file)) with
      | ROk tree _ =>
          ASSERT_TEST btree_size tree =? 50, "size should be 50 after reload";
          ASSERT_TEST bool_decide (is_Some (btree_search tree 25)), "search after reload failed";
          ASSERT_TEST found tree 25 25, "value mismatch after reload";
          TEST_PASS
      | _ => Some "btree_open failed"%string
      end
  end.

Definition test_btree_range_scan : test_result :=
  match btree_create 4 with
  | None => Some "btree_create failed"%string
  | Some tree =>
      let tree := foldl (fun t i => fst (btree_insert t i (RecordPtr (i * 100) 0))) tree (seqZ 1 30) in
      ASSERT_TEST match btree_range_scan tree 10 20 20 with Some l => (length l =? 11)%nat | None => false end,
        "range [10,20] should return 11 keys";
      TEST_PASS
  end.

Definition bob : user_record := UserRecord 42 (strlcpy_field (lit "bob") 32) (zeros 65) 0 0 0 (zeros 17).

Definition test_buffer_pool : test_result :=
  match buffer_pool_create 8 with
  | None => Some "buffer_pool_create failed"%string
  | Some pool =>
      let '(d, pid) := page_alloc 3 USER_RECORD_SIZE (new_file 3) in
      match buffer_pool_fetch pool d 3 pid with
      | (_, _, None) => Some "buffer_pool_fetch failed"%string
      | (pool, d, Some page) =>
          let '(buf, slot) := page_insert_record (frame_buf pool page) (user_bytes bob) in
          ASSERT_TEST 0 <=? slot, "insert into buffered page failed";
          let pool := buffer_pool_unpin (buffer_pool_mark_dirty (frame_store pool page buf) 3 pid) 3 pid in
          let '(_, d, _) := buffer_pool_flush_all pool d in
          match page_get_record (buf_of (page_read 3 pid d)) slot with
          | None => Some "direct read failed"%string
          | Some check => ASSERT_TEST u_user_id (user_of_bytes check) =? 42, "flushed data mismatch"; TEST_PASS
          end
      end
  end.

Definition charlie : user_record := UserRecord 1 (strlcpy_field (lit "charlie") 32) (zeros 65) 0 0 0 (zeros 17).

Definition test_wal_basic : test_result :=
  let '(wal, ws, lsn1) := wal_log_insert wal_create [] 1 TABLE_USERS 1 (user_bytes charlie) USER_RECORD_SIZE in
  ASSERT_TEST negb (lsn1 =? INVALID_LSN), "wal_log_insert failed";
  let '(wal, ws, lsn2) := wal_log_commit wal ws 1 in
  ASSERT_TEST lsn1 <? lsn2, "commit LSN should be > insert LSN";
  let '(wal, _) := wal_flush wal synced in
  match wal_open (Some (wal_close wal synced)) with
  | None => Some "wal_open failed"%string
  | Some wal =>
      ASSERT_TEST match wal_recover wal with Some recs => (length recs =? 2)%nat | None => false end,
        "expected 2 WAL records (insert + commit)";
      TEST_PASS
  end.

(** buffer_pool_create, wal_create and table_create with new files. *)
Definition new_table (id fd : Z) : option (env pool_store * table btree) :=
  match buffer_pool_create (Z.to_nat BUFFER_POOL_FRAMES) with
  | None => None
  | Some pool =>
      let e := Env (page_file_create fd (pool, Disk ∅ [])) wal_create [] g_next_ids in
      (fun t => (e, t)) <$> table_create e id fd (fst <$> btree_create_file pad (Z.to_nat BTREE_DEFAULT_ORDER))
  end.

Definition diana : user_record :=
  UserRecord 0 (strlcpy_field (lit "diana") 32) (blit 0 (etp_hash_password (lit "secret") 65) (zeros 65)) ROLE_ORGANIZER now 0 (zeros 17).

Definition test_table_insert_find : test_result :=
  match new_table TABLE_USERS 3 with
  | None => Some "table_create failed"%string
  | Some (e, users) =>
      match table_insert_unlocked e users (user_bytes diana) with
      | (e, users, ETP_OK, Some out_id) =>
          ASSERT_TEST 0 <? out_id, "out_id should be > 0";
          match table_find_by_id_unlocked e users out_id with
          | (_, ETP_OK, Some rec) =>
              let found := user_of_bytes rec in
              ASSERT_TEST u_user_id found =? out_id, "user_id mismatch";
              ASSERT_TEST strcmp_eq (cstr (u_username found)) (lit "diana"), "username mismatch";
              ASSERT_TEST u_role found =? ROLE_ORGANIZER, "role mismatch";
              TEST_PASS
          | _ => Some "table_find_by_id failed"%string
          end
      | _ => Some "table_insert failed"%string
      end
  end.

Definition coldplay : event_record :=
  EventRecord 0 (strlcpy_field (lit "Coldplay Mumbai") 64) (strlcpy_field (lit "DY Patil Stadium") 64)
    (strlcpy_field (lit "2026-08-15") 11) (strlcpy_field (lit "19:00") 6) 1 5 10 (f32_encode (f32_of_int 2500)) EVENT_ACTIVE 0 (zeros 29).

Definition with_price (price : Z) (e : event_record) : event_record :=
  EventRecord (e_event_id e) (e_name e) (e_venue e) (e_event_date e) (e_event_time e) (e_organizer_id e) (e_total_rows e)
    (e_seats_per_row e) price (e_status e) (e_is_deleted e) (e_pad e).

Definition test_table_update_delete : test_result :=
  match new_table TABLE_EVENTS 3 with
  | None => Some "table_create failed"%string
  | Some (e, events) =>
      match table_insert_unlocked e events (event_bytes coldplay) with
      | (e, events, ETP_OK, Some evt_id) =>
          match table_find_by_id_unlocked e events evt_id with
          | (e, ETP_OK, Some rec) =>
              let updated := with_price (f32_encode (f32_of_int 3000)) (event_of_bytes rec) in
              let '(e, rc) := table_update_unlocked e events evt_id (event_bytes updated) in
              ASSERT_TEST bool_decide (rc = ETP_OK), "update failed";
              let '(e, _, check) := table_find_by_id_unlocked e events evt_id in
              ASSERT_TEST e_price (event_of_bytes (default [] check)) =? f32_encode (f32_of_int 3000), "price not updated";
              let '(e, events, rc) := table_delete_unlocked e events evt_id in
              ASSERT_TEST bool_decide (rc = ETP_OK), "delete failed";
              let '(e, rc, _) := table_find_by_id_unlocked e events evt_id in
              ASSERT_TEST bool_decide (rc = ETP_ERR_NOT_FOUND), "find after delete should fail";
              TEST_PASS
          | _ => Some "find for update failed"%string
          end
      | _ => Some "insert event failed"%string
      end
  end.

Definition scan_seat (i : nat) : seat_record :=
  SeatRecord 0 1 65 (Z.of_nat i + 1) (if (i <? 5)%nat then SEAT_AVAILABLE else SEAT_BOOKED) (if (i <? 5)%nat then 0 else 42) 0 (zeros 15).

Definition filter_available (record : bytes) : bool := s_status (seat_of_bytes record) =? SEAT_AVAILABLE.

Definition test_table_scan : test_result :=
  match new_table TABLE_SEATS 3 with
  | None => Some "table_create failed"%string
  | Some (e, seats) =>
      let '(e, seats) := foldl (fun '(e, seats) i =>
          let '(e, seats, _, _) := table_insert_unlocked e seats (seat_bytes (scan_seat i)) in (e, seats)) (e, seats) (seq 0 10) in
      let '(_, results) := table_scan_unlocked e seats (Some filter_available) 20 in
      ASSERT_TEST (length results =? 5)%nat, "expected 5 available seats";
      ASSERT_TEST forallb filter_available results, "non-available seat in results";
      TEST_PASS
  end.

(** What main returns. *)
Definition run_tests : Z :=
  let results := [test_page_basic; test_page_multiple_records; test_btree_basic; test_btree_persistence; test_btree_range_scan;
                  test_buffer_pool; test_wal_basic; test_table_insert_find; test_table_update_delete; test_table_scan] in
  if bool_decide (Forall (fun r => r = TEST_PASS) results) then 0 else 1.
End tests.

(** All ten tests pass. *)
Theorem storage_tests_pass now synced pad1 pad2 : run_tests now synced pad1 pad2 = 0.
Proof. destruct synced; vm_compute; reflexivity. Qed.
