(* ===== verification/EventMgr.v ===== *)
(** * Events (server/core/event_mgr.c)

    The event manager as programs of table calls.  Pointers are never NULL here;
    strings are byte lists without their NUL. *)

From stdpp Require Import base tactics numbers list gmap.
From Stdlib Require Import ZArith Lia.
From S2P Require Import Prelude Types Utils Float32 Calls.

#[local] Open Scope Z_scope.
#[local] Open Scope etp_scope.

Definition seat_record_of (event_id row snum : Z) : seat_record :=
  {| s_seat_id := 0; s_event_id := event_id; s_row_label := u8 (65 + row); s_seat_number := snum;
     s_status := SEAT_AVAILABLE; s_booked_by := 0; s_is_deleted := 0; s_pad := zeros 15 |}.

(** The two loops over rows and seats, as the list of their records. *)
Definition event_seats (event_id total_rows seats_per_row : Z) : list seat_record :=
  row ← seqZ 0 total_rows; snum ← seqZ 1 seats_per_row; [seat_record_of event_id row snum].

Fixpoint insert_seats (seats : list seat_record) (seats_created : Z) : prog Z :=
  match seats with
  | [] => Ret seats_created
  | s :: rest => rc <- Insert Seats s; insert_seats rest (match rc with inl _ => seats_created + 1 | inr _ => seats_created end)
  end.

Definition event_record_of (name venue date time_str : bytes) (organizer_id total_rows seats_per_row price : Z) : event_record :=
  {| e_event_id := 0; e_name := strlcpy_field name 64; e_venue := strlcpy_field venue 64;
     e_event_date := strlcpy_field date 11; e_event_time := strlcpy_field time_str 6;
     e_organizer_id := organizer_id; e_total_rows := total_rows; e_seats_per_row := seats_per_row;
     e_price := price; e_status := EVENT_ACTIVE; e_is_deleted := 0; e_pad := zeros 29 |}.

Definition event_mgr_create_event (name venue date time_str : bytes) (organizer_id total_rows seats_per_row price : Z)
    : prog (res Z) :=
  if negb (f32_isfinite price) || f32_negative price then Ret (inr ETP_ERR_INVALID_ARG)
  else if (total_rows =? 0) || (MAX_SEAT_ROWS <? total_rows) then Ret (inr ETP_ERR_INVALID_ARG)
  else if (seats_per_row =? 0) || (MAX_SEATS_PER_ROW <? seats_per_row) then Ret (inr ETP_ERR_INVALID_ARG)
  else
    rc <- Insert Events (event_record_of name venue date time_str organizer_id total_rows seats_per_row price);
    match rc with
    | inr err => Ret (inr err)
    | inl event_id => bind (insert_seats (event_seats event_id total_rows seats_per_row) 0) (fun _ => Ret (inl event_id))
    end.

Definition event_mgr_get_event (event_id : Z) : prog (res event_record) := r <- Find Events event_id; Ret r.

Definition filter_active_events (evt : event_record) : bool := e_status evt =? EVENT_ACTIVE.

Definition event_mgr_list_events (max_results : Z) : prog (list event_record) :=
  rs <- Scan Events filter_active_events max_results; Ret rs.

Definition filter_by_event (target : Z) (seat : seat_record) : bool := s_event_id seat =? target.

Definition event_mgr_get_seats (event_id max_results : Z) : prog (list seat_record) :=
  rs <- Scan Seats (filter_by_event event_id) max_results; Ret rs.

Definition event_mgr_delete_event (event_id : Z) : prog etp_result_t := rc <- Delete Events event_id; Ret rc.

(** ** Creating an event *)

Definition add_seat (ts : tstate seat_record) (s : seat_record) : tstate seat_record :=
  TState (<[ts_next ts := set_key Seats (ts_next ts) s]> (ts_map ts)) (ts_next ts + 1).

(** The arguments event_mgr_create_event accepts. *)
Definition event_args_ok (total_rows seats_per_row price : Z) : Prop :=
  f32_isfinite price = true /\ f32_negative price = false /\
  1 <= total_rows <= MAX_SEAT_ROWS /\ 1 <= seats_per_row <= MAX_SEATS_PER_ROW.

Definition seat_at (event_id first seats_per_row row snum : Z) : seat_record :=
  {| s_seat_id := first + row * seats_per_row + (snum - 1); s_event_id := event_id; s_row_label := 65 + row;
     s_seat_number := snum; s_status := SEAT_AVAILABLE; s_booked_by := 0; s_is_deleted := 0; s_pad := zeros 15 |}.

Lemma add_seats l : forall ts, ts_next (foldl add_seat ts l) = ts_next ts + Z.of_nat (length l) /\
  forall id, ts_map (foldl add_seat ts l) !! id =
    if bool_decide (ts_next ts <= id < ts_next ts + Z.of_nat (length l))
    then set_key Seats id <$> l !! Z.to_nat (id - ts_next ts) else ts_map ts !! id.
Proof.
  induction l as [|s l IH]; intros ts; cbn [foldl length].
  - split; [lia|]. intros id. rewrite bool_decide_false by lia. done.
  - destruct (IH (add_seat ts s)) as [H1 H2]. rewrite H1. cbn [add_seat ts_next]. split; [lia|]. intros id. rewrite (H2 id).
    cbn [add_seat ts_next ts_map]. destruct (decide (id = ts_next ts)) as [->|Hne].
    + rewrite bool_decide_false, bool_decide_true by lia. rewrite lookup_insert_eq, Z.sub_diag. done.
    + rewrite lookup_insert_ne by done. case_bool_decide as Hd.
      * rewrite bool_decide_true by lia. replace (Z.to_nat (id - ts_next ts)) with (S (Z.to_nat (id - (ts_next ts + 1)))) by lia.
        done.
      * rewrite bool_decide_false by lia. done.
Qed.

Lemma insert_seats_alone {A} now l (f : Z -> prog A) Q : forall n w,
  alone now (tput Seats (foldl add_seat (w_seats w) l) w) (f (n + Z.of_nat (length l))) Q ->
  alone now w (bind (insert_seats l n) f) Q.
Proof.
  induction l as [|s l IH]; intros n w HQ; cbn [insert_seats bind].
  - cbn in HQ. rewrite Z.add_0_r in HQ. by destruct w.
  - eapply alone_call; [done|]. apply IH. replace (n + 1 + Z.of_nat (length l)) with (n + Z.of_nat (length (s :: l))) by (cbn; lia).
    exact HQ.
Qed.

(** The rows, one list each. *)
Definition seat_rows (id rows cols : Z) : list (list seat_record) :=
  (fun row => seat_record_of id row <$> seqZ 1 cols) <$> seqZ 0 rows.

Lemma event_seats_rows id rows cols : event_seats id rows cols = mjoin (seat_rows id rows cols).
Proof.
  unfold event_seats, seat_rows. rewrite list_join_bind, list_fmap_bind. apply list_bind_ext; [|done]. intros row. cbn.
  induction (seqZ 1 cols) as [|c l IH]; [done|]. cbn. by rewrite IH.
Qed.

Lemma seat_rows_length id rows cols : Forall (fun l => length l = Z.to_nat cols) (seat_rows id rows cols).
Proof. apply Forall_fmap, Forall_true. intros row. cbn. by rewrite length_fmap, length_seqZ. Qed.

Lemma event_seats_length id rows cols : length (event_seats id rows cols) = (Z.to_nat rows * Z.to_nat cols)%nat.
Proof.
  rewrite event_seats_rows, length_join, (sum_list_fmap_same (Z.to_nat cols)) by apply seat_rows_length.
  unfold seat_rows. by rewrite length_fmap, length_seqZ.
Qed.

Lemma event_seats_lookup id rows cols row snum : 0 <= row < rows -> 1 <= snum <= cols ->
  event_seats id rows cols !! Z.to_nat (row * cols + (snum - 1)) = Some (seat_record_of id row snum).
Proof.
  intros Hr Hs. rewrite event_seats_rows.
  replace (Z.to_nat (row * cols + (snum - 1))) with (Z.to_nat row * Z.to_nat cols + Z.to_nat (snum - 1))%nat by nia.
  apply (join_lookup_Some_same_length' (Z.to_nat cols)); [apply seat_rows_length|lia|].
  exists (seat_record_of id row <$> seqZ 1 cols). split; apply list_lookup_fmap_Some.
  - exists row. split; [done|]. apply lookup_seqZ. lia.
  - exists snum. split; [done|]. apply lookup_seqZ. lia.
Qed.

(** C14: creating an event with a finite, non-negative price, 1 to 26 rows and 1 to
    100 seats per row stores one active event under the next id with its strings
    cut to their fields, and exactly rows times seats-per-row available seats under
    consecutive new ids, row A first, numbered from 1; no other seat and no other
    table changes.  Any other argument is refused and nothing changes. *)
Theorem create_event_alone now w name venue date time_str org rows cols price : 0 <= rows -> 0 <= cols ->
  alone now w (event_mgr_create_event name venue date time_str org rows cols price) (fun r w' =>
    if bool_decide (event_args_ok rows cols price) then
      let id := ts_next (w_events w) in let first := ts_next (w_seats w) in
      r = inl id /\
      w_events w' = TState (<[id := set_key Events id (event_record_of name venue date time_str org rows cols price)]>
                             (ts_map (w_events w))) (id + 1) /\
      ts_next (w_seats w') = first + rows * cols /\
      (forall row snum, 0 <= row < rows -> 1 <= snum <= cols ->
         ts_map (w_seats w') !! (first + row * cols + (snum - 1)) = Some (seat_at id first cols row snum)) /\
      (forall k, ~ (first <= k < first + rows * cols) -> ts_map (w_seats w') !! k = ts_map (w_seats w) !! k) /\
      w_users w' = w_users w /\ w_bookings w' = w_bookings w /\ w_bseats w' = w_bseats w
    else r = inr ETP_ERR_INVALID_ARG /\ w' = w).
Proof.
  intros Hr Hc. unfold event_mgr_create_event.
  destruct (negb (f32_isfinite price) || f32_negative price) eqn:E1.
  { rewrite bool_decide_false; [done|]. intros (H1 & H2 & _). by rewrite H1, H2 in E1. }
  destruct ((rows =? 0) || (MAX_SEAT_ROWS <? rows)) eqn:E2.
  { rewrite bool_decide_false; [done|]. intros (_ & _ & H & _). lia. }
  destruct ((cols =? 0) || (MAX_SEATS_PER_ROW <? cols)) eqn:E3.
  { rewrite bool_decide_false; [done|]. intros (_ & _ & _ & H). lia. }
  apply orb_false_iff in E1 as [E1%negb_false_iff E1'].
  assert (Hargs : event_args_ok rows cols price) by (unfold event_args_ok; split_and!; done || lia).
  rewrite bool_decide_true by done. eapply alone_call; [done|]. apply insert_seats_alone.
  set (id := ts_next (tget Events w)). set (L := event_seats id rows cols).
  destruct (add_seats L (w_seats w)) as [H1 H2].
  assert (HL : Z.of_nat (length L) = rows * cols) by (unfold L; rewrite event_seats_length; lia).
  rewrite HL in H1, H2. split; [done|]. split; [done|]. split; [exact H1|]. split; [|split; [|done]].
  - intros row snum Hrow Hsn. change (ts_map (foldl add_seat (w_seats w) L) !! (ts_next (w_seats w) + row * cols + (snum - 1)) =
      Some (seat_at id (ts_next (w_seats w)) cols row snum)).
    rewrite H2, bool_decide_true by nia.
    replace (ts_next (w_seats w) + row * cols + (snum - 1) - ts_next (w_seats w)) with (row * cols + (snum - 1)) by lia.
    unfold L. rewrite event_seats_lookup by done. cbn [fmap option_fmap option_map]. f_equal. unfold seat_at, seat_record_of.
    cbn [set_key s_event_id s_row_label s_seat_number s_status s_booked_by s_is_deleted s_pad].
    unfold wrap. unfold MAX_SEAT_ROWS in E2. rewrite (Z.mod_small (65 + row)) by lia. done.
  - intros k Hk. change (ts_map (foldl add_seat (w_seats w) L) !! k = ts_map (w_seats w) !! k).
    by rewrite H2, bool_decide_false.
Qed.

Definition gig_name : bytes := [71; 105; 103].
Definition hall : bytes := [72; 97; 108; 108].

(** Two rows of two seats at 25.0 (1103626240 is its float). *)
Lemma create_event_alone_witness :
  event_args_ok 2 2 1103626240 /\
  alone 0 empty_world (event_mgr_create_event gig_name hall [] [] 3 2 2 1103626240) (fun r w' =>
    r = inl 1 /\ ts_next (w_seats w') = 5 /\
    ts_map (w_seats w') !! 4 = Some (seat_at 1 1 2 1 2)).
Proof.
  split; [unfold event_args_ok; split_and!; by vm_compute|].
  eapply alone_mono; [apply (create_event_alone 0 empty_world gig_name hall [] [] 3 2 2 1103626240); by vm_compute|].
  cbv beta zeta. intros r w'. rewrite bool_decide_true by (unfold event_args_ok; split_and!; by vm_compute).
  intros (-> & _ & Hn & Hs & _). split; [by vm_compute|]. split; [by rewrite Hn|]. apply (Hs 1 2); by vm_compute.
Defined.

(** A seat whose insertion fails is left out and the event is reported as created. *)
Example create_event_ignores_failed_seats :
  match run (event_mgr_create_event gig_name hall [] [] 3 2 2 1103626240) (Nat.eqb 2) 0 empty_world with
  | Some (r, w) => (r, (fun s => (s_row_label s, s_seat_number s)) <$> table_records Seats w)
  | None => (inr ETP_ERR_GENERIC, [])
  end = (inl 1, [(65, 1); (66, 1); (66, 2)]).
Proof. vm_compute. reflexivity. Qed.

(** One event with seats 1 to 4, at 25.0 (1103626240 is its float). *)
Definition venue : world :=
  match run (event_mgr_create_event gig_name hall [] [] 3 2 2 1103626240) no_faults 0 empty_world with
  | Some (_, w) => w
  | None => empty_world
  end.
