(* ===== verification/Protocol.v ===== *)
(** * Commands, permissions and the parser (common/protocol.h, auth/rbac.c, protocol/parser.c)

    A line of a client becomes a command with arguments; the permission matrix says
    which roles may run it.  Strings are byte lists without their NUL. *)

From stdpp Require Import base tactics numbers list strings.
From Stdlib Require Import ZArith Lia.
From S2P Require Import Prelude Types Utils.

#[local] Open Scope Z_scope.

(** ** Commands *)

Definition MAX_CMD_ARGS : nat := 16.
Definition MAX_ARG_LEN : nat := 256.

Definition CMD_REGISTER : Z := 0.
Definition CMD_LOGIN : Z := 1.
Definition CMD_LOGOUT : Z := 2.
Definition CMD_LIST_EVENTS : Z := 3.
Definition CMD_VIEW_EVENT : Z := 4.
Definition CMD_VIEW_SEATS : Z := 5.
Definition CMD_CREATE_EVENT : Z := 6.
Definition CMD_DELETE_EVENT : Z := 7.
Definition CMD_BOOK : Z := 8.
Definition CMD_CANCEL : Z := 9.
Definition CMD_MY_BOOKINGS : Z := 10.
Definition CMD_LIST_USERS : Z := 11.
Definition CMD_REVENUE : Z := 12.
Definition CMD_SYSTEM_STATS : Z := 13.
Definition CMD_HELP : Z := 14.
Definition CMD_QUIT : Z := 15.
Definition CMD_UNKNOWN : Z := 16.
Definition CMD_COUNT : Z := 17.

Inductive response_status := RESP_OK | RESP_ERROR | RESP_DENIED.

Record parsed_command := ParsedCommand { pc_type : Z; pc_args : list bytes }.

(** ** Permissions *)

(** Rows are commands; columns GUEST, CUSTOMER, ORGANIZER, ADMIN. *)
Definition permission_matrix : list (list Z) :=
  [ [1; 1; 1; 1]; [1; 1; 1; 1]; [0; 1; 1; 1]; [1; 1; 1; 1]; [1; 1; 1; 1]; [1; 1; 1; 1];
    [0; 0; 1; 1]; [0; 0; 1; 1]; [0; 1; 1; 1]; [0; 1; 1; 1]; [0; 1; 1; 1]; [0; 0; 0; 1];
    [0; 0; 1; 1]; [0; 0; 0; 1]; [1; 1; 1; 1]; [1; 1; 1; 1]; [0; 0; 0; 0] ].

(** A role is unsigned. *)
Definition rbac_check (role cmd : Z) : bool :=
  if (cmd <? 0) || (CMD_COUNT <=? cmd) || (ROLE_ADMIN <? role) then false
  else negb (nth (Z.to_nat role) (nth (Z.to_nat cmd) permission_matrix []) 0 =? 0).

Definition command_names : list String.string :=
  ["REGISTER"; "LOGIN"; "LOGOUT"; "LIST_EVENTS"; "VIEW_EVENT"; "VIEW_SEATS"; "CREATE_EVENT"; "DELETE_EVENT";
   "BOOK"; "CANCEL"; "MY_BOOKINGS"; "LIST_USERS"; "REVENUE"; "SYSTEM_STATS"; "HELP"; "QUIT"; "UNKNOWN"]%string.

Definition rbac_command_name (cmd : Z) : bytes :=
  if (0 <=? cmd) && (cmd <? CMD_COUNT) then lit (nth (Z.to_nat cmd) command_names "UNKNOWN"%string) else lit "UNKNOWN".

(** tolower in the C locale, and strcasecmp's answer to equality. *)
Definition tolower (c : Z) : Z := if (65 <=? c) && (c <=? 90) then c + 32 else c.
Definition strcasecmp_eq (a b : bytes) : bool := bool_decide (tolower <$> a = tolower <$> b).

(** The first name that matches, counted from [i]. *)
Fixpoint parse_names (names : list String.string) (i : Z) (cmd_str : bytes) : Z :=
  match names with
  | [] => CMD_UNKNOWN
  | n :: names' => if strcasecmp_eq cmd_str (lit n) then i else parse_names names' (i + 1) cmd_str
  end.

Definition rbac_parse_command_type (cmd_str : bytes) : Z := parse_names command_names 0 cmd_str.

Definition role_names : list String.string := ["GUEST"; "CUSTOMER"; "ORGANIZER"; "ADMIN"]%string.

Definition rbac_denial_reason (role cmd : Z) : bytes :=
  if (role =? ROLE_GUEST) && ((cmd =? CMD_BOOK) || (cmd =? CMD_CANCEL) || (cmd =? CMD_MY_BOOKINGS) || (cmd =? CMD_LOGOUT))
  then lit "Please LOGIN first to use this command"
  else if (role =? ROLE_CUSTOMER) && ((cmd =? CMD_CREATE_EVENT) || (cmd =? CMD_DELETE_EVENT))
  then lit "Only ORGANIZERs can manage events"
  else if negb (role =? ROLE_ADMIN) && ((cmd =? CMD_LIST_USERS) || (cmd =? CMD_SYSTEM_STATS))
  then lit "ADMIN access required"
  else lit "Role '" ++ (if role <=? ROLE_ADMIN then lit (nth (Z.to_nat role) role_names "?"%string) else lit "?") ++
       lit "' cannot execute '" ++ rbac_command_name cmd ++ lit "'".

(** ** Parsing *)

(** One token: at most [n] bytes up to white space; and the rest of the line. *)
Fixpoint token (n : nat) (p : bytes) : bytes * bytes :=
  match n, p with
  | S n', c :: p' => if isspace c then ([], p) else let '(t, r) := token n' p' in (c :: t, r)
  | _, _ => ([], p)
  end.

(** The loop over the arguments, [n] of which still fit. *)
Fixpoint parse_args (n : nat) (p : bytes) : list bytes :=
  match n, p with
  | S n', _ :: _ =>
      match skip_space p with
      | [] => []
      | q => let '(t, r) := token (MAX_ARG_LEN - 1) q in t :: parse_args n' r
      end
  | _, _ => []
  end.

(** The trailing newlines. *)
Fixpoint strip_newlines (s : bytes) : bytes :=
  match s with
  | [] => []
  | c :: s' =>
      match strip_newlines s' with
      | [] => if (c =? 10) || (c =? 13) then [] else [c]
      | t => c :: t
      end
  end.

(** [None] is the result -1. *)
Definition parse_command (raw : bytes) : option parsed_command :=
  let buf := strip_newlines (cstr (fst (etp_strlcpy raw (Z.to_nat MAX_CMD_LENGTH)))) in
  match skip_space buf with
  | [] => None
  | p =>
      let '(cmd_name, rest) := token (MAX_ARG_LEN - 1) p in
      Some (ParsedCommand (rbac_parse_command_type cmd_name) (parse_args MAX_CMD_ARGS rest))
  end.

(** ** Specification *)

(** The words of a line. *)
Fixpoint words (s : bytes) : list bytes :=
  match s with
  | [] => []
  | c :: s' =>
      if isspace c then words s'
      else match s' with
           | [] => [[c]]
           | d :: _ => if isspace d then [c] :: words s'
                       else match words s' with w :: ws => (c :: w) :: ws | [] => [[c]] end
           end
  end.

(** The least role a command needs. *)
Definition required_role (cmd : Z) : option Z :=
  if existsb (Z.eqb cmd) [CMD_REGISTER; CMD_LOGIN; CMD_LIST_EVENTS; CMD_VIEW_EVENT; CMD_VIEW_SEATS; CMD_HELP; CMD_QUIT]
  then Some ROLE_GUEST
  else if existsb (Z.eqb cmd) [CMD_LOGOUT; CMD_BOOK; CMD_CANCEL; CMD_MY_BOOKINGS] then Some ROLE_CUSTOMER
  else if existsb (Z.eqb cmd) [CMD_CREATE_EVENT; CMD_DELETE_EVENT; CMD_REVENUE] then Some ROLE_ORGANIZER
  else if existsb (Z.eqb cmd) [CMD_LIST_USERS; CMD_SYSTEM_STATS] then Some ROLE_ADMIN
  else None.

(** ** Permissions are a hierarchy *)

Definition cell_ok (role cmd : Z) : bool :=
  Bool.eqb (rbac_check role cmd)
    (match required_role cmd with Some m => (m <=? role) | None => false end).

Lemma matrix_cells : forallb (fun cmd => forallb (fun role => cell_ok role cmd) (seqZ 0 4)) (seqZ 0 17) = true.
Proof. vm_compute. reflexivity. Qed.

Lemma required_role_range cmd m : required_role cmd = Some m -> 0 <= cmd < CMD_COUNT.
Proof.
  unfold required_role. repeat case_match; try done; intros _;
    repeat match goal with H : existsb _ _ = true |- _ => apply existsb_exists in H as (x & Hx & E%Z.eqb_eq); subst x end;
    cbn in Hx; unfold CMD_COUNT; repeat (destruct Hx as [<-|Hx]; [vm_compute; split; congruence|]); done.
Qed.

Lemma rbac_iff role cmd : 0 <= role ->
  rbac_check role cmd = true <-> exists m, required_role cmd = Some m /\ m <= role <= ROLE_ADMIN.
Proof.
  intros Hr. assert (Hcell : 0 <= cmd < CMD_COUNT -> role <= ROLE_ADMIN -> cell_ok role cmd = true).
  { intros Hc Ha. unfold CMD_COUNT, ROLE_ADMIN in *. pose proof matrix_cells as H.
    rewrite forallb_forall in H. specialize (H cmd). rewrite forallb_forall in H.
    apply H; apply list_elem_of_In, elem_of_seqZ; lia. }
  split.
  - intros Hc. pose proof Hc as Hc0. unfold rbac_check in Hc0.
    destruct ((cmd <? 0) || (CMD_COUNT <=? cmd) || (ROLE_ADMIN <? role)) eqn:E; [done|].
    assert (Hcell' : cell_ok role cmd = true) by (apply Hcell; lia). unfold cell_ok in Hcell'. rewrite Hc in Hcell'.
    destruct (required_role cmd) as [m|]; [|done]. exists m. split; [done|]. apply Bool.eqb_prop in Hcell'. lia.
  - intros (m & Hm & Hmr). pose proof (required_role_range _ _ Hm) as Hc.
    assert (Hcell' : cell_ok role cmd = true) by (apply Hcell; lia). unfold cell_ok in Hcell'. rewrite Hm in Hcell'.
    apply Bool.eqb_prop in Hcell'. rewrite Hcell'. lia.
Qed.

(** The permission matrix is the role hierarchy: a command is allowed to exactly
    the roles from its least role up to ADMIN (GUEST for looking and logging in,
    CUSTOMER for booking, ORGANIZER for events and revenue, ADMIN for users and
    statistics), and unknown commands and roles are denied. *)
Theorem rbac_hierarchy role cmd : 0 <= role ->
  rbac_check role cmd = true <-> exists m, required_role cmd = Some m /\ m <= role <= ROLE_ADMIN.
Proof. apply rbac_iff. Qed.

(** Customers book, guests do not. *)
Lemma rbac_hierarchy_witness :
  rbac_check ROLE_CUSTOMER CMD_BOOK = true /\ ~ (exists m, required_role CMD_BOOK = Some m /\ m <= ROLE_GUEST <= ROLE_ADMIN).
Proof.
  split; [by vm_compute|]. intros H. apply (rbac_hierarchy ROLE_GUEST CMD_BOOK) in H; [by vm_compute in H|by vm_compute].
Defined.

(** ** The parser splits into words *)

Lemma words_spaces k : Forall (fun c => isspace c = true) k -> words k = [].
Proof. induction 1 as [|c k Hc Hk IH]; [done|]. cbn [words]. by rewrite Hc. Qed.

Lemma words_app_spaces s k : Forall (fun c => isspace c = true) k -> words (s ++ k) = words s.
Proof.
  intros Hk. induction s as [|c s IH]; [by apply words_spaces|]. cbn [app words]. destruct (isspace c); [done|].
  rewrite IH. destruct s as [|d s]; [|done]. cbn [app]. destruct k as [|d k]; [done|].
  apply Forall_cons in Hk as [Hd Hk]. rewrite Hd. by rewrite words_spaces by (by constructor).
Qed.

Lemma words_skip s : words (skip_space s) = words s.
Proof. induction s as [|c s IH]; [done|]. cbn [skip_space words]. by destruct (isspace c) eqn:E; [|cbn [words]; rewrite E]. Qed.

Lemma words_cons c s : isspace c = false -> exists w ws, words (c :: s) = w :: ws.
Proof.
  intros Hc. cbn [words]. rewrite Hc. destruct s as [|d s]; [by eexists _, _|]. destruct (isspace d); [by eexists _, _|].
  destruct (words (d :: s)); by eexists _, _.
Qed.

Lemma strip_newlines_words s : words (strip_newlines s) = words s.
Proof.
  assert (H : exists k, s = strip_newlines s ++ k /\ Forall (fun c => isspace c = true) k).
  { induction s as [|c s (k & Hk & Hf)]; cbn; [by exists []|]. destruct (strip_newlines s) as [|t ts] eqn:E.
    - cbn in Hk. subst k. destruct ((c =? 10) || (c =? 13)) eqn:Ec; [|by exists s].
      exists (c :: s). split; [done|]. constructor; [unfold isspace; lia|done].
    - exists k. split; [cbn; by rewrite Hk at 1|done]. }
  destruct H as (k & Hk & Hf). rewrite Hk at 2. by rewrite words_app_spaces.
Qed.

(** A word in the pieces that fit an argument. *)
Fixpoint pieces (fuel : nat) (w : bytes) : list bytes :=
  match fuel, w with
  | S fuel', _ :: _ => take (MAX_ARG_LEN - 1) w :: pieces fuel' (drop (MAX_ARG_LEN - 1) w)
  | _, _ => []
  end.
Definition cut (w : bytes) : list bytes := pieces (length w) w.

Definition short (w : bytes) : Prop := (length w < MAX_ARG_LEN)%nat.

Lemma pieces_fuel n : forall m w, (length w <= n)%nat -> (length w <= m)%nat -> pieces n w = pieces m w.
Proof.
  induction n as [|n IH]; intros [|m] [|c w] Hn Hm; cbn in Hn, Hm; try lia; try done.
  cbn [pieces]. f_equal. apply IH; rewrite length_drop; cbn [length]; unfold MAX_ARG_LEN; lia.
Qed.

Lemma cut_cons w : w <> [] -> cut w = take (MAX_ARG_LEN - 1) w :: cut (drop (MAX_ARG_LEN - 1) w).
Proof.
  unfold cut. destruct w as [|c w]; [done|]. intros _. cbn [length pieces]. f_equal.
  apply pieces_fuel; rewrite ?length_drop; cbn [length]; unfold MAX_ARG_LEN; lia.
Qed.

(** The pieces are the word, and none but the last is shorter than it could be. *)
Lemma cut_concat w : concat (cut w) = w.
Proof.
  assert (H : forall n w, (length w <= n)%nat -> concat (cut w) = w); [|by apply (H (length w))].
  clear w. induction n as [|n IH]; intros w Hn; (destruct w as [|c w]; [done|]); cbn in Hn; [lia|].
  rewrite cut_cons by done. cbn [concat]. rewrite IH by (rewrite length_drop; cbn [length]; unfold MAX_ARG_LEN; lia). apply take_drop.
Qed.

Lemma cut_short w : w <> [] -> short w -> cut w = [w].
Proof.
  unfold short, MAX_ARG_LEN. intros Hne Hs. rewrite cut_cons by done. unfold MAX_ARG_LEN. by rewrite take_ge, drop_ge by lia.
Qed.

Definition add_word (w : bytes) (ws : list bytes) : list bytes := match w with [] => ws | _ => w :: ws end.

(** A token of a line that starts with a word is as much of that word as fits. *)
Lemma token_word p : forall n c p' w ws, p = c :: p' -> isspace c = false -> words p = w :: ws ->
  exists r, token n p = (take n w, r) /\ words r = add_word (drop n w) ws.
Proof.
  induction p as [|c p IH]; intros n c' p' w ws Hp Hc Hw; [done|]. injection Hp as <- <-.
  destruct n as [|n]; [exists (c :: p); split; [done|]; rewrite Hw; rewrite drop_0; destruct w as [|d w]; [|done]|].
  { cbn [words] in Hw. rewrite Hc in Hw. destruct p as [|d p]; [done|]. destruct (isspace d); [done|]. by destruct (words (d :: p)). }
  cbn [words] in Hw. rewrite Hc in Hw. destruct p as [|d p].
  - injection Hw as <- <-. exists []. cbn [token take drop]. rewrite Hc. by destruct n.
  - destruct (isspace d) eqn:Hd.
    + injection Hw as <- <-. exists (d :: p). cbn [token take drop]. rewrite Hc, take_nil, drop_nil.
      split; [|done]. destruct n as [|n]; cbn [token]; [done|]. by rewrite Hd.
    + destruct (words_cons d p Hd) as (w' & ws' & Hw'). rewrite Hw' in Hw. injection Hw as <- <-.
      destruct (IH n d p w' ws') as (r & Hr & Hws); [done..|].
      exists r. cbn [token take drop]. rewrite Hc. by rewrite Hr.
Qed.

Lemma words_nonempty s : Forall (fun w => w <> []) (words s).
Proof.
  induction s as [|c s IH]; [constructor|]. cbn [words]. destruct (isspace c); [done|]. destruct s as [|d s]; [by repeat constructor|].
  destruct (isspace d); [by constructor|]. destruct (words (d :: s)) as [|w ws]; [by repeat constructor|].
  apply Forall_cons in IH as [_ IH]. by constructor.
Qed.

(** The pieces of a line's words. *)
Definition tokens (s : bytes) : list bytes := concat (cut <$> words s).

(** The first token of a line and what is left of it. *)
Lemma token_tokens c p : isspace c = false ->
  exists t r, token (MAX_ARG_LEN - 1) (c :: p) = (t, r) /\ tokens (c :: p) = t :: tokens r.
Proof.
  intros Hc. destruct (words_cons c p Hc) as (w & ws & Hw). pose proof (words_nonempty (c :: p)) as Hne. rewrite Hw in Hne.
  apply Forall_cons in Hne as [Hne _]. destruct (token_word (c :: p) (MAX_ARG_LEN - 1) c p w ws) as (r & Hr & Hws); [done..|].
  exists (take (MAX_ARG_LEN - 1) w), r. split; [done|]. unfold tokens. rewrite Hw, Hws. cbn [fmap list_fmap concat]. rewrite cut_cons by done.
  cbn [app]. f_equal. by destruct (drop (MAX_ARG_LEN - 1) w).
Qed.

Lemma tokens_skip s : tokens (skip_space s) = tokens s.
Proof. unfold tokens. by rewrite words_skip. Qed.

Lemma parse_args_tokens n : forall p, parse_args n p = take n (tokens p).
Proof.
  induction n as [|n IH]; intros p; [done|]. destruct p as [|c p]; [done|]. cbn [parse_args].
  rewrite <- (tokens_skip (c :: p)). destruct (skip_space (c :: p)) as [|d q] eqn:E; [done|].
  destruct (token_tokens d q (skip_space_first _ _ _ E)) as (t & r & -> & ->). cbn [take]. by rewrite IH.
Qed.

Lemma copied_line raw : str_ok raw ->
  cstr (fst (etp_strlcpy raw (Z.to_nat MAX_CMD_LENGTH))) = take 1023 raw.
Proof.
  intros Hok. unfold etp_strlcpy. change (Z.to_nat MAX_CMD_LENGTH) with 1024%nat.
  change (0 <? 1024)%nat with true. cbv iota. cbn [fst]. rewrite cstr_app.
  - destruct (Nat.leb_spec 1024 (length raw)); [done|]. rewrite !take_ge by lia. done.
  - unfold str_ok. by apply Forall_take.
Qed.

(** What parse_command makes of the pieces of a line. *)
Definition command_of_words (l : list bytes) : option parsed_command :=
  match l with
  | [] => None
  | name :: args => Some (ParsedCommand (rbac_parse_command_type name) (take MAX_CMD_ARGS args))
  end.

Lemma parse_command_tokens raw : str_ok raw -> parse_command raw = command_of_words (tokens (take 1023 raw)).
Proof.
  intros Hok. unfold parse_command. rewrite copied_line by done.
  assert (E : tokens (skip_space (strip_newlines (take 1023 raw))) = tokens (take 1023 raw)) by (rewrite tokens_skip; unfold tokens; by rewrite strip_newlines_words).
  rewrite <- E. clear E. destruct (skip_space (strip_newlines (take 1023 raw))) as [|c p] eqn:E; [done|].
  destruct (token_tokens c p (skip_space_first _ _ _ E)) as (t & r & -> & ->). cbn [command_of_words]. by rewrite parse_args_tokens.
Qed.

(** Where the words fit, the pieces are the words. *)
Lemma tokens_short s : Forall short (words s) -> tokens s = words s.
Proof.
  unfold tokens. pose proof (words_nonempty s) as Hne. induction (words s) as [|w ws IH]; [done|]. intros [Hw Hs]%Forall_cons.
  apply Forall_cons in Hne as [Hw' Hne]. cbn [fmap list_fmap concat]. rewrite cut_short by done. cbn [app]. f_equal. by apply IH.
Qed.

Lemma parse_command_spec raw : str_ok raw -> Forall short (words (take 1023 raw)) ->
  parse_command raw = command_of_words (words (take 1023 raw)).
Proof. intros Hok Hs. by rewrite parse_command_tokens, tokens_short. Qed.

(** C33: parse_command agrees with splitting the line's first 1023 bytes into words
    and each word into pieces of 255 bytes, the last of which may be shorter: no
    command for a blank line, otherwise the type of the first piece (in any letter
    case) and the next 16 pieces as arguments.  Where every word has at most 255
    bytes, the pieces are the words. *)
Theorem parse_command_words raw : str_ok raw ->
  parse_command raw = match concat (cut <$> words (take 1023 raw)) with
                      | [] => None
                      | name :: args => Some (ParsedCommand (rbac_parse_command_type name) (take MAX_CMD_ARGS args))
                      end /\
  (Forall short (words (take 1023 raw)) -> concat (cut <$> words (take 1023 raw)) = words (take 1023 raw)).
Proof. intros Hok. split; [by apply parse_command_tokens|apply tokens_short]. Qed.

(** "  book 1  2\r\n" *)
Lemma parse_command_words_witness :
  let raw := lit "  book 1  2" ++ [13; 10] in
  str_ok raw /\ parse_command raw = Some (ParsedCommand CMD_BOOK [lit "1"; lit "2"]) /\
  parse_command (lit "LOGIN " ++ replicate 300 97) = Some (ParsedCommand CMD_LOGIN [replicate 255 97; replicate 45 97]).
Proof.
  cbv zeta. assert (H1 : str_ok (lit "  book 1  2" ++ [13; 10])) by (unfold str_ok; repeat constructor; vm_compute; done).
  assert (H2 : str_ok (lit "LOGIN " ++ replicate 300 97)) by (apply (bool_decide_unpack _); by vm_compute).
  split; [done|]. rewrite (proj1 (parse_command_words _ H1)), (proj1 (parse_command_words _ H2)). split; by vm_compute.
Defined.

(** A longer word is cut into pieces, which become separate arguments. *)
Example long_word_is_cut :
  match parse_command (lit "LOGIN " ++ replicate 300 97) with
  | Some c => (pc_type c, length <$> pc_args c)
  | None => (CMD_UNKNOWN, [])
  end = (CMD_LOGIN, [255; 45]%nat).
Proof. vm_compute. reflexivity. Qed.

(** ** Commands as clients write them *)

(** Words with one space in front of each but the first. *)
Fixpoint unwords (l : list bytes) : bytes :=
  match l with
  | [] => []
  | [w] => w
  | w :: l' => w ++ 32 :: unwords l'
  end.

Definition word (w : bytes) : Prop := w <> [] /\ Forall (fun c => isspace c = false) w.

Lemma words_word w : word w -> words w = [w].
Proof.
  intros [Hne Hw]. induction Hw as [|c w Hc Hw IH]; [done|]. cbn [words]. rewrite Hc. destruct w as [|d w]; [done|].
  apply Forall_cons in Hw as [Hd Hw]. rewrite Hd. by rewrite IH.
Qed.

Lemma words_app_word w s : word w -> words (w ++ 32 :: s) = w :: words s.
Proof.
  intros [Hne Hw]. induction Hw as [|c w Hc Hw IH]; [done|]. cbn [app words]. rewrite Hc. destruct w as [|d w]; cbn [app].
  - done.
  - apply Forall_cons in Hw as [Hd Hw]. rewrite Hd. cbn [app] in IH. by rewrite IH.
Qed.

Lemma words_unwords l : Forall word l -> words (unwords l) = l.
Proof.
  induction 1 as [|w l Hw Hl IH]; [done|]. destruct l as [|w' l]; [by apply words_word|].
  cbn [unwords]. rewrite words_app_word by done. f_equal. exact IH.
Qed.

(** The name of a command in any letter case means the command. *)
Lemma parse_name cmd name : 0 <= cmd < CMD_COUNT -> tolower <$> name = tolower <$> rbac_command_name cmd ->
  rbac_parse_command_type name = cmd.
Proof.
  intros Hc Hn. unfold rbac_parse_command_type.
  assert (H : forallb (fun cmd => rbac_parse_command_type (rbac_command_name cmd) =? cmd) (seqZ 0 17) = true) by (by vm_compute).
  rewrite forallb_forall in H. specialize (H cmd). rewrite Z.eqb_eq in H.
  rewrite <- H at 1 by (apply list_elem_of_In, elem_of_seqZ; unfold CMD_COUNT in Hc; lia).
  unfold rbac_parse_command_type. generalize 0. induction command_names as [|n l IH]; intros i; [done|].
  cbn [parse_names]. unfold strcasecmp_eq. rewrite Hn. case_match; [done|]. apply IH.
Qed.

(** The line a client writes for a command, its name in any letter case and up
    to 16 arguments without white space, each of at most 255 bytes and all of it
    within 1023 bytes, parses to exactly that command and these arguments. *)
Theorem parse_command_roundtrip cmd name args :
  0 <= cmd < CMD_COUNT -> tolower <$> name = tolower <$> rbac_command_name cmd ->
  Forall word (name :: args) -> Forall short (name :: args) -> (length args <= MAX_CMD_ARGS)%nat ->
  str_ok (unwords (name :: args)) -> (length (unwords (name :: args)) <= 1023)%nat ->
  parse_command (unwords (name :: args)) = Some (ParsedCommand cmd args).
Proof.
  intros Hc Hn Hw Hs Hlen Hok Hl. rewrite parse_command_spec; rewrite ?take_ge, ?words_unwords by done; [|done|done].
  cbn [command_of_words]. by rewrite (parse_name cmd name), take_ge.
Qed.

Lemma parse_command_roundtrip_witness :
  parse_command (unwords [lit "Create_Event"; lit "Gig"; lit "Hall"]) = Some (ParsedCommand CMD_CREATE_EVENT [lit "Gig"; lit "Hall"]).
Proof.
  apply (parse_command_roundtrip CMD_CREATE_EVENT (lit "Create_Event") [lit "Gig"; lit "Hall"]).
  - by vm_compute.
  - by vm_compute.
  - repeat constructor; by vm_compute.
  - apply (bool_decide_unpack _). by vm_compute.
  - unfold MAX_CMD_ARGS. cbn. lia.
  - unfold str_ok. repeat constructor; by vm_compute.
  - apply Nat.leb_le. by vm_compute.
Defined.
