(* ===== verification/Auth.v ===== *)
(** * Accounts and sessions (server/auth/auth.c)

    The session pool is an array of 100 slots, each operation on it one critical
    section of the manager's mutex.  Registering and the look-up of a login are
    programs of calls on the users table.  C strings are byte lists without their
    NUL; [now] is etp_get_timestamp. *)

From stdpp Require Import base tactics numbers list gmap strings sorting.
From Stdlib Require Import ZArith Lia.
From S2P Require Import Prelude Types Utils Calls.

#[local] Open Scope Z_scope.
#[local] Open Scope etp_scope.

(** ** Sessions *)

(** [ss_username] is the 32-byte buffer. *)
Record session := Session {
  ss_fd : Z; ss_user_id : Z; ss_role : Z; ss_username : bytes; ss_last_active : Z; ss_authenticated : bool }.

Record auth_manager := AuthManager { au_sessions : list session; au_session_count : Z }.

(** [username[0] = 0]. *)
Definition clear_name (buf : bytes) : bytes := blit 0 [0] buf.

Definition session_init (s : session) (fd : Z) : session :=
  Session fd 0 ROLE_GUEST (clear_name (ss_username s)) 0 false.

Definition touch (now : Z) (s : session) : session :=
  Session (ss_fd s) (ss_user_id s) (ss_role s) (ss_username s) now (ss_authenticated s).

Definition auth_create : auth_manager :=
  AuthManager (replicate (Z.to_nat MAX_CONNECTIONS) (Session (-1) 0 0 (zeros 32) 0 false)) 0.

(** The loop for the first slot with descriptor [fd]. *)
Fixpoint find_session (l : list session) (fd : Z) : option nat :=
  match l with
  | [] => None
  | s :: l' => if ss_fd s =? fd then Some 0%nat else S <$> find_session l' fd
  end.

(** The slot found is changed by [f]. *)
Definition at_session (au : auth_manager) (fd : Z) (f : session -> session) : option (nat * list session) :=
  match find_session (au_sessions au) fd with
  | None => None
  | Some i => Some (i, alter f i (au_sessions au))
  end.

Definition auth_create_session (au : auth_manager) (client_fd now : Z) : auth_manager * option nat :=
  match at_session au (-1) (fun s => touch now (session_init s client_fd)) with
  | None => (au, None)
  | Some (i, l) => (AuthManager l (au_session_count au + 1), Some i)
  end.

Definition auth_get_session (au : auth_manager) (client_fd now : Z) : auth_manager * option nat :=
  match at_session au client_fd (touch now) with
  | None => (au, None)
  | Some (i, l) => (AuthManager l (au_session_count au), Some i)
  end.

Definition auth_remove_session (au : auth_manager) (client_fd : Z) : auth_manager :=
  match at_session au client_fd (fun s => Session (-1) 0 ROLE_GUEST (clear_name (ss_username s)) (ss_last_active s) false) with
  | None => au
  | Some (_, l) => AuthManager l (au_session_count au - 1)
  end.

(** ** Accounts *)

Definition filter_by_username (target : bytes) (user : user_record) : bool := strcmp_eq (cstr (u_username user)) target.

Definition user_record_of (username password : bytes) (role now : Z) : user_record :=
  UserRecord 0 (strlcpy_field username 32) (blit 0 (etp_hash_password password 65) (zeros 65)) (u8 role) now 0 (zeros 17).

Definition auth_register (username password : bytes) (role : Z) : prog (res Z) :=
  if (Z.of_nat (length username) =? 0) || (MAX_USERNAME_LEN <? Z.of_nat (length username)) then Ret (inr ETP_ERR_INVALID_ARG)
  else if (Z.of_nat (length password) =? 0) || (MAX_PASSWORD_LEN <? Z.of_nat (length password)) then Ret (inr ETP_ERR_INVALID_ARG)
  else
    found <- Scan Users (filter_by_username username) 1;
    match found with
    | _ :: _ => Ret (inr ETP_ERR_DUPLICATE)
    | [] =>
        now <- Now;
        rc <- Insert Users (user_record_of username password role now);
        match rc with
        | inr err => Ret (inr err)
        | inl user_id => Ret (inl user_id)
        end
    end.

(** auth_login up to its mutex: the user whose credentials these are. *)
Definition auth_verify (username password : bytes) : prog (res user_record) :=
  found <- Scan Users (filter_by_username username) 1;
  match found with
  | [] => Ret (inr ETP_ERR_AUTH)
  | user :: _ =>
      if negb (etp_verify_password password (cstr (u_password_hash user))) then Ret (inr ETP_ERR_AUTH)
      else Ret (inl user)
  end.

(** The rest of auth_login. *)
Definition enter_session (user : user_record) (now : Z) (s : session) : session :=
  Session (ss_fd s) (u_user_id user) (u_role user)
    (blit 0 (fst (etp_strlcpy (cstr (u_username user)) 32)) (ss_username s)) now true.

Definition auth_enter (au : auth_manager) (client_fd : Z) (user : user_record) (now : Z) : auth_manager * etp_result_t :=
  match at_session au client_fd (enter_session user now) with
  | None => (au, ETP_ERR_GENERIC)
  | Some (_, l) => (AuthManager l (au_session_count au), ETP_OK)
  end.

Definition auth_logout (au : auth_manager) (client_fd : Z) : auth_manager * etp_result_t :=
  match find_session (au_sessions au) client_fd with
  | None => (au, ETP_ERR_AUTH)
  | Some i =>
      match au_sessions au !! i with
      | None => (au, ETP_ERR_AUTH)
      | Some s =>
          if negb (ss_authenticated s) then (au, ETP_ERR_AUTH)
          else (AuthManager (<[i := Session (ss_fd s) 0 ROLE_GUEST (clear_name (ss_username s)) (ss_last_active s) false]>
                                (au_sessions au)) (au_session_count au), ETP_OK)
      end
  end.

(** [count] is what table_count returns. *)
Definition auth_bootstrap_admin (count : Z) : prog unit :=
  if 0 <? count then Ret tt else bind (auth_register (lit "admin") (lit "admin123") ROLE_ADMIN) (fun _ => Ret tt).

(** ** The pool is a map from descriptors *)

(** What a session means; the bytes behind the name's NUL do not. *)
Record account := Account { ac_user_id : Z; ac_role : Z; ac_username : bytes; ac_last_active : Z; ac_authenticated : bool }.

Definition view (s : session) : account :=
  Account (ss_user_id s) (ss_role s) (cstr (ss_username s)) (ss_last_active s) (ss_authenticated s).

Definition guest (now : Z) : account := Account 0 ROLE_GUEST [] now false.

Definition active (s : session) : Prop := ss_fd s <> -1.
#[export] Instance active_dec s : Decision (active s).
Proof. unfold active. apply _. Defined.

Definition actives (l : list session) : list (Z * account) := (fun s => (ss_fd s, view s)) <$> filter active l.
Definition pool_map (au : auth_manager) : gmap Z account := list_to_map (actives (au_sessions au)).

Definition slot_ok (s : session) : Prop :=
  length (ss_username s) = 32%nat /\ Forall byte_ok (ss_username s) /\
  (ss_authenticated s = false -> ss_role s = ROLE_GUEST /\ ss_user_id s = 0).

(** One slot per descriptor, the counter counts them, and without a login a session is a guest's. *)
Record pool_ok (au : auth_manager) : Prop := PoolOk {
  po_length : length (au_sessions au) = Z.to_nat MAX_CONNECTIONS;
  po_fds : NoDup (actives (au_sessions au)).*1;
  po_count : au_session_count au = Z.of_nat (size (pool_map au));
  po_slots : Forall slot_ok (au_sessions au) }.

Lemma find_session_Some l fd i : find_session l fd = Some i ->
  exists l1 s l2, l = l1 ++ s :: l2 /\ i = length l1 /\ ss_fd s = fd.
Proof.
  revert i; induction l as [|x l IH]; intros i; cbn; [done|]. destruct (Z.eqb_spec (ss_fd x) fd) as [E|E].
  - intros [= <-]. by exists [], x, l.
  - destruct (find_session l fd) as [j|]; [|done]. intros [= <-]. destruct (IH j eq_refl) as (l1 & s & l2 & -> & -> & Hs).
    by exists (x :: l1), s, l2.
Qed.

Lemma find_session_None l fd : find_session l fd = None <-> Forall (fun s => ss_fd s <> fd) l.
Proof.
  induction l as [|x l IH]; cbn; [split; [constructor|done]|]. rewrite Forall_cons, <- IH.
  destruct (Z.eqb_spec (ss_fd x) fd), (find_session l fd); cbn; naive_solver.
Qed.

Lemma at_session_Some au fd f i l : at_session au fd f = Some (i, l) ->
  exists l1 s l2, au_sessions au = l1 ++ s :: l2 /\ ss_fd s = fd /\ l = l1 ++ f s :: l2.
Proof.
  unfold at_session. destruct (find_session _ fd) as [j|] eqn:E; [|done]. intros [= <- <-].
  destruct (find_session_Some _ _ _ E) as (l1 & s & l2 & Hl & -> & Hs). exists l1, s, l2. split; [done|]. split; [done|].
  rewrite Hl. by rewrite alter_app_r_alt, Nat.sub_diag by lia.
Qed.

Lemma actives_app l1 s l2 : actives (l1 ++ s :: l2) ≡ₚ (if decide (active s) then [(ss_fd s, view s)] else []) ++ actives (l1 ++ l2).
Proof.
  unfold actives. rewrite !filter_app, filter_cons, !fmap_app. case_decide; [|done]. cbn. by rewrite Permutation_middle.
Qed.

Lemma lookup_actives l fd : (list_to_map (actives l) : gmap Z account) !! fd = None <-> Forall (fun s => active s -> ss_fd s <> fd) l.
Proof.
  rewrite <- not_elem_of_list_to_map. unfold actives. rewrite <- list_fmap_compose, Forall_forall. split.
  - intros H s Hs Ha <-. apply H, list_elem_of_fmap. exists s. split; [done|]. by apply list_elem_of_filter.
  - intros H (s & -> & Hs)%list_elem_of_fmap. apply list_elem_of_filter in Hs as [Ha Hs]. by apply (H s).
Qed.

(** The pool around one slot. *)
Lemma pool_focus au l1 s l2 : pool_ok au -> au_sessions au = l1 ++ s :: l2 ->
  let rest : gmap Z account := list_to_map (actives (l1 ++ l2)) in
  slot_ok s /\ NoDup (actives (l1 ++ l2)).*1 /\ Forall slot_ok (l1 ++ l2) /\
  (if decide (active s) then rest !! ss_fd s = None /\ pool_map au = <[ss_fd s := view s]> rest else pool_map au = rest).
Proof.
  intros [Hl Hnd Hc Hs] E. cbv zeta. rewrite E in *. apply Forall_app in Hs as [Hs1 Hs2]. apply Forall_cons in Hs2 as [Hs0 Hs2].
  split; [done|]. pose proof (actives_app l1 s l2) as Hp. pose proof Hnd as Hnd0. rewrite Hp in Hnd.
  unfold pool_map. rewrite E, (list_to_map_proper _ _ Hnd0 Hp).
  case_decide as Ha; cbn [app fmap list_fmap] in *.
  - apply NoDup_cons in Hnd as [Hn Hnd]. split; [done|]. split; [by apply Forall_app|]. split.
    + by apply not_elem_of_list_to_map_1.
    + done.
  - split; [done|]. split; [by apply Forall_app|done].
Qed.

(** The pool with another slot there. *)
Lemma pool_put au l1 s l2 s' n : pool_ok au -> au_sessions au = l1 ++ s :: l2 -> slot_ok s' ->
  (active s' -> (list_to_map (actives (l1 ++ l2)) : gmap Z account) !! ss_fd s' = None) ->
  let rest : gmap Z account := list_to_map (actives (l1 ++ l2)) in
  let m := if decide (active s') then <[ss_fd s' := view s']> rest else rest in
  n = Z.of_nat (size m) ->
  pool_ok (AuthManager (l1 ++ s' :: l2) n) /\ pool_map (AuthManager (l1 ++ s' :: l2) n) = m.
Proof.
  intros Hok E Hs' Hn rest m Hm. destruct (pool_focus au l1 s l2 Hok E) as (_ & Hnd & Hsl & _).
  pose proof (actives_app l1 s' l2) as Hp.
  assert (Hnd' : NoDup (actives (l1 ++ s' :: l2)).*1).
  { rewrite Hp. case_decide as Ha; cbn; [|done]. apply NoDup_cons. split; [|done].
    apply not_elem_of_list_to_map_2, Hn, Ha. }
  assert (Hmap : pool_map (AuthManager (l1 ++ s' :: l2) n) = m).
  { unfold pool_map, m, rest. cbn [au_sessions]. rewrite (list_to_map_proper _ _ Hnd' Hp). by case_decide. }
  split; [|done]. constructor; cbn [au_sessions au_session_count]; [|done|by rewrite Hmap|].
  - destruct Hok as [Hl _ _ _]. rewrite E in Hl. rewrite !length_app in *. exact Hl.
  - apply Forall_app in Hsl as [? ?]. apply Forall_app. split; [done|]. by constructor.
Qed.

(** ** Histories *)

Inductive pool_op :=
  | OpCreate (fd now : Z) | OpGet (fd now : Z) | OpRemove (fd : Z) | OpEnter (fd : Z) (user : user_record) (now : Z) | OpLogout (fd : Z).

(** The operation and whether it succeeds. *)
Definition pool_step (au : auth_manager) (o : pool_op) : auth_manager * bool :=
  match o with
  | OpCreate fd now => let '(au', r) := auth_create_session au fd now in (au', bool_decide (is_Some r))
  | OpGet fd now => let '(au', r) := auth_get_session au fd now in (au', bool_decide (is_Some r))
  | OpRemove fd => (auth_remove_session au fd, true)
  | OpEnter fd user now => let '(au', rc) := auth_enter au fd user now in (au', bool_decide (rc = ETP_OK))
  | OpLogout fd => let '(au', rc) := auth_logout au fd in (au', bool_decide (rc = ETP_OK))
  end.

Definition logged_in (user : user_record) (now : Z) (_ : account) : account :=
  Account (u_user_id user) (u_role user) (take 31 (cstr (u_username user))) now true.
Definition logged_out (a : account) : account := Account 0 ROLE_GUEST [] (ac_last_active a) false.
Definition seen_at (now : Z) (a : account) : account :=
  Account (ac_user_id a) (ac_role a) (ac_username a) now (ac_authenticated a).

(** The same on a finite map of at most 100 sessions. *)
Definition spec_step (m : gmap Z account) (o : pool_op) : gmap Z account * bool :=
  match o with
  | OpCreate fd now => if decide (size m < 100)%nat then (<[fd := guest now]> m, true) else (m, false)
  | OpGet fd now => (alter (seen_at now) fd m, bool_decide (is_Some (m !! fd)))
  | OpRemove fd => (delete fd m, true)
  | OpEnter fd user now => (alter (logged_in user now) fd m, bool_decide (is_Some (m !! fd)))
  | OpLogout fd =>
      match m !! fd with
      | Some a => if ac_authenticated a then (<[fd := logged_out a]> m, true) else (m, false)
      | None => (m, false)
      end
  end.

(** Descriptors are not negative; a session is created for one that has none. *)
Definition op_ok (m : gmap Z account) (o : pool_op) : Prop :=
  match o with
  | OpCreate fd _ => 0 <= fd /\ m !! fd = None
  | OpGet fd _ | OpRemove fd | OpLogout fd => 0 <= fd
  | OpEnter fd user _ => 0 <= fd /\ Forall byte_ok (u_username user)
  end.

Fixpoint pool_run (au : auth_manager) (l : list pool_op) : auth_manager * list bool :=
  match l with
  | [] => (au, [])
  | o :: l' => let '(au', b) := pool_step au o in let '(au'', bs) := pool_run au' l' in (au'', b :: bs)
  end.
Fixpoint spec_run (m : gmap Z account) (l : list pool_op) : gmap Z account * list bool :=
  match l with
  | [] => (m, [])
  | o :: l' => let '(m', b) := spec_step m o in let '(m'', bs) := spec_run m' l' in (m'', b :: bs)
  end.
Fixpoint ops_ok (m : gmap Z account) (l : list pool_op) : Prop :=
  match l with
  | [] => True
  | o :: l' => op_ok m o /\ ops_ok (fst (spec_step m o)) l'
  end.

Lemma clear_name_ok buf : length buf = 32%nat -> Forall byte_ok buf ->
  length (clear_name buf) = 32%nat /\ Forall byte_ok (clear_name buf) /\ cstr (clear_name buf) = [].
Proof.
  intros Hl Hb. destruct buf as [|b buf]; [done|]. cbn. split; [done|]. split; [|done].
  apply Forall_cons in Hb as [_ Hb]. constructor; [unfold byte_ok; lia|done].
Qed.

Lemma enter_name_ok name buf : str_ok name -> length buf = 32%nat -> Forall byte_ok buf ->
  let b := blit 0 (fst (etp_strlcpy name 32)) buf in length b = 32%nat /\ Forall byte_ok b /\ cstr b = take 31 name.
Proof.
  intros Hn Hl Hb. cbv zeta.
  assert (E : fst (etp_strlcpy name 32) = take 31 name ++ [0]).
  { unfold etp_strlcpy. change (0 <? 32)%nat with true. cbv iota. cbn [fst].
    destruct (Nat.leb_spec 32 (length name)); [done|]. rewrite !take_ge by lia. done. }
  rewrite E. assert (Hlen : (length (take 31 name ++ [0%Z]) <= 32)%nat) by (rewrite length_app, length_take; cbn [length]; lia).
  split; [rewrite length_blit; lia|]. split.
  - unfold blit. rewrite take_0. cbn [app]. apply Forall_app. split; [apply Forall_app; split|].
    + apply Forall_take. eapply Forall_impl; [exact Hn|]. unfold byte_ok. intros; cbn in *; lia.
    + constructor; [unfold byte_ok; lia|constructor].
    + by apply Forall_drop.
  - unfold blit. rewrite take_0. cbn [app]. rewrite <- app_assoc. cbn [app]. apply cstr_app. by apply Forall_take.
Qed.

Lemma no_slot_full au : pool_ok au -> find_session (au_sessions au) (-1) = None -> size (pool_map au) = 100%nat.
Proof.
  intros [Hl Hnd _ _] Hf%find_session_None. unfold pool_map. rewrite map_size_list_to_map by done.
  unfold actives. rewrite length_fmap. change (Z.to_nat MAX_CONNECTIONS) with 100%nat in Hl. rewrite <- Hl. f_equal.
  revert Hf. clear. induction 1 as [|s l Hs Hl IH]; [done|]. rewrite filter_cons_True by done. by rewrite IH.
Qed.

Lemma absent_session au fd : 0 <= fd -> find_session (au_sessions au) fd = None -> pool_map au !! fd = None.
Proof. intros Hfd Hf%find_session_None. apply lookup_actives. eapply Forall_impl; [exact Hf|]. by intros. Qed.

(** A change to the session of [fd] that keeps its descriptor is that change on the map. *)
Lemma pool_change au l1 s l2 fd s' : pool_ok au -> au_sessions au = l1 ++ s :: l2 -> ss_fd s = fd -> 0 <= fd ->
  ss_fd s' = fd -> slot_ok s' ->
  let au' := AuthManager (l1 ++ s' :: l2) (au_session_count au) in
  pool_ok au' /\ pool_map au !! fd = Some (view s) /\ pool_map au' = <[fd := view s']> (pool_map au).
Proof.
  intros Hok E Hs Hfd Hs' Hok'. cbv zeta. destruct (pool_focus au l1 s l2 Hok E) as (_ & _ & _ & Hm).
  rewrite decide_True in Hm by (unfold active; lia). destruct Hm as [Hn Hm]. rewrite Hs in *.
  destruct (pool_put au l1 s l2 s' (au_session_count au) Hok E Hok') as [H1 H2]; [by rewrite Hs'| |].
  - rewrite decide_True by (unfold active; lia). rewrite Hs', (po_count _ Hok), Hm.
    by rewrite !map_size_insert_None by done.
  - split; [done|]. rewrite decide_True in H2 by (unfold active; lia). rewrite H2, Hs', Hm.
    split; [by rewrite lookup_insert_eq|by rewrite insert_insert_eq].
Qed.

Lemma alter_absent {A} (g : A -> A) (i : Z) (m : gmap Z A) : m !! i = None -> alter g i m = m.
Proof.
  intros H. apply map_eq. intros j. destruct (decide (i = j)) as [<-|]; [by rewrite lookup_alter_eq, H|by rewrite lookup_alter_ne].
Qed.

(** One operation. *)
Definition refines_op (au : auth_manager) (o : pool_op) : Prop :=
  pool_ok (fst (pool_step au o)) /\ pool_map (fst (pool_step au o)) = fst (spec_step (pool_map au) o) /\
  snd (pool_step au o) = snd (spec_step (pool_map au) o).

Lemma create_refines au fd now : pool_ok au -> op_ok (pool_map au) (OpCreate fd now) -> refines_op au (OpCreate fd now).
Proof.
  intros Hok [Hfd Hn]. unfold refines_op. cbn [pool_step spec_step]. unfold auth_create_session.
  destruct (at_session au (-1) _) as [[i l]|] eqn:E.
  - apply at_session_Some in E as (l1 & s & l2 & El & Hs & ->).
    destruct (pool_focus au l1 s l2 Hok El) as ((Hb1 & Hb2 & _) & _ & _ & Hm).
    rewrite decide_False in Hm by (unfold active; rewrite Hs; auto).
    destruct (clear_name_ok (ss_username s) Hb1 Hb2) as (C1 & C2 & C3).
    set (s' := touch now (session_init s fd)).
    assert (Hv : view s' = guest now) by (unfold s', view, guest; cbn; by rewrite C3).
    assert (Hact : active s') by (unfold active; cbn; lia).
    assert (Hlt : (size (pool_map au) < 100)%nat).
    { destruct Hok as [Hl Hnd Hc _]. unfold pool_map in *. rewrite map_size_list_to_map by done. unfold actives.
      rewrite length_fmap, El, !filter_app, filter_cons_False, length_app by (unfold active; rewrite Hs; auto).
      pose proof (length_filter active l1). pose proof (length_filter active l2).
      rewrite El, length_app in Hl. cbn in Hl. change (Z.to_nat MAX_CONNECTIONS) with 100%nat in Hl. lia. }
    destruct (pool_put au l1 s l2 s' (au_session_count au + 1) Hok El) as [H1 H2].
    + split; [exact C1|]. split; [exact C2|]. done.
    + intros _. cbn. by rewrite <- Hm.
    + rewrite decide_True by done. cbn [ss_fd s' touch session_init]. rewrite <- Hm, map_size_insert_None by done.
      rewrite (po_count _ Hok). lia.
    + rewrite decide_True in H2 by done. rewrite decide_True by done. cbn [fst snd].
      split; [exact H1|]. split; [|done]. rewrite H2, Hv, <- Hm. done.
  - assert (Hf : find_session (au_sessions au) (-1) = None) by (unfold at_session in E; by destruct (find_session _ _)).
    rewrite decide_False by (rewrite (no_slot_full au Hok Hf); lia). done.
Qed.

Lemma change_refines au fd f g : pool_ok au -> 0 <= fd ->
  (forall s, slot_ok s -> ss_fd (f s) = ss_fd s /\ slot_ok (f s) /\ view (f s) = g (view s)) ->
  match at_session au fd f with
  | None => pool_map au !! fd = None
  | Some (_, l) => pool_ok (AuthManager l (au_session_count au)) /\ is_Some (pool_map au !! fd) /\
                   pool_map (AuthManager l (au_session_count au)) = alter g fd (pool_map au)
  end.
Proof.
  intros Hok Hfd Hf. destruct (at_session au fd f) as [[i l]|] eqn:E.
  - apply at_session_Some in E as (l1 & s & l2 & El & Hs & ->).
    destruct (pool_focus au l1 s l2 Hok El) as (Hso & _). destruct (Hf s Hso) as (F1 & F2 & F3).
    destruct (pool_change au l1 s l2 fd (f s) Hok El Hs Hfd) as (H1 & H2 & H3); [congruence|done|].
    split; [done|]. split; [by eexists|]. rewrite H3, F3. apply map_eq. intros x.
    destruct (decide (fd = x)) as [<-|]; [by rewrite lookup_insert_eq, lookup_alter_eq, H2|by rewrite lookup_insert_ne, lookup_alter_ne].
  - apply absent_session; [done|]. unfold at_session in E. by destruct (find_session _ _).
Qed.

Lemma remove_refines au fd : pool_ok au -> 0 <= fd -> refines_op au (OpRemove fd).
Proof.
  intros Hok Hfd. unfold refines_op. cbn [pool_step spec_step fst snd]. unfold auth_remove_session.
  destruct (at_session au fd _) as [[i l]|] eqn:E.
  - apply at_session_Some in E as (l1 & s & l2 & El & Hs & ->).
    destruct (pool_focus au l1 s l2 Hok El) as ((Hb1 & Hb2 & _) & _ & _ & Hm).
    rewrite decide_True in Hm by (unfold active; lia). destruct Hm as [Hn Hm]. rewrite Hs in *.
    destruct (clear_name_ok (ss_username s) Hb1 Hb2) as (C1 & C2 & _).
    set (s' := Session (-1) 0 ROLE_GUEST (clear_name (ss_username s)) (ss_last_active s) false).
    destruct (pool_put au l1 s l2 s' (au_session_count au - 1) Hok El) as [H1 H2].
    + split; [exact C1|]. split; [exact C2|]. done.
    + intros Ha. by destruct Ha.
    + rewrite decide_False by (intros Ha; by apply Ha). rewrite (po_count _ Hok), Hm, map_size_insert_None by done. lia.
    + rewrite decide_False in H2 by (intros Ha; by apply Ha). split; [exact H1|]. split; [|done].
      rewrite H2, Hm. by rewrite delete_insert_id.
  - assert (Hn : pool_map au !! fd = None).
    { apply absent_session; [done|]. unfold at_session in E. by destruct (find_session _ _). }
    split; [done|]. split; [|done]. by rewrite delete_id.
Qed.

Lemma logout_refines au fd : pool_ok au -> 0 <= fd -> refines_op au (OpLogout fd).
Proof.
  intros Hok Hfd. unfold refines_op. cbn [pool_step spec_step]. unfold auth_logout.
  destruct (find_session (au_sessions au) fd) as [i|] eqn:E; [|by rewrite (absent_session au fd Hfd E)].
  destruct (find_session_Some _ _ _ E) as (l1 & s & l2 & El & -> & Hs).
  rewrite El, list_lookup_middle, list_insert_app_middle by done.
  destruct (pool_focus au l1 s l2 Hok El) as ((Hb1 & Hb2 & _) & _).
  destruct (clear_name_ok (ss_username s) Hb1 Hb2) as (C1 & C2 & C3).
  set (s' := Session (ss_fd s) 0 ROLE_GUEST (clear_name (ss_username s)) (ss_last_active s) false).
  destruct (pool_change au l1 s l2 fd s' Hok El Hs Hfd Hs) as (H1 & H2 & H3); [done|].
  rewrite H2. change (ac_authenticated (view s)) with (ss_authenticated s).
  destruct (ss_authenticated s); cbn [negb fst snd]; [|split_and!; [exact Hok|done|done]].
  split; [exact H1|]. split; [|done]. rewrite H3. unfold view, s'. cbn. by rewrite C3.
Qed.

Lemma enter_session_ok user now s : Forall byte_ok (u_username user) -> slot_ok s ->
  ss_fd (enter_session user now s) = ss_fd s /\ slot_ok (enter_session user now s) /\
  view (enter_session user now s) = logged_in user now (view s).
Proof.
  intros Hu (Hl & Hb & _). destruct (enter_name_ok (cstr (u_username user)) (ss_username s)) as (E1 & E2 & E3); [by apply cstr_ok|done..|].
  split; [done|]. split; [done|]. unfold view, logged_in. cbn [ss_username enter_session]. by rewrite E3.
Qed.

Lemma pool_step_refines au o : pool_ok au -> op_ok (pool_map au) o -> refines_op au o.
Proof.
  intros Hok Ho. destruct o as [fd now|fd now|fd|fd user now|fd].
  - by apply create_refines.
  - pose proof (change_refines au fd (touch now) (seen_at now) Hok Ho) as H. unfold refines_op. cbn [pool_step spec_step].
    unfold auth_get_session. destruct (at_session au fd (touch now)) as [[i l]|]; cbn [fst snd].
    + destruct H as (H1 & H2 & H3); [done|]. split; [done|]. split; [done|]. by rewrite !bool_decide_true.
    + assert (Hn : pool_map au !! fd = None) by (by apply H). rewrite alter_absent, Hn by done. by split_and!.
  - by apply remove_refines.
  - destruct Ho as [Hfd Hu].
    pose proof (change_refines au fd (enter_session user now) (logged_in user now) Hok Hfd) as H.
    unfold refines_op. cbn [pool_step spec_step]. unfold auth_enter.
    destruct (at_session au fd (enter_session user now)) as [[i l]|]; cbn [fst snd].
    + destruct H as (H1 & H2 & H3); [intros s; by apply enter_session_ok|]. split; [done|]. split; [done|]. by rewrite !bool_decide_true.
    + assert (Hn : pool_map au !! fd = None) by (apply H; intros s; by apply enter_session_ok).
      rewrite alter_absent, Hn by done. by split_and!.
  - by apply logout_refines.
Qed.

Lemma pool_run_refines l : forall au, pool_ok au -> ops_ok (pool_map au) l ->
  pool_ok (fst (pool_run au l)) /\ pool_map (fst (pool_run au l)) = fst (spec_run (pool_map au) l) /\
  snd (pool_run au l) = snd (spec_run (pool_map au) l).
Proof.
  induction l as [|o l IH]; intros au Hok Hl; [done|]. destruct Hl as [Ho Hl]. cbn [pool_run spec_run].
  destruct (pool_step_refines au o Hok Ho) as (H1 & H2 & H3). rewrite <- H2 in Hl.
  destruct (pool_step au o) as [au1 b], (spec_step (pool_map au) o) as [m1 b']. cbn [fst snd] in *. subst m1 b'.
  destruct (IH au1 H1 Hl) as (K1 & K2 & K3). destruct (pool_run au1 l), (spec_run (pool_map au1) l).
  cbn [fst snd] in *. by rewrite K3.
Qed.

Lemma auth_create_ok : pool_ok auth_create /\ pool_map auth_create = ∅.
Proof.
  assert (E : actives (au_sessions auth_create) = []) by (by vm_compute).
  assert (Em : pool_map auth_create = ∅) by (unfold pool_map; by rewrite E).
  split; [|done]. constructor; [by vm_compute|by rewrite E; constructor|by rewrite Em|].
  apply Forall_replicate. split; [by vm_compute|]. split; [apply zeros_ok|done].
Qed.

(** C18: whatever sequence of connects, look-ups, logins, logouts and disconnects a
    server performs, its 100-slot session pool behaves like a finite map from
    descriptors to sessions: the same operations succeed, a new session is a
    guest's and is refused only when 100 are active, no operation touches another
    client's session, the session counter is the number of sessions, and a session
    that is not logged in has the guest role and no user. *)
Theorem auth_pool_refines_map l : ops_ok ∅ l ->
  let (au, outs) := pool_run auth_create l in
  let (m, outs') := spec_run ∅ l in
  outs = outs' /\ pool_map au = m /\ au_session_count au = Z.of_nat (size m) /\
  (forall fd a, m !! fd = Some a -> ac_authenticated a = false -> ac_role a = ROLE_GUEST /\ ac_user_id a = 0).
Proof.
  intros Hl. destruct auth_create_ok as [Hok Em]. rewrite <- Em in Hl |- *.
  destruct (pool_run_refines l auth_create Hok Hl) as (H1 & H2 & H3).
  destruct (pool_run auth_create l) as [au outs], (spec_run (pool_map auth_create) l) as [m outs']. cbn [fst snd] in *. subst m.
  split; [done|]. split; [done|]. split; [apply H1|]. intros fd a Ha Hna.
  unfold pool_map in Ha. apply elem_of_list_to_map_2, list_elem_of_fmap in Ha as (s & E & Hs). injection E as -> ->.
  apply list_elem_of_filter in Hs as [_ Hs]. destruct H1 as [_ _ _ Hsl]. rewrite Forall_forall in Hsl.
  destruct (Hsl s Hs) as (_ & _ & Hg). by apply Hg.
Qed.

Definition alice : user_record := user_record_of (lit "alice") (lit "secret") ROLE_CUSTOMER 7.

(** Two clients; the second logs in, the first leaves. *)
Lemma auth_pool_refines_map_witness :
  let l := [OpCreate 4 1; OpCreate 5 2; OpEnter 5 alice 3; OpRemove 4; OpLogout 4] in
  ops_ok ∅ l /\ snd (pool_run auth_create l) = [true; true; true; true; false] /\
  pool_map (fst (pool_run auth_create l)) !! 5 = Some (Account 0 ROLE_CUSTOMER (lit "alice") 3 true).
Proof.
  cbv zeta. assert (H : ops_ok ∅ [OpCreate 4 1; OpCreate 5 2; OpEnter 5 alice 3; OpRemove 4; OpLogout 4]).
  { cbn [ops_ok op_ok]. split_and!; try done; try (by vm_compute). apply (bool_decide_unpack _). by vm_compute. }
  split; [exact H|]. pose proof (auth_pool_refines_map _ H) as H'.
  destruct (pool_run auth_create _) as [au outs] eqn:E1. destruct (spec_run ∅ _) as [m outs'] eqn:E2. cbn [fst snd].
  destruct H' as (-> & -> & _). vm_compute in E2. injection E2 as <- <-. split; [done|]. by vm_compute.
Defined.

(** ** Registering and logging in *)

Definition name_free (name : bytes) (w : world) : Prop :=
  map_Forall (fun _ u => cstr (u_username u) <> name) (ts_map (w_users w)).
#[export] Instance name_free_dec name w : Decision (name_free name w).
Proof. unfold name_free. apply _. Defined.

(** The arguments auth_register accepts. *)
Definition register_args_ok (name password : bytes) : Prop :=
  1 <= Z.of_nat (length name) <= MAX_USERNAME_LEN /\ 1 <= Z.of_nat (length password) <= MAX_PASSWORD_LEN.

Definition registered (w : world) (name password : bytes) (role now : Z) : user_record :=
  set_key Users (ts_next (w_users w)) (user_record_of name password role now).

Lemma hash_str_ok password : str_ok (hex 16 (djb2_hash password 5381) ++ hex 16 (djb2_hash password 7919)).
Proof.
  apply Forall_app. split; (eapply Forall_impl; [apply hex_ok|]); cbn; intros c Hc; lia.
Qed.

Lemma registered_name w name password role now : str_ok name -> Z.of_nat (length name) <= MAX_USERNAME_LEN ->
  cstr (u_username (registered w name password role now)) = name.
Proof.
  intros Hs Hl. unfold registered. cbn [set_key u_username user_record_of]. unfold strlcpy_field, etp_strlcpy.
  change (0 <? 32)%nat with true. cbv iota. cbn [fst]. unfold MAX_USERNAME_LEN in Hl.
  destruct (Nat.leb_spec 32 (length name)); [lia|]. rewrite take_ge by lia.
  unfold blit. rewrite take_0. cbn [app]. rewrite <- app_assoc. by apply cstr_app.
Qed.

Lemma registered_hash w name password role now :
  cstr (u_password_hash (registered w name password role now)) = cstr (etp_hash_password password 65).
Proof.
  unfold registered. cbn [set_key u_password_hash user_record_of]. unfold etp_hash_password.
  change (65 <? 33) with false. cbv iota. rewrite app_assoc. unfold blit. rewrite take_0. cbn [app].
  rewrite <- app_assoc. cbn [app]. by rewrite !cstr_app by apply hash_str_ok.
Qed.

(** What a scan for a name finds. *)
Definition named (name : bytes) (w : world) : list user_record :=
  filter (fun u => filter_by_username name u = true) (table_records Users w).

Lemma named_iff name w u : u ∈ named name w <-> cstr (u_username u) = name /\ exists id, ts_map (w_users w) !! id = Some u.
Proof.
  unfold named. rewrite list_elem_of_filter. unfold filter_by_username, strcmp_eq. rewrite bool_decide_eq_true.
  assert (H : u ∈ table_records Users w <-> exists id, ts_map (w_users w) !! id = Some u); [|by rewrite H].
  unfold table_records. rewrite list_elem_of_fmap. setoid_rewrite merge_sort_Permutation. split.
  - intros ([id x] & -> & Hx%elem_of_map_to_list). by exists id.
  - intros [id Hid]. exists (id, u). split; [done|]. by apply elem_of_map_to_list.
Qed.

Lemma named_free name w : name_free name w <-> named name w = [].
Proof.
  split.
  - intros Hf. destruct (named name w) as [|u l] eqn:E; [done|].
    assert (Hu : u ∈ named name w) by (rewrite E; by left). apply named_iff in Hu as [Hn [id Hid]]. by destruct (Hf id u Hid).
  - intros E id u Hid Hn. assert (Hu : u ∈ named name w) by (apply named_iff; eauto). rewrite E in Hu. by apply not_elem_of_nil in Hu.
Qed.

Lemma named_registered name w x : ts_map (w_users w) !! ts_next (w_users w) = None -> named name w = [] ->
  cstr (u_username (set_key Users (ts_next (w_users w)) x)) = name ->
  named name (tinsert Users x w) = [set_key Users (ts_next (w_users w)) x].
Proof.
  intros Hfr Hn Hx. apply Permutation_singleton_r. unfold named, table_records in *. rewrite merge_sort_Permutation.
  change (ts_map (tget Users (tinsert Users x w)))
    with (<[ts_next (w_users w) := set_key Users (ts_next (w_users w)) x]> (ts_map (w_users w))).
  rewrite map_to_list_insert by done. rewrite fmap_cons, filter_cons_True.
  - cbn [snd]. change (map_to_list (ts_map (w_users w))) with (map_to_list (ts_map (tget Users w))).
    assert (Hp : filter (fun u => filter_by_username name u = true) (map_to_list (ts_map (tget Users w))).*2 ≡ₚ []).
    { rewrite <- Hn. by rewrite merge_sort_Permutation. }
    by apply Permutation_nil_r in Hp as ->.
  - unfold filter_by_username, strcmp_eq. by apply bool_decide_eq_true.
Qed.

Lemma verify_named now w name pw Q : 
  Q (match named name w with
     | [] => inr ETP_ERR_AUTH
     | u :: _ => if etp_verify_password pw (cstr (u_password_hash u)) then inl u else inr ETP_ERR_AUTH
     end) w -> alone now w (auth_verify name pw) Q.
Proof.
  intros HQ. unfold auth_verify. eapply alone_call; [done|]. change (Z.to_nat 1) with 1%nat. fold (named name w).
  destruct (named name w) as [|u l]; [exact HQ|]. cbn [take].
  destruct (etp_verify_password pw (cstr (u_password_hash u))); exact HQ.
Qed.

(** C28: registering alone refuses a name or password that is empty or too long, and
    a name that is taken, and changes nothing then; otherwise it adds one account
    under the next id and changes nothing else.  From then on the name is taken,
    and a login with that name finds this account exactly when the password has
    the stored hash. *)
Theorem register_then_login now w name pw role : str_ok name -> ts_map (w_users w) !! ts_next (w_users w) = None ->
  alone now w (auth_register name pw role) (fun r w1 =>
    if decide (register_args_ok name pw) then
      if decide (name_free name w) then
        let user := registered w name pw role now in
        r = inl (ts_next (w_users w)) /\ w1 = tput Users (TState (<[ts_next (w_users w) := user]> (ts_map (w_users w))) (ts_next (w_users w) + 1)) w /\
        ~ name_free name w1 /\
        forall now' pw', alone now' w1 (auth_verify name pw') (fun r' w2 => w2 = w1 /\
          r' = if etp_verify_password pw' (cstr (etp_hash_password pw 65)) then inl user else inr ETP_ERR_AUTH)
      else r = inr ETP_ERR_DUPLICATE /\ w1 = w
    else r = inr ETP_ERR_INVALID_ARG /\ w1 = w).
Proof.
  intros Hs Hfr. unfold auth_register.
  destruct ((Z.of_nat (length name) =? 0) || (MAX_USERNAME_LEN <? Z.of_nat (length name))) eqn:E1.
  { apply alone_ret. rewrite decide_False; [done|]. intros [H _]. lia. }
  destruct ((Z.of_nat (length pw) =? 0) || (MAX_PASSWORD_LEN <? Z.of_nat (length pw))) eqn:E2.
  { apply alone_ret. rewrite decide_False; [done|]. intros [_ H]. lia. }
  assert (Hargs : register_args_ok name pw) by (unfold register_args_ok; lia).
  eapply alone_call; [done|]. change (Z.to_nat 1) with 1%nat. fold (named name w). destruct (decide (name_free name w)) as [Hf|Hf].
  - apply named_free in Hf. rewrite Hf. cbn [take]. do 2 (eapply alone_call; [done|]).
    apply alone_ret. rewrite decide_True by done.
    assert (Hn : cstr (u_username (registered w name pw role now)) = name) by (apply registered_name; [done|lia]).
    assert (Hnd : named name (tinsert Users (user_record_of name pw role now) w) = [registered w name pw role now])
      by (by apply named_registered).
    split; [done|]. split; [done|]. split; [rewrite named_free, Hnd; done|].
    intros now' pw'. apply verify_named. rewrite Hnd, registered_hash. by split.
  - assert (Hne : named name w <> []) by (by rewrite <- named_free). destruct (named name w) as [|u l]; [done|].
    apply alone_ret. by rewrite decide_True.
Qed.

Lemma register_then_login_witness :
  alone 7 empty_world (auth_register (lit "alice") (lit "secret") ROLE_CUSTOMER) (fun r w1 => r = inl 1 /\
    alone 8 w1 (auth_verify (lit "alice") (lit "secret")) (fun r' _ => r' = inl (registered empty_world (lit "alice") (lit "secret") ROLE_CUSTOMER 7)) /\
    alone 8 w1 (auth_verify (lit "alice") (lit "Secret")) (fun r' _ => r' = inr ETP_ERR_AUTH)).
Proof.
  eapply alone_mono; [apply (register_then_login 7 empty_world (lit "alice") (lit "secret") ROLE_CUSTOMER)|].
  - unfold str_ok. repeat constructor; by vm_compute.
  - by vm_compute.
  - cbv beta. intros r w1. rewrite decide_True by (split; split; by vm_compute). rewrite decide_True by (apply (bool_decide_unpack _); by vm_compute).
    intros (-> & _ & _ & H). split; [by vm_compute|].
    split; (eapply alone_mono; [apply H|]); cbv beta; intros r' w2 [_ ->]; by vm_compute.
Defined.
