(* ===== verification/Reports.v ===== *)
(** * Revenue reports (server/core/reports.c)

    Reports as programs of table calls; their numbers are binary32 floats. *)

From stdpp Require Import base tactics numbers list gmap sorting.
From Stdlib Require Import ZArith Lia SpecFloat.
From S2P Require Import Prelude Types Utils Float32 Calls EventMgr.

#[local] Open Scope Z_scope.
#[local] Open Scope etp_scope.

Record event_revenue := EventRevenue {
  rv_event_id : Z; rv_event_name : bytes; rv_total_seats : Z; rv_booked_seats : Z; rv_occupancy_pct : Z; rv_total_revenue : Z }.

Definition filter_seats_by_event (target : Z) (s : seat_record) : bool := s_event_id s =? target.

(** The loop over the seats found. *)
Fixpoint count_booked (seats : list seat_record) (booked : Z) : Z :=
  match seats with
  | [] => booked
  | s :: rest => count_booked rest (if s_status s =? SEAT_BOOKED then booked + 1 else booked)
  end.

(** [(float)booked / total * 100.0f], or 0. *)
Definition occupancy (booked total : Z) : Z :=
  if 0 <? total
  then f32_encode (SFmul 24 128 (SFdiv 24 128 (f32_of_int booked) (f32_of_int total)) (f32_of_int 100))
  else 0.

Definition reports_event_revenue (event_id : Z) : prog (res event_revenue) :=
  found <- Find Events event_id;
  match found with
  | inr rc => Ret (inr rc)
  | inl evt =>
      seats <- Scan Seats (filter_seats_by_event event_id) 2600;
      let total := Z.of_nat (length seats) in
      let booked := count_booked seats 0 in
      Ret (inl (EventRevenue event_id (strlcpy_field (cstr (e_name evt)) 64) total booked
                  (occupancy booked total) (f32_mul_int (e_price evt) booked)))
  end.

Definition filter_by_organizer (target : Z) (e : event_record) : bool :=
  (e_organizer_id e =? target) && (e_status e =? EVENT_ACTIVE).

(** The loop over the events; [room] results still fit. *)
Fixpoint revenue_loop (events : list event_record) (room : nat) : prog (list event_revenue) :=
  match events, room with
  | e :: rest, S room' =>
      bind (reports_event_revenue (e_event_id e)) (fun r =>
        match r with
        | inl report => bind (revenue_loop rest room') (fun l => Ret (report :: l))
        | inr _ => revenue_loop rest room
        end)
  | _, _ => Ret []
  end.

Definition reports_organizer_revenue (organizer_id max_results : Z) : prog (list event_revenue) :=
  events <- Scan Events (filter_by_organizer organizer_id) 100;
  revenue_loop events (Z.to_nat max_results).

(** ** What a report says *)

Lemma count_booked_length l : forall n, count_booked l n = n + Z.of_nat (length (filter (fun s => s_status s = SEAT_BOOKED) l)).
Proof.
  induction l as [|s l IH]; intros n; cbn [count_booked]; [cbn; lia|]. rewrite IH, filter_cons.
  destruct (Z.eqb_spec (s_status s) SEAT_BOOKED), (decide (s_status s = SEAT_BOOKED)); try done; cbn [length]; lia.
Qed.

(** The seats of an event in the table. *)
Definition event_seat_map (w : world) (event_id : Z) : gmap Z seat_record :=
  filter (fun kv => s_event_id kv.2 = event_id) (ts_map (w_seats w)).
Definition booked_seat_map (w : world) (event_id : Z) : gmap Z seat_record :=
  filter (fun kv => s_status kv.2 = SEAT_BOOKED) (event_seat_map w event_id).

Lemma filter_values (m : gmap Z seat_record) (P : seat_record -> Prop) `{!forall s, Decision (P s)} :
  length (filter P (map_to_list m).*2) = size (filter (fun kv => P kv.2) m).
Proof.
  induction m as [|i x m Hi IH] using map_ind; [by rewrite map_to_list_empty, map_filter_empty, map_size_empty|].
  rewrite map_to_list_insert by done. rewrite fmap_cons, filter_cons, map_filter_insert. cbn [snd].
  case_decide as Hp; cbn [length].
  - rewrite IH, map_size_insert_None; [done|]. apply map_lookup_filter_None. by left.
  - rewrite delete_id by done. exact IH.
Qed.

Lemma scan_size w event_id (P : seat_record -> Prop) `{!forall s, Decision (P s)} :
  length (filter P (filter (fun s => filter_seats_by_event event_id s = true) (table_records Seats w))) =
  size (filter (fun kv => P kv.2) (event_seat_map w event_id)).
Proof.
  transitivity (size (filter (fun kv => P kv.2 /\ s_event_id kv.2 = event_id) (ts_map (w_seats w)))).
  2:{ unfold event_seat_map. rewrite map_filter_filter. f_equal. }
  etransitivity; [|exact (filter_values (ts_map (w_seats w)) (fun s => P s /\ s_event_id s = event_id))].
  unfold table_records. rewrite merge_sort_Permutation.
  cbn [tget]. rewrite list_filter_filter. f_equal. apply list_filter_iff. intros s. unfold filter_seats_by_event.
  rewrite Z.eqb_eq. done.
Qed.

(** A report on an event of at most 2600 seats changes nothing, fails exactly
    for an unknown event, and counts exactly the seats of that event and those of
    them that are BOOKED; its revenue is the price times the booked seats. *)
Theorem revenue_alone now w event_id : (size (event_seat_map w event_id) <= 2600)%nat ->
  alone now w (reports_event_revenue event_id) (fun r w' => w' = w /\
    let total := Z.of_nat (size (event_seat_map w event_id)) in
    let booked := Z.of_nat (size (booked_seat_map w event_id)) in
    booked <= total /\
    r = match ts_map (w_events w) !! event_id with
        | None => inr ETP_ERR_NOT_FOUND
        | Some e => inl (EventRevenue event_id (strlcpy_field (cstr (e_name e)) 64) total booked
                           (occupancy booked total) (f32_mul_int (e_price e) booked))
        end).
Proof.
  intros Hsz. assert (Hle : Z.of_nat (size (booked_seat_map w event_id)) <= Z.of_nat (size (event_seat_map w event_id))).
  { apply Nat2Z.inj_le, map_subseteq_size, map_filter_subseteq. }
  unfold reports_event_revenue. eapply alone_call; [done|]. cbn [tget].
  destruct (ts_map (w_events w) !! event_id) as [e|]; [|done]. eapply alone_call; [done|].
  set (L := filter (fun s => filter_seats_by_event event_id s = true) (table_records Seats w)).
  assert (HL : length L = size (event_seat_map w event_id)).
  { etransitivity; [|exact (filter_values (ts_map (w_seats w)) (fun s => s_event_id s = event_id))].
    unfold L, table_records. rewrite merge_sort_Permutation. f_equal. apply list_filter_iff. intros s. unfold filter_seats_by_event. by rewrite Z.eqb_eq. }
  change (Z.to_nat 2600) with 2600%nat. rewrite take_ge by lia. apply alone_ret. split; [done|]. split; [done|].
  rewrite count_booked_length, Z.add_0_l, HL. unfold L. rewrite scan_size. done.
Qed.

(** The event of the venue, before any seat is sold. *)
Lemma revenue_alone_witness :
  alone 0 venue (reports_event_revenue 1) (fun r _ =>
    r = inl (EventRevenue 1 (strlcpy_field gig_name 64) 4 0 0 0)).
Proof.
  eapply alone_mono; [apply (revenue_alone 0 venue 1); apply Nat.leb_le; by vm_compute|].
  cbv beta zeta. intros r w' (_ & _ & ->). by vm_compute.
Defined.
