(* ===== verification/Booking.v ===== *)
(** * Bookings (server/core/booking_engine.c)

    Booking and cancelling as programs of table and transaction calls, line by
    line; what one of them does alone, with and without failures.  Their
    interleavings are in BookingSafety.v. *)

From stdpp Require Import base tactics numbers list gmap sorting.
From Stdlib Require Import ZArith Lia.
From S2P Require Import Prelude Types Float32 Calls EventMgr.

#[local] Open Scope Z_scope.
#[local] Open Scope etp_scope.

(** ** The exchange sort in front of the locks *)

Section sort.
Context {A : Type} (key : A -> Z).

(** One round: the first element against all others. *)
Fixpoint exchange (x : A) (l : list A) : A * list A :=
  match l with
  | [] => (x, [])
  | y :: l' =>
      if key y <? key x then let '(m, r) := exchange y l' in (m, x :: r)
      else let '(m, r) := exchange x l' in (m, y :: r)
  end.

(** One unit of fuel per round. *)
Fixpoint exchange_rounds (fuel : nat) (l : list A) : list A :=
  match fuel, l with
  | S fuel', x :: l' => let '(m, r) := exchange x l' in m :: exchange_rounds fuel' r
  | _, _ => l
  end.

Definition exchange_sort (l : list A) : list A := exchange_rounds (length l) l.
End sort.

(** ** booking_book_seats *)

(** No zero, no duplicate. *)
Fixpoint seat_ids_ok (before l : list Z) : bool :=
  match l with
  | [] => true
  | s :: l' => negb (s =? 0) && negb (existsb (Z.eqb s) before) && seat_ids_ok (before ++ [s]) l'
  end.

Section book.
Context (txn user_id event_id : Z).

(** [fail rc]: abort and return. *)
Definition fail (rc : etp_result_t) : prog (res Z) := Abort txn;; Ret (inr rc).

(** Step 4. *)
Fixpoint assign_seats (booking_id : Z) (seat_ids : list Z) : prog (res Z) :=
  match seat_ids with
  | [] =>
      rc <- Commit txn;
      if negb (rc =? 0) then Ret (inr ETP_ERR_IO) else Ret (inl booking_id)
  | seat :: rest =>
      rc <- Insert BookingSeats (BookingSeatRecord booking_id seat 0 0 (zeros 3));
      match rc with
      | inr err => fail err
      | inl _ =>
          found <- Find Seats seat;
          match found with
          | inr err => fail err
          | inl s =>
              rc <- Update Seats seat (SeatRecord (s_seat_id s) (s_event_id s) (s_row_label s) (s_seat_number s)
                                         SEAT_BOOKED user_id (s_is_deleted s) (s_pad s));
              if bool_decide (rc = ETP_OK) then assign_seats booking_id rest else fail rc
          end
      end
  end.

(** Step 3. *)
Definition create_booking (price : Z) (seat_ids : list Z) : prog (res Z) :=
  let num_seats := Z.of_nat (length seat_ids) in
  now <- Now;
  rc <- Insert Bookings {| b_booking_id := 0; b_user_id := user_id; b_event_id := event_id;
                           b_seat_count := u16 num_seats; b_total_amount := f32_mul_int price num_seats;
                           b_status := BOOKING_CONFIRMED; b_booked_at := now; b_is_deleted := 0; b_pad := zeros 36 |};
  match rc with
  | inr err => fail err
  | inl booking_id => assign_seats booking_id seat_ids
  end.

(** Step 2; [all] are the seats of step 3. *)
Fixpoint check_seats (price : Z) (all seat_ids : list Z) : prog (res Z) :=
  match seat_ids with
  | [] => create_booking price all
  | seat :: rest =>
      found <- Find Seats seat;
      match found with
      | inr _ => fail ETP_ERR_NOT_FOUND
      | inl s =>
          if negb (s_event_id s =? event_id) then fail ETP_ERR_INVALID_ARG
          else if negb (s_status s =? SEAT_AVAILABLE) then fail ETP_ERR_SEAT_UNAVAIL
          else check_seats price all rest
      end
  end.

(** Step 1. *)
Fixpoint lock_seats (price : Z) (all seat_ids : list Z) : prog (res Z) :=
  match seat_ids with
  | [] => check_seats price all all
  | seat :: rest =>
      rc <- Lock txn TABLE_SEATS seat;
      if negb (rc =? 0) then fail ETP_ERR_GENERIC else lock_seats price all rest
  end.
End book.

Definition booking_book_seats (user_id event_id : Z) (seat_ids : list Z) : prog (res Z) :=
  let num_seats := Z.of_nat (length seat_ids) in
  if num_seats <=? 0 then Ret (inr ETP_ERR_INVALID_ARG)
  else if MAX_SEATS_PER_BOOKING <? num_seats then Ret (inr ETP_ERR_INVALID_ARG)
  else if negb (seat_ids_ok [] seat_ids) then Ret (inr ETP_ERR_INVALID_ARG)
  else
    found <- Find Events event_id;
    match found with
    | inr _ => Ret (inr ETP_ERR_NOT_FOUND)
    | inl evt =>
        if negb (e_status evt =? EVENT_ACTIVE) then Ret (inr ETP_ERR_GENERIC)
        else
          txn <- Begin;
          if txn =? INVALID_TXN_ID then Ret (inr ETP_ERR_GENERIC)
          else
            let seat_ids := exchange_sort id seat_ids in
            lock_seats txn user_id event_id (e_price evt) seat_ids seat_ids
    end.

(** ** booking_cancel *)

Definition filter_booking_seats (target : Z) (bs : booking_seat_record) : bool := bs_booking_id bs =? target.

Section cancel.
Context (txn booking_id : Z).

Definition fail_rc (rc : etp_result_t) : prog etp_result_t := Abort txn;; Ret rc.

(** The seats are free again; the booking is marked. *)
Definition mark_cancelled (b : booking_record) : prog etp_result_t :=
  rc <- Update Bookings booking_id
          (BookingRecord (b_booking_id b) (b_user_id b) (b_event_id b) (b_seat_count b) (b_total_amount b)
             BOOKING_CANCELLED (b_booked_at b) (b_is_deleted b) (b_pad b));
  if negb (bool_decide (rc = ETP_OK)) then fail_rc ETP_ERR_IO
  else
    rc <- Commit txn;
    if negb (rc =? 0) then Ret ETP_ERR_IO else Ret ETP_OK.

Fixpoint release_seats (b : booking_record) (bs_results : list booking_seat_record) : prog etp_result_t :=
  match bs_results with
  | [] => mark_cancelled b
  | bs :: rest =>
      rc <- Lock txn TABLE_SEATS (bs_seat_id bs);
      if negb (rc =? 0) then fail_rc ETP_ERR_GENERIC
      else
        found <- Find Seats (bs_seat_id bs);
        match found with
        | inr _ => release_seats b rest
        | inl s =>
            rc <- Update Seats (bs_seat_id bs)
                    (SeatRecord (s_seat_id s) (s_event_id s) (s_row_label s) (s_seat_number s)
                       SEAT_AVAILABLE 0 (s_is_deleted s) (s_pad s));
            if negb (bool_decide (rc = ETP_OK)) then fail_rc ETP_ERR_IO else release_seats b rest
        end
  end.
End cancel.

Definition booking_cancel (booking_id user_id : Z) : prog etp_result_t :=
  txn <- Begin;
  if txn =? INVALID_TXN_ID then Ret ETP_ERR_GENERIC
  else
    rc <- Lock txn TABLE_BOOKINGS booking_id;
    if negb (rc =? 0) then fail_rc txn ETP_ERR_GENERIC
    else
      found <- Find Bookings booking_id;
      match found with
      | inr _ => fail_rc txn ETP_ERR_NOT_FOUND
      | inl b =>
          if negb (b_user_id b =? user_id) then fail_rc txn ETP_ERR_AUTH
          else if negb (b_status b =? BOOKING_CONFIRMED) then fail_rc txn ETP_ERR_GENERIC
          else
            bs_results <- Scan BookingSeats (filter_booking_seats booking_id) MAX_SEATS_PER_BOOKING;
            release_seats txn booking_id b (exchange_sort bs_seat_id bs_results)
      end.

(** ** Queries *)

Definition booking_get (booking_id : Z) : prog (res booking_record) := r <- Find Bookings booking_id; Ret r.

Definition filter_by_user (target : Z) (b : booking_record) : bool :=
  (b_user_id b =? target) && (b_status b =? BOOKING_CONFIRMED).

Definition booking_list_by_user (user_id max_results : Z) : prog (list booking_record) :=
  rs <- Scan Bookings (filter_by_user user_id) max_results; Ret rs.

(** ** The exchange sort sorts *)

Section sort_facts.
Context {A : Type} (key : A -> Z).

Lemma exchange_perm x l m r : exchange key x l = (m, r) -> x :: l ≡ₚ m :: r.
Proof.
  revert x m r; induction l as [|y l IH]; intros x m r; cbn [exchange]; [by intros [= -> ->]|].
  destruct (key y <? key x); destruct (exchange key _ l) as [m' r'] eqn:E; intros [= -> <-]; apply IH in E.
  - rewrite <- (Permutation_swap m x), <- E. done.
  - rewrite <- (Permutation_swap m y), <- E. apply Permutation_swap.
Qed.

Lemma exchange_least x l m r : exchange key x l = (m, r) -> Forall (fun y => key m <= key y) (m :: r).
Proof.
  revert x m r; induction l as [|y l IH]; intros x m r; cbn [exchange].
  - intros [= <- <-]. repeat constructor; lia.
  - destruct (key y <? key x) eqn:Hk; destruct (exchange key _ l) as [m' r'] eqn:E; intros [= -> <-].
    + pose proof (exchange_perm _ _ _ _ E) as Hp. specialize (IH _ _ _ E).
      assert (Hy : key m <= key y) by (rewrite <- Hp in IH; by inversion IH).
      inversion IH; subst. repeat constructor; [lia| |done]. lia.
    + pose proof (exchange_perm _ _ _ _ E) as Hp. specialize (IH _ _ _ E).
      assert (Hx : key m <= key x) by (rewrite <- Hp in IH; by inversion IH).
      inversion IH; subst. repeat constructor; [lia| |done]. lia.
Qed.

Lemma exchange_length x l m r : exchange key x l = (m, r) -> length r = length l.
Proof. intros E%exchange_perm%Permutation_length. cbn in E. lia. Qed.

Lemma exchange_rounds_perm n l : exchange_rounds key n l ≡ₚ l.
Proof.
  revert l; induction n as [|n IH]; intros [|x l]; try done. cbn [exchange_rounds].
  destruct (exchange key x l) as [m r] eqn:E. rewrite IH. by rewrite <- (exchange_perm _ _ _ _ E).
Qed.

Lemma exchange_sort_perm l : exchange_sort key l ≡ₚ l.
Proof. apply exchange_rounds_perm. Qed.

Lemma exchange_rounds_sorted n l : length l = n ->
  StronglySorted (fun x y => key x <= key y) (exchange_rounds key n l).
Proof.
  revert l; induction n as [|n IH]; intros [|x l] Hl; try done; [constructor|]. cbn [exchange_rounds].
  destruct (exchange key x l) as [m r] eqn:E. constructor.
  - apply IH. rewrite (exchange_length _ _ _ _ E). cbn in Hl. lia.
  - rewrite exchange_rounds_perm. apply exchange_least in E. by inversion E.
Qed.

Lemma exchange_sort_sorted l : StronglySorted (fun x y => key x <= key y) (exchange_sort key l).
Proof. by apply exchange_rounds_sorted. Qed.
End sort_facts.

Lemma seat_ids_ok_spec before l : seat_ids_ok before l = true <->
  (forall s, s ∈ l -> s <> 0 /\ s ∉ before) /\ NoDup l.
Proof.
  revert before; induction l as [|x l IH]; intros before; cbn [seat_ids_ok].
  - split; [|done]. intros _. split; [|constructor]. by intros s ?%not_elem_of_nil.
  - rewrite !andb_true_iff, IH, NoDup_cons, !negb_true_iff, Z.eqb_neq.
    assert (Hex : existsb (Z.eqb x) before = false <-> x ∉ before).
    { rewrite <- not_true_iff_false, existsb_exists. rewrite list_elem_of_In. split.
      - intros H Hi. apply H. exists x. split; [done|lia].
      - intros H (y & Hi & Hy). apply H. assert (x = y) by lia. by subst. }
    rewrite Hex. setoid_rewrite elem_of_app. setoid_rewrite list_elem_of_singleton. setoid_rewrite elem_of_cons.
    split.
    + intros [[Hx Hb] [Hl Hnd]]. split; [|split; [|done]].
      * intros s [->|Hs]; [done|]. destruct (Hl s Hs). naive_solver.
      * intros Hi. destruct (Hl x Hi). naive_solver.
    + intros [Hl [Hni Hnd]]. split; [naive_solver|]. split; [|done]. intros s Hs.
      destruct (Hl s (or_intror Hs)). split; [done|]. intros [?| ->]; done.
Qed.

(** ** Examples *)

(** The state of a seat, for the examples. *)
Definition seat_state (w : world) (s : Z) : option (Z * Z) :=
  (fun r => (s_status r, s_booked_by r)) <$> ts_map (w_seats w) !! s.
Definition booking_state (w : world) (b : Z) : option (Z * Z) :=
  (fun r => (b_status r, b_user_id r)) <$> ts_map (w_bookings w) !! b.

Example venue_seats : seat_state venue <$> [1; 2; 3; 4; 5] = [Some (0, 0); Some (0, 0); Some (0, 0); Some (0, 0); None].
Proof. vm_compute. reflexivity. Qed.

Example book_then_book :
  match run (booking_book_seats 7 1 [3; 1]) no_faults 0 venue with
  | Some (r, w) => (r, seat_state w <$> [1; 2; 3], fst <$> run (booking_book_seats 8 1 [2; 3]) no_faults 0 w)
  | None => (inr ETP_ERR_GENERIC, [], None)
  end = (inl 1, [Some (2, 7); Some (0, 0); Some (2, 7)], Some (inr ETP_ERR_SEAT_UNAVAIL)).
Proof. vm_compute. reflexivity. Qed.
