(* ===== verification/Server.v ===== *)
(** * Client connections (server/main.c)

    handle_command as one program of table and transaction calls, its response as
    the bytes written; read_command_line; and client_handler, the loop of a
    connection over the bytes its client sends.  Reading and printing floats, and what
    another thread has counted by now, come from [libc]. *)

From stdpp Require Import base tactics numbers list gmap strings.
From Stdlib Require Import ZArith Lia.
From S2P Require Import Prelude Types Utils Printf Ipc Calls EventMgr Protocol Auth Reports Booking.

#[local] Open Scope Z_scope.
#[local] Open Scope etp_scope.

Record libc := Libc {
  c_atof : bytes -> Z;                 (** [(float)atof(s)], as its image *)
  c_print : nat -> Z -> bytes;         (** "%.nf" of a float *)
  c_stats : Z -> server_stats }.       (** the shared statistics as copied at a time *)

(** ** Reading integers *)

Fixpoint read_digits (s : bytes) (acc : Z) : Z :=
  match s with
  | c :: s' => if (48 <=? c) && (c <=? 57) then read_digits s' (acc * 10 + (c - 48)) else acc
  | [] => acc
  end.

(** strtol in base 10, which saturates at the bounds of a long. *)
Definition strtol (s : bytes) : Z :=
  let z := match skip_space s with
           | c :: s' => if c =? 45 then - read_digits s' 0
                        else if c =? 43 then read_digits s' 0 else read_digits (c :: s') 0
           | [] => 0
           end in
  Z.max (- 2 ^ 63) (Z.min (2 ^ 63 - 1) z).

(** The value of an [int] given its low 32 bits; and atoi, which is [(int)strtol]. *)
Definition int32 (z : Z) : Z := (z + 2 ^ 31) mod 2 ^ 32 - 2 ^ 31.
Definition atoi (s : bytes) : Z := int32 (strtol s).

(** ** Responses *)

Definition status_prefix (st : response_status) : bytes :=
  match st with RESP_OK => lit "OK" | RESP_ERROR => lit "ERROR" | RESP_DENIED => lit "DENIED" end.

(** The contents of the buffer; [None] is the result -1. *)
Definition format_response (buf_size : Z) (st : response_status) (payload : bytes) : option bytes :=
  let prefix := status_prefix st ++ [32] in
  let offset := Z.of_nat (length prefix) in
  if buf_size <=? offset then None
  else
    let total := offset + Z.of_nat (length payload) in
    let text := snprintf buf_size (prefix ++ payload) in
    Some (if total <? buf_size - 1 then text ++ [10] else text).

Definition MAX_RESPONSE_SIZE : Z := 65536.

Definition respond (st : response_status) (payload : bytes) : bytes :=
  match format_response MAX_RESPONSE_SIZE st payload with Some b => b | None => [] end.

(** A table in a response: lines are added while more than [margin] bytes are free. *)
Fixpoint add_lines (margin : Z) (lines : list bytes) (response : bytes) : bytes :=
  match lines with
  | [] => response
  | l :: rest =>
      if Z.of_nat (length response) <? MAX_RESPONSE_SIZE - margin
      then add_lines margin rest (snprintf MAX_RESPONSE_SIZE (response ++ l)) else response
  end.

(** ** Commands *)

(** The session afterwards, the response, and the effects in order. *)
Record outcome := Outcome { oc_session : session; oc_response : bytes; oc_effects : list effect }.

Definition role_name (role : Z) : bytes :=
  if role =? ROLE_ADMIN then lit "ADMIN" else if role =? ROLE_ORGANIZER then lit "ORGANIZER"
  else if role =? ROLE_CUSTOMER then lit "CUSTOMER" else lit "GUEST".

Definition arg (cmd : parsed_command) (i : nat) : bytes := nth i (pc_args cmd) [].
Definition argc (cmd : parsed_command) : Z := Z.of_nat (length (pc_args cmd)).

Section commands.
Context (C : libc) (s : session) (cmd : parsed_command).

Definition reply (st : response_status) (payload : bytes) : prog outcome := Ret (Outcome s (respond st payload) []).
Definition err (payload : bytes) : prog outcome := reply RESP_ERROR payload.

Definition cmd_register : prog outcome :=
  if argc cmd <? 2 then err (lit "Usage: REGISTER <username> <password> [customer|organizer]")
  else
    let organizer := (3 <=? argc cmd) &&
      (strcasecmp_eq (arg cmd 2) (lit "organizer") || strcasecmp_eq (arg cmd 2) (lit "organiser")) in
    if (3 <=? argc cmd) && negb organizer && negb (strcasecmp_eq (arg cmd 2) (lit "customer"))
    then err (lit "Invalid role. Must be 'customer' or 'organizer'")
    else
      let role := if organizer then ROLE_ORGANIZER else ROLE_CUSTOMER in
      if (role =? ROLE_ORGANIZER) && negb (ss_role s =? ROLE_ADMIN)
      then reply RESP_DENIED (lit "Only an admin may create organizer accounts")
      else bind (auth_register (arg cmd 0) (arg cmd 1) role) (fun rc =>
        match rc with
        | inl user_id => reply RESP_OK (lit "Registered user '" ++ arg cmd 0 ++ lit "' (ID: " ++ dec user_id ++
                                          lit ", Role: " ++ role_name role ++ lit ")")
        | inr ETP_ERR_DUPLICATE => err (lit "Username '" ++ arg cmd 0 ++ lit "' already taken")
        | inr _ => err (lit "Registration failed")
        end).

(** The session is the one auth_login finds under its descriptor. *)
Definition cmd_login : prog outcome :=
  if argc cmd <? 2 then err (lit "Usage: LOGIN <username> <password>")
  else if ss_authenticated s then err (lit "Already logged in as '" ++ cstr (ss_username s) ++ lit "'. LOGOUT first.")
  else bind (auth_verify (arg cmd 0) (arg cmd 1)) (fun rc =>
    match rc with
    | inl user =>
        now <- Now;
        let s' := enter_session user now s in
        let role := if ss_role s' =? ROLE_ADMIN then lit "ADMIN" else if ss_role s' =? ROLE_ORGANIZER then lit "ORGANIZER" else lit "CUSTOMER" in
        Ret (Outcome s' (respond RESP_OK (lit "Welcome, " ++ cstr (ss_username s') ++ lit "! (Role: " ++ role ++ lit ")")) [])
    | inr _ => Ret (Outcome s (respond RESP_ERROR (lit "Invalid credentials")) [StatFailedRequests])
    end).

Definition cmd_logout : prog outcome :=
  if negb (ss_authenticated s) then err (lit "Not logged in")
  else Ret (Outcome (Session (ss_fd s) 0 ROLE_GUEST (clear_name (ss_username s)) (ss_last_active s) false)
              (respond RESP_OK (lit "Logged out successfully")) []).

Definition cmd_create_event : prog outcome :=
  if argc cmd <? 7 then err (lit "Usage: CREATE_EVENT <name> <venue> <date> <time> <rows> <seats_per_row> <price>")
  else bind (event_mgr_create_event (arg cmd 0) (arg cmd 1) (arg cmd 2) (arg cmd 3) (ss_user_id s)
               (u16 (atoi (arg cmd 4))) (u16 (atoi (arg cmd 5))) (c_atof C (arg cmd 6))) (fun rc =>
    match rc with
    | inl event_id =>
        Ret (Outcome s (respond RESP_OK (lit "Event '" ++ arg cmd 0 ++ lit "' created (ID: " ++ dec event_id ++ lit ", " ++
                                           dec (int32 (atoi (arg cmd 4) * atoi (arg cmd 5))) ++ lit " seats)"))
               [StatEvents; NotifyEvent event_id (arg cmd 0)])
    | inr _ => err (lit "Failed to create event")
    end).

Definition cmd_delete_event : prog outcome :=
  if argc cmd <? 1 then err (lit "Usage: DELETE_EVENT <event_id>")
  else
    let eid := u32 (atoi (arg cmd 0)) in
    bind (event_mgr_get_event eid) (fun found =>
      match found with
      | inr _ => err (lit "Event not found")
      | inl event =>
          if negb (ss_role s =? ROLE_ADMIN) && negb (e_organizer_id event =? ss_user_id s)
          then reply RESP_DENIED (lit "You may only delete your own events")
          else bind (event_mgr_delete_event eid) (fun rc =>
            if bool_decide (rc = ETP_OK) then reply RESP_OK (lit "Event " ++ dec eid ++ lit " deleted")
            else err (lit "Event not found"))
      end).

Definition event_line (e : event_record) : bytes :=
  lit "  " ++ pad 5 (dec (e_event_id e)) ++ lit " " ++ pad_cut 20 (cstr (e_name e)) ++ lit " " ++ pad_cut 15 (cstr (e_venue e)) ++
  lit " " ++ pad 11 (cstr (e_event_date e)) ++ lit " " ++ pad 5 (cstr (e_event_time e)) ++ lit "  " ++ dec (e_total_rows e) ++
  lit "×" ++ pad 3 (dec (e_seats_per_row e)) ++ lit "  " ++ c_print C 0 (e_price e) ++ [10].

Definition cmd_list_events : prog outcome :=
  bind (event_mgr_list_events 50) (fun events =>
    match events with
    | [] => reply RESP_OK (lit "No active events")
    | _ =>
        let header := lit "OK " ++ dec (Z.of_nat (length events)) ++ lit " active event(s):" ++ [10] ++
          lit "  " ++ pad 5 (lit "ID") ++ lit " " ++ pad 20 (lit "Name") ++ lit " " ++ pad 15 (lit "Venue") ++ lit " " ++
          pad 11 (lit "Date") ++ lit " " ++ pad 5 (lit "Time") ++ lit "  " ++ pad 6 (lit "Seats") ++ lit "  Rs." ++ [10] ++
          lit "  ───── ──────────────────── ─────────────── ─────────── ─────  ──────  ────" ++ [10] in
        Ret (Outcome s (add_lines 100 (event_line <$> events) header) [])
    end).

Definition cmd_view_event : prog outcome :=
  if argc cmd <? 1 then err (lit "Usage: VIEW_EVENT <event_id>")
  else bind (event_mgr_get_event (u32 (atoi (arg cmd 0)))) (fun found =>
    match found with
    | inr _ => err (lit "Event not found")
    | inl evt =>
        Ret (Outcome s (snprintf MAX_RESPONSE_SIZE
          (lit "OK Event Details:" ++ [10] ++ lit "  ID:      " ++ dec (e_event_id evt) ++ [10] ++
           lit "  Name:    " ++ cstr (e_name evt) ++ [10] ++ lit "  Venue:   " ++ cstr (e_venue evt) ++ [10] ++
           lit "  Date:    " ++ cstr (e_event_date evt) ++ lit "  Time: " ++ cstr (e_event_time evt) ++ [10] ++
           lit "  Seats:   " ++ dec (e_total_rows evt) ++ lit " rows × " ++ dec (e_seats_per_row evt) ++ lit " per row = " ++
           dec (e_total_rows evt * e_seats_per_row evt) ++ lit " total" ++ [10] ++
           lit "  Price:   Rs. " ++ c_print C 2 (e_price evt) ++ [10] ++
           lit "  Status:  " ++ (if e_status evt =? EVENT_ACTIVE then lit "ACTIVE" else lit "CANCELLED") ++ [10])) [])
    end).

Definition seat_line (x : seat_record) : bytes :=
  lit "  " ++ pad 6 (dec (s_seat_id x)) ++ lit " " ++ [s_row_label x] ++ pad 4 (dec (s_seat_number x)) ++ lit " " ++
  pad 8 (if s_status x =? SEAT_AVAILABLE then lit "AVAIL" else if s_status x =? SEAT_BOOKED then lit "BOOKED" else lit "LOCKED") ++ [10].

(** With memory for the seats. *)
Definition cmd_view_seats : prog outcome :=
  if argc cmd <? 1 then err (lit "Usage: VIEW_SEATS <event_id>")
  else
    let eid := u32 (atoi (arg cmd 0)) in
    bind (event_mgr_get_seats eid 2600) (fun seats =>
      match seats with
      | [] => err (lit "No seats found")
      | _ =>
          let header := lit "OK Seats for event " ++ dec eid ++ lit " (" ++ dec (Z.of_nat (length seats)) ++ lit " total):" ++ [10] ++
            lit "  " ++ pad 6 (lit "SeatID") ++ lit " " ++ pad 5 (lit "Seat") ++ lit " " ++ pad 8 (lit "Status") ++ [10] ++
            lit "  ────── ───── ────────" ++ [10] in
          Ret (Outcome s (add_lines 60 (seat_line <$> seats) header) [])
      end).

(** At most ten seat ids are read. *)
Definition cmd_book : prog outcome :=
  if argc cmd <? 2 then err (lit "Usage: BOOK <event_id> <seat_id1> [seat_id2] ...")
  else
    let eid := u32 (atoi (arg cmd 0)) in
    let seat_ids := (fun a => u32 (atoi a)) <$> take (Z.to_nat MAX_SEATS_PER_BOOKING) (drop 1 (pc_args cmd)) in
    let num_seats := Z.of_nat (length seat_ids) in
    bind (booking_book_seats (ss_user_id s) eid seat_ids) (fun rc =>
      match rc with
      | inl booking_id =>
          Ret (Outcome s (respond RESP_OK (lit "Booking confirmed! (Booking ID: " ++ dec booking_id ++ lit ", " ++ dec num_seats ++ lit " seats)"))
                 [StatBookings; NotifyBooked booking_id (ss_user_id s) eid num_seats])
      | inr ETP_ERR_SEAT_UNAVAIL => err (lit "One or more seats are not available")
      | inr ETP_ERR_NOT_FOUND => err (lit "Event or seat not found")
      | inr _ => err (lit "Booking failed")
      end).

Definition cmd_cancel : prog outcome :=
  if argc cmd <? 1 then err (lit "Usage: CANCEL <booking_id>")
  else
    let bid := u32 (atoi (arg cmd 0)) in
    bind (booking_cancel bid (ss_user_id s)) (fun rc =>
      match rc with
      | ETP_OK => Ret (Outcome s (respond RESP_OK (lit "Booking " ++ dec bid ++ lit " cancelled, seats released"))
                         [StatCancelled; NotifyCancelled bid (ss_user_id s)])
      | ETP_ERR_AUTH => err (lit "You can only cancel your own bookings")
      | _ => err (lit "Cancellation failed")
      end).

Definition booking_line (b : booking_record) : bytes :=
  lit "  " ++ pad 8 (dec (b_booking_id b)) ++ lit " " ++ pad 8 (dec (b_event_id b)) ++ lit " " ++ pad 6 (dec (b_seat_count b)) ++
  lit " Rs." ++ c_print C 2 (b_total_amount b) ++ [10].

Definition cmd_my_bookings : prog outcome :=
  bind (booking_list_by_user (ss_user_id s) 20) (fun bookings =>
    match bookings with
    | [] => reply RESP_OK (lit "No active bookings")
    | _ =>
        let header := lit "OK Your bookings (" ++ dec (Z.of_nat (length bookings)) ++ lit "):" ++ [10] ++
          lit "  " ++ pad 8 (lit "BookID") ++ lit " " ++ pad 8 (lit "EventID") ++ lit " " ++ pad 6 (lit "Seats") ++ lit " " ++
          pad 10 (lit "Amount") ++ [10] ++ lit "  ──────── ──────── ────── ──────────" ++ [10] in
        Ret (Outcome s (add_lines 60 (booking_line <$> bookings) header) [])
    end).

(** reports_format_revenue into 512 bytes. *)
Definition reports_format_revenue (r : event_revenue) : bytes :=
  snprintf 512
    (lit "Event: " ++ cstr (rv_event_name r) ++ lit " (ID: " ++ dec (rv_event_id r) ++ lit ")" ++ [10] ++
     lit "  Seats:     " ++ dec (rv_booked_seats r) ++ lit " booked / " ++ dec (rv_total_seats r) ++ lit " total" ++ [10] ++
     lit "  Occupancy: " ++ c_print C 1 (rv_occupancy_pct r) ++ lit "%" ++ [10] ++
     lit "  Revenue:   Rs. " ++ c_print C 2 (rv_total_revenue r) ++ [10]).

Definition cmd_revenue : prog outcome :=
  if 1 <=? argc cmd then
    bind (reports_event_revenue (u32 (atoi (arg cmd 0)))) (fun r =>
      match r with
      | inl rev => reply RESP_OK ([10] ++ reports_format_revenue rev)
      | inr _ => err (lit "Event not found")
      end)
  else
    bind (reports_organizer_revenue (ss_user_id s) 20) (fun revs =>
      match revs with
      | [] => reply RESP_OK (lit "No events found")
      | _ => Ret (Outcome s (add_lines 200 ((fun r => reports_format_revenue r ++ [10]) <$> revs)
                               (lit "OK Revenue for your events:" ++ [10])) [])
      end).

Definition user_line (u : user_record) : bytes :=
  lit "  " ++ pad 5 (dec (u_user_id u)) ++ lit " " ++ pad 20 (cstr (u_username u)) ++ lit " " ++
  pad 10 (if u_role u <=? ROLE_ADMIN then lit (nth (Z.to_nat (u_role u)) role_names "?"%string) else lit "?") ++ [10].

Definition cmd_list_users : prog outcome :=
  users <- Scan Users (fun _ => true) 50;
  match users with
  | [] => reply RESP_OK (lit "No users")
  | _ =>
      let header := lit "OK " ++ dec (Z.of_nat (length users)) ++ lit " user(s):" ++ [10] ++
        lit "  " ++ pad 5 (lit "ID") ++ lit " " ++ pad 20 (lit "Username") ++ lit " " ++ pad 10 (lit "Role") ++ [10] ++
        lit "  ───── ──────────────────── ──────────" ++ [10] in
      Ret (Outcome s (add_lines 60 (user_line <$> users) header) [])
  end.

Definition cmd_system_stats : prog outcome :=
  now <- Now; Ret (Outcome s (stats_format (c_stats C now) now MAX_RESPONSE_SIZE) []).

Definition cmd_help : prog outcome :=
  let text :=
    lit "OK Available commands (role: " ++ role_name (ss_role s) ++ lit "):" ++ [10] ++
    lit "  ── Auth ─────────────────────────────────────────────" ++ [10] ++
    lit "  REGISTER <user> <pass> [customer|organizer]" ++ [10] ++ lit "  LOGIN    <user> <pass>" ++ [10] ++
    lit "  LOGOUT" ++ [10] ++
    lit "  ── Events ───────────────────────────────────────────" ++ [10] ++
    lit "  LIST_EVENTS" ++ [10] ++ lit "  VIEW_EVENT  <event_id>" ++ [10] ++ lit "  VIEW_SEATS  <event_id>" ++ [10] ++
    (if ROLE_ORGANIZER <=? ss_role s then
       lit "  CREATE_EVENT <name> <venue> <date> <time> <rows> <seats_per_row> <price>" ++ [10] ++
       lit "  DELETE_EVENT <event_id>" ++ [10] else []) ++
    (if ROLE_CUSTOMER <=? ss_role s then
       lit "  ── Booking ──────────────────────────────────────────" ++ [10] ++
       lit "  BOOK     <event_id> <seat_id1> [seat_id2] ..." ++ [10] ++ lit "  CANCEL   <booking_id>" ++ [10] ++
       lit "  MY_BOOKINGS" ++ [10] else []) ++
    (if ROLE_ORGANIZER <=? ss_role s then
       lit "  ── Reports ──────────────────────────────────────────" ++ [10] ++ lit "  REVENUE  [event_id]" ++ [10] else []) ++
    (if ss_role s =? ROLE_ADMIN then
       lit "  ── Admin ────────────────────────────────────────────" ++ [10] ++ lit "  LIST_USERS" ++ [10] ++
       lit "  SYSTEM_STATS" ++ [10] else []) ++
    lit "  ── General ──────────────────────────────────────────" ++ [10] ++ lit "  HELP" ++ [10] ++ lit "  QUIT" ++ [10] in
  Ret (Outcome s (snprintf MAX_RESPONSE_SIZE text) []).

Definition handle_command : prog outcome :=
  let t := pc_type cmd in
  if t =? CMD_REGISTER then cmd_register else if t =? CMD_LOGIN then cmd_login else if t =? CMD_LOGOUT then cmd_logout
  else if t =? CMD_CREATE_EVENT then cmd_create_event else if t =? CMD_DELETE_EVENT then cmd_delete_event
  else if t =? CMD_LIST_EVENTS then cmd_list_events else if t =? CMD_VIEW_EVENT then cmd_view_event
  else if t =? CMD_VIEW_SEATS then cmd_view_seats else if t =? CMD_BOOK then cmd_book
  else if t =? CMD_CANCEL then cmd_cancel else if t =? CMD_MY_BOOKINGS then cmd_my_bookings
  else if t =? CMD_REVENUE then cmd_revenue else if t =? CMD_LIST_USERS then cmd_list_users
  else if t =? CMD_SYSTEM_STATS then cmd_system_stats else if t =? CMD_HELP then cmd_help
  else err (lit "Unknown command. Type HELP for usage.").
End commands.

(** ** Connections *)

(** read_command_line over the bytes the client sends: the line, [inl false] for an
    invalid one, [inr] at the end of the input; [used] is the buffer so far. *)
Inductive line := Line (text : bytes) | BadLine.

Fixpoint read_command_line (input used : bytes) (overflow : bool) (capacity : nat) : option (line * bytes) :=
  match input with
  | [] => None
  | ch :: rest =>
      if ch =? 10 then Some (if overflow then BadLine else Line used, rest)
      else
        let overflow' := overflow || (ch =? 0) in
        if (length used + 1 <? capacity)%nat then read_command_line rest (used ++ [ch]) overflow' capacity
        else read_command_line rest used true capacity
  end.

Definition prompt : bytes := lit "etp> ".

(** One line of input: [None] ends the connection. *)
Definition client_line (C : libc) (s : session) (l : line) : prog (option session * bytes * list effect) :=
  match l with
  | BadLine => Ret (Some s, lit "ERROR Invalid or oversized command" ++ [10] ++ prompt, [])
  | Line text =>
      match strip_newlines text with
      | [] => Ret (Some s, prompt, [])
      | buf =>
          match parse_command buf with
          | None => Ret (Some s, lit "ERROR Invalid command. Type HELP for usage." ++ [10] ++ prompt, [StatRequests])
          | Some cmd =>
              if pc_type cmd =? CMD_QUIT then Ret (None, lit "OK Goodbye!" ++ [10], [StatRequests])
              else if negb (rbac_check (ss_role s) (pc_type cmd)) then
                Ret (Some s, snprintf 256 (lit "DENIED " ++ rbac_denial_reason (ss_role s) (pc_type cmd) ++ [10]) ++ prompt,
                     [StatRequests; StatFailedRequests])
              else bind (handle_command C s cmd) (fun o =>
                Ret (Some (oc_session o), oc_response o ++ prompt, StatRequests :: oc_effects o))
          end
      end
  end.

(** The lines of the input; every line takes at least its newline, so the length of
    the input is fuel enough. *)
Fixpoint read_lines (fuel : nat) (input : bytes) : list line :=
  match fuel with
  | O => []
  | S fuel' =>
      match read_command_line input [] false (Z.to_nat MAX_CMD_LENGTH) with
      | None => []
      | Some (l, rest) => l :: read_lines fuel' rest
      end
  end.
Definition command_lines (input : bytes) : list line := read_lines (length input) input.

(** The command loop. *)
Fixpoint client_loop (C : libc) (s : session) (lines : list line) : prog (bytes * list effect) :=
  match lines with
  | [] => Ret ([], [])
  | l :: rest =>
      bind (client_line C s l) (fun '(s', out, eff) =>
        match s' with
        | None => Ret (out, eff)
        | Some s' => bind (client_loop C s' rest) (fun '(out', eff') => Ret (out ++ out', eff ++ eff'))
        end)
  end.

(** A connection with its session, from the banner on. *)
Definition client_handler (C : libc) (s : session) (input : bytes) : prog (bytes * list effect) :=
  client_loop C s (command_lines input).

(** ** Lines *)

(** What a client means by a line: at most 1023 bytes, no NUL. *)
Definition line_of (text : bytes) : line :=
  if (length text <? Z.to_nat MAX_CMD_LENGTH)%nat && negb (existsb (Z.eqb 0) text) then Line text else BadLine.

Lemma read_line_spec text rest : forall used ov, Forall (fun c => c <> 10) text ->
  (length used < Z.to_nat MAX_CMD_LENGTH)%nat ->
  read_command_line (text ++ 10 :: rest) used ov (Z.to_nat MAX_CMD_LENGTH) =
  Some (if ov || existsb (Z.eqb 0) text || negb (length used + length text <? Z.to_nat MAX_CMD_LENGTH)%nat
        then BadLine else Line (used ++ text), rest).
Proof.
  change (Z.to_nat MAX_CMD_LENGTH) with 1024%nat. induction text as [|c text IH]; intros used ov Ht Hu.
  - cbn [app read_command_line existsb length]. change (10 =? 10) with true. cbv iota. rewrite Nat.add_0_r, app_nil_r, !orb_false_r.
    apply Nat.ltb_lt in Hu as ->. cbn [negb]. by rewrite orb_false_r.
  - apply Forall_cons in Ht as [Hc Ht]. cbn [app read_command_line existsb length].
    destruct (Z.eqb_spec c 10); [done|]. destruct (Nat.ltb_spec (length used + 1) 1024) as [Hl|Hl].
    + rewrite IH by (done || rewrite length_app; cbn [length]; lia). rewrite length_app, <- app_assoc. cbn [length app].
      rewrite (Z.eqb_sym c 0), <- Nat.add_assoc. by rewrite <- !orb_assoc.
    + rewrite IH by done. cbn [orb]. destruct (Nat.ltb_spec (length used + S (length text)) 1024); [lia|].
      by rewrite orb_true_r.
Qed.

Lemma read_lines_spec l : forall fuel, Forall (Forall (fun c => c <> 10)) l ->
  (length (concat ((fun t => t ++ [10%Z]) <$> l)) <= fuel)%nat ->
  read_lines fuel (concat ((fun t => t ++ [10]) <$> l)) = line_of <$> l.
Proof.
  induction l as [|t l IH]; intros fuel Hl Hf; cbn [fmap list_fmap concat] in *.
  - destruct fuel; [done|]. by cbn.
  - apply Forall_cons in Hl as [Ht Hl]. rewrite !length_app in Hf. cbn [length] in Hf. destruct fuel as [|fuel]; [lia|].
    rewrite <- app_assoc. cbn [app read_lines].
    rewrite read_line_spec by (done || apply Nat.ltb_lt; done). rewrite IH by (done || lia). f_equal. unfold line_of.
    change (length (@nil Z) + length t)%nat with (length t).
    destruct (length t <? Z.to_nat MAX_CMD_LENGTH)%nat, (existsb (Z.eqb 0) t); done.
Qed.

(** Whatever lines a client sends, the server reads exactly these lines: a line
    of at most 1023 bytes without NUL comes through unchanged, any other line is
    rejected as a whole, never truncated into a command, and the lines after it are
    not affected. *)
Theorem command_lines_exact l : Forall (Forall (fun c => c <> 10)) l ->
  command_lines (concat ((fun t => t ++ [10]) <$> l)) = line_of <$> l.
Proof. intros Hl. by apply read_lines_spec. Qed.

Lemma command_lines_exact_witness :
  command_lines (lit "HELP" ++ [10] ++ replicate 1024 65 ++ [10] ++ lit "QUIT" ++ [10]) = [Line (lit "HELP"); BadLine; Line (lit "QUIT")].
Proof.
  transitivity (line_of <$> [lit "HELP"; replicate 1024 65; lit "QUIT"]); [|by vm_compute].
  rewrite <- (command_lines_exact [lit "HELP"; replicate 1024 65; lit "QUIT"]); [f_equal; by vm_compute|].
  apply (bool_decide_unpack _). by vm_compute.
Defined.
