(* ===== verification/Threads.v ===== *)
(** * Requests on threads

    The server runs each connection on a thread of its pool.  A thread is what is
    left of the program of its request, where a request is a whole connection with
    all its client sends, or one operation of the booking engine or the event
    manager by itself; a system is the world and its threads.  A step is one call
    of one thread or the arrival of a request, so a run of steps is an interleaving
    at call granularity: every call of Calls.v is one critical section of the code
    below it.  [may_fail] says which calls may fail. *)

From stdpp Require Import base tactics numbers list gmap relations strings.
From Stdlib Require Import ZArith Lia.
From S2P Require Import Prelude Types Utils Ipc Calls EventMgr Protocol Auth Reports Booking Server.

#[local] Open Scope Z_scope.

Inductive request :=
  | BookSeats (user_id event_id : Z) (seat_ids : list Z)
  | CancelBooking (booking_id user_id : Z)
  | GetBooking (booking_id : Z)
  | MyBookings (user_id max_results : Z)
  | CreateEvent (name venue date time_str : bytes) (organizer_id total_rows seats_per_row price : Z)
  | GetEvent (event_id : Z)
  | ListEvents (max_results : Z)
  | ViewSeats (event_id max_results : Z)
  | DeleteEvent (event_id : Z)
  | Client (C : libc) (s : session) (input : bytes).

Inductive thread :=
  | Thread {A} (p : prog A).

Definition serve (q : request) : thread :=
  match q with
  | BookSeats u e l => Thread (booking_book_seats u e l)
  | CancelBooking b u => Thread (booking_cancel b u)
  | GetBooking b => Thread (booking_get b)
  | MyBookings u n => Thread (booking_list_by_user u n)
  | CreateEvent n v d t o r s p => Thread (event_mgr_create_event n v d t o r s p)
  | GetEvent e => Thread (event_mgr_get_event e)
  | ListEvents n => Thread (event_mgr_list_events n)
  | ViewSeats e n => Thread (event_mgr_get_seats e n)
  | DeleteEvent e => Thread (event_mgr_delete_event e)
  | Client C s i => Thread (client_handler C s i)
  end.

Definition answered (t : thread) : Prop := match t with Thread p => exists a, p = Ret a end.

Record system := System { sys_world : world; sys_threads : list thread }.

Section runs.
Context (may_fail : forall R, cmd R -> bool).

Definition exec_any {R} (w : world) (c : cmd R) (r : R) (w' : world) : Prop :=
  exec w c r w' \/ (may_fail R c = true /\ exec_fault w c r w').

(** One call of one thread. *)
Inductive sched : system -> system -> Prop :=
  | sched_call {R A} i w ts (c : cmd R) (k : R -> prog A) r w' :
      ts !! i = Some (Thread (Call c k)) -> exec_any w c r w' ->
      sched (System w ts) (System w' (<[i := Thread (k r)]> ts)).

Inductive sys_step : system -> system -> Prop :=
  | step_call s s' : sched s s' -> sys_step s s'
  | step_request w ts q : sys_step (System w ts) (System w (ts ++ [serve q])).

Definition reaches : system -> system -> Prop := rtc sys_step.
End runs.

(** The failures of [may_fail]: none but log writes of insertions and commits. *)
Definition insert_or_commit {R} (c : cmd R) : bool :=
  match c with Insert _ _ | Commit _ => true | _ => false end.
Definition anything {R} (c : cmd R) : bool := true.

(** ** Invariants over threads

    A program logic for one thread: [rule g c K] is what a thread with the private
    knowledge [g] must satisfy to make the call [c] and go on as [K]. *)

Section logic.
Context {G : Type} (rule : forall R, G -> cmd R -> (G -> R -> Prop) -> Prop) (done : G -> Prop).

Fixpoint safe {A} (g : G) (p : prog A) : Prop :=
  match p with
  | Ret _ => done g
  | Call c k => rule _ g c (fun g' r => safe g' (k r))
  end.

Definition safe_thread (g : G) (t : thread) : Prop := match t with Thread p => safe g p end.

Lemma safe_bind {A B} (p : prog A) (f : A -> prog B) :
  (forall R g c K K', rule R g c K -> (forall g' r, K g' r -> K' g' r) -> rule R g c K') ->
  forall g, safe g p -> (forall g' a, done g' -> safe g' (f a)) -> safe g (bind p f).
Proof.
  intros Hmono. induction p as [a|R c k IH]; intros g Hp Hf; cbn [bind safe] in *; [by apply Hf|].
  eapply Hmono; [exact Hp|]. intros g' r Hk. by apply IH.
Qed.

(** A global invariant [I] of the world and the knowledge of all threads, kept by
    every call made under its rule, holds in every run. *)
Context (may_fail : forall R, cmd R -> bool) (I : world -> list G -> Prop) (fresh : G).
Context (I_call : forall R (c : cmd R) w gs i g K r w', I w gs -> gs !! i = Some g -> rule R g c K ->
  exec_any may_fail w c r w' -> exists g', K g' r /\ I w' (<[i := g']> gs)).
Context (I_request : forall w gs, I w gs -> I w (gs ++ [fresh])).
Context (serve_safe : forall q, safe_thread fresh (serve q)).

Definition sys_inv (s : system) : Prop :=
  exists gs, I (sys_world s) gs /\ Forall2 safe_thread gs (sys_threads s).

Lemma sys_inv_sched s s' : sched may_fail s s' -> sys_inv s -> sys_inv s'.
Proof.
  intros Hs (gs & HI & Hts). destruct Hs as [R A i w ts c k r w' Hi Hx]. cbn in *.
  destruct (Forall2_lookup_r _ _ _ _ _ Hts Hi) as (g & Hg & Hsafe). cbn in Hsafe.
  destruct (I_call _ _ _ _ _ _ _ _ _ HI Hg Hsafe Hx) as (g' & HK & HI').
  exists (<[i := g']> gs). split; [done|]. by apply Forall2_insert.
Qed.

Lemma sys_inv_step s s' : sys_step may_fail s s' -> sys_inv s -> sys_inv s'.
Proof.
  intros [s1 s2 Hs|w ts q]; [by apply sys_inv_sched|].
  intros (gs & HI & Hts). exists (gs ++ [fresh]). cbn in *. split; [auto|].
  apply Forall2_app; [done|]. constructor; [apply serve_safe|constructor].
Qed.

Lemma sys_inv_reaches s s' : reaches may_fail s s' -> sys_inv s -> sys_inv s'.
Proof. induction 1; eauto using sys_inv_step. Qed.
End logic.

(** A thread that runs alone, without failures. *)
Lemma run_sched (may_fail : forall R, cmd R -> bool) {A} (p : prog A) now a : forall w w' ts i,
  run p no_faults now w = Some (a, w') -> ts !! i = Some (Thread p) ->
  rtc (sched may_fail) (System w ts) (System w' (<[i := Thread (Ret a)]> ts)).
Proof.
  induction p as [b|R c k IH]; intros w w' ts i Hr Hi; cbn [run] in Hr.
  - simplify_eq. rewrite list_insert_id by done. constructor.
  - destruct (call (no_faults 0) now w c) as [[r w1]|] eqn:Hc; [|done].
    apply call_exec in Hc as [Hc|[Hc _]]; [|done].
    apply (rtc_l _ _ (System w1 (<[i := Thread (k r)]> ts))).
    { apply (sched_call may_fail i w ts c k r w1); [done|by left]. }
    assert (Hlt : (i < length ts)%nat) by (by apply lookup_lt_Some in Hi).
    rewrite <- (list_insert_insert_eq ts i (Thread (Ret a)) (Thread (k r))). apply (IH r); [done|].
    by apply list_lookup_insert_eq.
Qed.

(** A request served while no other thread runs. *)
Lemma request_reaches (may_fail : forall R, cmd R -> bool) q {A} (p : prog A) now a w w' ts :
  serve q = Thread p -> run p no_faults now w = Some (a, w') ->
  reaches may_fail (System w ts) (System w' (ts ++ [Thread (Ret a)])).
Proof.
  intros Hq Hr. eapply rtc_l; [apply (step_request may_fail w ts q)|]. rewrite Hq.
  assert (E : <[length ts := Thread (Ret a)]> (ts ++ [Thread p]) = ts ++ [Thread (Ret a)]).
  { rewrite insert_app_r_alt by lia. by rewrite Nat.sub_diag. }
  rewrite <- E. eapply rtc_subrel; [|eapply (run_sched may_fail p now); [done|by rewrite list_lookup_middle]].
  intros s s'. by apply step_call.
Qed.

(** The next call of thread [i], if it can be made. *)
Definition turn (now : Z) (s : system) (i : nat) : system :=
  match sys_threads s !! i with
  | Some (Thread (Call c k)) =>
      match call false now (sys_world s) c with
      | Some (r, w') => System w' (<[i := Thread (k r)]> (sys_threads s))
      | None => s
      end
  | _ => s
  end.

Lemma turns_reach (may_fail : forall R, cmd R -> bool) now l : forall s, rtc (sched may_fail) s (foldl (turn now) s l).
Proof.
  induction l as [|i l IH]; intros s; cbn [foldl]; [constructor|]. etrans; [|apply IH]. unfold turn.
  destruct s as [w ts]. cbn. destruct (ts !! i) as [[A [a|R c k]]|] eqn:Hi; try constructor.
  destruct (call false now w c) as [[r w']|] eqn:Hc; [|constructor]. apply call_exec in Hc as [Hc|[? _]]; [|done].
  apply rtc_once, (sched_call may_fail i w ts c k r w'); [done|by left].
Qed.

(** ** What all requests have in common *)

(** A predicate of programs that the calls outside the booking engine and the two
    operations of the booking engine satisfy. *)
Class Serves (ok : forall A, prog A -> Prop) : Prop := {
  sv_ret : forall A (a : A), ok A (Ret a);
  sv_bind : forall A B (p : prog A) (f : A -> prog B), ok A p -> (forall a, ok B (f a)) -> ok B (bind p f);
  sv_find : forall A R (T : tbl R) id (k : res R -> prog A), (forall r, ok A (k r)) -> ok A (Call (Find T id) k);
  sv_scan : forall A R (T : tbl R) f n (k : list R -> prog A), match T with BookingSeats => False | _ => True end ->
    (forall r, ok A (k r)) -> ok A (Call (Scan T f n) k);
  sv_now : forall A (k : Z -> prog A), (forall r, ok A (k r)) -> ok A (Call Now k);
  sv_insert_user : forall A x (k : res Z -> prog A), (forall r, ok A (k r)) -> ok A (Call (Insert Users x) k);
  sv_insert_event : forall A x (k : res Z -> prog A), (forall r, ok A (k r)) -> ok A (Call (Insert Events x) k);
  sv_insert_seat : forall A x (k : res Z -> prog A), (forall r, ok A (k r)) -> ok A (Call (Insert Seats x) k);
  sv_delete_event : forall A id (k : etp_result_t -> prog A), (forall r, ok A (k r)) -> ok A (Call (Delete Events id) k);
  sv_book : forall u e l, ok _ (booking_book_seats u e l);
  sv_cancel : forall b u, ok _ (booking_cancel b u) }.

Section serves.
Context (ok : forall A, prog A -> Prop) `{!Serves ok}.

(** Through the straight-line programs. *)
Ltac serve :=
  repeat first [ apply sv_ret | apply sv_book | apply sv_cancel | apply sv_find; intros [] | apply sv_scan; [exact I|intros []]
               | apply sv_now; intros ? | apply sv_insert_user; intros [] | apply sv_delete_event; intros ? | case_match ].

Lemma create_event_ok n v d t o rows cols p : ok _ (event_mgr_create_event n v d t o rows cols p).
Proof using Type*.
  unfold event_mgr_create_event. do 3 (case_match; [apply sv_ret|]). apply sv_insert_event. intros [i|e]; [|apply sv_ret].
  generalize 0. induction (event_seats i rows cols) as [|x l IH]; intros c; cbn [insert_seats bind]; [apply sv_ret|].
  apply sv_insert_seat. intros r. apply IH.
Qed.

Lemma event_revenue_ok e : ok _ (reports_event_revenue e).
Proof using Type*. unfold reports_event_revenue. serve. Qed.

Lemma organizer_revenue_ok o n : ok _ (reports_organizer_revenue o n).
Proof using Type*.
  unfold reports_organizer_revenue. apply sv_scan; [exact I|]. intros l. generalize (Z.to_nat n).
  induction l as [|e l IH]; intros m; cbn [revenue_loop]; [apply sv_ret|]. destruct m as [|m]; [apply sv_ret|].
  apply sv_bind; [apply event_revenue_ok|]. intros [r|r]; [|apply IH]. apply sv_bind; [apply IH|]. intros a. apply sv_ret.
Qed.

Lemma register_ok n p r : ok _ (auth_register n p r).
Proof using Type*. unfold auth_register. serve. Qed.

Lemma verify_ok n p : ok _ (auth_verify n p).
Proof using Type*. unfold auth_verify. serve. Qed.

Lemma handle_command_ok C s cmd : ok _ (handle_command C s cmd).
Proof using Type*.
  unfold handle_command. repeat case_match; unfold err, reply.
  - unfold cmd_register. case_match; [apply sv_ret|]. case_match; [apply sv_ret|]. case_match; [apply sv_ret|].
    apply sv_bind; [apply register_ok|]. intros []; serve.
  - unfold cmd_login. case_match; [apply sv_ret|]. case_match; [apply sv_ret|].
    apply sv_bind; [apply verify_ok|]. intros []; serve.
  - unfold cmd_logout. serve.
  - unfold cmd_create_event. case_match; [apply sv_ret|]. apply sv_bind; [apply create_event_ok|]. intros []; serve.
  - unfold cmd_delete_event. case_match; [apply sv_ret|]. apply sv_bind; [apply sv_find; intros; apply sv_ret|].
    intros []; [|apply sv_ret]. case_match; [apply sv_ret|].
    apply sv_bind; [apply sv_delete_event; intros; apply sv_ret|]. intros r. serve.
  - unfold cmd_list_events. apply sv_bind; [apply sv_scan; [exact I|]; intros; apply sv_ret|]. intros []; serve.
  - unfold cmd_view_event. case_match; [apply sv_ret|]. apply sv_bind; [apply sv_find; intros; apply sv_ret|]. intros []; serve.
  - unfold cmd_view_seats. case_match; [apply sv_ret|]. apply sv_bind; [apply sv_scan; [exact I|]; intros; apply sv_ret|]. intros []; serve.
  - unfold cmd_book. case_match; [apply sv_ret|]. apply sv_bind; [apply sv_book|]. intros []; serve.
  - unfold cmd_cancel. case_match; [apply sv_ret|]. apply sv_bind; [apply sv_cancel|]. intros []; serve.
  - unfold cmd_my_bookings. apply sv_bind; [apply sv_scan; [exact I|]; intros; apply sv_ret|]. intros []; serve.
  - unfold cmd_revenue. case_match.
    + apply sv_bind; [apply event_revenue_ok|]. intros []; serve.
    + apply sv_bind; [apply organizer_revenue_ok|]. intros []; serve.
  - unfold cmd_list_users. serve.
  - unfold cmd_system_stats. serve.
  - unfold cmd_help. apply sv_ret.
  - apply sv_ret.
Qed.

Lemma client_handler_ok C s input : ok _ (client_handler C s input).
Proof using Type*.
  unfold client_handler. revert s. induction (command_lines input) as [|l ls IH]; intros s; cbn [client_loop]; [apply sv_ret|].
  apply sv_bind.
  - unfold client_line. destruct l as [text|]; [|apply sv_ret]. repeat (case_match; try apply sv_ret). apply sv_bind; [apply handle_command_ok|]. intros o. apply sv_ret.
  - intros [[[s'|] out] eff]; [|apply sv_ret]. apply sv_bind; [apply IH|]. intros []. apply sv_ret.
Qed.

Lemma serve_ok q : match serve q with Thread p => ok _ p end.
Proof using Type*.
  destruct q; cbn [serve].
  - apply sv_book.
  - apply sv_cancel.
  - apply sv_find. intros. apply sv_ret.
  - apply sv_scan; [exact I|]. intros. apply sv_ret.
  - apply create_event_ok.
  - apply sv_find. intros. apply sv_ret.
  - apply sv_scan; [exact I|]. intros. apply sv_ret.
  - apply sv_scan; [exact I|]. intros. apply sv_ret.
  - apply sv_delete_event. intros. apply sv_ret.
  - apply client_handler_ok.
Qed.
End serves.

(** ** Two clients at the same time *)

Definition no_libc : libc := Libc (fun _ => 0) (fun _ _ => []) stats_zero.
Definition new_session (fd : Z) : session := touch 0 (session_init (Session (-1) 0 0 (zeros 32) 0 false) fd).

(** auth_register looks for the name in one call and inserts the account in
    another: two clients can register the same name, and both are told they did. *)
Example same_name_registered_twice :
  let input := lit "REGISTER bob secret" ++ [10] in
  let s := foldl (turn 0) (System empty_world [serve (Client no_libc (new_session 4) input); serve (Client no_libc (new_session 5) input)])
             [0; 1; 0; 0; 1; 1]%nat in
  (cstr ∘ u_username <$> table_records Users (sys_world s),
   forallb (fun t => match t with Thread (Ret _) => true | _ => false end) (sys_threads s)) =
  ([lit "bob"; lit "bob"], true).
Proof. vm_compute. reflexivity. Qed.
