(* ===== verification/Connections.v ===== *)
(** * Connections and their sessions

    client_handler of main.c from the accepted descriptor to its end, for all
    connections at once: each creates its session in the manager's pool, works on
    it line by line, and removes it; the statistics count it in and out.
    Server.v's command loop carries its session along as a value; here that value is
    shown to be the pool's slot, which no other connection touches. *)

From stdpp Require Import base tactics numbers list gmap relations strings.
From Stdlib Require Import ZArith Lia.
From S2P Require Import Prelude Types Utils Ipc Calls Codec Protocol Auth Reports EventMgr Booking Server Threads.

#[local] Open Scope Z_scope.

(** ** What a program may come back with *)

(** Answers the tables can give: records they can hold. *)
Definition answer_ok {R} (c : cmd R) : R -> Prop :=
  match c in cmd R return R -> Prop with
  | Find T id => fun r => forall x, r = inl x -> valid T x
  | Scan T _ _ => fun l => Forall (valid T) l
  | _ => fun _ => True
  end.

Fixpoint may_return {A} (p : prog A) (a : A) : Prop :=
  match p with
  | Ret b => a = b
  | Call c k => exists r, answer_ok c r /\ may_return (k r) a
  end.

Lemma bind_returns {A B} (p : prog A) (f : A -> prog B) b : may_return (bind p f) b -> exists a, may_return p a /\ may_return (f a) b.
Proof.
  induction p as [x|R c k IH]; cbn [bind may_return]; [intros H; by exists x|].
  intros (r & Hr & H). destruct (IH r H) as (a & H1 & H2). exists a. split; [by exists r|done].
Qed.

(** ** Lines and sessions *)

(** What a line does to the session: auth_login's and auth_logout's changes. *)
Inductive change := Keep | Enter (user : user_record) (now : Z) | Leave.

Definition leave_session (s : session) : session :=
  Session (ss_fd s) 0 ROLE_GUEST (clear_name (ss_username s)) (ss_last_active s) false.

Definition changed (c : change) (s : session) : session :=
  match c with Keep => s | Enter user now => enter_session user now s | Leave => leave_session s end.

(** The same on the pool, by descriptor. *)
Definition change_pool (c : change) (au : auth_manager) (fd : Z) : auth_manager :=
  match c with Keep => au | Enter user now => fst (auth_enter au fd user now) | Leave => fst (auth_logout au fd) end.

(** LOGIN and LOGOUT look at the session first. *)
Definition change_ok (c : change) (s : session) : Prop :=
  match c with
  | Keep => True
  | Enter user _ => Forall byte_ok (u_username user) /\ ss_authenticated s = false
  | Leave => ss_authenticated s = true
  end.

Section lines.
Context (C : libc) (s : session) (cmd : parsed_command).

Definition stays (p : prog outcome) : Prop := forall o, may_return p o -> oc_session o = s.

Lemma stays_ret r eff : stays (Ret (Outcome s r eff)).
Proof using. by intros o ->. Qed.

Lemma stays_bind {A} (p : prog A) f : (forall a, stays (f a)) -> stays (bind p f).
Proof using. intros Hf o (a & _ & Ho)%bind_returns. by apply (Hf a). Qed.

Lemma stays_call {R} (c : Calls.cmd R) k : (forall r, stays (k r)) -> stays (Call c k).
Proof using. intros Hf o (r & _ & Ho). by apply (Hf r). Qed.

Ltac stays :=
  unfold err, reply; repeat first [apply stays_ret | apply stays_bind; intros ? | apply stays_call; intros ? | case_match].

Lemma login_changes o : may_return (cmd_login s cmd) o -> exists c, change_ok c s /\ oc_session o = changed c s.
Proof using.
  unfold cmd_login, err, reply. case_match; [intros ->; by exists Keep|]. destruct (ss_authenticated s) eqn:Ea; [intros ->; by exists Keep|].
  intros (rc & Hrc & Ho)%bind_returns. destruct rc as [user|e]; cbn [may_return] in Ho; [|rewrite Ho; by exists Keep].
  destruct Ho as (now & _ & ->). exists (Enter user now). split; [|done]. split; [|done].
  unfold auth_verify in Hrc. destruct Hrc as (l & Hl & Hrc). cbn [answer_ok] in Hl. destruct l as [|x l]; [done|].
  destruct (negb _); [done|]. injection Hrc as ->. apply Forall_cons in Hl as [[Hx _] _]. cbn in Hx. apply Hx.
Qed.

Lemma logout_changes o : may_return (cmd_logout s) o -> exists c, change_ok c s /\ oc_session o = changed c s.
Proof using.
  unfold cmd_logout, err, reply. destruct (ss_authenticated s) eqn:Ea; cbn [negb]; intros ->; [by exists Leave|by exists Keep].
Qed.

Lemma command_changes o : may_return (handle_command C s cmd) o -> exists c, change_ok c s /\ oc_session o = changed c s.
Proof using.
  assert (Hstay : forall p, stays p -> may_return p o -> exists c, change_ok c s /\ oc_session o = changed c s).
  { intros p Hp Ho. exists Keep. split; [done|]. by apply (Hp o). }
  unfold handle_command.
  case_match; [apply Hstay; unfold cmd_register; stays|]. case_match; [apply login_changes|]. case_match; [apply logout_changes|].
  repeat (case_match; [apply Hstay; unfold cmd_create_event, cmd_delete_event, cmd_list_events, cmd_view_event, cmd_view_seats,
    cmd_book, cmd_cancel, cmd_my_bookings, cmd_revenue, cmd_list_users, cmd_system_stats, cmd_help; stays|]).
  apply Hstay. stays.
Qed.
End lines.

Lemma line_changes C s l s' out eff : may_return (client_line C s l) (Some s', out, eff) ->
  exists c, change_ok c s /\ s' = changed c s.
Proof.
  assert (Hk : exists c, change_ok c s /\ s = changed c s) by by exists Keep.
  unfold client_line. destruct l as [text|]; [|by intros [= -> _ _]]. destruct (strip_newlines text) as [|x buf]; [by intros [= -> _ _]|].
  destruct (parse_command _) as [cmd|]; [|by intros [= -> _ _]]. destruct (_ =? _); [done|]. destruct (negb _); [by intros [= -> _ _]|].
  intros (o & Ho & [= -> _ _])%bind_returns. by eapply command_changes.
Qed.

(** ** Sending *)

(** What a write() of [send_all] returns: a count, -1 with EINTR, or -1 otherwise,
    which SO_SNDTIMEO makes of a client that does not read for a second. *)
Inductive write_result := Wrote (n : nat) | Interrupted | WriteFails.

(** What goes out, and whether send_all returns the length rather than -1. *)
Fixpoint send_all (ws : list write_result) (data : bytes) : bytes * bool :=
  match data, ws with
  | [], _ => ([], true)
  | _, [] => ([], false)
  | _, Interrupted :: ws' => send_all ws' data
  | _, WriteFails :: _ | _, Wrote O :: _ => ([], false)
  | _, Wrote n :: ws' => let '(out, ok) := send_all ws' (drop n data) in (take n data ++ out, ok)
  end.

(** Short writes and interruptions lose nothing; a failure leaves a prefix. *)
Lemma send_all_prefix ws : forall data, exists rest, data = (send_all ws data).1 ++ rest /\ ((send_all ws data).2 = true -> rest = []).
Proof.
  induction ws as [|[n| |] ws IH]; intros [|c data]; try (by exists []); try (by exists (c :: data)).
  - destruct n as [|n]; [by exists (c :: data)|]. destruct (IH (drop (S n) (c :: data))) as (rest & H1 & H2).
    exists rest. cbn [send_all]. destruct (send_all ws (drop (S n) (c :: data))) as [out ok]. cbn [fst snd] in *.
    split; [|done]. by rewrite <- app_assoc, <- H1, take_drop.
  - apply IH.
Qed.

(** client_handler does not look at the result: after a time-out in the middle of a
    response the loop goes on, and the prompt follows half a word. *)
Example slow_client_loses_text :
  (send_all [Wrote 5; WriteFails] (lit "OK Goodbye!")).1 ++ (send_all [Interrupted; Wrote 2; Wrote 3] prompt).1 = lit "OK Goetp> ".
Proof. by vm_compute. Qed.

(** ** All connections *)

(** The session pool, the statistics, and the sessions the running handlers hold. *)
Record hub := Hub { hb_auth : auth_manager; hb_stats : server_stats; hb_live : gmap Z session }.

Definition hub_start (now : Z) : hub := Hub auth_create (stats_zero now) ∅.

Definition count (ops : list stats_op) (s : server_stats) : server_stats := foldl stats_step s ops.

Definition server_full : bytes := lit "ERROR Server full, try later" ++ [10].
Definition banner : bytes :=
  [10] ++ lit "  ╔═══════════════════════════════════════════════════╗" ++ [10] ++
  lit "  ║     Welcome to Event Ticketing Platform           ║" ++ [10] ++
  lit "  ║     Type HELP for available commands              ║" ++ [10] ++
  lit "  ╚═══════════════════════════════════════════════════╝" ++ [10] ++ [10] ++ prompt.

(** The slot a descriptor's handler works on. *)
Definition slot_of (au : auth_manager) (fd : Z) : list session := filter (fun s => ss_fd s = fd) (au_sessions au).

(** One step of one connection, with what is sent to its client.  A descriptor is
    handed out again only when its handler has ended (client_task_wrapper closes it).
    The statistics count a connection just before its session is created and just
    after it is removed, under a lock of their own; each pair is one step here, so the
    two counts are compared when neither is under way. *)
Inductive conn_step (C : libc) : hub -> bytes -> hub -> Prop :=
  | conn_open au st live fd now au' i s :
      0 <= fd -> live !! fd = None -> auth_create_session au fd now = (au', Some i) -> au_sessions au' !! i = Some s ->
      conn_step C (Hub au st live) banner (Hub au' (count stats_inc_connections st) (<[fd := s]> live))
  | conn_refused au st live fd now au' :
      0 <= fd -> live !! fd = None -> auth_create_session au fd now = (au', None) ->
      conn_step C (Hub au st live) server_full (Hub au' (count (stats_inc_connections ++ stats_dec_connections) st) live)
  | conn_line au st live fd s l c out eff now :
      live !! fd = Some s -> change_ok c s -> may_return (client_line C s l) (Some (changed c s), out, eff) ->
      conn_step C (Hub au st live) out
        (Hub (change_pool c au fd) (count (concat (effect_stats now <$> eff)) st) (<[fd := changed c s]> live))
  | conn_quit au st live fd s l out eff now :
      live !! fd = Some s -> may_return (client_line C s l) (None, out, eff) ->
      conn_step C (Hub au st live) out
        (Hub (auth_remove_session au fd) (count (concat (effect_stats now <$> eff) ++ stats_dec_connections) st) (delete fd live))
  | conn_lost au st live fd s out :        (* end of input, shutdown, or no memory for the response buffer *)
      live !! fd = Some s ->
      conn_step C (Hub au st live) out (Hub (auth_remove_session au fd) (count stats_dec_connections st) (delete fd live)).

Definition hub_step (C : libc) (h h' : hub) : Prop := exists out, conn_step C h out h'.

(** Every handler's session is the one slot of its descriptor, there are no others,
    and the statistics count them. *)
Record hub_ok (h : hub) : Prop := HubOk {
  ho_pool : pool_ok (hb_auth h);
  ho_map : pool_map (hb_auth h) = view <$> hb_live h;
  ho_slot : forall fd, 0 <= fd -> slot_of (hb_auth h) fd = option_list (hb_live h !! fd);
  ho_fd : forall fd s, hb_live h !! fd = Some s -> 0 <= fd /\ ss_fd s = fd;
  ho_active : get_counter ActiveConnections (hb_stats h) = Z.of_nat (size (hb_live h)) }.

(** The pool around the slot that an operation looks for. *)
Lemma slot_focus au l1 s l2 fd : au_sessions au = l1 ++ s :: l2 ->
  slot_of au fd = filter (fun s => ss_fd s = fd) l1 ++ (if decide (ss_fd s = fd) then [s] else []) ++ filter (fun s => ss_fd s = fd) l2.
Proof. intros E. unfold slot_of. rewrite E, filter_app, filter_cons. by case_decide. Qed.

(** A slot replaced by one of the same or of a new descriptor. *)
Lemma slot_put au l1 s0 l2 s' n fd0 (live : gmap Z session) : au_sessions au = l1 ++ s0 :: l2 ->
  (forall fd, 0 <= fd -> slot_of au fd = option_list (live !! fd)) -> 0 <= fd0 -> ss_fd s' = fd0 ->
  (ss_fd s0 = fd0 \/ (ss_fd s0 = -1 /\ live !! fd0 = None)) ->
  forall fd, 0 <= fd -> slot_of (AuthManager (l1 ++ s' :: l2) n) fd = option_list (<[fd0 := s']> live !! fd).
Proof.
  intros E Hs H0 Hs' Hold fd Hfd. pose proof (Hs fd Hfd) as Hx. rewrite (slot_focus _ _ _ _ fd E) in Hx.
  rewrite (slot_focus (AuthManager (l1 ++ s' :: l2) n) l1 s' l2 fd eq_refl), Hs'. destruct (decide (fd0 = fd)) as [<-|Hne].
  - rewrite lookup_insert_eq. cbn [option_list].
    assert (Hnil : filter (fun s => ss_fd s = fd0) l1 = [] /\ filter (fun s => ss_fd s = fd0) l2 = []).
    { destruct Hold as [Hold|[Hold Hn]].
      - rewrite decide_True in Hx by done. destruct (live !! fd0); cbn in Hx; [|by destruct (filter _ l1)].
        destruct (filter _ l1) as [|y [|z ys]]; cbn in Hx; [by injection Hx as _ ->|by destruct (filter _ l2)|done].
      - rewrite Hn in Hx. cbn in Hx. apply app_nil in Hx as [-> Hx]. by apply app_nil in Hx as [_ ->]. }
    by destruct Hnil as [-> ->].
  - rewrite lookup_insert_ne by done. rewrite decide_False in Hx by (destruct Hold as [->|[-> _]]; lia). exact Hx.
Qed.

(** The session found is the handler's. *)
Lemma slot_is au l1 s0 l2 fd s (live : gmap Z session) : au_sessions au = l1 ++ s0 :: l2 ->
  (forall fd, 0 <= fd -> slot_of au fd = option_list (live !! fd)) -> 0 <= fd -> ss_fd s0 = fd -> live !! fd = Some s -> s0 = s.
Proof.
  intros E Hs H0 Hs0 Hl. pose proof (Hs fd H0) as Hx. rewrite Hl, (slot_focus _ _ _ _ fd E), decide_True in Hx by done. cbn in Hx.
  destruct (filter _ l1) as [|y [|z ys]]; cbn in Hx; [by injection Hx as ->|by destruct (filter _ l2)|done].
Qed.

Lemma found_slot au fd s (live : gmap Z session) : (forall fd, 0 <= fd -> slot_of au fd = option_list (live !! fd)) -> 0 <= fd ->
  live !! fd = Some s -> exists l1 l2, au_sessions au = l1 ++ s :: l2 /\ ss_fd s = fd /\ find_session (au_sessions au) fd = Some (length l1).
Proof.
  intros Hs H0 Hl. destruct (find_session (au_sessions au) fd) as [i|] eqn:E.
  - destruct (find_session_Some _ _ _ E) as (l1 & s0 & l2 & El & -> & Hf). pose proof (slot_is au l1 s0 l2 fd s live El Hs H0 Hf Hl) as ->.
    by exists l1, l2.
  - apply find_session_None in E. pose proof (Hs fd H0) as Hx. rewrite Hl in Hx. unfold slot_of in Hx.
    assert (Hin : s ∈ filter (fun s => ss_fd s = fd) (au_sessions au)) by (rewrite Hx; by left).
    apply list_elem_of_filter in Hin as [Hf Hin]. rewrite Forall_forall in E. by destruct (E s Hin).
Qed.

Lemma effects_balance now eff : delta ActiveConnections (concat (effect_stats now <$> eff)) = 0.
Proof.
  induction eff as [|e eff IH]; [done|]. cbn [fmap list_fmap concat]. rewrite delta_app, IH. by destruct e.
Qed.

Lemma pool_size au : pool_ok au -> (size (pool_map au) <= 100)%nat.
Proof.
  intros [Hl Hnd _ _]. unfold pool_map. rewrite map_size_list_to_map by done. unfold actives. rewrite length_fmap.
  change (Z.to_nat MAX_CONNECTIONS) with 100%nat in Hl. rewrite <- Hl. apply length_filter.
Qed.

Lemma live_size h : hub_ok h -> (size (hb_live h) <= 100)%nat.
Proof. intros H. rewrite <- (map_size_fmap view), <- (ho_map _ H). apply pool_size, H. Qed.

(** The counter of active connections after the steps [ops]. *)
Lemma active_count h ops (live : gmap Z session) : hub_ok h -> (size live <= 100)%nat ->
  Z.of_nat (size live) = Z.of_nat (size (hb_live h)) + delta ActiveConnections ops ->
  get_counter ActiveConnections (count ops (hb_stats h)) = Z.of_nat (size live).
Proof.
  intros Hok Hlt Hd. pose proof (live_size h Hok) as Hl. unfold count.
  rewrite counters_exact, (ho_active _ Hok), <- Hd by (rewrite (ho_active _ Hok); change (counter_width ActiveConnections) with 32; lia).
  apply wrap_small. change (counter_width ActiveConnections) with 32. lia.
Qed.

Lemma at_session_at au fd f i l : at_session au fd f = Some (i, l) ->
  exists l1 s l2, au_sessions au = l1 ++ s :: l2 /\ ss_fd s = fd /\ l = l1 ++ f s :: l2 /\ i = length l1.
Proof.
  unfold at_session. destruct (find_session _ fd) as [j|] eqn:E; [|done]. intros [= <- <-].
  destruct (find_session_Some _ _ _ E) as (l1 & s & l2 & Hl & -> & Hs). exists l1, s, l2. split; [done|]. split; [done|].
  rewrite Hl. by rewrite alter_app_r_alt, Nat.sub_diag by lia.
Qed.

(** A new handler. *)
Lemma opened_ok h fd now au' i s : hub_ok h -> 0 <= fd -> hb_live h !! fd = None ->
  auth_create_session (hb_auth h) fd now = (au', Some i) -> au_sessions au' !! i = Some s ->
  hub_ok (Hub au' (count stats_inc_connections (hb_stats h)) (<[fd := s]> (hb_live h))).
Proof.
  intros Hok Hfd Hnone Hc Hi. pose proof Hok as [H1 H2 H3 H4 H5].
  assert (Hop : op_ok (pool_map (hb_auth h)) (OpCreate fd now)) by (split; [done|]; by rewrite H2, lookup_fmap, Hnone).
  pose proof (pool_step_refines _ _ H1 Hop) as (P1 & P2 & P3). cbn [pool_step spec_step] in P1, P2, P3. rewrite Hc in P1, P2, P3.
  cbn [fst snd] in P1, P2, P3. rewrite bool_decide_true in P3 by (by exists i). case_decide as Hsz; [|done]. cbn [fst] in P2.
  unfold auth_create_session in Hc. destruct (at_session _ (-1) _) as [[j l]|] eqn:E; [|done]. injection Hc as <- <-.
  apply at_session_at in E as (l1 & s0 & l2 & El & Hs0 & -> & ->). cbn [au_sessions] in Hi. rewrite list_lookup_middle in Hi by done.
  injection Hi as Hs. assert (Hfs : ss_fd s = fd) by (by rewrite <- Hs).
  destruct (pool_focus _ _ _ _ H1 El) as ((Hb1 & Hb2 & _) & _). destruct (clear_name_ok (ss_username s0) Hb1 Hb2) as (_ & _ & C3).
  assert (Hv : view s = guest now) by (rewrite <- Hs; unfold view, guest; cbn; by rewrite C3).
  rewrite H2, map_size_fmap in Hsz. constructor; cbn [hb_auth hb_live hb_stats].
  - exact P1.
  - by rewrite P2, H2, fmap_insert, Hv.
  - rewrite Hs. apply (slot_put _ l1 s0 l2 s _ fd (hb_live h) El H3 Hfd Hfs). by right.
  - intros fd' s' [[<- <-]|[_ Hl]]%lookup_insert_Some; [done|by apply H4].
  - pose proof (map_size_insert_None fd s (hb_live h) Hnone) as Hsz'. apply active_count; [done|lia|].
    change (delta ActiveConnections stats_inc_connections) with 1. lia.
Qed.

(** The pool after a change to the session of [fd]. *)
Lemma change_pool_slot au fd s c l1 l2 : au_sessions au = l1 ++ s :: l2 -> ss_fd s = fd -> find_session (au_sessions au) fd = Some (length l1) ->
  change_ok c s -> change_pool c au fd = AuthManager (l1 ++ changed c s :: l2) (au_session_count au).
Proof.
  intros El Hs Hf Hc. destruct c as [|user now|]; cbn [change_pool changed].
  - destruct au as [l n]. cbn in El |- *. by rewrite El.
  - unfold auth_enter, at_session. rewrite Hf. cbn [fst]. rewrite El. by rewrite alter_app_r_alt, Nat.sub_diag by lia.
  - unfold auth_logout. rewrite Hf, El, list_lookup_middle by done. cbn in Hc. rewrite Hc. cbn [negb fst].
    by rewrite list_insert_app_middle.
Qed.

Lemma changed_fd c s : ss_fd (changed c s) = ss_fd s.
Proof. by destruct c. Qed.

Definition change_op (c : change) (fd : Z) : option pool_op :=
  match c with Keep => None | Enter user now => Some (OpEnter fd user now) | Leave => Some (OpLogout fd) end.

(** A line of a handler. *)
Lemma line_ok h fd s c ops : hub_ok h -> hb_live h !! fd = Some s -> change_ok c s -> delta ActiveConnections ops = 0 ->
  hub_ok (Hub (change_pool c (hb_auth h) fd) (count ops (hb_stats h)) (<[fd := changed c s]> (hb_live h))).
Proof.
  intros Hok Hl Hc Hd. pose proof Hok as [H1 H2 H3 H4 H5]. destruct (H4 fd s Hl) as [Hfd Hs].
  destruct (found_slot _ fd s _ H3 Hfd Hl) as (l1 & l2 & El & _ & Hf).
  pose proof (change_pool_slot _ fd s c l1 l2 El Hs Hf Hc) as Hpool.
  destruct (pool_focus _ _ _ _ H1 El) as (Hso & _).
  assert (Hslot : slot_ok (changed c s)).
  { destruct c as [|user now|]; cbn [changed change_ok] in *; [done|apply (enter_session_ok user now s (proj1 Hc) Hso)|].
    destruct Hso as (Hb1 & Hb2 & _). destruct (clear_name_ok (ss_username s) Hb1 Hb2) as (C1 & C2 & _). by split. }
  destruct (pool_change _ l1 s l2 fd (changed c s) H1 El Hs Hfd ltac:(by rewrite changed_fd) Hslot) as (P1 & _ & P3).
  assert (Hsz : size (<[fd := changed c s]> (hb_live h)) = size (hb_live h)) by (apply map_size_insert_Some; by eexists).
  pose proof (live_size h Hok). constructor; cbn [hb_auth hb_live hb_stats]; rewrite ?Hpool.
  - exact P1.
  - by rewrite P3, H2, fmap_insert.
  - apply (slot_put _ l1 s l2 _ _ fd (hb_live h) El H3 Hfd); [by rewrite changed_fd|by left].
  - intros fd' s' [[<- <-]|[_ Hl']]%lookup_insert_Some; [by rewrite changed_fd|by apply H4].
  - apply active_count; [done|lia|]. rewrite Hsz, Hd. lia.
Qed.

(** The end of a handler. *)
Lemma close_ok h fd s ops : hub_ok h -> hb_live h !! fd = Some s -> delta ActiveConnections ops = -1 ->
  hub_ok (Hub (auth_remove_session (hb_auth h) fd) (count ops (hb_stats h)) (delete fd (hb_live h))).
Proof.
  intros Hok Hl Hd. pose proof Hok as [H1 H2 H3 H4 H5]. destruct (H4 fd s Hl) as [Hfd Hs].
  destruct (found_slot _ fd s _ H3 Hfd Hl) as (l1 & l2 & El & _ & Hf).
  pose proof (remove_refines _ fd H1 Hfd) as (P1 & P2 & _). cbn [pool_step spec_step fst] in P1, P2.
  pose proof (live_size h Hok). pose proof (map_size_delete_Some fd (hb_live h) ltac:(by eexists)) as Hsz.
  assert (Hpos : (0 < size (hb_live h))%nat).
  { destruct (size (hb_live h)) eqn:E; [|lia]. apply map_size_empty_inv in E. by rewrite E, lookup_empty in Hl. }
  constructor; cbn [hb_auth hb_live hb_stats].
  - exact P1.
  - by rewrite P2, H2, fmap_delete.
  - intros fd' Hfd'. unfold auth_remove_session, at_session. rewrite Hf.
    rewrite El at 1. rewrite alter_app_r_alt, Nat.sub_diag by lia. cbn [alter list_alter].
    pose proof (H3 fd' Hfd') as Hx. rewrite (slot_focus _ _ _ _ fd' El) in Hx.
    erewrite (slot_focus (AuthManager _ _) l1 _ l2 fd' eq_refl). cbn [ss_fd]. rewrite (decide_False (P := -1 = fd')) by lia.
    destruct (decide (fd = fd')) as [<-|Hne].
    + rewrite lookup_delete_eq. rewrite Hl, decide_True in Hx by done. cbn in Hx.
      destruct (filter _ l1) as [|y [|z ys]]; cbn in Hx; [by injection Hx as ->|by destruct (filter _ l2)|done].
    + rewrite lookup_delete_ne by done. by rewrite decide_False in Hx by congruence.
  - intros fd' s' [_ Hl']%lookup_delete_Some. by apply H4.
  - apply active_count; [done|lia|]. rewrite Hd, Hsz. lia.
Qed.

Lemma hub_step_ok C h h' : hub_ok h -> hub_step C h h' -> hub_ok h'.
Proof.
  intros Hok [out Hs].
  destruct Hs as [au st live fd now au' i s Hfd Hn Hc Hi|au st live fd now au' Hfd Hn Hc|au st live fd s l c out eff now Hl Hc Hr|au st live fd s l out eff now Hl Hr|au st live fd s out Hl].
  - by apply (opened_ok (Hub au st live) fd now au' i s).
  - assert (au' = au) as -> by (unfold auth_create_session in Hc; destruct (at_session _ _ _) as [[]|]; congruence).
    pose proof Hok as [H1 H2 H3 H4 H5]. constructor; try done. cbn [hb_stats hb_live] in *.
    apply (active_count (Hub au st live)); [done|by apply (live_size (Hub au st live))|].
    change (delta ActiveConnections (stats_inc_connections ++ stats_dec_connections)) with 0. cbn [hb_live]. lia.
  - apply (line_ok (Hub au st live)); try done. apply effects_balance.
  - apply (close_ok (Hub au st live) fd s); [done..|]. by rewrite delta_app, effects_balance.
  - by apply (close_ok (Hub au st live) fd s).
Qed.

Lemma start_ok now : hub_ok (hub_start now).
Proof.
  destruct auth_create_ok as [H1 H2]. constructor; cbn [hub_start hb_auth hb_live hb_stats]; [done|by rewrite H2, fmap_empty| | |done].
  - intros fd Hfd. rewrite lookup_empty. unfold slot_of, auth_create. cbn [au_sessions]. generalize (Z.to_nat MAX_CONNECTIONS) as n.
    induction n as [|n IH]; [done|]. cbn [replicate]. by rewrite filter_cons_False by (cbn; lia).
  - intros fd s. by rewrite lookup_empty.
Qed.

Lemma reached_ok C now h : rtc (hub_step C) (hub_start now) h -> hub_ok h.
Proof.
  intros Hr. pose proof (start_ok now) as Hok. induction Hr as [h|h1 h2 h3 Hs _ IH]; [done|]. apply IH. by eapply hub_step_ok.
Qed.

(** C17: sessions are private to their connections.  However the connections of the
    server come, go and interleave their lines: the session a handler works on is the
    one slot of the pool with its descriptor, no slot is left behind by a connection
    that has ended, the pool's counter and the statistics' count of active
    connections are the number of running handlers, at most 100, and a new
    connection is told that the server is full exactly when there are 100. *)
Theorem sessions_private C now h : rtc (hub_step C) (hub_start now) h ->
  (forall fd s, hb_live h !! fd = Some s -> slot_of (hb_auth h) fd = [s]) /\
  (forall fd, 0 <= fd -> hb_live h !! fd = None -> slot_of (hb_auth h) fd = []) /\
  au_session_count (hb_auth h) = Z.of_nat (size (hb_live h)) /\ (size (hb_live h) <= 100)%nat /\
  active_connections (hb_stats h) = Z.of_nat (size (hb_live h)) /\
  (forall fd now', 0 <= fd -> hb_live h !! fd = None ->
     (auth_create_session (hb_auth h) fd now').2 = None <-> size (hb_live h) = 100%nat).
Proof.
  intros Hr. pose proof (reached_ok C now h Hr) as Hok. pose proof Hok as [H1 H2 H3 H4 H5].
  assert (Hsz : size (pool_map (hb_auth h)) = size (hb_live h)) by (by rewrite H2, map_size_fmap).
  split; [|split; [|split; [|split; [|split]]]].
  - intros fd s Hl. rewrite H3 by (by eapply H4). by rewrite Hl.
  - intros fd Hfd Hl. by rewrite H3, Hl.
  - by rewrite (po_count _ H1), Hsz.
  - by apply live_size.
  - exact H5.
  - intros fd now' Hfd Hl. assert (Hop : op_ok (pool_map (hb_auth h)) (OpCreate fd now')) by (split; [done|]; by rewrite H2, lookup_fmap, Hl).
    pose proof (pool_step_refines _ _ H1 Hop) as (_ & _ & P3). cbn [pool_step spec_step] in P3. rewrite Hsz in P3.
    pose proof (live_size h Hok). destruct (auth_create_session (hb_auth h) fd now') as [au' r]. cbn [fst snd] in *.
    case_decide; cbn [snd] in P3; [apply bool_decide_eq_true in P3 as [i ->]; split; [done|lia]|].
    apply bool_decide_eq_false in P3. split; [lia|]. intros _. destruct r; [by destruct P3|done].
Qed.

(** Two clients come; the first sends a line that is too long and leaves. *)
Lemma sessions_private_witness : exists C now h s, rtc (hub_step C) (hub_start now) h /\
  hb_live h = {[ 5 := s ]} /\ slot_of (hb_auth h) 5 = [s] /\ slot_of (hb_auth h) 4 = [] /\ active_connections (hb_stats h) = 1.
Proof.
  set (C := Libc (fun _ => 0) (fun _ _ => []) (fun _ => stats_zero 0)). set (h0 := hub_start 0).
  set (au1 := (auth_create_session auth_create 4 1).1). set (s4 := touch 1 (session_init (Session (-1) 0 0 (zeros 32) 0 false) 4)).
  set (au2 := (auth_create_session au1 5 2).1). set (s5 := touch 2 (session_init (Session (-1) 0 0 (zeros 32) 0 false) 5)).
  set (st1 := count stats_inc_connections (stats_zero 0)). set (st2 := count stats_inc_connections st1).
  assert (S1 : hub_step C h0 (Hub au1 st1 {[ 4 := s4 ]})).
  { eexists. apply (conn_open C auth_create (stats_zero 0) ∅ 4 1 au1 0%nat s4); [lia|done|reflexivity..]. }
  assert (S2 : hub_step C (Hub au1 st1 {[ 4 := s4 ]}) (Hub au2 st2 (<[5 := s5]> {[ 4 := s4 ]}))).
  { eexists. apply (conn_open C au1 st1 {[ 4 := s4 ]} 5 2 au2 1%nat s5); [lia|done|reflexivity..]. }
  assert (S3 : hub_step C (Hub au2 st2 (<[5 := s5]> {[ 4 := s4 ]})) (Hub au2 st2 (<[4 := s4]> (<[5 := s5]> {[ 4 := s4 ]})))).
  { eexists. eapply (conn_line C au2 st2 _ 4 s4 BadLine Keep _ [] 0); [done|done|reflexivity]. }
  assert (S4 : hub_step C (Hub au2 st2 (<[4 := s4]> (<[5 := s5]> {[ 4 := s4 ]})))
                 (Hub (auth_remove_session au2 4) (count stats_dec_connections st2) (delete 4 (<[4 := s4]> (<[5 := s5]> {[ 4 := s4 ]}))))).
  { eexists. by apply (conn_lost C au2 st2 _ 4 s4 []). }
  assert (Hl : delete 4 (<[4 := s4]> (<[5 := s5]> {[ 4 := s4 ]})) = ({[ 5 := s5 ]} : gmap Z session)) by reflexivity.
  rewrite Hl in S4. eexists C, 0, _, s5.
  assert (Hr : rtc (hub_step C) (hub_start 0) (Hub (auth_remove_session au2 4) (count stats_dec_connections st2) {[ 5 := s5 ]})).
  { eapply rtc_l; [exact S1|]. eapply rtc_l; [exact S2|]. eapply rtc_l; [exact S3|]. by apply rtc_once. }
  split; [exact Hr|]. destruct (sessions_private C 0 _ Hr) as (P1 & P2 & _ & _ & P5 & _). cbn [hb_live hb_auth hb_stats] in *.
  split; [reflexivity|]. split; [by apply P1|]. split; [by apply P2|exact P5].
Defined.
