(* ===== verification/Logger.v ===== *)
(** * Logging (server/ipc/logger.c, etp_log of common/utils.c)

    The log pipe: handlers format a line and write it to a pipe, a thread copies the
    pipe to the log file, and pipe_logger_destroy closes the write end and waits for
    that thread.  The time stamp, the uninitialised stack buffer and the capacity of
    the pipe are parameters. *)

From stdpp Require Import base tactics numbers list strings.
From Stdlib Require Import ZArith Lia.
From S2P Require Import Prelude Utils Printf.

#[local] Open Scope Z_scope.

(** ** etp_log *)

Definition LOG_DEBUG : Z := 0.
Definition LOG_INFO : Z := 1.
Definition LOG_WARN : Z := 2.
Definition LOG_ERROR : Z := 3.
Definition LOG_FATAL : Z := 4.

Definition etp_log_level_str (level : Z) : bytes :=
  if level =? LOG_DEBUG then lit "DEBUG" else if level =? LOG_INFO then lit "INFO " else if level =? LOG_WARN then lit "WARN "
  else if level =? LOG_ERROR then lit "ERROR" else if level =? LOG_FATAL then lit "FATAL" else lit "?????".

(** What stderr gets, and whether the process is aborted. *)
Definition etp_log (g_log_level level : Z) (time_str text : bytes) : bytes * bool :=
  if level <? g_log_level then ([], false)
  else (lit "[" ++ time_str ++ lit "] [" ++ etp_log_level_str level ++ lit "] " ++ text ++ [10], level =? LOG_FATAL).

(** Whatever the level in force, a fatal message ends the process: the code behind
    it, server_init's [return -1] and the clean-up in main, is never reached. *)
Lemma fatal_aborts g_log_level time_str text : g_log_level <= LOG_FATAL -> (etp_log g_log_level LOG_FATAL time_str text).2 = true.
Proof. intros H. unfold etp_log. by destruct (Z.ltb_spec LOG_FATAL g_log_level); [lia|]. Qed.

(** ** A message *)

Definition LOG_MSG_MAX : nat := 512.

Inductive logged := NotLogged | Logged (b : bytes) | OutOfBounds.

(** The bytes pipe_logger_write hands to write().  [junk]: the buffer before;
    [stamp]: what strftime puts there; [text]: the formatted message in full, of which
    vsnprintf stores what fits, [None] when it fails. *)
Definition log_message (junk stamp : bytes) (text : option bytes) : logged :=
  let msg := blit 0 (stamp ++ [0]) junk in
  let offset := length stamp in
  match text with
  | None => NotLogged
  | Some text =>
      let msg := blit offset (take (LOG_MSG_MAX - offset - 2) text ++ [0]) msg in
      let written := length text in
      if (written =? 0)%nat then NotLogged
      else
        let total := (offset + written)%nat in
        let '(msg, total) := if (total <? LOG_MSG_MAX - 1)%nat then (blit total ([10; 0] : bytes) msg, S total) else (msg, total) in
        if (total <=? LOG_MSG_MAX)%nat then Logged (take total msg) else OutOfBounds
  end.

(** A message for which there is room, and its line. *)
Record entry := Entry { en_stamp : bytes; en_text : bytes }.

Record entry_ok (e : entry) : Prop := EntryOk {
  eo_stamp : str_ok (en_stamp e);
  eo_text : str_ok (en_text e);
  eo_nonempty : en_text e <> [];
  eo_room : (length (en_stamp e) + length (en_text e) <= LOG_MSG_MAX - 2)%nat }.

Definition log_line (e : entry) : bytes := en_stamp e ++ en_text e ++ [10].

Lemma blit_app (a : bytes) b src dst : length a = b -> blit b src (a ++ dst) = a ++ blit 0 src dst.
Proof.
  intros <-. unfold blit. rewrite take_app_length, drop_app_ge by lia. cbn [take app].
  by replace (length a + length src - length a)%nat with (length src) by lia.
Qed.

Lemma blit_start (src dst : bytes) : blit 0 src dst = src ++ drop (length src) dst.
Proof. done. Qed.

Lemma message_fits junk e : length junk = LOG_MSG_MAX -> entry_ok e ->
  log_message junk (en_stamp e) (Some (en_text e)) = Logged (log_line e).
Proof.
  intros Hj [_ _ Hne Hr]. destruct e as [st tx]. cbn [en_stamp en_text] in *. unfold log_message, log_line, LOG_MSG_MAX in *.
  cbn [en_stamp en_text]. rewrite take_ge by lia. destruct (Nat.eqb_spec (length tx) 0) as [E|_]; [by destruct tx|].
  destruct (Nat.ltb_spec (length st + length tx) (512 - 1)) as [_|]; [|lia].
  destruct (Nat.leb_spec (S (length st + length tx)) 512) as [_|]; [|lia].
  rewrite blit_start, <- app_assoc. rewrite (blit_app st (length st)) by done. rewrite (blit_start (tx ++ [0])), <- app_assoc.
  rewrite app_assoc. rewrite (blit_app (st ++ tx) (length st + length tx)) by len. rewrite blit_start. f_equal.
  replace (S (length st + length tx)) with (length ((st ++ tx) ++ [10%Z])) by (len; rewrite !length_app; cbn; lia).
  change ([10; 0] ++ ?r) with ([10%Z] ++ (0%Z :: r)). rewrite app_assoc. by rewrite take_app_length, <- app_assoc.
Qed.

(** A message that is too long by a byte goes without its newline and with the NUL of
    vsnprintf; four bytes more, and write() reads past the end of the buffer. *)
Example long_messages :
  let stamp := lit "[2024-05-01 19:30:00] " in
  length stamp = 22%nat /\
  log_message (replicate LOG_MSG_MAX 255) stamp (Some (replicate 489 65)) = Logged (stamp ++ replicate 488 65 ++ [0]) /\
  log_message (replicate LOG_MSG_MAX 255) stamp (Some (replicate 490 65)) = Logged (stamp ++ replicate 488 65 ++ [0; 255]) /\
  log_message (replicate LOG_MSG_MAX 255) stamp (Some (replicate 491 65)) = OutOfBounds.
Proof. by vm_compute. Qed.

(** ** What the server logs *)

Inductive server_message := ServerInitialized | ServerShuttingDown | ClientDisconnected (client_fd : Z).

Definition message_text (m : server_message) : bytes :=
  match m with
  | ServerInitialized => lit "Server initialized successfully"
  | ServerShuttingDown => lit "Server shutting down"
  | ClientDisconnected fd => lit "Client fd=" ++ dec fd ++ lit " disconnected"
  end.

Lemma digits_ok fuel : forall z, 0 <= z -> str_ok (digits fuel z).
Proof.
  induction fuel as [|fuel IH]; intros z Hz; cbn [digits]; [constructor|].
  pose proof (Z.mod_pos_bound z 10). case_match; [repeat constructor; lia|].
  apply Forall_app. split; [apply IH, Z.div_pos; lia|]. repeat constructor; lia.
Qed.

(** The server's own messages fit, behind a stamp as strftime makes it. *)
Lemma server_message_fits stamp m : str_ok stamp -> (length stamp <= 31)%nat ->
  (forall fd, m = ClientDisconnected fd -> 0 <= fd < 2 ^ 32) -> entry_ok (Entry stamp (message_text m)).
Proof.
  intros Hs Hl Hfd. destruct m as [| |fd]; cbn [message_text].
  1, 2: constructor; cbn [en_stamp en_text]; [done|by apply (bool_decide_unpack _); vm_compute|done|].
  1, 2: unfold LOG_MSG_MAX; match goal with |- context [length (lit ?s)] => change (length (lit s)) with (ltac:(let n := eval vm_compute in (length (lit s)) in exact n)) end; lia.
  destruct (Hfd fd eq_refl) as [H0 H1]. pose proof (dec_u32_length fd (conj H0 H1)) as Hd.
  assert (Hok : str_ok (dec fd)) by (unfold dec; destruct (Z.ltb_spec fd 0); [lia|]; by apply digits_ok).
  constructor; cbn [en_stamp en_text]; [done| |done|].
  - apply Forall_app. split; [by apply (bool_decide_unpack _); vm_compute|]. apply Forall_app. split; [exact Hok|].
    by apply (bool_decide_unpack _); vm_compute.
  - rewrite !length_app. change (length (lit "Client fd=")) with 10%nat. change (length (lit " disconnected")) with 13%nat.
    unfold LOG_MSG_MAX. lia.
Qed.

(** ** The pipe *)

(** What is open: the two ends of the pipe and the log file. *)
Inductive log_handle := ReadEnd | WriteEnd | LogFile.
#[export] Instance log_handle_eq_dec : EqDecision log_handle.
Proof. solve_decision. Defined.

Definition close_handles (hs opened : list log_handle) : list log_handle := filter (fun h => h ∉ hs) opened.

(** A call of pipe_logger_write that has found [running] set: before its write(), and
    in it. *)
Inductive call := Formatted (e : entry) (b : bytes) | Writing (e : entry) (b : bytes).
Definition is_writing (c : call) : bool := match c with Writing _ _ => true | _ => false end.

Record pipe_logger := PipeLogger {
  pl_pipe : bytes;            (* written and not yet read *)
  pl_log_fp : bytes;          (* the log file *)
  pl_running : bool;          (* until pipe_logger_destroy begins *)
  pl_writer : bool;           (* the writer thread has not returned *)
  pl_open : list log_handle;
  pl_calls : list call;
  pl_freed : bool }.          (* by pipe_logger_destroy *)

(** [log_file]: its contents when fopen succeeds.  Also what is left open. *)
Definition pipe_logger_create (calloc_ok pipe_ok : bool) (log_file : option bytes) (thread_ok : bool)
    : option pipe_logger * list log_handle :=
  if negb calloc_ok then (None, [])
  else if negb pipe_ok then (None, [])
  else
    let opened := [ReadEnd; WriteEnd] in
    match log_file with
    | None => (None, close_handles [ReadEnd; WriteEnd] opened)
    | Some f =>
        let opened := LogFile :: opened in
        if negb thread_ok then (None, close_handles [LogFile; ReadEnd; WriteEnd] opened)
        else (Some (PipeLogger [] f true true opened [] false), opened)
    end.

Definition set_calls (cs : list call) (l : pipe_logger) : pipe_logger :=
  PipeLogger (pl_pipe l) (pl_log_fp l) (pl_running l) (pl_writer l) (pl_open l) cs (pl_freed l).
Definition set_open (hs : list log_handle) (l : pipe_logger) : pipe_logger :=
  PipeLogger (pl_pipe l) (pl_log_fp l) (pl_running l) (pl_writer l) hs (pl_calls l) (pl_freed l).

(** The writer thread: a read of [n] bytes goes to the file, up to a NUL. *)
Definition writer_read (n : nat) (l : pipe_logger) : pipe_logger :=
  PipeLogger (drop n (pl_pipe l)) (pl_log_fp l ++ cstr (take n (pl_pipe l))) (pl_running l) (pl_writer l) (pl_open l) (pl_calls l) (pl_freed l).
Definition writer_returns (l : pipe_logger) : pipe_logger :=
  PipeLogger (pl_pipe l) (pl_log_fp l) (pl_running l) false (pl_open l) (pl_calls l) (pl_freed l).

(** The statements of pipe_logger_destroy. *)
Definition destroy_begins (l : pipe_logger) : pipe_logger :=
  PipeLogger (pl_pipe l) (pl_log_fp l) false (pl_writer l) (pl_open l) (pl_calls l) (pl_freed l).
Definition close_write_end (l : pipe_logger) : pipe_logger := set_open (close_handles [WriteEnd] (pl_open l)) l.
Definition destroy_ends (l : pipe_logger) : pipe_logger := set_open (close_handles [ReadEnd; LogFile] (pl_open l)) l.
Definition destroy_frees (l : pipe_logger) : pipe_logger :=
  PipeLogger (pl_pipe l) (pl_log_fp l) (pl_running l) (pl_writer l) (pl_open l) (pl_calls l) true.

Definition sent (b : bytes) (l : pipe_logger) : pipe_logger :=
  PipeLogger (pl_pipe l ++ b) (pl_log_fp l) (pl_running l) (pl_writer l) (pl_open l) (pl_calls l) (pl_freed l).

(** One step of a handler, of the writer thread, or of the thread that destroys the
    logger; [es]: the messages that have gone into the pipe.  A handler tests
    [running], and later writes, with nothing to keep the logger alive in between.  A
    write of at most PIPE_BUF bytes is atomic and waits while the pipe, of [cap] bytes,
    has no room for it; when the descriptor is closed before it begins, the message is
    lost.  A read takes up to LOG_MSG_MAX - 1 bytes, and finds the end when the write
    end is closed and no write is under way. *)
Inductive log_step (cap : nat) : pipe_logger -> list entry -> pipe_logger -> Prop :=
  | log_enter l e junk b : pl_freed l = false -> pl_running l = true -> length junk = LOG_MSG_MAX ->
      log_message junk (en_stamp e) (Some (en_text e)) = Logged b -> log_step cap l [] (set_calls (pl_calls l ++ [Formatted e b]) l)
  | log_writes l i e b : pl_freed l = false -> pl_calls l !! i = Some (Formatted e b) -> WriteEnd ∈ pl_open l ->
      log_step cap l [] (set_calls (<[i := Writing e b]> (pl_calls l)) l)
  | log_loses l i e b : pl_freed l = false -> pl_calls l !! i = Some (Formatted e b) -> WriteEnd ∉ pl_open l ->
      log_step cap l [] (set_calls (delete i (pl_calls l)) l)
  | log_written l i e b : pl_calls l !! i = Some (Writing e b) -> (length (pl_pipe l) + length b <= cap)%nat ->
      log_step cap l [e] (set_calls (delete i (pl_calls l)) (sent b l))
  | log_read l n : pl_writer l = true -> (0 < n <= length (pl_pipe l))%nat -> (n <= LOG_MSG_MAX - 1)%nat ->
      log_step cap l [] (writer_read n l)
  | log_eof l : pl_writer l = true -> pl_pipe l = [] -> WriteEnd ∉ pl_open l -> Forall (fun c => is_writing c = false) (pl_calls l) ->
      log_step cap l [] (writer_returns l)
  | log_destroy l : pl_running l = true -> log_step cap l [] (destroy_begins l)
  | log_close l : pl_running l = false -> WriteEnd ∈ pl_open l -> log_step cap l [] (close_write_end l)
  | log_joined l : pl_running l = false -> WriteEnd ∉ pl_open l -> pl_writer l = false -> pl_open l <> [] -> log_step cap l [] (destroy_ends l)
  | log_free l : pl_running l = false -> pl_open l = [] -> pl_freed l = false -> log_step cap l [] (destroy_frees l).

(** A call reads [pipe_fds] of a logger that is freed. *)
Definition use_after_free (l : pipe_logger) : Prop := pl_freed l = true /\ exists i e b, pl_calls l !! i = Some (Formatted e b).

Inductive log_run (cap : nat) : pipe_logger -> list entry -> pipe_logger -> Prop :=
  | log_run_none l : log_run cap l [] l
  | log_run_more l es l1 es' l2 : log_step cap l es l1 -> log_run cap l1 es' l2 -> log_run cap l (es ++ es') l2.

Definition log_moves (cap : nat) (l l' : pipe_logger) : Prop := exists es, log_step cap l es l'.

(** ** No line is lost *)

(** A failed start leaves nothing open. *)
Lemma create_fails_clean calloc_ok pipe_ok log_file thread_ok : (pipe_logger_create calloc_ok pipe_ok log_file thread_ok).1 = None ->
  (pipe_logger_create calloc_ok pipe_ok log_file thread_ok).2 = [].
Proof. by destruct calloc_ok, pipe_ok, log_file, thread_ok. Qed.

(** A call holds what log_message made of its message. *)
Definition call_ok (c : call) : Prop :=
  match c with
  | Formatted e b | Writing e b => exists junk, length junk = LOG_MSG_MAX /\ log_message junk (en_stamp e) (Some (en_text e)) = Logged b
  end.

(** How far the destruction has come. *)
Definition log_phase (l : pipe_logger) : Prop :=
  (pl_writer l = true /\ pl_open l = [LogFile; ReadEnd; WriteEnd] /\ pl_freed l = false) \/
  (pl_running l = false /\ pl_open l = [LogFile; ReadEnd] /\ pl_freed l = false /\
    (pl_writer l = false -> pl_pipe l = [] /\ Forall (fun c => is_writing c = false) (pl_calls l))) \/
  (pl_running l = false /\ pl_open l = [] /\ pl_writer l = false /\ pl_pipe l = [] /\ Forall (fun c => is_writing c = false) (pl_calls l)).

(** The logger after the messages [es], started on a file with contents [f]. *)
Record log_inv (f : bytes) (es : list entry) (l : pipe_logger) : Prop := LogInv {
  li_text : pl_log_fp l ++ pl_pipe l = f ++ concat (log_line <$> es);
  li_pipe : str_ok (pl_pipe l);
  li_calls : Forall call_ok (pl_calls l);
  li_phase : log_phase l }.

Lemma log_line_ok e : entry_ok e -> str_ok (log_line e).
Proof. intros [H1 H2 _ _]. apply Forall_app. split; [done|]. apply Forall_app. split; [done|]. by repeat constructor. Qed.

Lemma has_write_end : WriteEnd ∈ [LogFile; ReadEnd; WriteEnd] /\ (WriteEnd ∉ [LogFile; ReadEnd]) /\ (WriteEnd ∉ ([] : list log_handle)).
Proof. split_and!; by apply (bool_decide_unpack _). Qed.

Lemma none_writing_delete i cs : Forall (fun c => is_writing c = false) cs -> Forall (fun c => is_writing c = false) (delete i cs).
Proof. apply Forall_delete. Qed.

Lemma log_phase_calls l cs : log_phase l -> (Forall (fun c => is_writing c = false) (pl_calls l) -> Forall (fun c => is_writing c = false) cs) ->
  log_phase (set_calls cs l).
Proof. intros [H|[(H1 & H2 & H3 & H4)|(H1 & H2 & H3 & H4 & H5)]] Hcs; [by left|right; left|by right; right; split_and!; auto].
  split_and!; [done..|]. cbn. intros Hw. destruct (H4 Hw). auto.
Qed.

Lemma log_step_inv cap f es l es' l' : log_inv f es l -> Forall entry_ok es' -> log_step cap l es' l' -> log_inv f (es ++ es') l'.
Proof.
  intros [H1 H2 H3 H4] Hes Hst. pose proof has_write_end as (W1 & W2 & W3).
  destruct Hst as [l e junk b Hf Hr Hj Hm|l i e b Hf Hi Ho|l i e b Hf Hi Ho|l i e b Hi Hc|l n Hw Hn Hm|l Hw Hp Ho Hc|l Hr|l Hr Ho|l Hr Ho Hw Hne|l Hr Ho Hf];
    rewrite ?app_nil_r.
  - constructor; [done|done| |].
    + apply Forall_app. split; [done|]. apply Forall_singleton. by exists junk.
    + destruct H4 as [?|[(Hf' & _)|(Hf' & _)]]; [by left|congruence..].
  - constructor; [done|done| |].
    + apply Forall_insert; [done|]. by apply (Forall_lookup_1 _ _ _ _ H3) in Hi.
    + destruct H4 as [?|[(_ & Hx & _)|(_ & Hx & _)]]; [by left|rewrite Hx in Ho; done..].
  - constructor; [done|done|by apply Forall_delete|]. apply log_phase_calls; [done|]. by apply Forall_delete.
  - apply Forall_cons in Hes as [He _]. pose proof (Forall_lookup_1 _ _ _ _ H3 Hi) as (junk & Hj & Hm).
    rewrite message_fits in Hm by done. injection Hm as <-. constructor; cbn.
    + rewrite fmap_app, concat_app, app_assoc, H1, <- app_assoc. cbn. by rewrite app_nil_r.
    + apply Forall_app. split; [done|]. by apply log_line_ok.
    + by apply Forall_delete.
    + assert (Hnot : ~ Forall (fun c => is_writing c = false) (pl_calls l)) by (intros Hn; by apply (Forall_lookup_1 _ _ _ _ Hn) in Hi).
      destruct H4 as [?|[(Hr & Ho & Hf & Hx)|(_ & _ & _ & _ & Hx)]]; [by left| |by destruct Hnot].
      right. left. split_and!; [done..|]. cbn. intros Hw. by destruct Hnot, (Hx Hw).
  - constructor; unfold writer_read; cbn; rewrite ?cstr_all by (by apply Forall_take); [|by apply Forall_drop|done|].
    + by rewrite <- app_assoc, take_drop.
    + destruct H4 as [?|[(Hr & Ho & Hf & Hx)|(_ & _ & Hx & _)]]; [by left| |congruence]. right. left. split_and!; [done..|]. cbn. congruence.
  - constructor; [done|done|done|]. right. left. destruct H4 as [(_ & Hx & _)|[(Hr & Hx & Hf & _)|(_ & _ & Hx & _)]]; [by rewrite Hx in Ho| |congruence].
    by split_and!.
  - constructor; [done|done|done|]. destruct H4 as [?|[(Hf & _)|(Hf & _)]]; [by left|congruence..].
  - constructor; [done|done|done|]. right. left. destruct H4 as [(Hw & Hx & Hf)|[(_ & Hx & _)|(_ & Hx & _)]]; [|by rewrite Hx in Ho..].
    unfold close_write_end. rewrite Hx. split_and!; [done..|]. cbn. congruence.
  - constructor; [done|done|done|]. right. right. destruct H4 as [(Hf & _)|[(_ & Hx & _ & Hy)|(_ & Hx & _)]]; [congruence| |done].
    unfold destroy_ends. rewrite Hx. cbn. destruct (Hy Hw). by split_and!.
  - constructor; [done|done|done|]. destruct H4 as [(_ & Hx & _)|[(_ & Hx & _)|?]]; [congruence..|by right; right].
Qed.

Lemma log_run_inv cap f l es' l' : log_run cap l es' l' -> forall es, log_inv f es l -> Forall entry_ok es' -> log_inv f (es ++ es') l'.
Proof.
  induction 1 as [l|l es1 l1 es2 l2 Hs _ IH]; intros es Hl Hes; [by rewrite app_nil_r|].
  apply Forall_app in Hes as [He1 He2]. rewrite app_assoc. apply IH; [|done]. by eapply log_step_inv.
Qed.

(** What is left to do once the logger is being destroyed. *)
Definition log_left (l : pipe_logger) : nat :=
  length (pl_pipe l) + (if pl_writer l then 1 else 0) + length (pl_open l) + (if pl_freed l then 0 else 1).

(** The destruction has begun and no call is under way. *)
Definition alone (l : pipe_logger) : Prop := pl_running l = false /\ pl_calls l = [].

Definition destroyed (f : bytes) (es : list entry) (l : pipe_logger) : Prop :=
  pl_open l = [] /\ pl_freed l = true /\ pl_log_fp l = f ++ concat (log_line <$> es).

Lemma stopping_goes_on cap f es l : log_inv f es l /\ alone l -> destroyed f es l \/ exists l', log_moves cap l l'.
Proof.
  intros [[H1 _ _ H4] [Hr Hc]]. pose proof has_write_end as (W1 & W2 & W3).
  destruct H4 as [(_ & Ho & _)|[(_ & Ho & Hf & Hp)|(_ & Ho & Hw & Hp & _)]].
  - right. eexists. eexists. apply log_close; [done|by rewrite Ho].
  - right. destruct (pl_writer l) eqn:Hw; [|eexists; eexists; by apply log_joined; rewrite ?Ho].
    destruct (pl_pipe l) as [|c p] eqn:E; eexists; eexists; [apply log_eof; [done..|by rewrite Ho|by rewrite Hc]|].
    apply (log_read _ l 1); [done|rewrite E; cbn; lia|unfold LOG_MSG_MAX; lia].
  - destruct (pl_freed l) eqn:Hf; [left|right; eexists; eexists; by apply log_free]. rewrite Hp, app_nil_r in H1. by split.
Qed.

Lemma log_stopping_step cap f es l l' : log_inv f es l /\ alone l -> log_moves cap l l' ->
  (log_inv f es l' /\ alone l') /\ (log_left l' < log_left l)%nat.
Proof.
  intros [Hi [Hr Hc]] [es' Hst].
  assert (Hes : es' = []) by (destruct Hst as [| | |l i e b Hi' _| | | | | |]; try done; by rewrite Hc in Hi'). subst es'.
  pose proof (log_step_inv cap f es l [] l' Hi (Forall_nil_2 _) Hst) as Hi'. rewrite app_nil_r in Hi'.
  destruct Hst as [l e junk b _ Hr'|l i e b _ Hx|l i e b _ Hx|l i e b Hx|l n Hw Hn Hm|l Hw Hp Ho _|l Hr'|l _ Ho|l _ Ho Hw Hne|l _ Ho Hf];
    try congruence; try (by rewrite Hc in Hx); (split; [done|]); unfold log_left; cbn [pl_pipe pl_writer pl_open pl_freed writer_read writer_returns close_write_end destroy_ends destroy_frees set_open].
  - rewrite Hw, length_drop. lia.
  - rewrite Hw. lia.
  - destruct (li_phase _ _ _ Hi) as [(_ & Hx & _)|[(_ & Hx & _)|(_ & Hx & _)]]; rewrite Hx in *; [|by apply has_write_end in Ho..].
    change (close_handles [WriteEnd] [LogFile; ReadEnd; WriteEnd]) with [LogFile; ReadEnd]. cbn [length]. lia.
  - destruct (li_phase _ _ _ Hi) as [(? & _)|[(_ & Hx & _)|(_ & Hx & _)]]; [congruence| |done].
    rewrite Hx. change (close_handles [ReadEnd; LogFile] [LogFile; ReadEnd]) with (@nil log_handle). cbn [length]. lia.
  - rewrite Hf. lia.
Qed.

Lemma stopping_ends cap f es l : log_inv f es l -> alone l -> inevitable (log_moves cap) (destroyed f es) l.
Proof.
  intros Hi Hr. apply (inevitable_acc _ _ (fun l => log_inv f es l /\ alone l) (fun a b => (log_left a < log_left b)%nat)); [| |apply (well_founded_ltof _ log_left)|done].
  - intros. by apply (log_stopping_step cap).
  - intros. by apply stopping_goes_on.
Qed.

(** The writer thread empties the pipe. *)
Lemma drains cap n : forall l, (length (pl_pipe l) <= n)%nat -> pl_writer l = true ->
  exists l', log_run cap l [] l' /\ pl_pipe l' = [] /\ pl_calls l' = pl_calls l.
Proof.
  induction n as [|n IH]; intros l Hl Hw; (destruct (pl_pipe l) as [|c p] eqn:E; [exists l; split; [constructor|done]|]); cbn in Hl; [lia|].
  set (l1 := writer_read 1 l).
  destruct (IH l1) as (l' & H1 & H2 & H3); [unfold l1, writer_read; cbn [pl_pipe]; rewrite length_drop, E; cbn [length]; lia|done|].
  exists l'. split; [|done]. apply (log_run_more _ _ [] l1 [] l'); [|done].
  apply (log_read _ l 1); [done|rewrite E; cbn; lia|unfold LOG_MSG_MAX; lia].
Qed.

Lemma logged_length junk stamp text b : log_message junk stamp text = Logged b -> (length b <= LOG_MSG_MAX)%nat.
Proof.
  unfold log_message. destruct text as [text|]; [|done]. destruct (_ =? 0)%nat; [done|].
  match goal with |- context [let '(msg, total) := ?x in _] => destruct x as [msg total] end.
  destruct (Nat.leb_spec total LOG_MSG_MAX); [|done]. intros [= <-]. rewrite length_take. lia.
Qed.

(** A call that is in write() gets its room. *)
Lemma write_returns cap f es l i e b : log_inv f es l -> (LOG_MSG_MAX <= cap)%nat -> pl_calls l !! i = Some (Writing e b) ->
  exists l1 l2, log_run cap l [] l1 /\ log_step cap l1 [e] l2.
Proof.
  intros [_ _ H3 H4] Hcap Hi. pose proof (Forall_lookup_1 _ _ _ _ H3 Hi) as (junk & _ & Hm). apply logged_length in Hm.
  assert (Hnot : ~ Forall (fun c => is_writing c = false) (pl_calls l)) by (intros Hn; by apply (Forall_lookup_1 _ _ _ _ Hn) in Hi).
  assert (Hw : pl_writer l = true).
  { destruct H4 as [(? & _)|[(_ & _ & _ & Hx)|(_ & _ & _ & _ & Hx)]]; [done| |done]. destruct (pl_writer l); [done|]. by destruct (Hx eq_refl). }
  destruct (drains cap _ l (le_n _) Hw) as (l1 & H1 & H2 & Hc). eexists l1, _. split; [done|]. rewrite <- Hc in Hi.
  apply (log_written cap l1 i e b Hi). rewrite H2. cbn. lia.
Qed.

Lemma run_then cap l es l1 l2 : log_run cap l [] l1 -> log_step cap l1 es l2 -> log_run cap l es l2.
Proof.
  remember [] as none eqn:E. intros Hrun Hst. induction Hrun as [l|l es1 l1 es2 l2' Hs _ IH].
  - rewrite <- (app_nil_r es). exact (log_run_more _ l es l2 [] l2 Hst (log_run_none _ _)).
  - apply app_nil in E as [-> ->]. apply (log_run_more _ l [] l1 es l2 Hs). by apply IH.
Qed.

(** While [running] is set any message can be logged. *)
Lemma can_log cap f es l e : log_inv f es l -> (LOG_MSG_MAX <= cap)%nat -> pl_running l = true -> entry_ok e -> exists l1, log_run cap l [e] l1.
Proof.
  intros Hi Hcap Hr He. destruct (li_phase _ _ _ Hi) as [(Hw & Ho & Hf)|[(? & _)|(? & _)]]; [|congruence..].
  set (junk := replicate LOG_MSG_MAX 0). pose proof (message_fits junk e (length_replicate _ _) He) as Hm.
  set (n := length (pl_calls l)). set (l1 := set_calls (pl_calls l ++ [Formatted e (log_line e)]) l).
  set (l2 := set_calls (<[n := Writing e (log_line e)]> (pl_calls l1)) l1).
  assert (S1 : log_step cap l [] l1) by (by apply (log_enter cap l e junk)).
  assert (E1 : pl_calls l1 !! n = Some (Formatted e (log_line e))) by by apply list_lookup_middle.
  assert (S2 : log_step cap l1 [] l2) by (apply (log_writes cap l1 n e _ Hf E1); cbn; rewrite Ho; apply has_write_end).
  assert (E2 : pl_calls l2 !! n = Some (Writing e (log_line e))) by (apply list_lookup_insert_eq; by apply lookup_lt_Some in E1).
  assert (Hi2 : log_inv f ((es ++ []) ++ []) l2) by (apply (log_step_inv cap f _ l1 [] l2); [|done|done]; by apply (log_step_inv cap f es l [] l1)).
  destruct (write_returns cap f _ l2 n e _ Hi2 Hcap E2) as (l3 & l4 & Hrun & Hst). exists l4.
  apply (log_run_more _ _ [] l1 [e] l4 S1), (log_run_more _ _ [] l2 [e] l4 S2). by apply (run_then cap l2 [e] l3).
Qed.

(** C35: the log pipe tears and reorders nothing.  However calls of pipe_logger_write,
    the writer thread's reads and the destruction of the logger interleave, the file
    and what is still in the pipe are together the old contents and the lines of the
    messages that went into the pipe, whole and in that order; a call that waits in
    write() for room gets it, and while the logger runs any message can be logged.  A
    destruction that finds no call under way, as in server_shutdown, where
    tcp_server_destroy has joined the workers before, ends whatever runs first, with
    everything closed and every line in the file.  Calls that are under way then are
    not covered: see [destroy_races]. *)
Theorem log_lines_whole cap f l0 hs es l :
  pipe_logger_create true true (Some f) true = (Some l0, hs) -> log_run cap l0 es l -> Forall entry_ok es -> (LOG_MSG_MAX <= cap)%nat ->
  pl_log_fp l ++ pl_pipe l = f ++ concat (log_line <$> es) /\
  (forall i e b, pl_calls l !! i = Some (Writing e b) -> exists l1 l2, log_run cap l [] l1 /\ log_step cap l1 [e] l2) /\
  (pl_running l = true -> forall e, entry_ok e -> exists l1, log_run cap l [e] l1) /\
  (pl_running l = false -> pl_calls l = [] ->
     inevitable (log_moves cap) (fun l' => pl_open l' = [] /\ pl_freed l' = true /\ pl_log_fp l' = f ++ concat (log_line <$> es)) l).
Proof.
  intros [= <- <-] Hrun Hes Hcap.
  assert (Hi : log_inv f es l).
  { apply (log_run_inv cap f _ es l Hrun []); [|done]. constructor; cbn; [done|constructor|constructor|by left]. }
  split; [apply Hi|]. split; [intros i e b; by apply (write_returns cap f es)|]. split; [intros; by apply (can_log cap f es)|].
  intros. by apply stopping_ends.
Qed.

(** A message on its way, up to the start of the destruction. *)
Definition parting : entry := Entry (lit "[2024-05-01 19:30:00] ") (message_text (ClientDisconnected 7)).

Lemma parting_ok : entry_ok parting.
Proof. apply server_message_fits; [by apply (bool_decide_unpack _); vm_compute|vm_compute; lia|intros fd [= <-]; lia]. Qed.

Definition logger_at (pipe file : bytes) (running writer : bool) (hs : list log_handle) (cs : list call) (freed : bool) : pipe_logger :=
  PipeLogger pipe file running writer hs cs freed.

Lemma parting_enters cap file hs cs :
  log_step cap (logger_at [] file true true hs cs false) [] (logger_at [] file true true hs (cs ++ [Formatted parting (log_line parting)]) false).
Proof.
  exact (log_enter cap (logger_at [] file true true hs cs false) parting (replicate LOG_MSG_MAX 0) (log_line parting) eq_refl eq_refl
    (length_replicate _ _) (message_fits _ _ (length_replicate _ _) parting_ok)).
Qed.

(** The test of [running] keeps nobody out: a call that has passed it when the
    destruction begins loses its line, or reads the logger after it was freed. *)
Example destroy_races :
  let l0 := logger_at [] [] true true [LogFile; ReadEnd; WriteEnd] [] false in
  (exists l, log_run 4096 l0 [] l /\ pl_running l = false /\ pl_calls l = [] /\ pl_pipe l = [] /\ pl_log_fp l = [] /\
     exists l', log_run 4096 l0 [] l' /\ pl_running l' = true /\ pl_calls l' = [Formatted parting (log_line parting)] /\ log_run 4096 l' [] l) /\
  exists l, log_run 4096 l0 [] l /\ use_after_free l.
Proof.
  pose proof has_write_end as (W1 & W2 & W3). pose (c := Formatted parting (log_line parting)). cbv zeta.
  pose (l1 := logger_at [] [] true true [LogFile; ReadEnd; WriteEnd] [c] false).
  pose (l2 := logger_at [] [] false true [LogFile; ReadEnd] [c] false).
  assert (R1 : log_step 4096 (logger_at [] [] true true [LogFile; ReadEnd; WriteEnd] [] false) [] l1) by apply parting_enters.
  assert (R2 : forall l, log_run 4096 l2 [] l -> log_run 4096 l1 [] l).
  { intros l Hl. apply (log_run_more _ _ [] (logger_at [] [] false true [LogFile; ReadEnd; WriteEnd] [c] false) [] l); [by apply (log_destroy _ l1)|].
    apply (log_run_more _ _ [] l2 [] l); [by apply (log_close _ (logger_at [] [] false true [LogFile; ReadEnd; WriteEnd] [c] false))|done]. }
  split.
  - pose (l3 := logger_at [] [] false true [LogFile; ReadEnd] [] false).
    assert (R3 : log_run 4096 l2 [] l3) by (apply (log_run_more _ _ [] l3 [] l3); [by apply (log_loses _ l2 0 parting (log_line parting))|constructor]).
    exists l3. split; [by apply (log_run_more _ _ [] l1 [] l3), R2|]. split_and!; [done..|]. exists l1. split_and!; [|done|done|by apply R2].
    by apply (log_run_more _ _ [] l1 [] l1); [|constructor].
  - pose (l3 := logger_at [] [] false false [LogFile; ReadEnd] [c] false). pose (l4 := logger_at [] [] false false [] [c] false).
    exists (logger_at [] [] false false [] [c] true). split; [|split; [done|by exists 0%nat, parting, (log_line parting)]].
    apply (log_run_more _ _ [] l1 [] _ R1), R2. apply (log_run_more _ _ [] l3 [] _); [apply (log_eof _ l2); [done..|by repeat constructor]|].
    apply (log_run_more _ _ [] l4 [] _); [by apply (log_joined _ l3)|]. apply (log_run_more _ _ [] (logger_at [] [] false false [] [c] true) [] _); [by apply (log_free _ l4)|constructor].
Qed.

Lemma log_lines_whole_witness :
  let l0 := logger_at [] (lit "old" ++ [10]) true true [LogFile; ReadEnd; WriteEnd] [] false in
  exists l, log_run 4096 l0 [parting] l /\ pl_running l = false /\ pl_log_fp l = lit "old" ++ [10] /\
    inevitable (log_moves 4096) (fun l' => pl_open l' = [] /\ pl_freed l' = true /\
      pl_log_fp l' = lit "old" ++ [10] ++ lit "[2024-05-01 19:30:00] Client fd=7 disconnected" ++ [10]) l.
Proof.
  intros l0. pose proof has_write_end as (W1 & _). pose proof parting_ok as He. pose (line := log_line parting).
  pose (at_ := fun pipe running cs => logger_at pipe (lit "old" ++ [10]) running true [LogFile; ReadEnd; WriteEnd] cs false).
  assert (Hrun : log_run 4096 l0 [parting] (at_ line false [])).
  { apply (log_run_more _ _ [] (at_ [] true [Formatted parting line]) [parting] _).
    { apply parting_enters. }
    apply (log_run_more _ _ [] (at_ [] true [Writing parting line]) [parting] _); [by apply (log_writes _ (at_ [] true [Formatted parting line]) 0)|].
    apply (log_run_more _ _ [parting] (at_ line true []) [] _).
    { apply (log_written _ (at_ [] true [Writing parting line]) 0 parting line); [done|]. apply Nat.leb_le. by vm_compute. }
    apply (log_run_more _ _ [] (at_ line false []) [] _); [by apply (log_destroy _ (at_ line true []))|constructor]. }
  exists (at_ line false []). split; [exact Hrun|]. split; [done|]. split; [done|].
  destruct (log_lines_whole 4096 (lit "old" ++ [10]) l0 _ [parting] _ eq_refl Hrun) as (_ & _ & _ & H); [by constructor|apply Nat.leb_le; by vm_compute|].
  exact (H eq_refl eq_refl).
Defined.
