(* ===== verification/Client.v ===== *)
(** * The command-line client (client/client.c), and the options of both programs

    The client's loop over select: what the server sends goes to the screen, what the
    user types goes to the server, line by line, until quit or exit.  Standard input
    is read through stdio: fgets keeps in its buffer what a read() brought beyond the
    line, and select does not see it. *)

From stdpp Require Import base tactics numbers list strings.
From Stdlib Require Import ZArith Lia.
From S2P Require Import Prelude Utils Printf Calls Protocol Auth Server Threads.

#[local] Open Scope Z_scope.

(** ** Options *)

Definition SERVER_PORT : Z := 9090.
Definition THREAD_POOL_SIZE : Z := 16.

(** The arguments behind argv[0]; [None]: the help text and no more. *)
Fixpoint client_options (args : list bytes) (host : bytes) (port : Z) : option (bytes * Z) :=
  match args with
  | [] => Some (host, port)
  | a :: rest =>
      match rest with
      | v :: rest' =>
          if strcmp_eq a (lit "-h") then client_options rest' v port
          else if strcmp_eq a (lit "-p") then client_options rest' host (atoi v)
          else if strcmp_eq a (lit "--help") then None
          else client_options rest host port
      | [] => if strcmp_eq a (lit "--help") then None else Some (host, port)
      end
  end.

(** The server's: port, threads, and whether -v was given. *)
Fixpoint server_options (args : list bytes) (port threads : Z) (verbose : bool) : option (Z * Z * bool) :=
  match args with
  | [] => Some (port, threads, verbose)
  | a :: rest =>
      let is_help := strcmp_eq a (lit "-h") || strcmp_eq a (lit "--help") in
      match rest with
      | v :: rest' =>
          if strcmp_eq a (lit "-p") then server_options rest' (atoi v) threads verbose
          else if strcmp_eq a (lit "-t") then server_options rest' port (atoi v) verbose
          else if strcmp_eq a (lit "-v") then server_options rest port threads true
          else if is_help then None
          else server_options rest port threads verbose
      | [] =>
          if strcmp_eq a (lit "-v") then Some (port, threads, true)
          else if is_help then None
          else Some (port, threads, verbose)
      end
  end.

Example options :
  client_options [lit "-h"; lit "10.0.0.7"; lit "-p"; lit "8080"; lit "-x"] (lit "127.0.0.1") SERVER_PORT = Some (lit "10.0.0.7", 8080) /\
  client_options [lit "-p"] (lit "127.0.0.1") SERVER_PORT = Some (lit "127.0.0.1", 9090) /\
  server_options [lit "-v"; lit "-t"; lit "4"; lit "-p"] SERVER_PORT THREAD_POOL_SIZE false = Some (9090, 4, true) /\
  server_options [lit "-p"; lit "-h"; lit "-h"] SERVER_PORT THREAD_POOL_SIZE false = None.
Proof. by vm_compute. Qed.

(** ** Connecting *)

(** [sock]: the descriptor; [address]: what inet_pton makes of the host; [connected]:
    whether connect succeeds.  The descriptor or -1, and what is left open. *)
Definition connect_to_server (sock : Z) (address : option Z) (connected : bool) : Z * list Z :=
  if sock <? 0 then (-1, [])
  else match address with
       | None => (-1, [])
       | Some _ => if connected then (sock, [sock]) else (-1, [])
       end.

(** ** Standard input *)

(** The stdio buffer; what the reads of the descriptor to come will bring, behind which
    is the end of the input; and how much of that has arrived and waits to be read, the
    end counted as one. *)
Record stdin := Stdin { si_buf : bytes; si_input : list bytes; si_arrived : nat }.

(** [k] more arrive. *)
Definition arrive (k : nat) (s : stdin) : stdin :=
  Stdin (si_buf s) (si_input s) (Nat.min (si_arrived s + k) (S (length (si_input s)))).

(** What select() says of the descriptor: it does not see the stdio buffer. *)
Definition readable (s : stdin) : bool := (0 <? si_arrived s)%nat.

(** From the buffer: at most [n] bytes up to a newline; whether that ends the line. *)
Fixpoint fgets_buf (n : nat) (buf : bytes) : bytes * bytes * bool :=
  match n, buf with
  | O, _ => ([], buf, true)
  | S _, [] => ([], [], false)
  | S n', c :: buf' =>
      if c =? 10 then ([c], buf', true)
      else let '(l, rest, ended) := fgets_buf n' buf' in (c :: l, rest, ended)
  end.

(** A read() of the descriptor waits for what has not arrived. *)
Fixpoint fgets_read (n : nat) (buf : bytes) (input : list bytes) (arrived : nat) : bytes * stdin :=
  let '(l, rest, ended) := fgets_buf n buf in
  if ended then (l, Stdin rest input arrived)
  else match input with
       | [] => (l, Stdin [] [] 1)
       | [] :: input' => (l, Stdin [] input' (arrived - 1))
       | chunk :: input' => let '(l', s) := fgets_read (n - length l) chunk input' (arrived - 1) in (l ++ l', s)
       end.

(** fgets(buf, size, stdin); [None] is NULL, at the end of the input. *)
Definition fgets (size : nat) (s : stdin) : option bytes * stdin :=
  let '(l, s') := fgets_read (size - 1) (si_buf s) (si_input s) (si_arrived s) in
  (match l with [] => None | _ => Some l end, s').

(** ** The loop *)

(** What happens in one turn, from outside.  [rd_arrives]: how much arrives on standard
    input before select looks; [rd_server]: the socket is ready, and what read() gives,
    [None] or nothing when the server is gone; [rd_written]: how many bytes write()
    takes, [None] for an error; [rd_bye]: what the read() behind QUIT gives. *)
Inductive turn :=
  | SelectInterrupted                     (* EINTR *)
  | SelectFails
  | Turn (rd_arrives : nat) (rd_server : option (option bytes)) (rd_written : option nat) (rd_bye : option bytes).

Record client := Client { cl_stdin : stdin; cl_screen : bytes; cl_sent : bytes }.

Definition show (text : bytes) (c : client) : client := Client (cl_stdin c) (cl_screen c ++ text) (cl_sent c).

(** strncasecmp against a word of four letters. *)
Definition starts_with (word buf : bytes) : bool := bool_decide (tolower <$> take (length word) buf = tolower <$> word).

Definition is_quit (buf : bytes) : bool := starts_with (lit "quit") buf || starts_with (lit "exit") buf.

(** read() brings at most sizeof(buf) - 1 bytes, printed as a string. *)
Definition received (data : bytes) : bytes := cstr (take (Z.to_nat MAX_RESPONSE_SIZE - 1) data).

(** The part of the loop body that reads standard input: [inr] ends the loop. *)
Definition user_turn (strerror : bytes) (c : client) (written : option nat) (bye : option bytes) : client + client :=
  match fgets (Z.to_nat MAX_RESPONSE_SIZE) (cl_stdin c) with
  | (None, si) => inr (Client si (cl_screen c) (cl_sent c))
  | (Some line, si) =>
      let buf := cstr line in
      if is_quit buf then
        let sent := match written with Some n => take n (lit "QUIT" ++ [10]) | None => [] end in
        let c := Client si (cl_screen c) (cl_sent c ++ sent) in
        inr (match bye with Some data => show (received data) c | None => c end)
      else
        match written with
        | Some n => inl (Client si (cl_screen c) (cl_sent c ++ take n buf))
        | None => inr (show (lit "  Error sending command: " ++ strerror ++ [10]) (Client si (cl_screen c) (cl_sent c)))
        end
  end.

Definition set_stdin (si : stdin) (c : client) : client := Client si (cl_screen c) (cl_sent c).

(** The loop body: [inl] for another turn.  With neither descriptor ready select goes on
    waiting. *)
Definition client_turn (strerror : bytes) (t : turn) (c : client) : client + client :=
  match t with
  | SelectInterrupted => inl c
  | SelectFails => inr c
  | Turn arrives server written bye =>
      let c := set_stdin (arrive arrives (cl_stdin c)) c in
      let user := readable (cl_stdin c) in
      match server with
      | Some (None | Some []) => inr (show ([10] ++ lit "  Server disconnected." ++ [10]) c)
      | _ =>
          let c := match server with Some (Some data) => show (received data) c | _ => c end in
          if user then user_turn strerror c written bye else inl c
      end
  end.

(** main from the connection on: [inl] while the loop runs. *)
Fixpoint client_run (strerror : bytes) (ts : list turn) (c : client) : client + client :=
  match ts with
  | [] => inl c
  | t :: ts' =>
      match client_turn strerror t c with
      | inl c' => client_run strerror ts' c'
      | inr c' => inr (show (lit "  Disconnected." ++ [10; 10]) c')
      end
  end.

Definition client_start (input : list bytes) : client :=
  Client (Stdin [] input 0) (lit "  Connected! Type commands or HELP for usage." ++ [10; 10]) [].

(** ** What the user types is what the server gets *)

Definition si_text (s : stdin) : bytes := si_buf s ++ concat (si_input s).
Definition si_ok (s : stdin) : Prop := Forall (fun chunk => chunk <> []) (si_input s).

Lemma fgets_buf_line t rest : forall n, Forall (fun c => c <> 10) t -> (length t < n)%nat ->
  fgets_buf n (t ++ 10 :: rest) = (t ++ [10], rest, true).
Proof.
  induction t as [|c t IH]; intros n Ht Hn; (destruct n as [|n]; [cbn in Hn; lia|]); [done|].
  apply Forall_cons in Ht as [Hc Ht]. cbn [app fgets_buf]. destruct (Z.eqb_spec c 10); [done|]. rewrite IH; [done..|cbn in Hn; lia].
Qed.

Lemma fgets_buf_part buf : forall n, Forall (fun c => c <> 10) buf -> (length buf < n)%nat -> fgets_buf n buf = (buf, [], false).
Proof.
  induction buf as [|c buf IH]; intros n Ht Hn; (destruct n as [|n]; [cbn in Hn; lia|]); [done|].
  apply Forall_cons in Ht as [Hc Ht]. cbn [fgets_buf]. destruct (Z.eqb_spec c 10); [done|]. rewrite IH; [done..|cbn in Hn; lia].
Qed.

(** What one read() of a terminal brings: at most one line. *)
Definition line_chunk (chunk : bytes) : Prop := Forall (fun c => c <> 10) (removelast chunk).

Lemma line_chunk_end a k : line_chunk (a ++ 10 :: k) -> k = [].
Proof.
  unfold line_chunk. rewrite removelast_app by done. intros [_ H]%Forall_app. destruct k as [|x k]; [done|].
  change (removelast (10 :: x :: k)) with (10 :: removelast (x :: k)) in H. by apply Forall_cons in H as [[] _].
Qed.

(** However the reads cut the input, fgets returns a whole line. *)
Lemma fgets_line input : forall n t buf rest arrived, Forall (fun chunk => chunk <> []) input -> Forall (fun c => c <> 10) t -> (length t < n)%nat ->
  buf ++ concat input = t ++ 10 :: rest ->
  exists s, fgets_read n buf input arrived = (t ++ [10], s) /\ si_text s = rest /\ si_ok s /\
    (length (si_input s) <= length input)%nat /\ si_arrived s = (arrived - (length input - length (si_input s)))%nat /\
    (Forall line_chunk input -> Forall line_chunk (si_input s)) /\
    (Forall line_chunk input -> Forall (fun c => c <> 10) buf \/ line_chunk buf -> si_buf s = []).
Proof.
  induction input as [|chunk input IH]; intros n t buf rest arrived Hne Ht Hn E.
  - rewrite app_nil_r in E. subst buf. cbn [fgets_read]. rewrite fgets_buf_line by done. exists (Stdin rest [] arrived).
    split; [done|]. split; [apply app_nil_r|]. split; [constructor|]. cbn. split; [lia|]. split; [lia|]. split; [done|].
    intros _ [Hb|Hb]; [|by apply line_chunk_end in Hb]. apply Forall_app in Hb as [_ Hb]. by apply Forall_cons in Hb as [[] _].
  - apply Forall_cons in Hne as [Hc Hne].
    assert (Hread : forall u, Forall (fun c => c <> 10) buf -> t = buf ++ u -> concat (chunk :: input) = u ++ 10 :: rest ->
      exists s, fgets_read n buf (chunk :: input) arrived = (t ++ [10], s) /\ si_text s = rest /\ si_ok s /\
        (length (si_input s) <= length (chunk :: input))%nat /\ si_arrived s = (arrived - (length (chunk :: input) - length (si_input s)))%nat /\
        (Forall line_chunk (chunk :: input) -> Forall line_chunk (si_input s)) /\
        (Forall line_chunk (chunk :: input) -> Forall (fun c => c <> 10) buf \/ line_chunk buf -> si_buf s = [])).
    { intros u Hb -> Eu. apply Forall_app in Ht as [_ Hu]. rewrite length_app in Hn. cbn [fgets_read]. rewrite fgets_buf_part by (done || lia).
      destruct chunk as [|d chunk]; [done|].
      destruct (IH (n - length buf)%nat u (d :: chunk) rest (arrived - 1)%nat Hne Hu ltac:(lia) Eu) as (s & -> & H1 & H2 & H3 & H4 & H5 & H6).
      exists s. split; [by rewrite app_assoc|]. split; [done|]. split; [done|]. cbn [length]. split; [lia|]. split; [lia|].
      split; intros [Hl1 Hl2]%Forall_cons; [by apply H5|]. intros _. apply H6; [done|by right]. }
    destruct (app_eq_inv _ _ _ _ E) as [(k & -> & Ek)|(k & -> & Ek)].
    + destruct k as [|d k]; cbn [app] in Ek; [rewrite app_nil_r in *; by apply (Hread []); rewrite ?app_nil_r|].
      injection Ek as <- ->. cbn [fgets_read]. rewrite fgets_buf_line by done. exists (Stdin k (chunk :: input) arrived).
      split; [done|]. split; [done|]. split; [by constructor|]. cbn [si_input si_arrived si_buf]. split; [done|]. split; [lia|]. split; [done|].
      intros _ [Hb|Hb]; [|by apply line_chunk_end in Hb]. apply Forall_app in Hb as [_ Hb]. by apply Forall_cons in Hb as [[] _].
    + apply (Hread k); [by apply Forall_app in Ht as [? _]|done|done].
Qed.

(** Lines a terminal can send: no NUL, and shorter than the client's buffer. *)
Definition typed (t : bytes) : Prop :=
  str_ok t /\ Forall (fun c => c <> 10) t /\ (length t < Z.to_nat MAX_RESPONSE_SIZE - 1)%nat.

#[export] Instance typed_dec t : Decision (typed t).
Proof. unfold typed, str_ok. apply _. Defined.

Definition newline (t : bytes) : bytes := t ++ [10].

(** How far the input is from having arrived: [true] when all of it has, up to the end
    that was typed too, or from a terminal up to the last line; then whatever is left to
    read makes select report standard input. *)
Definition all_arrived (s : stdin) : Prop :=
  (S (length (si_input s)) <= si_arrived s)%nat \/
  ((length (si_input s) <= si_arrived s)%nat /\ Forall line_chunk (si_input s) /\ si_buf s = []).

(** [s'] is [s] after some reads of whole lines, with nothing new. *)
Record read_on (s s' : stdin) : Prop := ReadOn {
  ro_input : (length (si_input s') <= length (si_input s))%nat;
  ro_arrived : si_arrived s' = (si_arrived s - (length (si_input s) - length (si_input s')))%nat;
  ro_chunks : Forall line_chunk (si_input s) -> Forall line_chunk (si_input s');
  ro_buf : Forall line_chunk (si_input s) -> si_buf s = [] -> si_buf s' = [] }.

Lemma all_arrived_read s s' : all_arrived s -> read_on s s' -> all_arrived s'.
Proof.
  intros [H|(H1 & H2 & H3)] [R1 R2 R3 R4]; [left; lia|right]. split; [lia|]. split; [by apply R3|by apply R4].
Qed.

Lemma all_arrived_more k s : all_arrived s -> all_arrived (arrive k s).
Proof. intros [H|(H1 & H2 & H3)]; [left; cbn; lia|right]. split; [cbn; lia|done]. Qed.

Lemma all_arrived_readable s t rest : all_arrived s -> si_text s = newline t ++ rest -> readable s = true.
Proof.
  unfold readable. intros H E. apply Nat.ltb_lt. destruct H as [H|(H1 & H2 & H3)]; [lia|].
  unfold si_text in E. rewrite H3 in E. destruct (si_input s) as [|c l]; [|cbn in H1; lia].
  unfold newline in E. destruct t; done.
Qed.

Lemma client_fgets t s rest : typed t -> si_ok s -> si_text s = newline t ++ rest ->
  exists s', fgets (Z.to_nat MAX_RESPONSE_SIZE) s = (Some (newline t), s') /\ si_text s' = rest /\ si_ok s' /\ read_on s s' /\
    cstr (newline t) = newline t.
Proof.
  intros (Hs & Ht & Hl) Hok E. unfold newline in E. rewrite <- app_assoc in E.
  destruct (fgets_line (si_input s) _ t (si_buf s) rest (si_arrived s) Hok Ht Hl E) as (s' & Ef & H1 & H2 & H3 & H4 & H5 & H6).
  exists s'. unfold fgets. rewrite Ef.
  split; [by destruct t|]. split; [done|]. split; [done|].
  split; [constructor; [done..|]; intros Hc Hb; apply H6; [done|left; by rewrite Hb]|].
  apply cstr_all, Forall_app. split; [done|]. by repeat constructor.
Qed.

(** A turn without accidents: the server sends text, and the socket takes what is written. *)
Definition turn_ok (t : turn) : Prop :=
  match t with
  | SelectInterrupted => True
  | SelectFails => False
  | Turn _ server written bye =>
      match server with
      | Some (Some data) => data <> [] /\ str_ok data /\ (length data < Z.to_nat MAX_RESPONSE_SIZE)%nat
      | Some None => False
      | None => True
      end /\
      (exists n, written = Some n /\ (Z.to_nat MAX_RESPONSE_SIZE <= n)%nat) /\
      match bye with Some data => str_ok data /\ (length data < Z.to_nat MAX_RESPONSE_SIZE)%nat | None => True end
  end.

(** What a turn's reads of the socket bring, what arrives on standard input, and whether
    select returns. *)
Definition shown (t : turn) : bytes := match t with Turn _ (Some (Some data)) _ _ => data | _ => [] end.
Definition farewell (t : turn) : bytes := match t with Turn _ _ _ (Some data) => data | _ => [] end.
Definition arrivals (t : turn) : nat := match t with Turn k _ _ _ => k | _ => 0 end.
Definition selects (t : turn) : nat := match t with Turn _ _ _ _ => 1 | _ => 0 end.

(** Standard input when select looks at it. *)
Definition look (t : turn) (s : stdin) : stdin := match t with Turn k _ _ _ => arrive k s | _ => s end.

Lemma look_spec t s : si_input (look t s) = si_input s /\ si_buf (look t s) = si_buf s /\
  (Nat.min (S (length (si_input s))) (si_arrived s + arrivals t) <= si_arrived (look t s))%nat.
Proof. destruct t; (split; [done|]; split; [done|]); cbn [look arrive arrivals si_arrived]; lia. Qed.

Lemma received_all data : str_ok data -> (length data < Z.to_nat MAX_RESPONSE_SIZE)%nat -> received data = data.
Proof. intros Hs Hl. unfold received. rewrite take_ge by lia. by apply cstr_all. Qed.

Lemma show_nil c : show [] c = c.
Proof. destruct c. unfold show. cbn. by rewrite app_nil_r. Qed.

Lemma turn_shows err k server written bye c : let t := Turn k server written bye in turn_ok t ->
  client_turn err t c =
    let c1 := show (shown t) (set_stdin (arrive k (cl_stdin c)) c) in
    if readable (cl_stdin c1) then user_turn err c1 written bye else inl c1.
Proof.
  cbv zeta. cbn [turn_ok client_turn shown]. intros [Hs _]. destruct server as [[data|]|]; [|done|by rewrite show_nil].
  destruct Hs as (Hne & Hs & Hl). destruct data as [|d data]; [done|]. by rewrite received_all.
Qed.

(** ** One turn *)

Section session.
Context (err : bytes) (q : bytes) (rest : bytes) (Hq : typed q) (Hqq : is_quit (newline q) = true).

(** The client has the lines [ls] to send, then to quit. *)
Record to_send (ls : list bytes) (c : client) : Prop := ToSend {
  ts_lines : Forall typed ls;
  ts_plain : Forall (fun t => is_quit (newline t) = false) ls;
  ts_ok : si_ok (cl_stdin c);
  ts_text : si_text (cl_stdin c) = concat (newline <$> ls) ++ newline q ++ rest }.

(** A turn from [c] to [c'] that sends the lines [sent]. *)
Record turned (t : turn) (sent : list bytes) (c c' : client) : Prop := Turned {
  td_screen : cl_screen c' = cl_screen c ++ shown t;
  td_sent : cl_sent c' = cl_sent c ++ concat (newline <$> sent);
  td_stdin : read_on (look t (cl_stdin c)) (cl_stdin c') }.

Lemma read_on_refl s : read_on s s.
Proof using. constructor; auto. lia. Qed.

(** A turn sends the next line when standard input is ready, and otherwise none; when
    there is none before it the client quits. *)
Lemma one_turn t ls c : turn_ok t -> to_send ls c ->
  (exists c', client_turn err t c = inl c' /\ turned t [] c c' /\ to_send ls c' /\
     (readable (look t (cl_stdin c)) = false \/ selects t = 0%nat)) \/
  (exists l ls' c', ls = l :: ls' /\ client_turn err t c = inl c' /\ turned t [l] c c' /\ to_send ls' c') \/
  (exists c', ls = [] /\ client_turn err t c = inr c' /\
     cl_screen c' = cl_screen c ++ shown t ++ farewell t /\ cl_sent c' = cl_sent c ++ newline (lit "QUIT")).
Proof using Hq Hqq.
  intros Ht Hc. pose proof Hc as [H1 H2 H3 H4]. destruct t as [| |k server written bye]; [|done|].
  { left. exists c. split; [done|]. split; [|split; [done|by right]]. constructor; cbn; rewrite ?app_nil_r; try done. apply read_on_refl. }
  pose proof (turn_shows err k server written bye c Ht) as E. cbv zeta in E. set (t := Turn k server written bye) in *.
  set (c1 := show (shown t) (set_stdin (arrive k (cl_stdin c)) c)) in *. rewrite E. clear E. destruct (readable (cl_stdin c1)) eqn:Er.
  2:{ left. exists c1. split; [done|]. split; [|split; [by constructor|by left]]. constructor; [done|by cbn; rewrite app_nil_r|apply read_on_refl]. }
  right. destruct Ht as (_ & (n & Hw & Hn) & Hbye). unfold user_turn. destruct ls as [|l ls].
  - right. destruct (client_fgets q (cl_stdin c1) rest Hq H3 H4) as (s' & -> & _ & _ & _ & ->). rewrite Hqq, Hw. eexists. split; [done|]. split; [reflexivity|].
    assert (Eq : take n (lit "QUIT" ++ [10]) = newline (lit "QUIT")).
    { apply take_ge. etrans; [|exact Hn]. apply Nat.leb_le. by vm_compute. }
    rewrite Eq. unfold t, farewell. destruct bye as [data|]; cbn [show cl_screen cl_sent cl_stdin c1 set_stdin];
      [destruct Hbye; rewrite received_all by done; by rewrite <- app_assoc|by rewrite app_nil_r].
  - left. apply Forall_cons in H1 as [Hl H1]. apply Forall_cons in H2 as [Hp H2]. cbn [fmap list_fmap concat] in H4. rewrite <- app_assoc in H4.
    destruct (client_fgets l (cl_stdin c1) _ Hl H3 H4) as (s' & -> & E1 & E2 & Hr & ->). rewrite Hp, Hw.
    assert (El : take n (newline l) = newline l).
    { apply take_ge. destruct Hl as (_ & _ & Hl). unfold newline. rewrite length_app. cbn [length]. lia. }
    rewrite El. exists l, ls. eexists. split; [done|]. split; [reflexivity|].
    split; [|by constructor]. constructor; [done| |exact Hr]. cbn. by rewrite app_nil_r.
Qed.

(** ** Many turns *)

(** [s'] is [s] after [n] more have arrived, less at the end of the input, and reads of
    whole lines. *)
Record passes (s : stdin) (n : nat) (s' : stdin) : Prop := Passes {
  ps_input : (length (si_input s') <= length (si_input s))%nat;
  ps_arrived : (Nat.min (S (length (si_input s))) (si_arrived s + n) <= si_arrived s' + (length (si_input s) - length (si_input s')))%nat;
  ps_chunks : Forall line_chunk (si_input s) -> Forall line_chunk (si_input s');
  ps_buf : Forall line_chunk (si_input s) -> si_buf s = [] -> si_buf s' = [] }.

Lemma passes_trans s n s1 m s2 : passes s n s1 -> passes s1 m s2 -> passes s (n + m) s2.
Proof using. intros [] []. constructor; [lia|lia|auto|auto]. Qed.

Lemma look_passes t s s' : read_on (look t s) s' -> passes s (arrivals t) s'.
Proof using.
  intros [R1 R2 R3 R4]. pose proof (look_spec t s) as (L1 & L2 & L3). rewrite L1 in R1, R2, R3, R4. rewrite L2 in R4. constructor; [lia|lia|auto|auto].
Qed.

(** How the turns [ts] leave the client: still running, with the lines [sent]; or gone in
    some turn [t], having sent all lines and QUIT. *)
Definition runs_to (ts : list turn) (ls : list bytes) (c : client) (sent : list bytes) (c' : client) : Prop :=
  client_run err ts c = inl c' /\ to_send (drop (length sent) ls) c' /\ sent = take (length sent) ls /\
  cl_screen c' = cl_screen c ++ concat (shown <$> ts) /\ cl_sent c' = cl_sent c ++ concat (newline <$> sent).
Definition quits (ts : list turn) (ls : list bytes) (c : client) (ts1 : list turn) (t : turn) (c' : client) : Prop :=
  (exists ts2, ts = ts1 ++ t :: ts2) /\ client_run err ts c = inr c' /\
  cl_screen c' = cl_screen c ++ concat (shown <$> ts1) ++ shown t ++ farewell t ++ lit "  Disconnected." ++ [10; 10] /\
  cl_sent c' = cl_sent c ++ concat (newline <$> (ls ++ [lit "QUIT"])).

Lemma many_turns ts : forall ls c, Forall turn_ok ts -> to_send ls c ->
  (exists sent c', runs_to ts ls c sent c' /\
     passes (cl_stdin c) (total arrivals ts) (cl_stdin c')) \/
  (exists ts1 t c', quits ts ls c ts1 t c').
Proof using Hq Hqq.
  induction ts as [|t ts IH]; intros ls c Hts Hc.
  { left. exists [], c. split; [|constructor; auto; change (total arrivals []) with 0%nat; lia].
    unfold runs_to. cbn. rewrite drop_0, take_0, !app_nil_r. by split_and!. }
  apply Forall_cons in Hts as [Ht Hts].
  assert (Hon : forall ls' sent0 c1, client_turn err t c = inl c1 -> turned t sent0 c c1 -> to_send ls' c1 -> ls = sent0 ++ ls' ->
    (exists sent c', runs_to (t :: ts) ls c sent c' /\
     passes (cl_stdin c) (total arrivals (t :: ts)) (cl_stdin c')) \/
    (exists ts1 u c', quits (t :: ts) ls c ts1 u c')).
  { intros ls' sent0 c1 E [T1 T2 T3] Hc1 ->.
    destruct (IH ls' c1 Hts Hc1) as [(sent & c' & (E1 & E2 & E3 & E4 & E5) & Hp)|(ts1 & u & c' & (ts2 & ->) & E1 & E2 & E3)].
    - left. exists (sent0 ++ sent), c'. split.
      + unfold runs_to. cbn [client_run]. rewrite E, length_app, drop_app_add, take_app_add. rewrite <- E3.
        split; [done|]. split; [done|]. split; [done|]. rewrite E4, T1, E5, T2, fmap_app, concat_app. cbn [fmap list_fmap concat].
        by rewrite <- !app_assoc.
      + change (total arrivals (t :: ts)) with (arrivals t + total arrivals ts)%nat. by eapply passes_trans; [apply look_passes|].
    - right. exists (t :: ts1), u, c'. split; [by exists ts2|]. cbn [client_run]. rewrite E. split; [exact E1|]. rewrite E2, T1, E3, T2. cbn [fmap list_fmap concat].
      split; [by rewrite <- !app_assoc|]. by rewrite <- (app_assoc sent0), (fmap_app _ sent0), concat_app, (app_assoc (cl_sent c)). }
  destruct (one_turn t ls c Ht Hc) as [(c1 & E & Htd & Hc1 & _)|[(l & ls' & c1 & -> & E & Htd & Hc1)|(c1 & -> & E & E1 & E2)]].
  - by apply (Hon ls [] c1).
  - by apply (Hon ls' [l] c1).
  - right. exists [], t. eexists. split; [by exists ts|]. cbn [client_run]. rewrite E. split; [reflexivity|].
    cbn [show cl_screen cl_sent fmap list_fmap concat app]. rewrite E1, E2, app_nil_r, <- !app_assoc. done.
Qed.

(** Once all has arrived, a turn for every line and one more bring the client to its end. *)
Lemma arrived_quits ts : forall ls c, Forall turn_ok ts -> to_send ls c -> all_arrived (cl_stdin c) -> (length ls < total selects ts)%nat ->
  exists ts1 t c', quits ts ls c ts1 t c'.
Proof using Hq Hqq.
  induction ts as [|t ts IH]; intros ls c Hts Hc Ha Hl; [unfold total in Hl; cbn in Hl; lia|]. apply Forall_cons in Hts as [Ht Hts].
  assert (Hon : forall ls' sent0 c1, client_turn err t c = inl c1 -> turned t sent0 c c1 -> to_send ls' c1 -> ls = sent0 ++ ls' ->
    (length ls' < total selects ts)%nat -> exists ts1 u c', quits (t :: ts) ls c ts1 u c').
  { intros ls' sent0 c1 E [T1 T2 T3] Hc1 -> Hl'.
    destruct (IH ls' c1 Hts Hc1) as (ts1 & u & c' & (ts2 & ->) & E1 & E2 & E3); [|done|].
    { eapply all_arrived_read; [|exact T3]. by destruct t; [| |apply all_arrived_more]. }
    exists (t :: ts1), u, c'. split; [by exists ts2|]. cbn [client_run]. rewrite E. split; [exact E1|]. rewrite E2, T1, E3, T2. cbn [fmap list_fmap concat].
    split; [by rewrite <- !app_assoc|]. by rewrite <- (app_assoc sent0), (fmap_app _ sent0), concat_app, (app_assoc (cl_sent c)). }
  assert (Hsel : total selects (t :: ts) = (selects t + total selects ts)%nat) by done. rewrite Hsel in Hl.
  destruct (one_turn t ls c Ht Hc) as [(c1 & E & Htd & Hc1 & [Hr|Hs])|[(l & ls' & c1 & -> & E & Htd & Hc1)|(c1 & -> & E & E1 & E2)]].
  - exfalso. assert (Ha' : all_arrived (look t (cl_stdin c))) by (by destruct t; [| |apply all_arrived_more]).
    assert (Ht' : si_text (look t (cl_stdin c)) = concat (newline <$> ls) ++ newline q ++ rest) by (destruct t; apply Hc).
    destruct ls as [|l ls]; [cbn in Ht'|cbn [fmap list_fmap concat] in Ht'; rewrite <- app_assoc in Ht'];
      rewrite (all_arrived_readable _ _ _ Ha' Ht') in Hr; done.
  - apply (Hon ls [] c1); [done..|lia].
  - apply (Hon ls' [l] c1); [done..|]. cbn [length] in Hl. destruct t; cbn in Hl; lia.
  - exists [], t. eexists. split; [by exists ts|]. cbn [client_run]. rewrite E. split; [reflexivity|].
    cbn [show cl_screen cl_sent fmap list_fmap concat app]. rewrite E1, E2, app_nil_r, <- !app_assoc. done.
Qed.
End session.

Lemma client_run_app err ts ts' : forall c, client_run err (ts ++ ts') c =
  match client_run err ts c with inl c' => client_run err ts' c' | inr c' => inr c' end.
Proof. induction ts as [|t ts IH]; intros c; [done|]. cbn. by destruct (client_turn err t c). Qed.

(** The server reads from what was sent the lines and QUIT. *)
Lemma sent_lines C s ls : Forall typed ls ->
  client_handler C s (concat (newline <$> (ls ++ [lit "QUIT"]))) = client_loop C s ((line_of <$> ls) ++ [Line (lit "QUIT")]).
Proof.
  intros Hls. unfold client_handler, command_lines. f_equal. rewrite (read_lines_spec (ls ++ [lit "QUIT"])); [by rewrite fmap_app| |done].
  apply Forall_app. split; [|repeat constructor; by vm_compute]. eapply Forall_impl; [exact Hls|]. by intros x (_ & Hx & _).
Qed.

(** C34: the client is a faithful terminal.  The user types lines, then one that begins
    with quit or exit in any letter case, perhaps more.  Standard input is ready when
    something has arrived on the descriptor that was not read, whatever the stdio
    buffer holds.  If each read() of it brings at most one line, as from a terminal,
    once these have arrived, and however it is cut into reads, as from a pipe, once its
    end has arrived too: before select has returned once more for every line and one
    time more, the client has ended, having shown in order all that its reads of the
    socket brought, and having sent the server exactly the lines typed and QUIT, so that
    the server's command loop runs on these lines and on nothing that was typed behind
    them.  Without the end, lines from a pipe can be left in the buffer: see
    [typed_ahead_waits]. *)
Theorem typed_commands_arrive err C s input ls q rest ts ts' :
  Forall (fun chunk => chunk <> []) input -> concat input = concat (newline <$> ls) ++ newline q ++ rest ->
  Forall typed ls -> Forall (fun t => is_quit (newline t) = false) ls -> typed q -> is_quit (newline q) = true ->
  Forall turn_ok (ts ++ ts') ->
  ((length input < total arrivals ts)%nat \/ Forall line_chunk input /\ (length input <= total arrivals ts)%nat) ->
  (length ls < total selects ts')%nat ->
  exists ts1 t ts2 c, ts ++ ts' = ts1 ++ t :: ts2 /\ client_run err (ts ++ ts') (client_start input) = inr c /\
    cl_screen c = cl_screen (client_start input) ++ concat (shown <$> ts1) ++ shown t ++ farewell t ++ lit "  Disconnected." ++ [10; 10] /\
    client_handler C s (cl_sent c) = client_loop C s ((line_of <$> ls) ++ [Line (lit "QUIT")]).
Proof.
  intros Hne E Hls Hlq Hq Hqq [Hts Hts']%Forall_app Harr Hsel. rewrite client_run_app.
  assert (Hc : to_send q rest ls (client_start input)) by by constructor.
  destruct (many_turns err q rest Hq Hqq ts ls _ Hts Hc) as [(sent & c & (E1 & H2 & E3 & E4 & E5) & Hp)|(ts1 & t & c & (ts2 & ->) & E1 & E2 & E3)].
  - rewrite E1. assert (Ha : all_arrived (cl_stdin c)).
    { destruct Hp as [P1 P2 P3 P4]. cbn [client_start cl_stdin si_input si_arrived si_buf] in P1, P2, P3, P4.
      destruct Harr as [Harr|[Hch Harr]]; [left; lia|right]. split; [lia|]. split; [by apply P3|by apply P4]. }
    destruct (arrived_quits err q rest Hq Hqq ts' _ c Hts' H2 Ha) as (ts1 & t & c' & (ts2 & ->) & E6 & E7 & E8); [rewrite length_drop; lia|].
    exists (ts ++ ts1), t, ts2, c'. split; [by rewrite <- app_assoc|]. split; [done|].
    rewrite E7, E4, E8, E5, fmap_app, concat_app. split; [by rewrite <- !app_assoc|]. cbn [client_start cl_sent app].
    rewrite <- concat_app, <- fmap_app, app_assoc. rewrite E3 at 1. rewrite take_drop. by apply sent_lines.
  - rewrite E1. exists ts1, t, (ts2 ++ ts'), c. split; [by rewrite <- app_assoc|]. split; [done|]. split; [done|]. rewrite E3. by apply sent_lines.
Qed.

(** With nothing new on the descriptor nothing is sent, whatever the buffer holds. *)
Lemma nothing_readable err ts : forall c, Forall turn_ok ts -> total arrivals ts = 0%nat -> si_arrived (cl_stdin c) = 0%nat ->
  exists c', client_run err ts c = inl c' /\ cl_sent c' = cl_sent c /\ si_buf (cl_stdin c') = si_buf (cl_stdin c).
Proof.
  induction ts as [|t ts IH]; intros c Hts Harr Hc; [by exists c|]. apply Forall_cons in Hts as [Ht Hts].
  assert (Ha : arrivals t = 0%nat /\ total arrivals ts = 0%nat) by (change (total arrivals (t :: ts)) with (arrivals t + total arrivals ts)%nat in Harr; lia).
  destruct Ha as [Ha1 Ha2]. cbn [client_run]. destruct t as [| |k server written bye]; [by apply IH|done|]. rewrite turn_shows by done. cbv zeta.
  cbn in Ha1. subst k. assert (Er : si_arrived (arrive 0 (cl_stdin c)) = 0%nat) by (cbn [arrive si_arrived]; lia).
  cbn [show set_stdin cl_stdin]. unfold readable. rewrite Er. change (0 <? 0)%nat with false. cbv iota.
  destruct (IH (show (shown (Turn 0 server written bye)) (set_stdin (arrive 0 (cl_stdin c)) c)) Hts Ha2 Er) as (c' & H1 & H2 & H3). by exists c'.
Qed.

(** Two lines that arrive in one read: after the first is sent nothing is left that
    could make standard input ready, and until the user types more the second stays
    in the stdio buffer, whatever the server sends. *)
Lemma typed_ahead_waits err ts : Forall turn_ok ts -> total arrivals ts = 0%nat ->
  let first := Turn 1 None (Some (Z.to_nat MAX_RESPONSE_SIZE)) None in
  let both := newline (lit "HELP") ++ newline (lit "LOGOUT") in
  exists c, client_run err (first :: ts) (client_start [both]) = inl c /\
    cl_sent c = newline (lit "HELP") /\ si_buf (cl_stdin c) = newline (lit "LOGOUT").
Proof.
  intros Hts Hu first both. set (c1 := Client (Stdin (newline (lit "LOGOUT")) [] 0) (cl_screen (client_start [both])) (newline (lit "HELP"))).
  assert (E : client_turn err first (client_start [both]) = inl c1) by (by vm_compute). cbn [client_run]. rewrite E.
  destruct (nothing_readable err ts c1 Hts Hu eq_refl) as (c' & H1 & H2 & H3). by exists c'.
Qed.

Lemma prompted k bye : match bye with Some data => str_ok data /\ (length data < Z.to_nat MAX_RESPONSE_SIZE)%nat | None => True end ->
  turn_ok (Turn k (Some (Some prompt)) (Some (Z.to_nat MAX_RESPONSE_SIZE)) bye).
Proof.
  intros Hb. split; [|split; [by eexists|exact Hb]]. split; [done|]. split; [apply (bool_decide_unpack _); by vm_compute|].
  apply Nat.ltb_lt. by vm_compute.
Qed.

Lemma typed_commands_arrive_witness : let all := Z.to_nat MAX_RESPONSE_SIZE in
  let ts := [Turn 2 (Some (Some prompt)) (Some all) None; SelectInterrupted; Turn 2 (Some (Some prompt)) (Some all) (Some (lit "OK Goodbye!"))] in
  let again := Turn 0 (Some (Some prompt)) (Some all) (Some (lit "OK Goodbye!")) in
  exists c, client_run [] (ts ++ [again; again; again])
              (client_start [newline (lit "HELP"); lit "LIST_"; newline (lit "EVENTS"); newline (lit "Exit now")]) = inr c /\
    client_handler no_libc (new_session 4) (cl_sent c) = client_loop no_libc (new_session 4) [Line (lit "HELP"); Line (lit "LIST_EVENTS"); Line (lit "QUIT")].
Proof.
  intros all ts again.
  assert (Hbye : str_ok (lit "OK Goodbye!") /\ (length (lit "OK Goodbye!") < Z.to_nat MAX_RESPONSE_SIZE)%nat).
  { split; [apply (bool_decide_unpack _); by vm_compute|apply Nat.ltb_lt; by vm_compute]. }
  destruct (typed_commands_arrive [] no_libc (new_session 4) [newline (lit "HELP"); lit "LIST_"; newline (lit "EVENTS"); newline (lit "Exit now")]
    [lit "HELP"; lit "LIST_EVENTS"] (lit "Exit now") [] ts [again; again; again]) as (_ & _ & _ & c & _ & H1 & _ & H2).
  - by repeat constructor.
  - by vm_compute.
  - apply (bool_decide_unpack _). by vm_compute.
  - by repeat constructor.
  - apply (bool_decide_unpack _). by vm_compute.
  - done.
  - unfold ts, again. cbn [app]. repeat (apply Forall_cons; split; [first [done|by apply prompted]|]). constructor.
  - right. split; [|by vm_compute; lia]. repeat (apply Forall_cons; split; [apply (bool_decide_unpack _); by vm_compute|]). constructor.
  - vm_compute. lia.
  - exists c. split; [exact H1|]. by rewrite H2.
Defined.
