(* ===== verification/Conform.v ===== *)
(** * What every request hands to the storage layer

    A program logic over the calls of a request: a thread has an open transaction
    with some locks or none ([txn_token]), [contract] says what a call may be given and
    what it gives back, and [conforms] that a program keeps to it.  Every program
    of the platform does: the records it stores have their fields in range, carry
    the id they are stored under and are not flagged deleted, it locks, commits and
    aborts an open transaction of its own with fewer than 64 locks, and it leaves
    none open. *)

From stdpp Require Import base tactics numbers list list_numbers gmap strings.
From Stdlib Require Import ZArith Lia SpecFloat.
From S2P Require Import Prelude Types Utils Float32 Calls Codec TxnManager EventMgr Protocol Auth Reports Booking Ipc Server Threads.

#[local] Open Scope Z_scope.

(** The open transaction of a thread, and at most how many locks it has. *)
Definition txn_token : Type := option (Z * nat).

Definition contract (R : Type) (g : txn_token) (c : cmd R) : (txn_token -> R -> Prop) -> Prop :=
  match c in cmd R return (txn_token -> R -> Prop) -> Prop with
  | Find T id => fun K => uint_ok 32 id /\ forall r, (forall x, r = inl x -> valid T x /\ rec_key T x = id) -> K g r
  | Insert T x => fun K => valid T x /\ forall r, (forall id, r = inl id -> uint_ok 32 id) -> K g r
  | Update T id x => fun K => (uint_ok 32 id /\ valid T x /\ rec_key T x = id) /\ forall r, K g r
  | Delete T id => fun K => uint_ok 32 id /\ forall r, K g r
  | Scan T f n => fun K => forall l, Forall (valid T) l -> (length l <= Z.to_nat n)%nat -> K g l
  | Begin => fun K => g = None /\ K None INVALID_TXN_ID /\ forall t, 0 < t < 2 ^ 32 -> K (Some (t, 0%nat)) t
  | Lock t _ _ => fun K => exists n, g = Some (t, n) /\ (n < MAX_LOCKS_PER_TXN)%nat /\ K (Some (t, S n)) 0
  | Commit t => fun K => (exists n, g = Some (t, n)) /\ forall r, K None r
  | Abort t => fun K => (exists n, g = Some (t, n)) /\ K None tt
  | Now => fun K => forall now, uint_ok 64 now -> K g now
  end.

(** [p] keeps to the contract from [g] on and ends in [Q]. *)
Fixpoint conforms {A} (g : txn_token) (p : prog A) (Q : txn_token -> A -> Prop) : Prop :=
  match p with
  | Ret a => Q g a
  | Call c k => contract _ g c (fun g' r => conforms g' (k r) Q)
  end.

Lemma contract_mono R g (c : cmd R) (K K' : txn_token -> R -> Prop) :
  contract R g c K -> (forall g' r, K g' r -> K' g' r) -> contract R g c K'.
Proof.
  destruct c as [B T id|B T x|B T id x|B T id|B T f n| |t tb id|t|t|]; cbn [contract]; intros H HK.
  - destruct H as [H1 H2]. split; [done|]. intros r Hr. by apply HK, H2.
  - destruct H as [H1 H2]. split; [done|]. intros r Hr. by apply HK, H2.
  - destruct H as [H1 H2]. split; [done|]. intros r. by apply HK, H2.
  - destruct H as [H1 H2]. split; [done|]. intros r. by apply HK, H2.
  - intros l Hl Hn. by apply HK, H.
  - destruct H as (H1 & H2 & H3). split; [done|]. split; [by apply HK|]. intros t Ht. by apply HK, H3.
  - destruct H as (n & H1 & H2 & H3). exists n. split; [done|]. split; [done|]. by apply HK.
  - destruct H as [H1 H2]. split; [done|]. intros r. by apply HK, H2.
  - destruct H as [H1 H2]. split; [done|]. by apply HK.
  - intros t Ht. by apply HK, H.
Qed.

Lemma conforms_mono {A} (p : prog A) (Q Q' : txn_token -> A -> Prop) : forall g, conforms g p Q ->
  (forall g' a, Q g' a -> Q' g' a) -> conforms g p Q'.
Proof.
  induction p as [a|R c k IH]; intros g Hp HQ; cbn [conforms] in *; [by apply HQ|].
  eapply contract_mono; [exact Hp|]. intros g' r Hk. by apply IH.
Qed.

Lemma conforms_bind {A B} (p : prog A) (f : A -> prog B) (Q : txn_token -> B -> Prop) : forall g,
  conforms g p (fun g' a => conforms g' (f a) Q) -> conforms g (bind p f) Q.
Proof.
  induction p as [a|R c k IH]; intros g Hp; cbn [bind conforms] in *; [done|].
  eapply contract_mono; [exact Hp|]. intros g' r Hk. by apply IH.
Qed.

(** The rule for a sequence: first [p] ends in [Q'], then [f] goes on from there. *)
Lemma conforms_seq {A B} g (p : prog A) (f : A -> prog B) (Q' : txn_token -> A -> Prop) (Q : txn_token -> B -> Prop) :
  conforms g p Q' -> (forall g' a, Q' g' a -> conforms g' (f a) Q) -> conforms g (bind p f) Q.
Proof. intros Hp Hf. apply conforms_bind. by eapply conforms_mono. Qed.

(** A program with no transaction open before and after. *)
Abbreviation closed p Q := (conforms None p (fun g a => g = None /\ Q a)).

Lemma closed_seq {A B} (p : prog A) (f : A -> prog B) (Q' : A -> Prop) (Q : B -> Prop) :
  closed p Q' -> (forall a, Q' a -> closed (f a) Q) -> closed (bind p f) Q.
Proof. intros Hp Hf. eapply conforms_seq; [exact Hp|]. intros g' a [-> Ha]. by apply Hf. Qed.

(** ** Values in range *)

Lemma u_range w z : 0 <= w -> uint_ok w (wrap w z).
Proof. intros Hw. by apply wrap_range. Qed.

Lemma zeros_bytes n : bytes_ok n (zeros n).
Proof. split; [apply length_zeros|apply zeros_ok]. Qed.

Lemma blit_bytes n src dst : bytes_ok n dst -> Forall byte_ok src -> (length src <= n)%nat -> bytes_ok n (blit 0 src dst).
Proof. intros [Hl Hd] Hs Hn. split; [rewrite length_blit; lia|by apply Forall_blit]. Qed.

Lemma strlcpy_bytes s n : Forall byte_ok s -> (0 < n)%nat -> Forall byte_ok (fst (etp_strlcpy s n)) /\ (length (fst (etp_strlcpy s n)) <= n)%nat.
Proof.
  intros Hs Hn. unfold etp_strlcpy. destruct (Nat.ltb_spec 0 n); [|lia]. cbn [fst]. split.
  - apply Forall_app. split; [by apply Forall_take|]. constructor; [done|constructor].
  - rewrite length_app, length_take. cbn [length]. case_match eqn:E; [apply Nat.leb_le in E|apply Nat.leb_gt in E]; lia.
Qed.

Lemma field_bytes s n : Forall byte_ok s -> (0 < n)%nat -> bytes_ok n (strlcpy_field s n).
Proof. intros Hs Hn. destruct (strlcpy_bytes s n Hs Hn). apply blit_bytes; [apply zeros_bytes|done|done]. Qed.

Lemma hash_bytes p : bytes_ok 65 (blit 0 (etp_hash_password p 65) (zeros 65)).
Proof.
  unfold etp_hash_password. change (65 <? 33) with false. cbv iota.
  assert (Hh : forall z, Forall byte_ok (hex 16 z)) by (intros z; eapply Forall_impl; [apply hex_ok|]; unfold byte_ok; cbn; lia).
  apply blit_bytes; [apply zeros_bytes| |rewrite !length_app, !length_hex; cbn; lia].
  apply Forall_app. split; [done|]. apply Forall_app. split; [done|]. constructor; [done|constructor].
Qed.

(** ** The event manager *)

Lemma event_valid name venue date time_str org rows cols price : Forall byte_ok name -> Forall byte_ok venue ->
  Forall byte_ok date -> Forall byte_ok time_str -> uint_ok 32 org -> uint_ok 16 rows -> uint_ok 16 cols -> uint_ok 32 price ->
  valid Events (event_record_of name venue date time_str org rows cols price).
Proof.
  intros. split; [|done]. unfold ly_ok, tbl_layout, event_layout, event_ok, event_record_of.
  cbn [e_event_id e_name e_venue e_event_date e_event_time e_organizer_id e_total_rows e_seats_per_row e_price e_status e_is_deleted e_pad].
  split_and!; try done; try (by apply field_bytes; [|lia]). apply zeros_bytes.
Qed.

Lemma seat_valid id row snum : uint_ok 32 id -> uint_ok 16 snum -> valid Seats (seat_record_of id row snum).
Proof.
  intros. split; [|done]. unfold ly_ok, tbl_layout, seat_layout, seat_ok, seat_record_of.
  cbn [s_seat_id s_event_id s_row_label s_seat_number s_status s_booked_by s_is_deleted s_pad].
  split_and!; try done; [by apply u_range|]. apply zeros_bytes.
Qed.

Lemma insert_seats_conforms seats : forall n, Forall (valid Seats) seats -> closed (insert_seats seats n) (fun _ => True).
Proof.
  induction seats as [|x l IH]; intros n Hl; cbn [insert_seats conforms contract]; [done|].
  apply Forall_cons in Hl as [Hx Hl]. split; [done|]. intros r _. by apply IH.
Qed.

Lemma create_event_conforms name venue date time_str org rows cols price : Forall byte_ok name -> Forall byte_ok venue ->
  Forall byte_ok date -> Forall byte_ok time_str -> uint_ok 32 org -> 0 <= rows -> 0 <= cols -> uint_ok 32 price ->
  closed (event_mgr_create_event name venue date time_str org rows cols price) (fun _ => True).
Proof.
  intros Hn Hv Hd Ht Ho Hr Hc Hp. unfold event_mgr_create_event. case_match; [done|]. case_match eqn:E1; [done|]. case_match eqn:E2; [done|].
  unfold MAX_SEAT_ROWS, MAX_SEATS_PER_ROW in *. cbn [conforms contract]. split.
  { apply event_valid; try done; unfold uint_ok; lia. }
  intros [id|e] Hid; [|done]. eapply closed_seq; [apply insert_seats_conforms|done].
  apply Forall_forall. intros x (row & Hx & Hrow)%list_elem_of_bind. apply list_elem_of_bind in Hx as (sn & Hx & Hsn).
  apply list_elem_of_singleton in Hx as ->. apply elem_of_seqZ in Hsn. apply seat_valid; [by apply Hid|]. unfold uint_ok. lia.
Qed.

(** ** The booking engine *)

Section booking.
Context (txn user_id event_id : Z) (Hu : uint_ok 32 user_id) (He : uint_ok 32 event_id).

Lemma fail_conforms n rc : conforms (Some (txn, n)) (fail txn rc) (fun g _ => g = None /\ True).
Proof using. cbn. split; [by exists n|done]. Qed.

Lemma fail_rc_conforms n rc : conforms (Some (txn, n)) (fail_rc txn rc) (fun g _ => g = None /\ True).
Proof using. cbn. split; [by exists n|done]. Qed.

(** A seat with another status and owner. *)
Lemma seat_update_valid x s st who : valid Seats x -> rec_key Seats x = s -> uint_ok 8 st -> uint_ok 32 who ->
  valid Seats (SeatRecord (s_seat_id x) (s_event_id x) (s_row_label x) (s_seat_number x) st who (s_is_deleted x) (s_pad x)) /\
  rec_key Seats (SeatRecord (s_seat_id x) (s_event_id x) (s_row_label x) (s_seat_number x) st who (s_is_deleted x) (s_pad x)) = s.
Proof using.
  intros [H Hd] Hk Hst Hw. split; [|exact Hk]. split; [|exact Hd]. unfold ly_ok, tbl_layout, seat_layout, seat_ok in *.
  cbn [s_seat_id s_event_id s_row_label s_seat_number s_status s_booked_by s_is_deleted s_pad]. destruct_and!. by split_and!.
Qed.

Lemma assign_seats_conforms b l n : uint_ok 32 b -> Forall (uint_ok 32) l ->
  conforms (Some (txn, n)) (assign_seats txn user_id b l) (fun g _ => g = None /\ True).
Proof using Hu.
  intros Hb. induction l as [|s l IH]; intros Hl; cbn [assign_seats conforms contract].
  - split; [by exists n|]. intros r. by case_match.
  - apply Forall_cons in Hl as [Hs Hl]. split.
    { split; [|done]. unfold ly_ok, tbl_layout, booking_seat_layout, booking_seat_ok. split_and!; try done. apply zeros_bytes. }
    intros [j|e] _; [|by apply fail_conforms]. split; [done|]. intros [x|e] Hx; [|by apply fail_conforms].
    destruct (Hx x eq_refl) as [Hv Hk]. cbn [conforms contract]. split.
    { split; [done|]. by apply seat_update_valid. }
    intros rc. case_bool_decide; [by apply IH|by apply fail_conforms].
Qed.

Lemma create_booking_conforms price l n : Forall (uint_ok 32) l -> 
  conforms (Some (txn, n)) (create_booking txn user_id event_id price l) (fun g _ => g = None /\ True).
Proof using Hu He.
  intros Hl. unfold create_booking. cbn [conforms contract]. intros now Hnow. split.
  { split; [|done]. unfold ly_ok, tbl_layout, booking_layout, booking_ok.
    cbn [b_booking_id b_user_id b_event_id b_seat_count b_total_amount b_status b_booked_at b_is_deleted b_pad].
    split_and!; try done; [by apply u_range|apply f32_mul_int_range|]. apply zeros_bytes. }
  intros [b|e] Hb; [|by apply fail_conforms]. by apply assign_seats_conforms; [apply Hb|].
Qed.

Lemma check_seats_conforms price all l n : Forall (uint_ok 32) all -> Forall (uint_ok 32) l ->
  conforms (Some (txn, n)) (check_seats txn user_id event_id price all l) (fun g _ => g = None /\ True).
Proof using Hu He.
  intros Ha. induction l as [|s l IH]; intros Hl; cbn [check_seats]; [by apply create_booking_conforms|].
  apply Forall_cons in Hl as [Hs Hl]. cbn [conforms contract]. split; [done|]. intros [x|e] _; [|by apply fail_conforms].
  case_match; [by apply fail_conforms|]. case_match; [by apply fail_conforms|]. by apply IH.
Qed.

Lemma lock_seats_conforms price all l : Forall (uint_ok 32) all -> forall n, Forall (uint_ok 32) l ->
  (n + length l <= MAX_LOCKS_PER_TXN)%nat ->
  conforms (Some (txn, n)) (lock_seats txn user_id event_id price all l) (fun g _ => g = None /\ True).
Proof using Hu He.
  intros Ha. induction l as [|s l IH]; intros n Hl Hn; cbn [lock_seats]; [by apply check_seats_conforms|].
  apply Forall_cons in Hl as [Hs Hl]. cbn [conforms contract length] in *. exists n. split; [done|]. split; [lia|].
  change (negb (0 =? 0)) with false. cbv iota. apply IH; [done|lia].
Qed.

Lemma mark_cancelled_conforms b x n : uint_ok 32 b -> valid Bookings x -> rec_key Bookings x = b ->
  conforms (Some (txn, n)) (mark_cancelled txn b x) (fun g _ => g = None /\ True).
Proof using.
  intros Hb [Hx Hd] Hk. unfold mark_cancelled. cbn [conforms contract]. split.
  { split; [done|]. split; [|exact Hk]. split; [|exact Hd]. unfold ly_ok, tbl_layout, booking_layout, booking_ok in *.
    cbn [b_booking_id b_user_id b_event_id b_seat_count b_total_amount b_status b_booked_at b_is_deleted b_pad].
    destruct_and!. by split_and!. }
  intros r. case_match; [by apply fail_rc_conforms|]. cbn [conforms contract]. split; [by exists n|]. intros rc. by case_match.
Qed.

Lemma release_seats_conforms b x l : uint_ok 32 b -> valid Bookings x -> rec_key Bookings x = b -> forall n,
  Forall (fun y => uint_ok 32 (bs_seat_id y)) l -> (n + length l <= MAX_LOCKS_PER_TXN)%nat ->
  conforms (Some (txn, n)) (release_seats txn b x l) (fun g _ => g = None /\ True).
Proof using.
  intros Hb Hx Hk. induction l as [|y l IH]; intros n Hl Hn; cbn [release_seats]; [by apply mark_cancelled_conforms|].
  apply Forall_cons in Hl as [Hy Hl]. cbn [conforms contract length] in *. exists n. split; [done|]. split; [lia|].
  change (negb (0 =? 0)) with false. cbv iota. cbn [conforms contract]. split; [done|]. intros [s|e] Hs; [|by apply IH; [|lia]].
  destruct (Hs s eq_refl) as [Hv Hks]. cbn [conforms contract]. split; [split; [done|by apply seat_update_valid]|].
  intros r. case_match; [by apply fail_rc_conforms|]. apply IH; [done|lia].
Qed.
End booking.

Lemma book_conforms user_id event_id l : uint_ok 32 user_id -> uint_ok 32 event_id -> Forall (uint_ok 32) l ->
  closed (booking_book_seats user_id event_id l) (fun _ => True).
Proof.
  intros Hu He Hl. unfold booking_book_seats. case_match; [done|]. case_match eqn:E; [done|]. case_match; [done|].
  cbn [conforms contract]. split; [done|]. intros [x|e] _; [|done]. case_match; [done|]. cbn [conforms contract].
  split; [done|]. split; [done|]. intros t Ht. destruct (Z.eqb_spec t INVALID_TXN_ID); [unfold INVALID_TXN_ID in *; lia|].
  pose proof (exchange_sort_perm id l) as Hp. apply lock_seats_conforms; rewrite ?Hp; try done.
  unfold MAX_SEATS_PER_BOOKING in E. unfold MAX_LOCKS_PER_TXN. lia.
Qed.

Lemma cancel_conforms booking_id user_id : uint_ok 32 booking_id -> closed (booking_cancel booking_id user_id) (fun _ => True).
Proof.
  intros Hb. unfold booking_cancel. cbn [conforms contract]. split; [done|]. split; [done|].
  intros t Ht. destruct (Z.eqb_spec t INVALID_TXN_ID); [unfold INVALID_TXN_ID in *; lia|]. cbn [conforms contract].
  exists 0%nat. split; [done|]. split; [unfold MAX_LOCKS_PER_TXN; lia|]. change (negb (0 =? 0)) with false. cbv iota.
  cbn [conforms contract]. split; [done|]. intros [x|e] Hx; [|by apply fail_rc_conforms]. destruct (Hx x eq_refl) as [Hv Hk].
  case_match; [by apply fail_rc_conforms|]. case_match; [by apply fail_rc_conforms|]. cbn [conforms contract].
  intros l Hl Hn. pose proof (exchange_sort_perm bs_seat_id l) as Hp. apply release_seats_conforms; rewrite ?Hp; try done.
  - eapply Forall_impl; [exact Hl|]. intros y [Hy _]. apply Hy.
  - unfold MAX_SEATS_PER_BOOKING in Hn. unfold MAX_LOCKS_PER_TXN. lia.
Qed.

(** ** Accounts and reports *)

Lemma register_conforms name password role : Forall byte_ok name -> closed (auth_register name password role) (fun _ => True).
Proof.
  intros Hn. unfold auth_register. case_match; [done|]. case_match; [done|]. cbn [conforms contract]. intros [|x l] _ _; [|done].
  cbn [conforms contract]. intros now Hnow. split.
  { split; [|done]. unfold ly_ok, tbl_layout, user_layout, user_ok, user_record_of.
    cbn [u_user_id u_username u_password_hash u_role u_created_at u_is_deleted u_pad].
    split_and!; try done; [by apply field_bytes; [|lia]|apply hash_bytes|by apply u_range|apply zeros_bytes]. }
  by intros [id|e] _.
Qed.

Lemma verify_conforms name password : closed (auth_verify name password) (fun r => forall x, r = inl x -> valid Users x).
Proof.
  unfold auth_verify. cbn [conforms contract]. intros [|x l] Hl _; [done|]. apply Forall_cons in Hl as [Hx _].
  case_match; [done|]. split; [done|]. by intros y [= <-].
Qed.

Lemma bootstrap_conforms count : closed (auth_bootstrap_admin count) (fun _ => True).
Proof.
  unfold auth_bootstrap_admin. case_match; [done|]. eapply closed_seq; [apply register_conforms|done].
  apply (bool_decide_unpack _). by vm_compute.
Qed.

Lemma event_revenue_conforms id : uint_ok 32 id -> closed (reports_event_revenue id) (fun _ => True).
Proof. intros Hid. unfold reports_event_revenue. cbn [conforms contract]. split; [done|]. by intros [x|e] _. Qed.

Lemma revenue_loop_conforms l : forall n, Forall (valid Events) l -> closed (revenue_loop l n) (fun _ => True).
Proof.
  induction l as [|e l IH]; intros n Hl; [done|]. destruct n as [|n]; [done|]. cbn [revenue_loop].
  apply Forall_cons in Hl as [[He _] Hl]. eapply closed_seq; [apply event_revenue_conforms, He|].
  intros [r|r] _; [|by apply IH]. eapply closed_seq; [by apply IH|done].
Qed.

Lemma organizer_revenue_conforms org n : closed (reports_organizer_revenue org n) (fun _ => True).
Proof. unfold reports_organizer_revenue. cbn [conforms contract]. intros l Hl _. by apply revenue_loop_conforms. Qed.

(** ** Commands *)

Definition session_ok (s : session) : Prop := uint_ok 32 (ss_user_id s).
Definition atof_ok (C : libc) : Prop := forall s, uint_ok 32 (c_atof C s).

Section commands.
Context (C : libc) (s : session) (cmd : parsed_command).
Context (HC : atof_ok C) (Hs : session_ok s) (Ha : Forall (Forall byte_ok) (pc_args cmd)).

Abbreviation fine p := (closed p (fun o => session_ok (oc_session o))).

Lemma arg_bytes i : Forall byte_ok (arg cmd i).
Proof using Ha.
  unfold arg. destruct (nth_in_or_default i (pc_args cmd) []) as [H|H]; [|rewrite H; constructor].
  rewrite Forall_forall in Ha. by apply Ha, list_elem_of_In.
Qed.

(** A command that runs one program and answers. *)
Lemma answer {A} (p : prog A) (f : A -> prog outcome) : closed p (fun _ => True) -> (forall a, fine (f a)) -> fine (bind p f).
Proof using. intros Hp Hf. eapply closed_seq; [exact Hp|]. intros a _. apply Hf. Qed.

Lemma cmd_register_conforms : fine (cmd_register s cmd).
Proof using Hs Ha.
  unfold cmd_register. case_match; [done|]. case_match; [done|]. case_match; [done|].
  apply answer; [apply register_conforms, arg_bytes|]. intros [|[]]; done.
Qed.

Lemma cmd_login_conforms : fine (cmd_login s cmd).
Proof using Hs.
  unfold cmd_login. case_match; [done|]. case_match; [done|]. eapply closed_seq; [apply verify_conforms|].
  intros [x|e] Hx; [|done]. cbn [conforms contract]. intros now _. split; [done|]. apply (Hx x eq_refl).
Qed.

Lemma cmd_logout_conforms : fine (cmd_logout s).
Proof using Hs. unfold cmd_logout. by case_match. Qed.

Lemma cmd_create_event_conforms : fine (cmd_create_event C s cmd).
Proof using HC Hs Ha.
  unfold cmd_create_event. case_match; [done|]. apply answer; [|by intros []].
  apply create_event_conforms; try apply arg_bytes; try done; try (by apply u_range).
Qed.

Lemma cmd_delete_event_conforms : fine (cmd_delete_event s cmd).
Proof using Hs.
  unfold cmd_delete_event. case_match; [done|]. apply answer.
  - cbn [event_mgr_get_event conforms contract]. split; [by apply u_range|done].
  - intros [x|e]; [|done]. case_match; [done|]. apply answer; [|intros r; by case_match].
    cbn [event_mgr_delete_event conforms contract]. split; [by apply u_range|done].
Qed.

Lemma cmd_list_events_conforms : fine (cmd_list_events C s).
Proof using Hs. unfold cmd_list_events. apply answer; [done|]. by intros []. Qed.

Lemma cmd_view_event_conforms : fine (cmd_view_event C s cmd).
Proof using Hs.
  unfold cmd_view_event. case_match; [done|]. apply answer; [|by intros []].
  cbn [event_mgr_get_event conforms contract]. split; [by apply u_range|done].
Qed.

Lemma cmd_view_seats_conforms : fine (cmd_view_seats s cmd).
Proof using Hs. unfold cmd_view_seats. case_match; [done|]. apply answer; [done|]. by intros []. Qed.

Lemma cmd_book_conforms : fine (cmd_book s cmd).
Proof using Hs.
  unfold cmd_book. case_match; [done|]. apply answer; [|intros [|[]]; done].
  apply book_conforms; [exact Hs|by apply u_range|]. apply Forall_fmap, Forall_true. intros a. by apply u_range.
Qed.

Lemma cmd_cancel_conforms : fine (cmd_cancel s cmd).
Proof using Hs. unfold cmd_cancel. case_match; [done|]. apply answer; [by apply cancel_conforms, u_range|]. by intros []. Qed.

Lemma cmd_my_bookings_conforms : fine (cmd_my_bookings C s).
Proof using Hs. unfold cmd_my_bookings. apply answer; [done|]. by intros []. Qed.

Lemma cmd_revenue_conforms : fine (cmd_revenue C s cmd).
Proof using Hs.
  unfold cmd_revenue. case_match; apply answer; try (by intros []).
  - by apply event_revenue_conforms, u_range.
  - apply organizer_revenue_conforms.
Qed.

Lemma cmd_list_users_conforms : fine (cmd_list_users s).
Proof using Hs. unfold cmd_list_users. cbn [conforms contract]. by intros [] _ _. Qed.

Lemma handle_command_conforms : fine (handle_command C s cmd).
Proof using HC Hs Ha.
  unfold handle_command. repeat (case_match; [eauto using cmd_register_conforms, cmd_login_conforms, cmd_logout_conforms,
    cmd_create_event_conforms, cmd_delete_event_conforms, cmd_list_events_conforms, cmd_view_event_conforms,
    cmd_view_seats_conforms, cmd_book_conforms, cmd_cancel_conforms, cmd_my_bookings_conforms, cmd_revenue_conforms,
    cmd_list_users_conforms|]).
  all: done.
Qed.
End commands.

(** ** Lines of a client *)

Section bytes.
Context (P : Z -> Prop).

Lemma skip_space_all s : Forall P s -> Forall P (skip_space s).
Proof using. induction 1; cbn; [constructor|]. case_match; [done|by constructor]. Qed.

Lemma token_all n : forall s, Forall P s -> Forall P (token n s).1 /\ Forall P (token n s).2.
Proof using.
  induction n as [|n IH]; intros [|c s] Hs; cbn [token]; try (split; [constructor|done]).
  pose proof Hs as [Hc Hs']%Forall_cons. destruct (isspace c); [split; [constructor|done]|].
  destruct (IH s Hs') as [H1 H2]. destruct (token n s) as [t r]. split; [by constructor|done].
Qed.

Lemma parse_args_all n : forall s, Forall P s -> Forall (Forall P) (parse_args n s).
Proof using.
  induction n as [|n IH]; intros [|c s] Hs; cbn [parse_args]; try constructor.
  apply skip_space_all in Hs. destruct (skip_space (c :: s)) as [|d q]; [constructor|].
  pose proof (token_all (MAX_ARG_LEN - 1) (d :: q) Hs) as [H1 H2]. destruct (token _ _) as [t r]. constructor; [done|by apply IH].
Qed.

Lemma strip_all s : Forall P s -> Forall P (strip_newlines s).
Proof using.
  induction 1 as [|c s Hc Hs IH]; cbn; [constructor|]. destruct (strip_newlines s); [|by constructor].
  case_match; [constructor|by constructor].
Qed.

Lemma cstr_forall s : Forall P s -> Forall P (cstr s).
Proof using. induction 1; cbn; [constructor|]. case_match; [constructor|by constructor]. Qed.
End bytes.

Lemma parse_command_bytes raw cmd : Forall byte_ok raw -> parse_command raw = Some cmd -> Forall (Forall byte_ok) (pc_args cmd).
Proof.
  intros Hr. unfold parse_command.
  assert (Hb : Forall byte_ok (skip_space (strip_newlines (cstr (fst (etp_strlcpy raw (Z.to_nat MAX_CMD_LENGTH))))))).
  { apply skip_space_all, strip_all, cstr_forall, strlcpy_bytes; [done|]. apply Nat.ltb_lt. reflexivity. }
  destruct (skip_space _) as [|c p]; [done|]. pose proof (token_all byte_ok (MAX_ARG_LEN - 1) _ Hb) as [_ H2].
  destruct (token _ _) as [t r]. intros [= <-]. cbn [pc_args]. by apply (parse_args_all byte_ok MAX_CMD_ARGS r).
Qed.

Definition line_bytes (l : line) : Prop := match l with Line t => Forall byte_ok t | BadLine => True end.

Lemma read_line_bytes input : forall used ov n l rest, Forall byte_ok input -> Forall byte_ok used ->
  read_command_line input used ov n = Some (l, rest) -> line_bytes l /\ Forall byte_ok rest.
Proof.
  induction input as [|c input IH]; intros used ov n l rest Hi Hu; cbn [read_command_line]; [done|].
  apply Forall_cons in Hi as [Hc Hi]. case_match.
  - intros [= <- <-]. split; [|done]. by destruct ov.
  - case_match; apply IH; try done. apply Forall_app. split; [done|]. by constructor.
Qed.

Lemma command_lines_bytes input : Forall byte_ok input -> Forall line_bytes (command_lines input).
Proof.
  unfold command_lines. generalize (length input) as n. intros n. revert input.
  induction n as [|n IH]; intros input Hi; cbn [read_lines]; [constructor|].
  destruct (read_command_line _ _ _ _) as [[l rest]|] eqn:E; [|constructor].
  apply read_line_bytes in E as [Hl Hr]; [|done|constructor]. constructor; [done|by apply IH].
Qed.

Lemma client_line_conforms C s l : atof_ok C -> session_ok s -> line_bytes l ->
  closed (client_line C s l) (fun r => match r.1.1 with Some s' => session_ok s' | None => True end).
Proof.
  intros HC Hs Hl. unfold client_line. destruct l as [text|]; [|done]. pose proof (strip_all byte_ok text Hl) as Hb.
  destruct (strip_newlines text) as [|c buf]; [done|]. destruct (parse_command (c :: buf)) as [cmd|] eqn:E; [|done].
  case_match; [done|]. case_match; [done|]. apply parse_command_bytes in E; [|done].
  eapply closed_seq; [by apply handle_command_conforms|]. intros o Ho. by split.
Qed.

Lemma client_handler_conforms C s input : atof_ok C -> session_ok s -> Forall byte_ok input ->
  closed (client_handler C s input) (fun _ => True).
Proof.
  intros HC Hs Hi. unfold client_handler. apply command_lines_bytes in Hi. revert s Hs.
  induction Hi as [|l ls Hl Hls IH]; intros s Hs; cbn [client_loop]; [done|].
  eapply closed_seq; [by apply client_line_conforms|]. intros [[[s'|] out] eff] Hs'; [|done].
  eapply closed_seq; [by apply IH|]. by intros [].
Qed.

(** ** Every request *)

(** Arguments in the range of their C types; what a client sends is bytes. *)
Definition request_ok (q : request) : Prop :=
  match q with
  | BookSeats u e l => uint_ok 32 u /\ uint_ok 32 e /\ Forall (uint_ok 32) l
  | CancelBooking b u => uint_ok 32 b /\ uint_ok 32 u
  | GetBooking b => uint_ok 32 b
  | MyBookings u _ => uint_ok 32 u
  | CreateEvent n v d t o r c p => Forall byte_ok n /\ Forall byte_ok v /\ Forall byte_ok d /\ Forall byte_ok t /\
      uint_ok 32 o /\ uint_ok 16 r /\ uint_ok 16 c /\ uint_ok 32 p
  | GetEvent e | DeleteEvent e => uint_ok 32 e
  | ListEvents _ => True
  | ViewSeats e _ => uint_ok 32 e
  | Client C s input => atof_ok C /\ session_ok s /\ Forall byte_ok input
  end.

Definition thread_conforms (g : txn_token) (t : thread) : Prop :=
  match t with Thread p => conforms g p (fun g' _ => g' = None) end.

Lemma serve_conforms q : request_ok q -> thread_conforms None (serve q).
Proof.
  assert (Hw : forall A (p : prog A), closed p (fun _ => True) -> conforms None p (fun g _ => g = None)).
  { intros A p Hp. eapply conforms_mono; [exact Hp|]. by intros g a [-> _]. }
  destruct q; cbn [request_ok serve thread_conforms]; intros Hq; destruct_and?; apply Hw.
  - by apply book_conforms.
  - by apply cancel_conforms.
  - by cbn [booking_get conforms contract].
  - done.
  - unfold uint_ok in *. by apply create_event_conforms; try lia.
  - by cbn [event_mgr_get_event conforms contract].
  - done.
  - done.
  - by cbn [event_mgr_delete_event conforms contract].
  - by apply client_handler_conforms.
Qed.

(** C16: every call of every request is well formed.  Whatever lines a client sends,
    and for any request of the booking engine and the event manager with arguments
    of their C types: each record handed to table.c has all its fields in the range
    of their declarations, is not flagged deleted and, in an update, carries the id
    it is stored under; each id looked up is a 32-bit one; each lock, commit and
    abort is for the request's own open transaction, which never asks for more than
    64 locks; no second transaction is begun; and the request ends with none open. *)
Theorem requests_conform q : request_ok q -> thread_conforms None (serve q).
Proof. apply serve_conforms. Qed.

Lemma requests_conform_witness :
  thread_conforms None (serve (Client no_libc (new_session 4) (lit "REGISTER bob secret" ++ [10] ++ lit "BOOK 1 2 3" ++ [10]))).
Proof.
  apply (requests_conform (Client no_libc (new_session 4) (lit "REGISTER bob secret" ++ [10] ++ lit "BOOK 1 2 3" ++ [10]))).
  split; [intros b; by vm_compute|]. split; [by vm_compute|]. apply (bool_decide_unpack _). by vm_compute.
Defined.
