(* ===== verification/Access.v ===== *)
(** * Who may do what (server/main.c, auth/rbac.c)

    Whatever a client types and whatever the tables answer, its commands make only
    calls its session is entitled to. *)

From stdpp Require Import base tactics numbers list gmap strings.
From Stdlib Require Import ZArith Lia.
From S2P Require Import Prelude Types Utils Calls EventMgr Protocol Auth Reports Booking Server Threads.

#[local] Open Scope Z_scope.

(** The event and the booking a command has read last: id and owner. *)
Record read := Read { rd_event : option (Z * Z); rd_booking : option (Z * Z) }.
Definition nothing : read := Read None None.

Section access.
(** The role and the user of the session. *)
Context (role user_id : Z).

Definition after_find {R} (T : tbl R) (id : Z) (g : read) : R -> read :=
  match T in tbl R return R -> read with
  | Events => fun e => Read (Some (id, e_organizer_id e)) (rd_booking g)
  | Bookings => fun b => Read (rd_event g) (Some (id, b_user_id b))
  | _ => fun _ => g
  end.

Definition may_insert {R} (T : tbl R) : R -> Prop :=
  match T in tbl R return R -> Prop with
  | Users => fun u => u_role u = ROLE_CUSTOMER \/ (u_role u = ROLE_ORGANIZER /\ role = ROLE_ADMIN)
  | Events => fun e => ROLE_ORGANIZER <= role /\ e_organizer_id e = user_id
  | Seats => fun _ => ROLE_ORGANIZER <= role
  | Bookings => fun b => ROLE_CUSTOMER <= role /\ b_user_id b = user_id
  | BookingSeats => fun _ => ROLE_CUSTOMER <= role
  end.

(** Seats are given to the user or freed; bookings are only ever cancelled, by their owner. *)
Definition may_update {R} (T : tbl R) (id : Z) (g : read) : R -> Prop :=
  match T in tbl R return R -> Prop with
  | Seats => fun s => ROLE_CUSTOMER <= role /\
      ((s_status s = SEAT_BOOKED /\ s_booked_by s = user_id) \/
       (s_status s = SEAT_AVAILABLE /\ exists b, rd_booking g = Some (b, user_id)))
  | Bookings => fun b => ROLE_CUSTOMER <= role /\ b_status b = BOOKING_CANCELLED /\ rd_booking g = Some (id, user_id)
  | _ => fun _ => False
  end.

Definition access_rule (R : Type) (g : read) (c : cmd R) : (read -> R -> Prop) -> Prop :=
  match c in cmd R return (read -> R -> Prop) -> Prop with
  | Find T id => fun K => (forall r, K (after_find T id g r) (inl r)) /\ forall e, K g (inr e)
  | Insert T x => fun K => may_insert T x /\ forall r, K g r
  | Update T id x => fun K => may_update T id g x /\ forall r, K g r
  | Delete T id => fun K =>
      match T with Events => ROLE_ORGANIZER <= role /\ exists o, rd_event g = Some (id, o) /\ (role = ROLE_ADMIN \/ o = user_id)
              | _ => False end /\ forall r, K g r
  | Scan T f n => fun K => forall r, K g r
  | Begin => fun K => ROLE_CUSTOMER <= role /\ forall r, K g r
  | Lock _ _ _ => fun K => ROLE_CUSTOMER <= role /\ forall r, K g r
  | Commit _ => fun K => ROLE_CUSTOMER <= role /\ forall r, K g r
  | Abort _ => fun K => ROLE_CUSTOMER <= role /\ forall r, K g r
  | Now => fun K => forall r, K g r
  end.

Lemma access_mono R g (c : cmd R) (K K' : read -> R -> Prop) :
  access_rule R g c K -> (forall g' r, K g' r -> K' g' r) -> access_rule R g c K'.
Proof using. intros HK H. destruct c; cbn [access_rule] in *; intuition eauto. Qed.

(** Every call of [p] is one the session is entitled to. *)
Definition entitled {A} (g : read) (p : prog A) : Prop := safe access_rule (fun _ => True) g p.

Lemma entitled_bind {A B} (p : prog A) (f : A -> prog B) g :
  entitled g p -> (forall g' a, entitled g' (f a)) -> entitled g (bind p f).
Proof using. intros Hp Hf. eapply safe_bind; [exact access_mono|exact Hp|]. intros g' a _. apply Hf. Qed.

(** Programs that only look, whoever asks. *)
Lemma entitled_find {A R} (T : tbl R) id (k : res R -> prog A) g :
  (forall g' r, entitled g' (k r)) -> entitled g (Call (Find T id) k).
Proof using. intros Hk. split; intros; apply Hk. Qed.

(** ** The operations *)

Lemma insert_seats_entitled l : ROLE_ORGANIZER <= role -> forall n g, entitled g (insert_seats l n).
Proof using. intros Hr. induction l as [|s l IH]; intros n g; [exact I|]. split; [exact Hr|]. intros r. apply IH. Qed.

Lemma create_event_entitled n v d t rows cols p g : ROLE_ORGANIZER <= role ->
  entitled g (event_mgr_create_event n v d t user_id rows cols p).
Proof using.
  intros Hr. unfold event_mgr_create_event. do 3 (case_match; [exact I|]). split; [by split|]. intros [i|e]; [|exact I].
  apply entitled_bind; [by apply insert_seats_entitled|]. by intros.
Qed.

Lemma register_entitled name pw r g : r = ROLE_CUSTOMER \/ (r = ROLE_ORGANIZER /\ role = ROLE_ADMIN) ->
  entitled g (auth_register name pw r).
Proof using.
  intros Hr. unfold auth_register. do 2 (case_match; [exact I|]). intros [|u l]; [|exact I]. intros now.
  split; [|intros []; exact I]. cbn [may_insert u_role user_record_of].
  destruct Hr as [->|[-> ->]]; [by left|by right].
Qed.

Lemma verify_entitled name pw g : entitled g (auth_verify name pw).
Proof using. intros [|u l]; [exact I|]. by case_match. Qed.

Lemma event_revenue_entitled e g : entitled g (reports_event_revenue e).
Proof using. apply entitled_find. intros g' [x|x]; [|exact I]. by intros l. Qed.

Lemma organizer_revenue_entitled o n g : entitled g (reports_organizer_revenue o n).
Proof using.
  intros l. generalize (Z.to_nat n). revert g. induction l as [|e l IH]; intros g m; cbn [revenue_loop]; [exact I|].
  destruct m as [|m]; [exact I|]. apply entitled_bind; [apply event_revenue_entitled|]. intros g' [r|r]; [|apply IH].
  apply entitled_bind; [apply IH|]. by intros.
Qed.

Section book.
Context (Hr : ROLE_CUSTOMER <= role).

Lemma fail_entitled txn rc g : entitled g (fail txn rc).
Proof using Hr. by split. Qed.

Lemma assign_seats_entitled txn b l : forall g, entitled g (assign_seats txn user_id b l).
Proof using Hr.
  induction l as [|s l IH]; intros g; cbn [assign_seats].
  - split; [done|]. intros r. by case_match.
  - split; [done|]. intros [j|e]; [|apply fail_entitled]. apply entitled_find. intros g' [x|x]; [|apply fail_entitled].
    split; [split; [done|]; by left|]. intros rc. case_match; [apply IH|apply fail_entitled].
Qed.

Lemma book_entitled ev l g : entitled g (booking_book_seats user_id ev l).
Proof using Hr.
  unfold booking_book_seats. do 3 (case_match; [exact I|]). apply entitled_find. intros g1 [e|e]; [|exact I].
  case_match; [exact I|]. split; [done|]. intros t. case_match; [exact I|].
  set (all := exchange_sort id l).
  assert (Hcheck : forall todo g2, entitled g2 (check_seats t user_id ev (e_price e) all todo)).
  { induction todo as [|s todo IH]; intros g2; cbn [check_seats].
    - intros now. split; [by split|]. intros [b|x]; [apply assign_seats_entitled|apply fail_entitled].
    - apply entitled_find. intros g3 [x|x]; [|apply fail_entitled]. case_match; [apply fail_entitled|].
      case_match; [apply fail_entitled|apply IH]. }
  assert (Hlock : forall todo g2, entitled g2 (lock_seats t user_id ev (e_price e) all todo)); [|apply Hlock].
  induction todo as [|s todo IH]; intros g2; cbn [lock_seats]; [apply Hcheck|].
  split; [done|]. intros r. case_match; [apply fail_entitled|apply IH].
Qed.

Lemma fail_rc_entitled txn rc g : entitled g (fail_rc txn rc).
Proof using Hr. by split. Qed.

Lemma release_seats_entitled txn b r l : forall g, rd_booking g = Some (b, user_id) -> entitled g (release_seats txn b r l).
Proof using Hr.
  induction l as [|s l IH]; intros g Hg; cbn [release_seats].
  - split; [by split|]. intros rc. case_match; [apply fail_rc_entitled|]. split; [done|]. intros x. by case_match.
  - split; [done|]. intros rc. case_match; [apply fail_rc_entitled|]. split; [|intros e; by apply IH].
    intros x. cbn [after_find]. split; [split; [done|]; right; split; [done|]; by exists b|].
    intros rc'. case_match; [apply fail_rc_entitled|by apply IH].
Qed.

Lemma cancel_entitled b g : entitled g (booking_cancel b user_id).
Proof using Hr.
  unfold booking_cancel. split; [done|]. intros t. case_match; [exact I|]. split; [done|]. intros rc.
  case_match; [apply fail_rc_entitled|]. split; [|intros e; apply fail_rc_entitled]. intros r. cbn [after_find].
  destruct (Z.eqb_spec (b_user_id r) user_id) as [Hu|Hu]; cbn [negb]; [|apply fail_rc_entitled].
  case_match; [apply fail_rc_entitled|]. intros l. apply release_seats_entitled. cbn. by rewrite Hu.
Qed.
End book.
End access.

(** ** Every command *)

Lemma checked_role s cmd m : 0 <= ss_role s -> rbac_check (ss_role s) cmd = true -> required_role cmd = Some m -> m <= ss_role s.
Proof. intros H0 Hc Hm. apply rbac_iff in Hc as (m' & Hm' & Hr); [|done]. assert (m = m') as -> by congruence. lia. Qed.

Lemma handle_command_entitled C s cmd g : 0 <= ss_role s -> rbac_check (ss_role s) (pc_type cmd) = true ->
  entitled (ss_role s) (ss_user_id s) g (handle_command C s cmd).
Proof.
  intros H0 Hc. unfold handle_command.
  repeat (case_match; [match goal with H : (pc_type cmd =? _) = true |- _ => apply Z.eqb_eq in H; rewrite H in Hc; clear H end|]).
  - unfold cmd_register. destruct (argc cmd <? 2); [exact I|]. cbv zeta. set (org := (3 <=? argc cmd) && (_ || _)).
    destruct ((3 <=? argc cmd) && negb org && _); [exact I|].
    destruct (((if org then ROLE_ORGANIZER else ROLE_CUSTOMER) =? ROLE_ORGANIZER) && _) eqn:Hrole; [exact I|].
    apply entitled_bind; [|intros g' [i|[]]; exact I]. apply register_entitled.
    destruct org; [right|by left]. split; [done|]. unfold ROLE_ORGANIZER in Hrole. cbn [Z.eqb Pos.eqb andb] in Hrole. lia.
  - unfold cmd_login. case_match; [exact I|]. case_match; [exact I|].
    apply entitled_bind; [apply verify_entitled|]. by intros g' [u|e].
  - unfold cmd_logout. by case_match.
  - unfold cmd_create_event. case_match; [exact I|]. apply entitled_bind; [|by intros g' [i|e]].
    apply create_event_entitled. by eapply checked_role.
  - unfold cmd_delete_event. case_match; [exact I|]. unfold event_mgr_get_event. cbn [bind]. split; [|intros e; exact I].
    intros e. cbn [after_find]. case_match eqn:Hown; [exact I|]. unfold event_mgr_delete_event. cbn [bind].
    split; [|intros rc; by case_match]. split; [by eapply checked_role|]. eexists. split; [done|]. lia.
  - unfold cmd_list_events. by intros [|e l].
  - unfold cmd_view_event. case_match; [exact I|]. split; [by intros|by intros].
  - unfold cmd_view_seats. case_match; [exact I|]. by intros [|x l].
  - unfold cmd_book. case_match; [exact I|]. apply entitled_bind; [|by intros g' [i|[]]].
    apply book_entitled. by eapply checked_role.
  - unfold cmd_cancel. case_match; [exact I|]. apply entitled_bind; [|by intros g' []].
    apply cancel_entitled. by eapply checked_role.
  - unfold cmd_my_bookings. by intros [|x l].
  - unfold cmd_revenue. case_match.
    + apply entitled_bind; [apply event_revenue_entitled|]. by intros g' [r|e].
    + apply entitled_bind; [apply organizer_revenue_entitled|]. by intros g' [|r l].
  - unfold cmd_list_users. by intros [|x l].
  - unfold cmd_system_stats. by intros now.
  - exact I.
  - exact I.
Qed.

(** C15: whatever line a client sends and whatever the calls answer, the server makes
    only calls the client's session is entitled to: guests change nothing but
    their own registration as a customer, only an admin can register an organizer
    and nobody an admin; only customers and above take locks and touch seats and
    bookings, always for their own user, and a seat is freed or a booking
    cancelled only by the user the booking record names; only organizers and above
    create events, under their own user, and an event is deleted only by its
    organizer or an admin. *)
Theorem client_entitled C s l : 0 <= ss_role s ->
  entitled (ss_role s) (ss_user_id s) nothing (client_line C s l).
Proof.
  intros H0. unfold client_line. destruct l as [text|]; [|exact I]. case_match; [exact I|].
  destruct (parse_command _) as [cmd|]; [|exact I]. case_match; [exact I|].
  destruct (rbac_check (ss_role s) (pc_type cmd)) eqn:Hc; cbn [negb]; [|exact I].
  apply entitled_bind; [by apply handle_command_entitled|]. by intros.
Qed.

(** A guest's BOOK is refused without any call; a guest's REGISTER is not. *)
Lemma client_entitled_witness :
  0 <= ss_role (new_session 4) /\
  entitled (ss_role (new_session 4)) 0 nothing (client_line no_libc (new_session 4) (Line (lit "REGISTER bob secret"))) /\
  match client_line no_libc (new_session 4) (Line (lit "BOOK 1 1")) with Ret _ => True | _ => False end.
Proof.
  split; [by vm_compute|]. split; [apply (client_entitled no_libc (new_session 4) (Line (lit "REGISTER bob secret"))); by vm_compute|].
  by vm_compute.
Defined.
