(* ===== verification/BookingSafety.v ===== *)
(** * No double booking

    Any number of requests, interleaved call by call: two confirmed bookings never
    claim the same seat.  The argument is the one the locks of booking_engine.c
    stand for.  Each thread has private knowledge (a [ghost]) of the seats it has
    locked; the global invariant [inv] ties that knowledge to the tables; [rule]
    says which calls keep it. *)

From stdpp Require Import base tactics numbers list gmap relations.
From Stdlib Require Import ZArith Lia.
From S2P Require Import Prelude Types Calls EventMgr Booking Threads.

#[local] Open Scope Z_scope.

(** ** Claims on seats *)

Definition confirmed (w : world) (b : Z) : Prop :=
  exists r, ts_map (w_bookings w) !! b = Some r /\ b_status r = BOOKING_CONFIRMED.

Definition junction (w : world) (b s : Z) : Prop :=
  exists j bs, ts_map (w_bseats w) !! j = Some bs /\ bs_booking_id bs = b /\ bs_seat_id bs = s.

(** Booking [b] is confirmed and claims seat [s]. *)
Definition claims (w : world) (b s : Z) : Prop := confirmed w b /\ junction w b s.

Definition available (w : world) (s : Z) : Prop :=
  exists r, ts_map (w_seats w) !! s = Some r /\ s_status r = SEAT_AVAILABLE.

(** ** What a thread knows *)

(** Of a seat it has locked: nothing; that it exists; that nobody claims it; that
    only the thread's new booking may claim it; that only the booking the thread
    is cancelling may claim it. *)
Inductive hold := Unknown | Exists | Free | Half | Released.
#[export] Instance hold_eq_dec : EqDecision hold.
Proof. solve_decision. Defined.

Record ghost := Ghost {
  g_txn : option Z;
  g_holds : gmap Z hold;
  g_bk : option (Z * bool);       (** the booking it has locked, and whether it saw it confirmed *)
  g_bid : option Z;               (** the booking it has inserted *)
  g_seen : list (Z * Z) }.        (** junctions it has read *)

Definition idle : ghost := Ghost None ∅ None None [].

Definition set_hold (s : Z) (h : hold) (g : ghost) : ghost :=
  Ghost (g_txn g) (<[s := h]> (g_holds g)) (g_bk g) (g_bid g) (g_seen g).
Definition set_bk (b : option (Z * bool)) (g : ghost) : ghost := Ghost (g_txn g) (g_holds g) b (g_bid g) (g_seen g).
Definition set_bid (b : Z) (g : ghost) : ghost := Ghost (g_txn g) (g_holds g) (g_bk g) (Some b) (g_seen g).
Definition set_seen (l : list (Z * Z)) (g : ghost) : ghost := Ghost (g_txn g) (g_holds g) (g_bk g) (g_bid g) l.
Definition begun (t : Z) : ghost := Ghost (Some t) ∅ None None [].

(** A free seat may be claimed by a booking that is half way, or that is being cancelled. *)
Definition excused (g : ghost) (s : Z) : bool :=
  match g_holds g !! s with Some Half | Some Released => true | _ => false end.
Definition clean (g : ghost) : Prop := forall s, excused g s = false.

Definition known (g : ghost) (s : Z) : Prop :=
  match g_holds g !! s with Some Unknown | None => False | _ => True end.

(** What reading a locked seat shows. *)
Definition learn (g : ghost) (s : Z) (r : seat_record) : ghost :=
  match g_holds g !! s with
  | Some Unknown | Some Exists => set_hold s (if s_status r =? SEAT_AVAILABLE then Free else Exists) g
  | _ => g
  end.
Definition hold_seat (g : ghost) (s : Z) : ghost :=
  match g_holds g !! s with None => set_hold s Unknown g | Some _ => g end.
Definition confirm (g : ghost) (b : Z) (r : booking_record) : ghost :=
  match g_bk g with
  | Some (b', false) => if (b' =? b) && (b_status r =? BOOKING_CONFIRMED) then set_bk (Some (b, true)) g else g
  | _ => g
  end.
(** After the locked booking is cancelled. *)
Definition unrelease (g : ghost) : ghost :=
  Ghost (g_txn g) ((fun h => match h with Released => Exists | _ => h end) <$> g_holds g) None (g_bid g) (g_seen g).

(** ** The rules *)

Definition rule_find {R} (T : tbl R) (id : Z) (g : ghost) : (ghost -> res R -> Prop) -> Prop :=
  match T in tbl R return (ghost -> res R -> Prop) -> Prop with
  | Seats => fun K => (forall r, K (learn g id r) (inl r)) /\ (known g id \/ forall e, K g (inr e))
  | Bookings => fun K => (forall r, K (confirm g id r) (inl r)) /\ forall e, K g (inr e)
  | _ => fun K => forall r, K g r
  end.

Definition rule_insert {R} (T : tbl R) (g : ghost) (K : ghost -> res Z -> Prop) : R -> Prop :=
  match T in tbl R return R -> Prop with
  | Bookings => fun _ => g_bid g = None /\ (forall b, K (set_bid b g) (inl b)) /\ forall e, K g (inr e)
  | BookingSeats => fun x => g_bid g = Some (bs_booking_id x) /\ g_holds g !! bs_seat_id x = Some Free /\
      (forall j, K (set_hold (bs_seat_id x) Half g) (inl j)) /\ forall e, K g (inr e)
  | _ => fun _ => forall r, K g r
  end.

Definition rule_update {R} (T : tbl R) (id : Z) (g : ghost) (K : ghost -> etp_result_t -> Prop) : R -> Prop :=
  match T in tbl R return R -> Prop with
  | Seats => fun x => known g id /\
      if s_status x =? SEAT_AVAILABLE
      then g_holds g !! id <> Some Half /\ (exists b, g_bk g = Some (b, true) /\ (b, id) ∈ g_seen g) /\
           K (set_hold id Released g) ETP_OK
      else g_holds g !! id <> Some Released /\ K (set_hold id Exists g) ETP_OK
  | Bookings => fun x => g_bk g = Some (id, true) /\ b_status x <> BOOKING_CONFIRMED /\ K (unrelease g) ETP_OK
  | BookingSeats => fun _ => False
  | _ => fun _ => forall r, K g r
  end.

Definition rule_delete {R} (T : tbl R) (g : ghost) (K : ghost -> etp_result_t -> Prop) : Prop :=
  match T with Users | Events => forall r, K g r | _ => False end.

Definition rule_scan {R} (T : tbl R) (g : ghost) : (R -> bool) -> (ghost -> list R -> Prop) -> Prop :=
  match T in tbl R return (R -> bool) -> (ghost -> list R -> Prop) -> Prop with
  | BookingSeats => fun f K => forall l, Forall (fun x => f x = true) l ->
      K (set_seen ((fun x => (bs_booking_id x, bs_seat_id x)) <$> l) g) l
  | _ => fun _ K => forall l, K g l
  end.

Definition rule (R : Type) (g : ghost) (c : cmd R) : (ghost -> R -> Prop) -> Prop :=
  match c in cmd R return (ghost -> R -> Prop) -> Prop with
  | Find T id => rule_find T id g
  | Insert T x => fun K => rule_insert T g K x
  | Update T id x => fun K => rule_update T id g K x
  | Delete T _ => rule_delete T g
  | Scan T f _ => rule_scan T g f
  | Begin => fun K => g = idle /\ forall t, K (if t =? INVALID_TXN_ID then idle else begun t) t
  | Lock t tb id => fun K => g_txn g = Some t /\
      if tb =? TABLE_SEATS then K (hold_seat g id) 0
      else if tb =? TABLE_BOOKINGS then g_bk g = None /\ K (set_bk (Some (id, false)) g) 0
      else K g 0
  | Commit t => fun K => g_txn g = Some t /\ clean g /\ forall r, K idle r
  | Abort t => fun K => g_txn g = Some t /\ clean g /\ K idle tt
  | Now => fun K => forall r, K g r
  end.

Abbreviation allowed := (safe (A := _) rule (fun g => g = idle)).

(** ** The programs follow the rules *)

Ltac ret_idle := repeat case_match; reflexivity.

Section programs.
Context (txn : Z).

Lemma fail_allowed g rc : g_txn g = Some txn -> clean g -> allowed g (fail txn rc).
Proof. by intros Ht Hc. Qed.

Lemma fail_rc_allowed g rc : g_txn g = Some txn -> clean g -> allowed g (fail_rc txn rc).
Proof. by intros Ht Hc. Qed.

Definition holding (h : hold) (g : ghost) (l : list Z) : Prop := Forall (fun s => g_holds g !! s = Some h) l.

Lemma holding_set h g l s h' : s ∉ l -> holding h g l -> holding h (set_hold s h' g) l.
Proof.
  unfold holding. rewrite !Forall_forall. intros Hn Hh x Hx. cbn [set_hold g_holds].
  rewrite lookup_insert_ne; [auto|]. by intros ->.
Qed.

Lemma clean_set g s h : clean g -> h <> Half -> h <> Released -> clean (set_hold s h g).
Proof.
  intros Hc H1 H2 x. specialize (Hc x). unfold excused in *. cbn [set_hold g_holds].
  destruct (decide (s = x)) as [->|]; [rewrite lookup_insert_eq; by destruct h|by rewrite lookup_insert_ne].
Qed.

Lemma set_hold_set s h h' g : set_hold s h (set_hold s h' g) = set_hold s h g.
Proof. unfold set_hold. cbn. f_equal. apply insert_insert_eq. Qed.

Lemma assign_seats_allowed user b l : forall g,
  g_txn g = Some txn -> g_bid g = Some b -> NoDup l -> holding Free g l -> clean g ->
  allowed g (assign_seats txn user b l).
Proof.
  induction l as [|s l IH]; intros g Ht Hb Hnd Hf Hc; cbn [assign_seats].
  - cbn. split; [done|]. split; [done|]. intros r. ret_idle.
  - apply NoDup_cons in Hnd as [Hns Hnd]. apply Forall_cons in Hf as [Hs Hf].
    cbn [safe rule rule_insert bs_booking_id bs_seat_id].
    split; [done|]. split; [done|]. split; [|intros e; by apply fail_allowed].
    intros _. cbn [safe rule rule_find].
    assert (Hk : known (set_hold s Half g) s) by (by unfold known; cbn; rewrite lookup_insert_eq).
    split; [|by left]. intros r. unfold learn. cbn [set_hold g_holds]. rewrite lookup_insert_eq.
    cbn [safe rule rule_update s_status]. change (SEAT_BOOKED =? SEAT_AVAILABLE) with false. cbv iota.
    split; [done|]. split; [cbn; rewrite lookup_insert_eq; done|].
    rewrite bool_decide_true by done. rewrite set_hold_set.
    apply IH; try done; [by apply holding_set|by apply clean_set].
Qed.

Lemma create_booking_allowed user ev price l g :
  g_txn g = Some txn -> g_bid g = None -> NoDup l -> holding Free g l -> clean g ->
  allowed g (create_booking txn user ev price l).
Proof.
  intros Ht Hb Hnd Hf Hc. cbn. intros _. split; [done|]. split; [|intros e; by apply fail_allowed].
  intros b. by apply assign_seats_allowed.
Qed.

Lemma check_seats_allowed user ev price todo : forall done g,
  g_txn g = Some txn -> g_bid g = None -> NoDup (done ++ todo) -> holding Free g done -> holding Unknown g todo ->
  clean g -> allowed g (check_seats txn user ev price (done ++ todo) todo).
Proof.
  induction todo as [|s todo IH]; intros dn g Ht Hb Hnd Hf Hu Hc; cbn [check_seats].
  - rewrite app_nil_r in *. by apply create_booking_allowed.
  - apply Forall_cons in Hu as [Hs Hu]. cbn [safe rule rule_find].
    split; [|right; intros e; by apply fail_allowed]. intros r. unfold learn. rewrite Hs.
    assert (Hset : clean (set_hold s (if s_status r =? SEAT_AVAILABLE then Free else Exists) g))
      by (destruct (s_status r =? SEAT_AVAILABLE); apply clean_set; done).
    destruct (negb (s_event_id r =? ev)); [by apply fail_allowed|].
    destruct (s_status r =? SEAT_AVAILABLE); cbn [negb]; [|by apply fail_allowed].
    rewrite (cons_middle s dn todo), (app_assoc dn [s] todo) in *.
    apply NoDup_app in Hnd as (Hnd1 & Hnd2 & Hnd3). apply NoDup_app in Hnd1 as (Hnd0 & Hnd1 & _).
    assert (Hsd : s ∉ dn) by (intros Hi; apply (Hnd1 s Hi); by apply list_elem_of_singleton).
    assert (Hst : s ∉ todo) by (apply Hnd2, elem_of_app; right; by apply list_elem_of_singleton).
    apply IH; try done.
    + apply NoDup_app. split; [|done]. apply NoDup_app. split; [done|]. split; [|apply NoDup_singleton].
      done.
    + apply Forall_app. split; [by apply holding_set|]. constructor; [|constructor]. cbn. by rewrite lookup_insert_eq.
    + by apply holding_set.
Qed.

Lemma lock_seats_allowed user ev price todo : forall done g,
  g_txn g = Some txn -> g_bid g = None -> NoDup (done ++ todo) -> holding Unknown g done ->
  (forall s, s ∈ todo -> g_holds g !! s = None) -> clean g ->
  allowed g (lock_seats txn user ev price (done ++ todo) todo).
Proof.
  induction todo as [|s todo IH]; intros dn g Ht Hb Hnd Hu Hn Hc; cbn [lock_seats].
  - rewrite app_nil_r in *. apply (check_seats_allowed user ev price dn [] g); try done. constructor.
  - cbn [safe rule]. split; [done|]. rewrite Z.eqb_refl. cbn [Z.eqb negb].
    unfold hold_seat. rewrite (Hn s) by left.
    rewrite (cons_middle s dn todo), (app_assoc dn [s] todo) in *.
    pose proof Hnd as Hnd0. apply NoDup_app in Hnd as (Hnd1 & Hnd2 & Hnd3). apply NoDup_app in Hnd1 as (_ & Hnd1 & _).
    apply IH; try done.
    + apply Forall_app. split; [apply holding_set; [|done]|].
      * intros Hi. apply (Hnd1 s Hi). by apply list_elem_of_singleton.
      * constructor; [|constructor]. cbn. by rewrite lookup_insert_eq.
    + intros x Hx. cbn. rewrite lookup_insert_ne; [apply Hn; by right|]. intros <-.
      apply (Hnd2 s); [|done]. apply elem_of_app. right. by apply list_elem_of_singleton.
    + by apply clean_set.
Qed.
End programs.

Lemma booking_book_seats_allowed user ev l : allowed idle (booking_book_seats user ev l).
Proof.
  unfold booking_book_seats. case_match; [done|]. case_match; [done|].
  destruct (seat_ids_ok [] l) eqn:Hok; cbn [negb]; [|done]. apply seat_ids_ok_spec in Hok as [_ Hnd].
  cbn. intros [e|e]; [|done]. destruct (negb (e_status e =? EVENT_ACTIVE)); [done|].
  cbn. split; [done|]. intros t. destruct (t =? INVALID_TXN_ID); [done|].
  apply (lock_seats_allowed t user ev (e_price e) (exchange_sort id l) []); try done.
  - by rewrite exchange_sort_perm.
  - constructor.
Qed.

(** Cancelling never has a seat half way. *)
Definition no_half (g : ghost) : Prop := forall s, g_holds g !! s <> Some Half.

(** [g'] differs from [g] in the seats held only. *)
Definition same_but_holds (g g' : ghost) : Prop :=
  g_txn g' = g_txn g /\ g_bk g' = g_bk g /\ g_bid g' = g_bid g /\ g_seen g' = g_seen g.

Lemma set_hold_same s h g : same_but_holds g (set_hold s h g).
Proof. done. Qed.

Lemma hold_seat_same g s : same_but_holds g (hold_seat g s).
Proof. unfold hold_seat. by case_match. Qed.

Lemma learn_same g s r : same_but_holds g (learn g s r).
Proof. unfold learn. by repeat case_match. Qed.

Lemma no_half_set s h g : no_half g -> h <> Half -> no_half (set_hold s h g).
Proof. intros Hg Hh x. cbn. destruct (decide (s = x)) as [->|]; [rewrite lookup_insert_eq; congruence|by rewrite lookup_insert_ne]. Qed.

Lemma no_half_hold_seat s g : no_half g -> no_half (hold_seat g s).
Proof. intros Hg. unfold hold_seat. case_match; [done|]. by apply no_half_set. Qed.

Lemma no_half_learn s r g : no_half g -> no_half (learn g s r).
Proof.
  intros Hg. unfold learn. destruct (g_holds g !! s) as [[]|]; try done;
    (apply no_half_set; [done|by destruct (s_status r =? SEAT_AVAILABLE)]).
Qed.

Lemma hold_seat_holds g s : is_Some (g_holds (hold_seat g s) !! s).
Proof. unfold hold_seat. destruct (g_holds g !! s) eqn:E; [by rewrite E|]. cbn. by rewrite lookup_insert_eq. Qed.

Lemma learn_known g s r : is_Some (g_holds g !! s) -> known (learn g s r) s.
Proof.
  intros [h Hh]. unfold learn, known. rewrite Hh.
  destruct h; cbn; rewrite ?lookup_insert_eq, ?Hh; try done; by destruct (s_status r =? SEAT_AVAILABLE).
Qed.

Section cancel.
Context (txn b : Z).

Lemma mark_cancelled_allowed g r :
  g_txn g = Some txn -> g_bk g = Some (b, true) -> no_half g -> allowed g (mark_cancelled txn b r).
Proof.
  intros Ht Hb Hh. cbn. split; [done|]. split; [done|]. split; [done|]. split; [|intros rc; ret_idle].
  intros s. unfold excused. cbn. rewrite lookup_fmap. specialize (Hh s).
  destruct (g_holds g !! s) as [[]|]; done.
Qed.

Lemma release_seats_allowed r l : forall g,
  g_txn g = Some txn -> g_bk g = Some (b, true) -> no_half g -> Forall (fun bs => (b, bs_seat_id bs) ∈ g_seen g) l ->
  allowed g (release_seats txn b r l).
Proof.
  induction l as [|bs l IH]; intros g Ht Hb Hh Hl; cbn [release_seats]; [by apply mark_cancelled_allowed|].
  apply Forall_cons in Hl as [Hbs Hl]. cbn [safe rule]. split; [done|].
  rewrite Z.eqb_refl. change (negb (0 =? 0)) with false. cbv iota.
  set (s := bs_seat_id bs) in *. destruct (hold_seat_same g s) as (E1 & E2 & _ & E4).
  pose proof (hold_seat_holds g s) as Hs. apply (no_half_hold_seat s) in Hh.
  set (g1 := hold_seat g s) in *. rewrite <- E1 in Ht. rewrite <- E2 in Hb. rewrite <- E4 in Hbs, Hl.
  clearbody g1. cbn [safe rule rule_find]. split; [|right; intros e; by apply IH].
  intros q. apply (learn_known g1 s q) in Hs. apply (no_half_learn s q) in Hh.
  destruct (learn_same g1 s q) as (F1 & F2 & _ & F4). set (g2 := learn g1 s q) in *.
  rewrite <- F1 in Ht. rewrite <- F2 in Hb. rewrite <- F4 in Hbs, Hl. clearbody g2.
  cbn [safe rule rule_update s_status]. rewrite Z.eqb_refl. split; [done|]. split; [apply Hh|].
  split; [by exists b|]. rewrite bool_decide_true by done. cbn [negb].
  apply IH; try done. by apply no_half_set.
Qed.
End cancel.

Lemma booking_cancel_allowed b user : allowed idle (booking_cancel b user).
Proof.
  unfold booking_cancel. cbn [safe rule]. split; [done|]. intros t. case_match; [done|].
  cbn [safe rule]. split; [done|].
  change (TABLE_BOOKINGS =? TABLE_SEATS) with false. rewrite Z.eqb_refl. change (negb (0 =? 0)) with false. cbv iota.
  split; [done|]. cbn [safe rule rule_find]. split; [|intros e; by apply fail_rc_allowed].
  intros r. unfold confirm. cbn [set_bk g_bk begun]. rewrite Z.eqb_refl. cbn [andb].
  destruct (b_user_id r =? user); cbn [negb]; [|case_match; by apply fail_rc_allowed].
  destruct (b_status r =? BOOKING_CONFIRMED); cbn [negb]; [|by apply fail_rc_allowed].
  cbn [safe rule rule_scan]. intros l Hl. apply release_seats_allowed; try done.
  rewrite exchange_sort_perm. cbn. rewrite Forall_forall in *. intros bs Hbs. apply list_elem_of_fmap.
  exists bs. specialize (Hl bs Hbs). unfold filter_booking_seats in Hl. split; [|done]. f_equal. lia.
Qed.

Lemma rule_mono R g (c : cmd R) (K K' : ghost -> R -> Prop) :
  rule R g c K -> (forall g' r, K g' r -> K' g' r) -> rule R g c K'.
Proof.
  intros HK H. destruct c as [B T id|B T x|B T id x|B T id|B T f n| |t tb id|t|t|]; cbn [rule] in *.
  - destruct T; cbn [rule_find] in *; intuition eauto.
  - destruct T; cbn [rule_insert] in *; intuition eauto.
  - destruct T; cbn [rule_update] in *; try (intuition eauto; done). destruct HK as [Hk HK]. split; [done|].
    case_match; intuition eauto.
  - destruct T; cbn [rule_delete] in *; auto.
  - destruct T; cbn [rule_scan] in *; auto.
  - destruct HK. auto.
  - destruct HK as [Ht HK]. split; [done|]. repeat case_match; intuition eauto.
  - intuition eauto.
  - intuition eauto.
  - auto.
Qed.

#[export] Instance allowed_serves : Serves (fun A p => safe rule (fun g => g = idle) idle p).
Proof.
  constructor.
  - done.
  - intros A B p f Hp Hf. eapply safe_bind; [exact rule_mono|exact Hp|]. intros g' a ->. apply Hf.
  - intros A R T id k Hk. cbn [safe rule]. destruct T; cbn [rule_find]; auto.
  - intros A R T f n k HT Hk. cbn [safe rule]. destruct T; cbn [rule_scan]; auto. done.
  - auto.
  - auto.
  - auto.
  - auto.
  - auto.
  - apply booking_book_seats_allowed.
  - apply booking_cancel_allowed.
Qed.

Lemma serve_allowed q : safe_thread rule (fun g => g = idle) idle (serve q).
Proof. apply (serve_ok (fun A p => safe rule (fun g => g = idle) idle p)). Qed.

(** ** The invariant *)

Definition hold_ok (w : world) (g : ghost) (s : Z) (h : hold) : Prop :=
  (h <> Unknown -> is_Some (ts_map (w_seats w) !! s)) /\
  match h with
  | Unknown | Exists => True
  | Free => forall b, ~ claims w b s
  | Half => forall b, claims w b s -> g_bid g = Some b
  | Released => forall b, claims w b s -> exists c, g_bk g = Some (b, c)
  end.

Definition owns (w : world) (o : option Z) (k : Z * Z) : Prop := exists t, o = Some t /\ w_locks w !! k = Some t.

Record good (w : world) (g : ghost) : Prop := Good {
  good_txn : forall t, g_txn g = Some t -> t < w_next_txn w;
  good_holds : forall s h, g_holds g !! s = Some h -> owns w (g_txn g) (TABLE_SEATS, s) /\ hold_ok w g s h;
  good_bk : forall b c, g_bk g = Some (b, c) -> owns w (g_txn g) (TABLE_BOOKINGS, b) /\ (c = true -> confirmed w b);
  good_bid : forall b, g_bid g = Some b -> is_Some (ts_map (w_bookings w) !! b);
  good_seen : forall b s, (b, s) ∈ g_seen g -> junction w b s }.

(** The tables by themselves. *)
Record tables_ok (w : world) : Prop := TablesOk {
  ok_seats : forall s, is_Some (ts_map (w_seats w) !! s) -> s < ts_next (w_seats w);
  ok_bookings : forall b, is_Some (ts_map (w_bookings w) !! b) -> b < ts_next (w_bookings w);
  ok_bseats : forall j, is_Some (ts_map (w_bseats w) !! j) -> j < ts_next (w_bseats w);
  ok_junction : forall b s, junction w b s -> is_Some (ts_map (w_bookings w) !! b) /\ is_Some (ts_map (w_seats w) !! s);
  ok_unique : forall b b' s, claims w b s -> claims w b' s -> b = b' }.

Record inv (w : world) (gs : list ghost) : Prop := Inv {
  inv_tables : tables_ok w;
  inv_avail : forall s b, available w s -> claims w b s -> exists i g, gs !! i = Some g /\ excused g s = true;
  inv_txns : forall i j gi gj t, gs !! i = Some gi -> gs !! j = Some gj -> g_txn gi = Some t -> g_txn gj = Some t -> i = j;
  inv_good : forall i g, gs !! i = Some g -> good w g }.

(** What a call of the transaction [o] leaves to the other threads. *)
Record frame (o : option Z) (w w' : world) : Prop := Frame {
  fr_txn : w_next_txn w <= w_next_txn w';
  fr_bookings : forall b, is_Some (ts_map (w_bookings w) !! b) -> is_Some (ts_map (w_bookings w') !! b);
  fr_locks : forall k t, w_locks w !! k = Some t -> o <> Some t -> w_locks w' !! k = Some t;
  fr_seats : forall s, is_Some (ts_map (w_seats w) !! s) -> is_Some (ts_map (w_seats w') !! s);
  fr_junction : forall b s, junction w b s -> junction w' b s;
  fr_claims : forall b s, claims w' b s -> claims w b s \/ owns w o (TABLE_SEATS, s);
  fr_confirmed : forall b, confirmed w b -> confirmed w' b \/ owns w o (TABLE_BOOKINGS, b) }.

Lemma owns_frame o o' w w' k : frame o w w' -> owns w o' k -> o <> o' -> owns w' o' k.
Proof. intros F (t & -> & Hl) Hne. exists t. split; [done|]. by apply (fr_locks _ _ _ F). Qed.

Lemma owns_inj w o o' k : owns w o k -> owns w o' k -> o = o'.
Proof. intros (t & -> & H) (t' & -> & H'). congruence. Qed.

Lemma good_frame o w w' g : frame o w w' -> (g_txn g = o -> o = None) -> good w g -> good w' g.
Proof.
  intros F Hne [G1 G2 G3 G4 G5].
  assert (Hno : forall k, owns w (g_txn g) k -> ~ owns w o k).
  { intros k H1 H2. pose proof (owns_inj _ _ _ _ H1 H2) as E. destruct H2 as (t & -> & _). by specialize (Hne E). }
  assert (Hmv : forall k, owns w (g_txn g) k -> owns w' (g_txn g) k).
  { intros k Hk. eapply owns_frame; [done..|]. intros E. destruct Hk as (t & Ht & _).
    rewrite Ht in *. by rewrite Hne in E. }
  constructor.
  - intros t Ht. pose proof (fr_txn _ _ _ F). specialize (G1 t Ht). lia.
  - intros s h Hs. destruct (G2 s h Hs) as [Ho [Hex Hh]]. split; [auto|].
    split; [intros; by apply (fr_seats _ _ _ F), Hex|].
    assert (Hcl : forall b, claims w' b s -> claims w b s).
    { intros b Hb. destruct (fr_claims _ _ _ F b s Hb) as [|Ho']; [done|]. by destruct (Hno _ Ho). }
    destruct h; eauto. intros b Hb. by apply (Hh b), Hcl.
  - intros b c Hb. destruct (G3 b c Hb) as [Ho Hc]. split; [auto|]. intros E. specialize (Hc E).
    destruct (fr_confirmed _ _ _ F b Hc) as [|Ho']; [done|]. by destruct (Hno _ Ho).
  - intros b Hb. apply (fr_bookings _ _ _ F); auto.
  - intros b s Hs. apply (fr_junction _ _ _ F); auto.
Qed.

(** One step: the thread [i] goes from [g] to [g']. *)
Lemma inv_step w gs i g g' w' :
  inv w gs -> gs !! i = Some g -> frame (g_txn g) w w' -> good w' g' -> tables_ok w' ->
  (forall t, g_txn g' = Some t -> g_txn g = Some t \/ w_next_txn w <= t) ->
  (forall s b, available w' s -> claims w' b s ->
     excused g' s = true \/ (available w s /\ claims w b s /\ excused g s = false)) ->
  inv w' (<[i := g']> gs).
Proof.
  intros [T A X G] Hi F Hg' HT Htx Hav.
  assert (Hlen : (i < length gs)%nat) by (by apply lookup_lt_Some in Hi).
  constructor; [done|..].
  - intros s b Ha Hc. destruct (Hav s b Ha Hc) as [He|(Ha0 & Hc0 & He)].
    + exists i, g'. split; [by apply list_lookup_insert_eq|done].
    + destruct (A s b Ha0 Hc0) as (j & gj & Hj & Hej). exists j, gj. split; [|done].
      rewrite list_lookup_insert_ne; [done|]. intros ->. congruence.
  - assert (Hold : forall j gj t, gs !! j = Some gj -> g_txn gj = Some t -> g_txn g' = Some t -> j = i).
    { intros j gj t Hj Ht Ht'. destruct (Htx t Ht') as [Hgt|Hn]; [by eapply X|].
      pose proof (good_txn _ _ (G j gj Hj) t Ht). lia. }
    intros j k gj gk t Hj Hk Htj Htk.
    destruct (decide (i = j)) as [<-|Hij]; destruct (decide (i = k)) as [<-|Hik]; try done;
      rewrite ?list_lookup_insert_eq in Hj by done; rewrite ?list_lookup_insert_eq in Hk by done;
      rewrite ?list_lookup_insert_ne in Hj by done; rewrite ?list_lookup_insert_ne in Hk by done; simplify_eq.
    + symmetry. by eapply Hold.
    + by eapply Hold.
    + by eapply X.
  - intros j gj Hj. destruct (decide (i = j)) as [<-|Hij].
    + rewrite list_lookup_insert_eq in Hj by done. by simplify_eq.
    + rewrite list_lookup_insert_ne in Hj by done. eapply good_frame; [done| |eauto].
      intros E. destruct (g_txn g) as [t|] eqn:Ht; [|done]. destruct Hij. by apply (X i j g gj t).
Qed.

(** ** Calls that leave the booking tables alone *)

Definition same_tables (w w' : world) : Prop :=
  w_seats w' = w_seats w /\ w_bookings w' = w_bookings w /\ w_bseats w' = w_bseats w.

Section same.
Context (w w' : world) (E : same_tables w w').

Lemma same_confirmed b : confirmed w' b <-> confirmed w b.
Proof. destruct E as (_ & Eb & _). unfold confirmed. by rewrite Eb. Qed.

Lemma same_junction b s : junction w' b s <-> junction w b s.
Proof. destruct E as (_ & _ & Ej). unfold junction. by rewrite Ej. Qed.

Lemma same_claims b s : claims w' b s <-> claims w b s.
Proof. unfold claims. by rewrite same_confirmed, same_junction. Qed.

Lemma same_available s : available w' s <-> available w s.
Proof. destruct E as (Es & _). unfold available. by rewrite Es. Qed.

Lemma same_tables_ok : tables_ok w -> tables_ok w'.
Proof.
  intros [S B J N U]. destruct E as (E1 & E2 & E3).
  constructor; intros *; rewrite ?same_junction, ?E1, ?E2, ?E3; auto. rewrite !same_claims. apply U.
Qed.

Lemma same_frame o : w_next_txn w <= w_next_txn w' ->
  (forall k t, w_locks w !! k = Some t -> o <> Some t -> w_locks w' !! k = Some t) -> frame o w w'.
Proof.
  intros Hn Hl. destruct E as (E1 & E2 & E3). constructor; intros *; rewrite ?E1, ?E2; auto; try lia.
  - by rewrite same_junction.
  - rewrite same_claims. auto.
  - rewrite same_confirmed. auto.
Qed.

Lemma inv_step_same gs i g g' :
  inv w gs -> gs !! i = Some g -> w_next_txn w <= w_next_txn w' ->
  (forall k t, w_locks w !! k = Some t -> g_txn g <> Some t -> w_locks w' !! k = Some t) ->
  good w' g' -> (forall t, g_txn g' = Some t -> g_txn g = Some t \/ w_next_txn w <= t) ->
  (forall s, excused g s = true -> excused g' s = true) ->
  inv w' (<[i := g']> gs).
Proof.
  intros HI Hi Hn Hl Hg' Ht He. eapply inv_step; eauto.
  - by apply same_frame.
  - apply same_tables_ok, HI.
  - intros s b. rewrite same_available, same_claims. destruct (excused g s) eqn:Hx; auto.
Qed.
End same.

Lemma same_refl w : same_tables w w.
Proof. done. Qed.

(** Only the thread's knowledge changes. *)
Lemma inv_step_ghost w gs i g g' : inv w gs -> gs !! i = Some g -> good w g' -> g_txn g' = g_txn g ->
  (forall s, excused g s = true -> excused g' s = true) -> inv w (<[i := g']> gs).
Proof. intros HI Hi Hg' Ht He. eapply inv_step_same; eauto using same_refl; try lia. intros t. rewrite Ht. auto. Qed.

Lemma good_set_hold w g s h : good w g -> owns w (g_txn g) (TABLE_SEATS, s) -> hold_ok w g s h -> good w (set_hold s h g).
Proof.
  intros [G1 G2 G3 G4 G5] Ho Hh. constructor; try done.
  intros s' h' Hs. cbn in Hs. destruct (decide (s = s')) as [<-|].
  - rewrite lookup_insert_eq in Hs. simplify_eq. done.
  - rewrite lookup_insert_ne in Hs by done. by apply G2.
Qed.

Lemma excused_set_hold g s h x : excused (set_hold s h g) x =
  if decide (s = x) then match h with Half | Released => true | _ => false end else excused g x.
Proof.
  unfold excused. cbn. case_decide as Hd; [subst; by rewrite lookup_insert_eq; destruct h|by rewrite lookup_insert_ne].
Qed.

(** A seat the thread has locked and that is available is claimed by nobody, unless
    the thread itself is half way. *)
Lemma free_unclaimed w gs i g s : inv w gs -> gs !! i = Some g -> owns w (g_txn g) (TABLE_SEATS, s) ->
  excused g s = false -> available w s -> forall b, ~ claims w b s.
Proof.
  intros [T A X G] Hi Ho He Ha b Hc. destruct (A s b Ha Hc) as (j & gj & Hj & Hx).
  assert (Hoj : owns w (g_txn gj) (TABLE_SEATS, s)).
  { unfold excused in Hx. destruct (g_holds gj !! s) as [h|] eqn:E; [|done]. by apply (good_holds _ _ (G j gj Hj) s h). }
  pose proof (owns_inj _ _ _ _ Ho Hoj) as E. destruct Ho as (t & Ht & _).
  assert (i = j) by (eapply X; eauto; congruence). congruence.
Qed.

Lemma learn_inv w gs i g s r : inv w gs -> gs !! i = Some g -> ts_map (w_seats w) !! s = Some r ->
  inv w (<[i := learn g s r]> gs).
Proof.
  intros HI Hi Hr. pose proof (inv_good _ _ HI i g Hi) as Hg.
  assert (Hlearn : forall h, g_holds g !! s = Some h -> h = Unknown \/ h = Exists ->
    inv w (<[i := set_hold s (if s_status r =? SEAT_AVAILABLE then Free else Exists) g]> gs)).
  { intros h Hs Hh. destruct (good_holds _ _ Hg s h Hs) as [Ho _].
    assert (He : excused g s = false) by (unfold excused; rewrite Hs; by destruct Hh as [->| ->]).
    eapply inv_step_ghost; eauto.
    - apply good_set_hold; [done..|]. split; [by exists r|]. destruct (s_status r =? SEAT_AVAILABLE) eqn:Ea; [|done].
      apply (free_unclaimed w gs i g); try done. exists r. split; [done|lia].
    - intros x Hx. rewrite excused_set_hold. case_decide; [subst; congruence|done]. }
  unfold learn. destruct (g_holds g !! s) as [[]|] eqn:Hs; eauto; by rewrite list_insert_id.
Qed.

Lemma confirm_inv w gs i g b r : inv w gs -> gs !! i = Some g -> ts_map (w_bookings w) !! b = Some r ->
  inv w (<[i := confirm g b r]> gs).
Proof.
  intros HI Hi Hr. pose proof (inv_good _ _ HI i g Hi) as Hg. unfold confirm.
  destruct (g_bk g) as [[b' []]|] eqn:Hb; try by rewrite list_insert_id.
  destruct ((b' =? b) && (b_status r =? BOOKING_CONFIRMED)) eqn:E; [|by rewrite list_insert_id].
  apply andb_true_iff in E as [E1%Z.eqb_eq E2%Z.eqb_eq]. subst b'.
  eapply inv_step_ghost; eauto. destruct Hg as [G1 G2 G3 G4 G5]. constructor; try done.
  - intros s h Hs. destruct (G2 s h Hs) as [Ho [Hx Hh]]. split; [done|]. split; [done|].
    destruct h; try done. intros c Hc. destruct (Hh c Hc) as [d Hd]. rewrite Hb in Hd. simplify_eq. by exists true.
  - intros c d [= <- <-]. destruct (G3 b false Hb) as [Ho _]. split; [done|]. intros _. by exists r.
Qed.

(** ** Locks and transactions *)

Lemma frame_weaken o w w' : frame None w w' -> frame o w w'.
Proof.
  intros [F1 F2 F3 F4 F5 F6 F7]. constructor; try done.
  - intros k t Hk _. by apply F3.
  - intros b s Hc. destruct (F6 b s Hc) as [|(t & ? & _)]; [by left|done].
  - intros b Hc. destruct (F7 b Hc) as [|(t & ? & _)]; [by left|done].
Qed.

Lemma frame_claims w w' b s : frame None w w' -> claims w' b s -> claims w b s.
Proof. intros F Hc. destruct (fr_claims _ _ _ F b s Hc) as [|(t & ? & _)]; done. Qed.

(** The step of a call that takes nothing away, not even from its own thread. *)
Lemma inv_step_grow w gs i g g' w' :
  inv w gs -> gs !! i = Some g -> frame None w w' -> tables_ok w' -> (good w' g -> good w' g') ->
  (forall t, g_txn g' = Some t -> g_txn g = Some t \/ w_next_txn w <= t) ->
  (forall s, available w' s -> (exists b, claims w b s) -> available w s \/ excused g' s = true) ->
  (forall s, excused g s = true -> excused g' s = true) ->
  inv w' (<[i := g']> gs).
Proof.
  intros HI Hi F HT Hg' Ht Ha He. eapply inv_step; eauto.
  - by apply frame_weaken.
  - apply Hg', (good_frame None w); [done|done|]. by apply (inv_good _ _ HI i).
  - intros s b Hav Hc. apply (frame_claims w) in Hc; [|done].
    destruct (excused g s) eqn:Hx; [left; by apply He|]. destruct (Ha s Hav); eauto.
Qed.

Lemma lock_inv w gs i g t tb id w' :
  inv w gs -> gs !! i = Some g -> g_txn g = Some t -> exec w (Lock t tb id) 0 w' ->
  inv w' (<[i := g]> gs) /\ owns w' (Some t) (tb, id).
Proof.
  intros HI Hi Ht [_ Hx]. destruct (w_locks w !! (tb, id)) as [t'|] eqn:Hl.
  - destruct Hx as [-> ->]. rewrite list_insert_id by done. split; [done|]. by exists t.
  - subst w'. split; [|exists t; cbn; by rewrite lookup_insert_eq].
    eapply inv_step_grow; eauto.
    + apply same_frame; [done|done|]. intros k t' Hk _. cbn. rewrite lookup_insert_ne; congruence.
    + apply (same_tables_ok w); [done|apply HI].
Qed.

Lemma hold_seat_inv w gs i g s : inv w gs -> gs !! i = Some g -> owns w (g_txn g) (TABLE_SEATS, s) ->
  inv w (<[i := hold_seat g s]> gs).
Proof.
  intros HI Hi Ho. unfold hold_seat. destruct (g_holds g !! s) eqn:Hs; [by rewrite list_insert_id|].
  eapply inv_step_ghost; eauto.
  - apply good_set_hold; [by apply (inv_good _ _ HI i)|done|]. split; done.
  - intros x Hx. rewrite excused_set_hold. case_decide; [|done]. subst. unfold excused in Hx. by rewrite Hs in Hx.
Qed.

Lemma lock_booking_inv w gs i g b : inv w gs -> gs !! i = Some g -> owns w (g_txn g) (TABLE_BOOKINGS, b) ->
  g_bk g = None -> inv w (<[i := set_bk (Some (b, false)) g]> gs).
Proof.
  intros HI Hi Ho Hb. eapply inv_step_ghost; eauto.
  destruct (inv_good _ _ HI i g Hi) as [G1 G2 G3 G4 G5]. constructor; try done.
  - intros s h Hs. destruct (G2 s h Hs) as [Hos [Hx Hh]]. split; [done|]. split; [done|].
    destruct h; try done. intros c Hc. destruct (Hh c Hc) as [d Hd]. congruence.
  - intros c d [= <- <-]. by split.
Qed.

Lemma good_idle w : good w idle.
Proof. constructor; cbn; try done. by intros b s ?%not_elem_of_nil. Qed.

Lemma release_inv w gs i g t : inv w gs -> gs !! i = Some g -> g_txn g = Some t -> clean g ->
  inv (release t w) (<[i := idle]> gs).
Proof.
  intros HI Hi Ht Hc. eapply (inv_step_same w (release t w)); eauto; try done.
  - intros k t' Hk Hne. cbn. apply map_lookup_filter_Some. split; [done|]. cbn. congruence.
  - apply good_idle.
Qed.

Lemma begin_inv w gs i w' t : inv w gs -> gs !! i = Some idle -> exec w Begin t w' ->
  inv w' (<[i := if t =? INVALID_TXN_ID then idle else begun t]> gs).
Proof.
  intros HI Hi Hx.
  assert (Hbig : same_tables w w' /\ w_next_txn w <= w_next_txn w' /\ w_locks w' = w_locks w /\
                 (t <> INVALID_TXN_ID -> w_next_txn w <= t < w_next_txn w')).
  { destruct Hx as [[-> ->]|[-> ->]]; cbn; (split; [done|]); (split; [lia|]); (split; [done|]); lia. }
  destruct Hbig as (E & Hn & El & Ht).
  eapply (inv_step_same w w'); eauto.
  - intros k x Hk _. by rewrite El.
  - destruct (t =? INVALID_TXN_ID) eqn:Ev; [apply good_idle|]. constructor; cbn; try done.
    + intros x [= <-]. lia.
    + by intros b s ?%not_elem_of_nil.
  - intros x. destruct (t =? INVALID_TXN_ID) eqn:Ev; [done|]. intros [= <-]. lia.
  - done.
Qed.

(** ** Insertions *)

Lemma tget_tput_ne {R} (T : tbl R) s w :
  match T with
  | Seats => w_bookings (tput T s w) = w_bookings w /\ w_bseats (tput T s w) = w_bseats w
  | Bookings => w_seats (tput T s w) = w_seats w /\ w_bseats (tput T s w) = w_bseats w
  | BookingSeats => w_seats (tput T s w) = w_seats w /\ w_bookings (tput T s w) = w_bookings w
  | _ => same_tables w (tput T s w)
  end.
Proof. by destruct T. Qed.

Lemma side_table_inv {R} (T : tbl R) ts w gs i g : inv w gs -> gs !! i = Some g ->
  match T with Users | Events => True | _ => False end -> inv (tput T ts w) (<[i := g]> gs).
Proof.
  intros HI Hi HT. assert (E : same_tables w (tput T ts w)) by (by destruct T).
  destruct (locks_tput T ts w) as [El En].
  eapply inv_step_grow; eauto.
  - apply same_frame; [done|rewrite En; lia|]. intros k t Hk _. by rewrite El.
  - apply (same_tables_ok w); [done|apply HI].
  - intros s Hs _. left. by apply (same_available _ _ E).
Qed.

Lemma skip_inv {R} (T : tbl R) w gs i g : inv w gs -> gs !! i = Some g -> inv (tskip T w) (<[i := g]> gs).
Proof.
  intros HI Hi. destruct (inv_tables _ _ HI) as [S B J N U].
  pose proof (tskip_next Seats T w) as Es. pose proof (tskip_next Bookings T w) as Eb. pose proof (tskip_next BookingSeats T w) as Ej.
  destruct (tskip_locks T w) as [El En]. cbn [tget] in Es, Eb, Ej.
  eapply inv_step_grow; eauto.
  - constructor; [by rewrite En|by destruct T|intros k t Hk _; by rewrite El|by destruct T; auto..].
  - constructor.
    + intros s Hs. assert (s < ts_next (w_seats w)) by (apply S; by destruct T). lia.
    + intros b Hb. assert (b < ts_next (w_bookings w)) by (apply B; by destruct T). lia.
    + intros j Hj. assert (j < ts_next (w_bseats w)) by (apply J; by destruct T). lia.
    + intros b s Hj. destruct (N b s) as [H1 H2]; [by destruct T|]. by destruct T.
    + by destruct T.
  - intros s Ha _. left. by destruct T.
Qed.

Lemma insert_seat_inv w gs i g x : inv w gs -> gs !! i = Some g -> inv (tinsert Seats x w) (<[i := g]> gs).
Proof.
  intros HI Hi. pose proof (inv_tables _ _ HI) as [S B J N U]. set (w' := tinsert Seats x w).
  assert (Hc : forall b s, claims w' b s <-> claims w b s) by done.
  eapply inv_step_grow; eauto.
  - constructor; try done; auto. intros s Hs. cbn. apply lookup_insert_is_Some'. auto.
  - constructor; try done.
    + intros s. cbn. rewrite lookup_insert_is_Some'. intros [<-|Hs]; [lia|]. specialize (S s Hs). lia.
    + intros b s Hj. cbn. rewrite lookup_insert_is_Some'. destruct (N b s Hj). auto.
  - intros s (r & Hr & Ha) (b & Hb). left. cbn in Hr.
    destruct (decide (ts_next (w_seats w) = s)) as [<-|Hne].
    + destruct (N _ _ (proj2 Hb)) as [_ Hs%S]. lia.
    + rewrite lookup_insert_ne in Hr by done. by exists r.
Qed.

Lemma insert_booking_inv w gs i g x : inv w gs -> gs !! i = Some g -> g_bid g = None ->
  inv (tinsert Bookings x w) (<[i := set_bid (ts_next (w_bookings w)) g]> gs).
Proof.
  intros HI Hi Hb. pose proof (inv_tables _ _ HI) as [S B J N U]. set (w' := tinsert Bookings x w).
  set (n := ts_next (w_bookings w)).
  assert (Hconf : forall b, b <> n -> (confirmed w' b <-> confirmed w b)).
  { intros b Hbn. unfold confirmed. cbn. by rewrite lookup_insert_ne. }
  assert (Hn : forall s, ~ junction w n s) by (intros s [?%B _]%N; lia).
  assert (Hc : forall b s, claims w' b s -> claims w b s).
  { intros b s [H1 H2]. change (junction w b s) in H2. split; [|done]. apply Hconf; [|done].
    intros ->. by apply (Hn s). }
  eapply inv_step_grow; eauto.
  - constructor; auto; cbn; try lia; [intros b Hb'; rewrite lookup_insert_is_Some'; auto|].
    intros b Hcb. left. apply Hconf; [|done]. intros ->. destruct Hcb as (r & Hr & _).
    assert (n < n) by (apply B; by exists r). lia.
  - constructor; try done.
    + intros b. cbn. rewrite lookup_insert_is_Some'. intros [<-|Hs]; [lia|]. specialize (B b Hs). lia.
    + intros b s Hj. cbn. rewrite lookup_insert_is_Some'. destruct (N b s Hj). auto.
    + intros b b' s H1 H2. eauto.
  - intros [G1 G2 G3 G4 G5]. constructor; try done.
    + intros s h Hs. destruct (G2 s h Hs) as [Ho [Hx Hh]]. split; [done|]. split; [done|].
      destruct h; try done. intros b Hcb. specialize (Hh b Hcb). congruence.
    + intros b [= <-]. cbn. rewrite lookup_insert_is_Some'. auto.
Qed.

Lemma insert_junction_inv w gs i g x : inv w gs -> gs !! i = Some g ->
  g_bid g = Some (bs_booking_id x) -> g_holds g !! bs_seat_id x = Some Free ->
  inv (tinsert BookingSeats x w) (<[i := set_hold (bs_seat_id x) Half g]> gs).
Proof.
  intros HI Hi Hb Hf. pose proof (inv_tables _ _ HI) as [S B J N U]. set (w' := tinsert BookingSeats x w).
  pose proof (inv_good _ _ HI i g Hi) as Hg. set (b0 := bs_booking_id x) in *. set (s0 := bs_seat_id x) in *.
  destruct (good_holds _ _ Hg s0 Free Hf) as [Ho [Hx Hfree]].
  assert (Hj : forall b s, junction w' b s -> junction w b s \/ (b = b0 /\ s = s0)).
  { intros b s (j & bs & Hl & <- & <-). cbn in Hl.
    destruct (decide (ts_next (w_bseats w) = j)) as [<-|Hne].
    - rewrite lookup_insert_eq in Hl. injection Hl as <-. by right.
    - rewrite lookup_insert_ne in Hl by done. left. by exists j, bs. }
  assert (Hj' : forall b s, junction w b s -> junction w' b s).
  { intros b s (j & bs & Hl & H). exists j, bs. split; [|done]. cbn. rewrite lookup_insert_ne; [done|].
    intros E. assert (j < ts_next (w_bseats w)) by (apply J; by exists bs). lia. }
  assert (Hc : forall b s, claims w' b s -> claims w b s \/ (b = b0 /\ s = s0)).
  { intros b s [H1 H2]. destruct (Hj b s H2) as [H3|]; [left; by split|by right]. }
  assert (Hc0 : forall b, claims w' b s0 -> b = b0).
  { intros b Hcb. destruct (Hc b s0 Hcb) as [H|[-> _]]; [by destruct (Hfree b)|done]. }
  assert (F : frame (g_txn g) w w').
  { constructor; auto; cbn; try lia. intros b s H. destruct (Hc b s H) as [|[_ ->]]; auto. }
  eapply inv_step; eauto.
  - destruct Hg as [G1 G2 G3 G4 G5]. constructor; auto. intros s h Hs. cbn in Hs.
    destruct (decide (s0 = s)) as [<-|Hne]; [rewrite lookup_insert_eq in Hs|rewrite lookup_insert_ne in Hs by done].
    + injection Hs as <-. split; [done|]. split; [auto|]. intros b Hcb. by rewrite (Hc0 b).
    + destruct (G2 s h Hs) as [Hos [Hxs Hh]]. split; [done|]. split; [done|].
      destruct h; try done; intros b Hcb; (destruct (Hc b s Hcb) as [H|[_ ->]]; [|done]); by eapply Hh.
  - constructor; try done.
    + intros j. cbn. rewrite lookup_insert_is_Some'. intros [<-|Hs]; [lia|]. specialize (J j Hs). lia.
    + intros b s H. destruct (Hj b s H) as [|[-> ->]]; [auto|]. split; [by apply (good_bid _ _ Hg)|]. by apply Hx.
    + intros b b' s H1 H2. destruct (Hc b s H1) as [K1|[-> ->]]; [|symmetry; eauto].
      destruct (Hc b' s H2) as [K2|[-> ->]]; eauto.
  - intros s b Ha Hcb. rewrite excused_set_hold. case_decide; [by left|].
    destruct (excused g s) eqn:He; [by left|]. right. destruct (Hc b s Hcb) as [|[]]; done.
Qed.

(** ** Updates and scans *)

Lemma update_seat_inv w gs i g s x h :
  inv w gs -> gs !! i = Some g -> known g s ->
  (s_status x = SEAT_AVAILABLE -> h = Released /\ exists b, g_bk g = Some (b, true) /\ (b, s) ∈ g_seen g) ->
  (s_status x <> SEAT_AVAILABLE -> h = Exists) ->
  is_Some (ts_map (w_seats w) !! s) /\ inv (tupdate Seats s x w) (<[i := set_hold s h g]> gs).
Proof.
  intros HI Hi Hk Ha Hb. pose proof (inv_tables _ _ HI) as [S B J N U]. set (w' := tupdate Seats s x w).
  pose proof (inv_good _ _ HI i g Hi) as Hg. unfold known in Hk.
  destruct (g_holds g !! s) as [h0|] eqn:Hs; [|done].
  destruct (good_holds _ _ Hg s h0 Hs) as [Ho [Hx _]].
  assert (Hex : is_Some (ts_map (w_seats w) !! s)) by (apply Hx; by destruct h0). split; [done|].
  assert (F : frame None w w').
  { constructor; try done; auto. intros y Hy. cbn. apply lookup_insert_is_Some'. auto. }
  eapply inv_step.
  - done.
  - done.
  - by apply frame_weaken.
  - apply good_set_hold; [by apply (good_frame None w)|done|]. split.
    + intros _. cbn. apply lookup_insert_is_Some'. by left.
    + destruct (decide (s_status x = SEAT_AVAILABLE)) as [E|E]; [|by rewrite (Hb E)].
      destruct (Ha E) as [-> (b & Hbk & Hsn)]. intros b' Hc. change (claims w b' s) in Hc. exists true.
      rewrite <- (U b b' s); [done| |done]. split; [by apply (good_bk _ _ Hg b true)|]. by apply (good_seen _ _ Hg).
  - constructor; try done; [intros y; cbn; rewrite lookup_insert_is_Some'; intros [<-|Hy]; auto|].
    intros b y Hj. cbn. rewrite lookup_insert_is_Some'. destruct (N b y Hj). auto.
  - cbn. auto.
  - intros y b (r & Hr & Hav) Hc. cbn in Hr. change (claims w b y) in Hc. rewrite excused_set_hold. case_decide as Hy.
    + left. subst y. rewrite lookup_insert_eq in Hr. injection Hr as ->. by destruct (Ha Hav) as [-> _].
    + rewrite lookup_insert_ne in Hr by done. destruct (excused g y) eqn:He; [by left|]. right.
      split; [by exists r|done].
Qed.

Lemma cancel_inv w gs i g b x :
  inv w gs -> gs !! i = Some g -> g_bk g = Some (b, true) -> b_status x <> BOOKING_CONFIRMED ->
  is_Some (ts_map (w_bookings w) !! b) /\ inv (tupdate Bookings b x w) (<[i := unrelease g]> gs).
Proof.
  intros HI Hi Hbk Hst. pose proof (inv_tables _ _ HI) as [S B J N U]. set (w' := tupdate Bookings b x w).
  pose proof (inv_good _ _ HI i g Hi) as Hg. destruct (good_bk _ _ Hg b true Hbk) as [Ho Hconf].
  assert (Hex : is_Some (ts_map (w_bookings w) !! b)) by (destruct (Hconf eq_refl) as (r & Hr & _); by exists r).
  split; [done|].
  assert (Hne : forall c, c <> b -> (confirmed w' c <-> confirmed w c)).
  { intros c Hc. unfold confirmed. cbn. by rewrite lookup_insert_ne. }
  assert (Hb : ~ confirmed w' b).
  { intros (r & Hr & Hc). cbn in Hr. rewrite lookup_insert_eq in Hr. by injection Hr as ->. }
  assert (Hc : forall c s, claims w' c s -> claims w c s /\ c <> b).
  { intros c s [H1 H2]. assert (c <> b) by (by intros ->). split; [|done]. split; [by apply Hne|done]. }
  eapply inv_step; eauto.
  - constructor; try (intros c H; cbn; rewrite lookup_insert_is_Some'; by auto); try done.
    + intros c s H. left. by apply Hc.
    + intros c H. destruct (decide (c = b)) as [->|Hcb]; [by right|left; by apply Hne].
  - destruct Hg as [G1 G2 G3 G4 G5].
    constructor; try done; [|intros c H; cbn; rewrite lookup_insert_is_Some'; right; by apply G4].
    intros s h Hs. cbn in Hs. rewrite lookup_fmap in Hs. destruct (g_holds g !! s) as [h0|] eqn:E; [|done].
    destruct (G2 s h0 E) as [Hos [Hxs Hh]]. injection Hs as <-. split; [done|].
    split; [destruct h0; intros H; by apply Hxs|].
    destruct h0; try done; intros c Hcc; apply Hc in Hcc as [Hcc _]; by apply Hh in Hcc.
  - constructor; try done.
    + intros c. cbn. rewrite lookup_insert_is_Some'. intros [<-|H]; auto.
    + intros c s Hj. cbn. rewrite lookup_insert_is_Some'. destruct (N c s Hj). auto.
    + intros c c' s H1%Hc H2%Hc. apply (U c c' s); tauto.
  - intros s c Ha Hcc. apply Hc in Hcc as [Hcc Hcb]. change (available w s) in Ha.
    unfold excused. cbn. rewrite lookup_fmap. destruct (g_holds g !! s) as [h|] eqn:E; [|by right].
    destruct h; cbn; try (by right); [by left|].
    destruct (good_holds _ _ Hg s Released E) as [_ [_ Hr]]. destruct (Hr c Hcc) as [d Hd]. congruence.
Qed.

Lemma scanned_in {R} (T : tbl R) w recs n f x :
  scanned T w recs -> x ∈ take n (filter (fun x => f x = true) recs) ->
  f x = true /\ exists id, ts_map (tget T w) !! id = Some x.
Proof.
  intros (ids & _ & HF & _) Hx. assert (Hx' : x ∈ filter (fun x => f x = true) recs).
  { rewrite <- (take_drop n (filter _ _)). apply elem_of_app. by left. }
  apply list_elem_of_filter in Hx' as [Hfx Hr]. split; [done|].
  apply list_elem_of_lookup in Hr as [i Hi]. destruct (Forall2_lookup_r _ _ _ _ _ HF Hi) as (id & _ & H). by exists id.
Qed.

Lemma seen_inv w gs i g (l : list booking_seat_record) :
  inv w gs -> gs !! i = Some g -> (forall x, x ∈ l -> exists j, ts_map (w_bseats w) !! j = Some x) ->
  inv w (<[i := set_seen ((fun x => (bs_booking_id x, bs_seat_id x)) <$> l) g]> gs).
Proof.
  intros HI Hi Hl. eapply inv_step_ghost; eauto.
  destruct (inv_good _ _ HI i g Hi) as [G1 G2 G3 G4 G5]. constructor; try done.
  intros b s Hbs. cbn in Hbs. apply list_elem_of_fmap in Hbs as (x & E & Hx). injection E as -> ->.
  destruct (Hl x Hx) as [j Hj]. by exists j, x.
Qed.

(** ** Every call made under its rule keeps the invariant *)

Definition may_fail : forall R, cmd R -> bool := @insert_or_commit.

(** [K] holds of an outcome that keeps the invariant. *)
Definition outcome {R} (gs : list ghost) (i : nat) (K : ghost -> R -> Prop) (r : R) (w' : world) : Prop :=
  exists g', K g' r /\ inv w' (<[i := g']> gs).

Section calls.
Context (w : world) (gs : list ghost) (i : nat) (g : ghost).
Context (HI : inv w gs) (Hi : gs !! i = Some g).

Lemma stay : inv w (<[i := g]> gs).
Proof using HI Hi. by rewrite list_insert_id. Qed.

Lemma known_exists s : known g s -> is_Some (ts_map (w_seats w) !! s).
Proof using HI Hi.
  unfold known. destruct (g_holds g !! s) as [h|] eqn:Hs; [|done]. intros Hk.
  destruct (good_holds _ _ (inv_good _ _ HI i g Hi) s h Hs) as [_ [Hx _]]. apply Hx. by destruct h.
Qed.

Lemma find_ok {R} (T : tbl R) id K r w' : rule_find T id g K -> exec w (Find T id) r w' -> outcome gs i K r w'.
Proof using HI Hi.
  intros HK [-> ->]. pose proof stay as Hst.
  destruct T; cbn [rule_find tget] in *; try (by eexists; split; [apply HK|done]).
  - destruct HK as [H1 H2]. destruct (ts_map (w_seats w) !! id) as [r|] eqn:Hr.
    + eexists. split; [apply H1|by apply learn_inv].
    + destruct H2 as [Hk|H2]; [|by eexists; split; [apply H2|]].
      destruct (known_exists id Hk) as [x Hx]. congruence.
  - destruct HK as [H1 H2]. destruct (ts_map (w_bookings w) !! id) as [r|] eqn:Hr.
    + eexists. split; [apply H1|by apply confirm_inv].
    + by eexists; split; [apply H2|].
Qed.

Lemma insert_ok {R} (T : tbl R) (x : R) K r w' :
  rule_insert T g K x -> exec_any may_fail w (Insert T x) r w' -> outcome gs i K r w'.
Proof using HI Hi.
  intros HK [[-> ->]|[_ [-> ->]]]; pose proof stay as Hst.
  - destruct T; cbn [rule_insert] in HK.
    + eexists; split; [apply HK|by apply side_table_inv].
    + eexists; split; [apply HK|by apply side_table_inv].
    + eexists; split; [apply HK|by apply insert_seat_inv].
    + destruct HK as (Hb & HK & _). eexists; split; [apply HK|by apply insert_booking_inv].
    + destruct HK as (Hb & Hf & HK & _). eexists; split; [apply HK|by apply insert_junction_inv].
  - destruct T; cbn [rule_insert] in HK; eexists; (split; [|apply skip_inv; eassumption]); try apply HK; tauto.
Qed.

Lemma update_ok {R} (T : tbl R) id (x : R) K r w' :
  rule_update T id g K x -> exec w (Update T id x) r w' -> outcome gs i K r w'.
Proof using HI Hi.
  intros HK Hx. pose proof stay as Hst. destruct T; cbn [rule_update exec tget] in HK, Hx; [| | | |done].
  - destruct (ts_map (w_users w) !! id); destruct Hx as [-> ->];
      (eexists; split; [apply HK|]); [by apply side_table_inv|done].
  - destruct (ts_map (w_events w) !! id); destruct Hx as [-> ->];
      (eexists; split; [apply HK|]); [by apply side_table_inv|done].
  - destruct HK as [Hk HK]. destruct (known_exists id Hk) as [y Hy]. rewrite Hy in Hx. destruct Hx as [-> ->].
    destruct (s_status x =? SEAT_AVAILABLE) eqn:E.
    + destruct HK as (_ & Hs & HK). eexists. split; [apply HK|].
      apply (update_seat_inv w gs i g id x); try done. lia.
    + destruct HK as (_ & HK). eexists. split; [apply HK|].
      apply (update_seat_inv w gs i g id x); try done. lia.
  - destruct HK as (Hb & Hst' & HK). destruct (cancel_inv w gs i g id x) as [[y Hy] Hinv]; try done.
    rewrite Hy in Hx. destruct Hx as [-> ->]. by eexists; split; [apply HK|].
Qed.

Lemma delete_ok {R} (T : tbl R) id K r w' :
  rule_delete T g K -> exec w (Delete T id) r w' -> outcome gs i K r w'.
Proof using HI Hi.
  intros HK Hx. pose proof stay as Hst. destruct T; cbn [rule_delete exec tget] in HK, Hx; try done.
  - destruct (ts_map (w_users w) !! id); destruct Hx as [-> ->];
      (eexists; split; [apply HK|]); [by apply side_table_inv|done].
  - destruct (ts_map (w_events w) !! id); destruct Hx as [-> ->];
      (eexists; split; [apply HK|]); [by apply side_table_inv|done].
Qed.

Lemma scan_ok {R} (T : tbl R) f n K r w' :
  rule_scan T g f K -> exec w (Scan T f n) r w' -> outcome gs i K r w'.
Proof using HI Hi.
  intros HK [-> (recs & Hsc & ->)]. pose proof stay as Hst.
  destruct T; cbn [rule_scan] in HK; try (by eexists; split; [apply HK|]).
  eexists. split; [apply HK|apply seen_inv; try done].
  - apply Forall_forall. intros x Hx. by apply (scanned_in BookingSeats w recs) in Hx as [].
  - intros x Hx. by apply (scanned_in BookingSeats w recs) in Hx as [].
Qed.

Lemma lock_ok t tb id K r w' :
  rule _ g (Lock t tb id) K -> exec w (Lock t tb id) r w' -> outcome gs i K r w'.
Proof using HI Hi.
  intros [Ht HK] Hx. assert (r = 0) as -> by (by destruct Hx).
  destruct (lock_inv w gs i g t tb id w' HI Hi Ht Hx) as [HI' Ho]. rewrite list_insert_id in HI' by done.
  rewrite <- Ht in Ho. destruct (tb =? TABLE_SEATS) eqn:E1.
  - apply Z.eqb_eq in E1 as ->. eexists; split; [apply HK|by apply hold_seat_inv].
  - destruct (tb =? TABLE_BOOKINGS) eqn:E2.
    + apply Z.eqb_eq in E2 as ->. destruct HK as [Hb HK]. eexists; split; [apply HK|by apply lock_booking_inv].
    + eexists; split; [apply HK|by rewrite list_insert_id].
Qed.
End calls.

Lemma rule_sound R (c : cmd R) w gs i g K r w' :
  inv w gs -> gs !! i = Some g -> rule R g c K -> exec_any may_fail w c r w' -> outcome gs i K r w'.
Proof.
  intros HI Hi HK Hx. destruct c; try (destruct Hx as [Hx|[Hf Hx]]; [|done]).
  - by eapply find_ok.
  - by eapply insert_ok.
  - by eapply update_ok.
  - by eapply delete_ok.
  - by eapply scan_ok.
  - destruct HK as [-> HK]. eexists. split; [apply HK|]. by eapply begin_inv.
  - by eapply lock_ok.
  - destruct HK as (Ht & Hc & HK). eexists. split; [apply HK|].
    destruct Hx as [[_ ->]|[_ [_ ->]]]; by eapply release_inv.
  - destruct HK as (Ht & Hc & HK). cbn in Hx. subst w'. destruct r. eexists. split; [apply HK|]. by eapply release_inv.
  - cbn in Hx. subst w'. eexists. split; [apply HK|]. by apply (stay w).
Qed.

Lemma inv_request w gs : inv w gs -> inv w (gs ++ [idle]).
Proof.
  intros [T A X G].
  assert (Hl : forall i g, (gs ++ [idle]) !! i = Some g -> gs !! i = Some g \/ g = idle).
  { intros i g. rewrite lookup_app_Some, list_lookup_singleton_Some. intros [?|(_ & _ & ->)]; auto. }
  constructor; [done|..].
  - intros s b Ha Hc. destruct (A s b Ha Hc) as (i & g & Hi & He). exists i, g. split; [|done].
    by apply lookup_app_l_Some.
  - intros i j gi gj t H1%Hl H2%Hl Ht Hu. destruct H1 as [H1| ->]; [|done]. destruct H2 as [H2| ->]; [|done]. eauto.
  - intros i g H%Hl. destruct H as [H| ->]; [eauto|apply good_idle].
Qed.

(** ** The theorem *)

(** The tables between requests: ids below the counters, no seat claimed twice, and
    no claimed seat still offered. *)
Definition consistent (w : world) : Prop := tables_ok w /\ forall s b, available w s -> ~ claims w b s.

Lemma consistent_threads w ts : consistent w -> Forall (safe_thread rule (fun g => g = idle) idle) ts ->
  sys_inv rule (fun g => g = idle) inv (System w ts).
Proof.
  intros [T A] Hts. exists (replicate (length ts) idle). split.
  - assert (Hg : forall i g, replicate (length ts) idle !! i = Some g -> g = idle).
    { intros i g Hi. by apply lookup_replicate in Hi as [-> _]. }
    constructor; [done|..].
    + intros s b Ha Hc. by destruct (A s b Ha Hc).
    + intros i j gi gj t ->%Hg ->%Hg. done.
    + intros i g ->%Hg. apply good_idle.
  - cbn [sys_threads]. clear T A. induction Hts; [constructor|]. by constructor.
Qed.

Lemma reaches_keeps s s' : sys_inv rule (fun g => g = idle) inv s -> reaches may_fail s s' -> sys_inv rule (fun g => g = idle) inv s'.
Proof.
  intros Hs Hr. eapply (sys_inv_reaches rule _ may_fail inv idle); [|apply inv_request|apply serve_allowed|done|done].
  intros R c w0 gs i g K r w' HI Hi HK Hx. exact (rule_sound R c w0 gs i g K r w' HI Hi HK Hx).
Qed.

Lemma reaches_inv w s : consistent w -> reaches may_fail (System w []) s -> sys_inv rule (fun g => g = idle) inv s.
Proof. intros Hw. apply reaches_keeps, consistent_threads; [done|constructor]. Qed.

Lemma all_answered_consistent s : sys_inv rule (fun g => g = idle) inv s -> Forall answered (sys_threads s) ->
  consistent (sys_world s).
Proof.
  intros (gs & [T A X G] & HF) Hans. split; [done|]. intros x b Ha Hc. destruct (A x b Ha Hc) as (i & g & Hi & He).
  destruct (Forall2_lookup_l _ _ _ _ _ HF Hi) as (t & Ht & Hs).
  rewrite Forall_lookup in Hans. specialize (Hans i t Ht). destruct t as [B p]. destruct Hans as [a ->].
  cbn in Hs. by subst g.
Qed.

(** Tables without bookings are consistent. *)
Lemma consistent_new w : (forall s, is_Some (ts_map (w_seats w) !! s) -> s < ts_next (w_seats w)) ->
  ts_map (w_bookings w) = ∅ -> ts_map (w_bseats w) = ∅ -> consistent w.
Proof.
  intros S B J.
  assert (Hc : forall b, ~ confirmed w b) by (intros b (r & Hr & _); by rewrite B, lookup_empty in Hr).
  assert (Hj : forall b s, ~ junction w b s) by (intros b s (j & bs & Hr & _); by rewrite J, lookup_empty in Hr).
  split; [constructor|].
  - done.
  - intros b. rewrite B, lookup_empty. by intros [].
  - intros j. rewrite J, lookup_empty. by intros [].
  - intros b s H. by destruct (Hj b s).
  - intros b b' s [H _]. by destruct (Hc b).
  - intros s b _ [H _]. by apply (Hc b).
Qed.

Lemma venue_consistent : consistent venue.
Proof.
  apply consistent_new; [|by vm_compute..].
  assert (H : map_Forall (fun s _ => s < ts_next (w_seats venue)) (ts_map (w_seats venue))).
  { apply (bool_decide_unpack _). by vm_compute. }
  intros s [r Hr]. by apply (H s r).
Qed.

(** C5: however many clients are connected at the same time, whatever lines they
    send, and however the calls of their commands (and of single requests to the
    booking engine and the event manager) interleave, with insertions and commits
    failing at any point, two different bookings are never both confirmed for the same seat; and
    whenever all requests have been answered, no seat of a confirmed booking is
    offered as available, so the next run starts from consistent tables again. *)
Theorem no_double_booking w w' ts : consistent w -> reaches may_fail (System w []) (System w' ts) ->
  (forall b b' s, claims w' b s -> claims w' b' s -> b = b') /\
  (Forall answered ts -> consistent w').
Proof.
  intros Hw Hr. pose proof (reaches_inv w _ Hw Hr) as HI. split; [|exact (all_answered_consistent _ HI)].
  destruct HI as (gs & HI & _). apply (ok_unique _ (inv_tables _ _ HI)).
Qed.

(** Two users ask for seat 3; the first gets it. *)
Lemma no_double_booking_witness :
  exists w ts, reaches may_fail (System venue []) (System w ts) /\ Forall answered ts /\ claims w 1 3 /\
    (forall b b' s, claims w b s -> claims w b' s -> b = b') /\ consistent w.
Proof.
  destruct (run (booking_book_seats 7 1 [3; 1]) no_faults 0 venue) as [[r1 w1]|] eqn:E1; [|exfalso; by vm_compute in E1].
  destruct (run (booking_book_seats 8 1 [2; 3]) no_faults 0 w1) as [[r2 w2]|] eqn:E2;
    [|exfalso; revert E2; vm_compute in E1; injection E1 as <- <-; by vm_compute].
  assert (Hr : reaches may_fail (System venue []) (System w2 [Thread (Ret r1); Thread (Ret r2)])).
  { etrans; [exact (request_reaches may_fail (BookSeats 7 1 [3; 1]) _ 0 r1 venue w1 [] eq_refl E1)|].
    exact (request_reaches may_fail (BookSeats 8 1 [2; 3]) _ 0 r2 w1 w2 [Thread (Ret r1)] eq_refl E2). }
  assert (Ha : Forall answered [Thread (Ret r1); Thread (Ret r2)]) by (repeat constructor; eexists; reflexivity).
  destruct (no_double_booking venue w2 _ venue_consistent Hr) as [H1 H2].
  exists w2, [Thread (Ret r1); Thread (Ret r2)]. split; [exact Hr|]. split; [exact Ha|]. split; [|by auto].
  vm_compute in E1. injection E1 as <- <-. vm_compute in E2. injection E2 as <- <-. clear.
  split; [eexists; split; [by vm_compute|done]|]. exists 2. eexists. split; [by vm_compute|done].
Defined.
