(* ===== verification/Ledger.v ===== *)
(** * What is written stays written

    The records of the business only ever change in a few ways: accounts and seat
    assignments never, seats keep their place, bookings keep their terms and go from
    confirmed to cancelled, never back.  [ledger] is that order on worlds, and every
    call of every request follows it.

    The argument is rely and guarantee with one relation for both.  A thread's
    knowledge is a [fact] about the world that no step of the ledger can falsify;
    [grants] says what a call needs of it, [learned] what its answer adds, and
    [keeps] carries facts through a program to a postcondition on its result. *)

From stdpp Require Import base tactics numbers list gmap relations.
From Stdlib Require Import ZArith Lia Eqdep.
From S2P Require Import Prelude Types Utils Ipc Calls EventMgr Protocol Auth Reports Booking Server Threads BookingSafety.

#[local] Open Scope Z_scope.

(** ** The order *)

(** What a seat and a booking keep. *)
Definition seat_place (s : seat_record) : Z * Z * Z * Z := (s_seat_id s, s_event_id s, s_row_label s, s_seat_number s).
Definition terms (b : booking_record) : Z * Z * Z * Z * Z * Z :=
  (b_booking_id b, b_user_id b, b_event_id b, b_seat_count b, b_total_amount b, b_booked_at b).

Record ledger (w w' : world) : Prop := LedgerStep {
  lg_users : ts_map (w_users w) ⊆ ts_map (w_users w');
  lg_seats : forall id s, ts_map (w_seats w) !! id = Some s ->
    exists s', ts_map (w_seats w') !! id = Some s' /\ seat_place s' = seat_place s;
  lg_bookings : forall id b, ts_map (w_bookings w) !! id = Some b ->
    exists b', ts_map (w_bookings w') !! id = Some b' /\ terms b' = terms b /\
               (b_status b' = b_status b \/ b_status b' = BOOKING_CANCELLED);
  lg_bseats : ts_map (w_bseats w) ⊆ ts_map (w_bseats w') }.

#[export] Instance ledger_preorder : PreOrder ledger.
Proof.
  split.
  - intros w. constructor; [done|by eauto|by eauto|done].
  - intros w1 w2 w3 [A1 A2 A3 A4] [B1 B2 B3 B4]. constructor; [by etrans| | |by etrans].
    + intros id s (s2 & H2 & E2)%A2. destruct (B2 _ _ H2) as (s3 & H3 & E3). exists s3. split; [done|congruence].
    + intros id b (b2 & H2 & E2 & S2)%A3. destruct (B3 _ _ H2) as (b3 & H3 & E3 & S3). exists b3.
      split; [done|]. split; [congruence|]. destruct S3 as [->|]; [done|by right].
Qed.

(** The order looks at the tables only. *)
Lemma ledger_same w w' : (forall R (T : tbl R), ts_map (tget T w') = ts_map (tget T w)) -> ledger w w'.
Proof.
  intros H. pose proof (H _ Users) as E1. pose proof (H _ Seats) as E2. pose proof (H _ Bookings) as E3. pose proof (H _ BookingSeats) as E4.
  cbn [tget] in *. constructor; rewrite ?E1, ?E2, ?E3, ?E4; [done|by eauto|by eauto|done].
Qed.

(** Every id in use is below the counter of its table. *)
Definition ids_ok (w : world) : Prop :=
  forall R (T : tbl R) id, is_Some (ts_map (tget T w) !! id) -> id < ts_next (tget T w).

Lemma ids_same w w' : (forall R (T : tbl R), ts_map (tget T w') = ts_map (tget T w) /\ ts_next (tget T w) <= ts_next (tget T w')) ->
  ids_ok w -> ids_ok w'.
Proof. intros H Hw R T id. destruct (H R T) as [-> Hn]. intros Hid%Hw. lia. Qed.

Lemma ids_put {R} (T : tbl R) (ts : tstate R) w : ids_ok w -> (forall id, is_Some (ts_map ts !! id) -> id < ts_next ts) -> ids_ok (tput T ts w).
Proof. intros Hw Hts R' T'. specialize (Hw R' T'). by destruct T, T'. Qed.

Lemma next_unused {R} (T : tbl R) w : ids_ok w -> ts_map (tget T w) !! ts_next (tget T w) = None.
Proof.
  intros Hw. destruct (ts_map (tget T w) !! ts_next (tget T w)) eqn:E; [|done].
  pose proof (Hw R T (ts_next (tget T w)) ltac:(by eexists)). lia.
Qed.

Lemma ids_insert {R} (T : tbl R) x w : ids_ok w -> ids_ok (tinsert T x w).
Proof.
  intros Hw. apply ids_put; [done|]. cbn [ts_map ts_next]. intros id. rewrite lookup_insert_is_Some'.
  intros [<-|Hid%(Hw R T)]; lia.
Qed.

Lemma ids_skip {R} (T : tbl R) w : ids_ok w -> ids_ok (tskip T w).
Proof. intros Hw. apply ids_put; [done|]. cbn [ts_map ts_next]. intros id Hid%(Hw R T). lia. Qed.

Lemma ids_update {R} (T : tbl R) id x w : is_Some (ts_map (tget T w) !! id) -> ids_ok w -> ids_ok (tupdate T id x w).
Proof.
  intros Hx Hw. apply ids_put; [done|]. cbn [ts_map ts_next]. intros k. rewrite lookup_insert_is_Some'.
  intros [<-|Hid]; by apply (Hw R T).
Qed.

Lemma ids_delete {R} (T : tbl R) id w : ids_ok w -> ids_ok (tdelete T id w).
Proof.
  intros Hw. apply ids_put; [done|]. cbn [ts_map ts_next]. intros k [x Hk]. apply lookup_delete_Some in Hk as [_ Hk].
  apply (Hw R T). by exists x.
Qed.

(** ** Facts *)

Definition fact : Type := world -> Prop.
Definition stable (P : fact) : Prop := forall w w', ledger w w' -> P w -> P w'.

Definition has_place (id : Z) (s : seat_record) : fact :=
  fun w => exists s', ts_map (w_seats w) !! id = Some s' /\ seat_place s' = seat_place s.
Definition has_terms (id : Z) (b : booking_record) : fact :=
  fun w => exists b', ts_map (w_bookings w) !! id = Some b' /\ terms b' = terms b /\
    (b_status b' = b_status b \/ b_status b' = BOOKING_CANCELLED).
Definition has_junction (b s : Z) : fact := fun w => junction w b s.

Lemma place_stable id s : stable (has_place id s).
Proof. intros w w' Hl (s1 & H1 & E1). destruct (lg_seats _ _ Hl _ _ H1) as (s2 & H2 & E2). exists s2. split; [done|congruence]. Qed.

Lemma terms_stable id b : stable (has_terms id b).
Proof.
  intros w w' Hl (b1 & H1 & E1 & S1). destruct (lg_bookings _ _ Hl _ _ H1) as (b2 & H2 & E2 & S2). exists b2.
  split; [done|]. split; [congruence|]. destruct S2 as [->|]; [done|by right].
Qed.

Lemma junction_stable b s : stable (has_junction b s).
Proof.
  intros w w' Hl (j & x & Hj & Hx). exists j, x. split; [|done].
  by apply (lookup_weaken _ _ _ _ Hj), (lg_bseats _ _ Hl).
Qed.

(** ** The rules *)

(** A call keeps the ledger: accounts and seat assignments are only inserted, an
    update of a seat keeps its place, an update of a booking keeps its terms and
    cancels it, and only events are deleted. *)
Definition grants_update {R} (T : tbl R) (id : Z) (P : fact) : R -> Prop :=
  match T in tbl R return R -> Prop with
  | Seats => fun x => forall w s, P w -> ts_map (w_seats w) !! id = Some s -> seat_place x = seat_place s
  | Bookings => fun x => b_status x = BOOKING_CANCELLED /\
      forall w b, P w -> ts_map (w_bookings w) !! id = Some b -> terms x = terms b
  | _ => fun _ => False
  end.
Definition grants {R} (P : fact) (c : cmd R) : Prop :=
  match c with
  | Update T id x => grants_update T id P x
  | Delete T _ => match T with Events => True | _ => False end
  | _ => True
  end.

Definition learned_find {R} (T : tbl R) (id : Z) : res R -> fact :=
  match T in tbl R return res R -> fact with
  | Seats => fun r w => match r with inl s => has_place id s w | inr _ => True end
  | Bookings => fun r w => match r with inl b => has_terms id b w | inr _ => True end
  | _ => fun _ _ => True
  end.
Definition learned_insert {R} (T : tbl R) : R -> res Z -> fact :=
  match T in tbl R return R -> res Z -> fact with
  | Bookings => fun x r w => match r with inl id => has_terms id (set_key Bookings id x) w | inr _ => True end
  | BookingSeats => fun x r w => match r with inl _ => has_junction (bs_booking_id x) (bs_seat_id x) w | inr _ => True end
  | _ => fun _ _ _ => True
  end.
Definition learned {R} (c : cmd R) : R -> fact :=
  match c in cmd R return R -> fact with
  | Find T id => learned_find T id
  | Insert T x => learned_insert T x
  | _ => fun _ _ => True
  end.

Definition adds (P Q : fact) : fact := fun w => P w /\ Q w.

(** From the fact [P] the program keeps the ledger and its result satisfies [Q]. *)
Fixpoint keeps {A} (P : fact) (p : prog A) (Q : A -> fact) : Prop :=
  match p with
  | Ret a => forall w, P w -> Q a w
  | Call c k => grants P c /\ forall r, keeps (adds P (learned c r)) (k r) Q
  end.

Lemma grants_weaken {R} (P P' : fact) (c : cmd R) : (forall w, P' w -> P w) -> grants P c -> grants P' c.
Proof.
  intros H Hc. destruct c as [| |? T id x| | | | | | |]; try done. destruct T; cbn in *; try done; [by eauto|].
  destruct Hc as [? Hc]. split; [done|]. by eauto.
Qed.

Lemma keeps_weaken {A} (p : prog A) (Q : A -> fact) : forall P P', (forall w, P' w -> P w) -> keeps P p Q -> keeps P' p Q.
Proof.
  induction p as [a|R c k IH]; intros P P' H Hp; cbn [keeps] in *; [by auto|]. destruct Hp as [Hc Hk].
  split; [by eapply grants_weaken|]. intros r. apply (IH r (adds P (learned c r))); [|done]. intros w [HP HL]. split; auto.
Qed.

Lemma keeps_bind {A B} (p : prog A) (f : A -> prog B) Q Q' : forall P, keeps P p Q -> (forall a, keeps (Q a) (f a) Q') -> keeps P (bind p f) Q'.
Proof.
  induction p as [a|R c k IH]; intros P Hp Hf; cbn [keeps bind] in *; [by eapply keeps_weaken|].
  destruct Hp as [Hc Hk]. split; [done|]. intros r. by apply IH.
Qed.

Abbreviation anything_goes := (fun _ _ => True).

(** ** Every call keeps the ledger *)

Lemma learned_stable {R} (c : cmd R) r : stable (learned c r).
Proof.
  destruct c as [? T id|? T x| | | | | | | |]; cbn [learned]; try done.
  - destruct T; cbn [learned_find]; try done; (destruct r as [x|]; [|done]); [apply place_stable|apply terms_stable].
  - destruct T; cbn [learned_insert]; try done; (destruct r as [id|]; [|done]); [apply terms_stable|apply junction_stable].
Qed.

Lemma adds_stable P Q : stable P -> stable Q -> stable (adds P Q).
Proof. intros HP HQ w w' Hl [H1 H2]. split; [by apply (HP w)|by apply (HQ w)]. Qed.

Lemma insert_ledger {R} (T : tbl R) x w : ids_ok w -> ledger w (tinsert T x w) /\ learned_insert T x (inl (ts_next (tget T w))) (tinsert T x w).
Proof.
  intros Hw. pose proof (next_unused T w Hw) as Hn.
  assert (Hne : forall id y, ts_map (tget T w) !! id = Some y -> ts_next (tget T w) <> id) by (intros id y Hid E; congruence).
  destruct T; cbn [tget] in *; cbn [tinsert tget tput learned_insert].
  - split; [|done]. constructor; cbn [w_users w_seats w_bookings w_bseats ts_map]; [by apply insert_subseteq|by eauto|by eauto|done].
  - split; [|done]. constructor; cbn [w_users w_seats w_bookings w_bseats ts_map]; [done|by eauto|by eauto|done].
  - split; [|done]. constructor; cbn [w_users w_seats w_bookings w_bseats ts_map]; [done| |by eauto|done].
    intros id s Hid. exists s. rewrite lookup_insert_ne by by eapply Hne. done.
  - split.
    + constructor; cbn [w_users w_seats w_bookings w_bseats ts_map]; [done|by eauto| |done].
      intros id b Hid. exists b. rewrite lookup_insert_ne by by eapply Hne. auto.
    + eexists. cbn [w_bookings ts_map]. rewrite lookup_insert_eq. auto.
  - split.
    + constructor; cbn [w_users w_seats w_bookings w_bseats ts_map]; [done|by eauto|by eauto|by apply insert_subseteq].
    + exists (ts_next (w_bseats w)). eexists. cbn [w_bseats ts_map]. rewrite lookup_insert_eq. done.
Qed.

Lemma update_ledger {R} (T : tbl R) id x (P : fact) w : P w -> grants_update T id P x -> is_Some (ts_map (tget T w) !! id) ->
  ledger w (tupdate T id x w).
Proof.
  intros HP Hg [y Hy]. destruct T; cbn [grants_update tget] in *; cbn [tupdate tget tput]; try done.
  - constructor; cbn [w_users w_seats w_bookings w_bseats ts_map]; [done| |by eauto|done].
    intros k s Hk. destruct (decide (id = k)) as [<-|Hne]; [|exists s; by rewrite lookup_insert_ne].
    exists x. rewrite lookup_insert_eq. split; [done|]. by apply (Hg w).
  - destruct Hg as [Hst Hg]. constructor; cbn [w_users w_seats w_bookings w_bseats ts_map]; [done|by eauto| |done].
    intros k b Hk. destruct (decide (id = k)) as [<-|Hne]; [|exists b; rewrite lookup_insert_ne by done; by auto].
    exists x. rewrite lookup_insert_eq. split; [done|]. split; [by apply (Hg w)|by right].
Qed.

Lemma side_ledger w w' : (forall R (T : tbl R), tget T w' = tget T w) -> ids_ok w -> ids_ok w' /\ ledger w w'.
Proof. intros H Hw. split; [apply (ids_same w); [|done]; intros R T; by rewrite H|apply ledger_same; intros R T; by rewrite H]. Qed.

Lemma call_ledger {R} (c : cmd R) (P : fact) w r w' : ids_ok w -> P w -> grants P c -> exec_any (@anything) w c r w' ->
  ids_ok w' /\ ledger w w' /\ learned c r w'.
Proof.
  intros Hw HP Hg Hx. destruct c as [R T id|R T x|R T id x|R T id|R T f n| |t tb id|t|t|]; cbn [learned] in *.
  - destruct Hx as [[-> ->]|[_ []]]. split; [done|]. split; [done|]. destruct T; cbn [learned_find tget] in *; try done;
      (destruct (ts_map _ !! id) as [x|] eqn:E; [|done]); exists x; auto.
  - destruct Hx as [[-> ->]|[_ [-> ->]]].
    + destruct (insert_ledger T x w Hw) as [H1 H2]. split; [by apply ids_insert|by split].
    + split; [by apply ids_skip|]. split; [|by destruct T]. apply ledger_same. by intros R' T'; destruct T, T'.
  - destruct Hx as [Hx|[_ [-> ->]]]; [|done]. cbn [exec] in Hx. destruct (ts_map (tget T w) !! id) eqn:E; destruct Hx as [-> ->]; [|done].
    split; [by apply ids_update|]. split; [by eapply update_ledger|done].
  - destruct Hx as [Hx|[_ [-> ->]]]; [|done]. cbn [exec] in Hx. destruct (ts_map (tget T w) !! id) eqn:E; destruct Hx as [-> ->]; [|done].
    split; [by apply ids_delete|]. split; [|done]. destruct T; cbn [grants] in Hg; try done.
    constructor; cbn; [done|by eauto|by eauto|done].
  - by destruct Hx as [[-> _]|[_ []]].
  - destruct Hx as [[[_ ->]|[_ ->]]|[_ []]]; [done|]. destruct (side_ledger w (set_next_txn (w_next_txn w + 1) w)); [by intros ? []|done|done].
  - destruct Hx as [[_ Hx]|[_ [_ ->]]]; [|done]. destruct (w_locks w !! (tb, id)); [destruct Hx as [_ ->]; done|subst w'].
    destruct (side_ledger w (set_locks (<[(tb, id):=t]> (w_locks w)) w)); [by intros ? []|done|done].
  - destruct (side_ledger w (release t w)) as [H1 H2]; [by intros ? []|done|]. by destruct Hx as [[_ ->]|[_ [_ ->]]].
  - destruct (side_ledger w (release t w)) as [H1 H2]; [by intros ? []|done|]. by destruct Hx as [->|[_ []]].
  - by destruct Hx as [->|[_ []]].
Qed.

(** ** The programs keep the ledger *)

Lemma keeps_post {A} (p : prog A) (Q Q' : A -> fact) : (forall a w, Q a w -> Q' a w) -> forall P, keeps P p Q -> keeps P p Q'.
Proof.
  intros H. induction p as [a|R c k IH]; intros P Hp; cbn [keeps] in *; [by eauto|]. destruct Hp as [Hc Hk]. split; [done|]. auto.
Qed.

(** The stored booking [b] of user [u] for [n] seats of event [e]; only its status may
    have changed, to cancelled. *)
Definition booking_row (b u e n : Z) : fact := fun w =>
  exists r, ts_map (w_bookings w) !! b = Some r /\ b_user_id r = u /\ b_event_id r = e /\ b_seat_count r = n /\
    (b_status r = BOOKING_CONFIRMED \/ b_status r = BOOKING_CANCELLED).

(** A seat of an event. *)
Definition seat_of (e s : Z) : fact := fun w => exists r, ts_map (w_seats w) !! s = Some r /\ s_event_id r = e.

(** And its seats: different ones, of the event, each assigned to the booking. *)
Definition ticket (b u e : Z) (l : list Z) : fact :=
  fun w => booking_row b u e (Z.of_nat (length l)) w /\ NoDup l /\ forall s, s ∈ l -> seat_of e s w /\ junction w b s.

Lemma seat_of_stable e s : stable (seat_of e s).
Proof.
  intros w w' Hl (r & H1 & <-). destruct (lg_seats _ _ Hl _ _ H1) as (r' & H2 & [= _ E _ _]). by exists r'.
Qed.

Lemma ticket_stable b u e l : stable (ticket b u e l).
Proof.
  intros w w' Hl [(r & H1 & <- & <- & E & S1) [Hnd Hj]]. split; [|split; [exact Hnd|]; intros s Hs; destruct (Hj s Hs); split;
    [by apply (seat_of_stable _ s w)|by apply (junction_stable b s w)]].
  destruct (lg_bookings _ _ Hl _ _ H1) as (r' & H2 & [= _ E1 E2 E3 _ _] & S2). exists r'. split; [done|].
  split; [done|]. split; [done|]. split; [congruence|]. destruct S2 as [->|]; [done|by right].
Qed.

Lemma terms_row b r u e n w : has_terms b r w -> b_user_id r = u -> b_event_id r = e -> b_seat_count r = n ->
  b_status r = BOOKING_CONFIRMED -> booking_row b u e n w.
Proof.
  intros (r' & H & [= _ E1 E2 E3 _ _] & S) Hu He Hn Hs. exists r'. split; [done|]. split; [congruence|]. split; [congruence|]. split; [congruence|].
  destruct S as [->|]; [by left|by right].
Qed.

Definition sold (u e : Z) (l : list Z) (a : res Z) : fact := fun w => match a with inl b => ticket b u e l w | inr _ => True end.

Section book.
Context (txn u e : Z).

Lemma fail_keeps (P : fact) rc l : keeps P (fail txn rc) (sold u e l).
Proof using. by split. Qed.

(** [all]: the seats of the request, different ones, and all found to be of the event. *)
Definition seats_of (l : list Z) : fact := fun w => forall s, s ∈ l -> seat_of e s w.

Lemma assign_seats_keeps b all todo : forall (P : fact) done, NoDup all -> all = done ++ todo -> (forall w, P w -> seats_of all w) ->
  (forall w, P w -> booking_row b u e (Z.of_nat (length all)) w) -> (forall w s, P w -> s ∈ done -> junction w b s) ->
  keeps P (assign_seats txn u b todo) (sold u e all).
Proof using.
  induction todo as [|s todo IH]; intros P dn Hnd Ha Hev Hrow Hj; cbn [assign_seats keeps].
  - split; [done|]. intros r. rewrite app_nil_r in Ha. destruct (negb (r =? 0)); cbn [keeps sold]; [done|].
    intros w [HP _]. split; [by apply Hrow|]. split; [exact Hnd|]. intros s Hs. split; [by apply (Hev w)|].
    apply Hj; [done|by rewrite <- Ha].
  - split; [done|]. intros [j|rc]; [|apply fail_keeps]. cbn [keeps]. split; [done|]. intros [x|rc]; [|apply fail_keeps].
    cbn [keeps grants grants_update learned learned_insert learned_find bs_booking_id bs_seat_id]. split.
    + intros w x' [_ (x1 & H1 & E1)] Hx. assert (x1 = x') as -> by congruence. by rewrite E1.
    + intros rc. destruct (bool_decide (rc = ETP_OK)); [|apply fail_keeps]. apply (IH _ (dn ++ [s])); [exact Hnd|..].
      * by rewrite <- app_assoc.
      * intros w [[[HP _] _] _]. by apply Hev.
      * intros w [[[HP _] _] _]. by apply Hrow.
      * intros w y [[[HP Hjs] _] _] [Hy| ->%list_elem_of_singleton]%elem_of_app; [by apply Hj|exact Hjs].
Qed.

Lemma create_booking_keeps price l (P : fact) : NoDup l -> (length l <= 10)%nat -> (forall w, P w -> seats_of l w) ->
  keeps P (create_booking txn u e price l) (sold u e l).
Proof using.
  intros Hnd Hl Hev. unfold create_booking. cbn [keeps]. split; [done|]. intros now. split; [done|]. intros [b|rc]; [|apply fail_keeps].
  apply (assign_seats_keeps b l l _ []); [done|done|by intros w [[HP _] _]; apply Hev| |intros w s _ Hs; by apply elem_of_nil in Hs].
  intros w [_ Ht]. eapply (terms_row b _ u e _ w Ht); [done|done| |done]. cbn. apply u16_small. lia.
Qed.

Lemma check_seats_keeps price all todo : forall (P : fact) done, NoDup all -> (length all <= 10)%nat -> all = done ++ todo ->
  (forall w, P w -> seats_of done w) -> keeps P (check_seats txn u e price all todo) (sold u e all).
Proof using.
  induction todo as [|s todo IH]; intros P dn Hnd Hl Ha Hev; cbn [check_seats].
  { rewrite app_nil_r in Ha. subst dn. by apply create_booking_keeps. }
  cbn [keeps]. split; [done|]. intros [x|rc]; [|apply fail_keeps]. destruct (Z.eqb_spec (s_event_id x) e) as [He|]; cbn [negb]; [|apply fail_keeps].
  destruct (negb _); [apply fail_keeps|]. apply (IH _ (dn ++ [s])); [done|done|by rewrite <- app_assoc|].
  intros w [HP (x1 & Hx1 & E1)] y [Hy| ->%list_elem_of_singleton]%elem_of_app; [by apply (Hev w)|].
  exists x1. split; [exact Hx1|]. unfold seat_place in E1. congruence.
Qed.

Lemma lock_seats_keeps price all todo : forall (P : fact), NoDup all -> (length all <= 10)%nat ->
  keeps P (lock_seats txn u e price all todo) (sold u e all).
Proof using.
  induction todo as [|s todo IH]; intros P Hnd Hl; cbn [lock_seats].
  { apply (check_seats_keeps price all all _ []); try done. intros w _ s Hs. by apply elem_of_nil in Hs. }
  cbn [keeps]. split; [done|]. intros rc. destruct (negb _); [apply fail_keeps|by apply IH].
Qed.
End book.

Lemma booking_book_seats_keeps u e l P : keeps P (booking_book_seats u e l) (sold u e l).
Proof.
  unfold booking_book_seats. destruct (Z.of_nat (length l) <=? 0); [done|].
  destruct (Z.ltb_spec MAX_SEATS_PER_BOOKING (Z.of_nat (length l))) as [|Hl]; [done|].
  destruct (seat_ids_ok [] l) eqn:Hok; cbn [negb]; [|done]. apply seat_ids_ok_spec in Hok as [_ Hnd].
  cbn [keeps]. split; [done|]. intros [ev|rc]; [|done]. destruct (negb _); [done|]. cbn [keeps]. split; [done|].
  intros t. destruct (t =? INVALID_TXN_ID); [done|]. change MAX_SEATS_PER_BOOKING with 10 in Hl.
  pose proof (exchange_sort_perm id l) as Hp. apply (keeps_post _ (sold u e (exchange_sort id l))).
  - intros [b|rc] w; [|done]. cbn [sold]. unfold ticket. rewrite (Permutation_length Hp). intros (H1 & H2 & H3). split; [done|].
    split; [done|]. intros s Hs. apply H3. by rewrite Hp.
  - apply lock_seats_keeps; [by rewrite Hp|]. rewrite (Permutation_length Hp). lia.
Qed.

Section cancel.
Context (txn b : Z) (r : booking_record).

Lemma release_seats_keeps l : forall P : fact, (forall w, P w -> has_terms b r w) -> keeps P (release_seats txn b r l) anything_goes.
Proof using.
  induction l as [|x l IH]; intros P HP; cbn [release_seats].
  - unfold mark_cancelled. cbn [keeps grants grants_update b_status]. split.
    + split; [done|]. intros w r0 (r1 & H1 & E1 & _)%HP H0. assert (r1 = r0) as -> by congruence. by rewrite E1.
    + intros rc. destruct (negb _); [done|]. cbn [keeps]. split; [done|]. intros rc'. by destruct (negb _).
  - cbn [keeps]. split; [done|]. intros rc. destruct (negb _); [done|]. cbn [keeps]. split; [done|]. intros [s|err].
    + cbn [keeps grants grants_update learned learned_find]. split.
      * intros w s' [_ (s1 & H1 & E1)] Hs. assert (s1 = s') as -> by congruence. by rewrite E1.
      * intros rc'. destruct (negb _); [done|]. apply IH. intros w [[[HPw _] _] _]. by apply HP.
    + apply IH. intros w [[HPw _] _]. by apply HP.
Qed.
End cancel.

Lemma booking_cancel_keeps b u P : keeps P (booking_cancel b u) anything_goes.
Proof.
  unfold booking_cancel. cbn [keeps]. split; [done|]. intros t. destruct (t =? INVALID_TXN_ID); [done|]. cbn [keeps]. split; [done|].
  intros rc. destruct (negb _); [done|]. cbn [keeps]. split; [done|]. intros [r|err]; [|done]. destruct (negb _); [done|]. destruct (negb _); [done|].
  cbn [keeps]. split; [done|]. intros bs. apply release_seats_keeps. by intros w [[_ Hr] _].
Qed.

#[export] Instance keeps_serves : Serves (fun A p => forall P, keeps P p anything_goes).
Proof.
  constructor; try by (intros; split; [done|]; auto).
  - done.
  - intros A B p f Hp Hf P. eapply keeps_bind; [apply Hp|]. intros a. apply Hf.
  - intros u e l P. eapply keeps_post; [|apply booking_book_seats_keeps]. done.
  - intros b u P. apply booking_cancel_keeps.
Qed.

(** ** What a client has been told *)

Lemma keeps_frame {A} (F : fact) (p : prog A) Q : forall P, keeps P p Q -> keeps (adds P F) p (fun a => adds (Q a) F).
Proof.
  induction p as [a|R c k IH]; intros P Hp; cbn [keeps] in *; [by intros w [H1 H2]; split; [apply Hp|]|].
  destruct Hp as [Hc Hk]. split; [eapply grants_weaken; [|exact Hc]; by intros w []|]. intros r.
  eapply keeps_weaken; [|apply (IH r _ (Hk r))]. intros w [[HP HF] HL]. by repeat split.
Qed.

(** Every result of the program satisfies [phi], whatever the calls answer. *)
Fixpoint returns {A} (phi : A -> Prop) (p : prog A) : Prop :=
  match p with
  | Ret a => phi a
  | Call c k => forall r, returns phi (k r)
  end.

Lemma returns_bind {A B} phi (p : prog A) (f : A -> prog B) : (forall a, returns phi (f a)) -> returns phi (bind p f).
Proof. intros Hf. by induction p as [a|R c k IH]; cbn [bind returns]. Qed.

Lemma keeps_returns {A} (phi : A -> Prop) (p : prog A) : forall P, keeps P p anything_goes -> returns phi p -> keeps P p (fun a _ => phi a).
Proof.
  induction p as [a|R c k IH]; intros P Hp Hr; cbn [keeps returns] in *; [done|]. destruct Hp as [Hc Hk]. split; [done|]. auto.
Qed.

(** Behind every confirmation sent there is a booking of that user, event and number
    of seats, with its seats. *)
Definition told (eff : list effect) : fact :=
  fun w => forall b u e n, NotifyBooked b u e n ∈ eff -> exists l, Z.of_nat (length l) = n /\ ticket b u e l w.

(** Effects without a confirmation. *)
Definition confirms (x : effect) : bool := match x with NotifyBooked _ _ _ _ => true | _ => false end.
Definition quiet (eff : list effect) : Prop := Forall (fun x => confirms x = false) eff.

Lemma quiet_told eff w : quiet eff -> told eff w.
Proof. intros Hq b u e n Hx. unfold quiet in Hq. rewrite Forall_forall in Hq. by specialize (Hq _ Hx). Qed.

Lemma told_app eff eff' w : told eff w -> told eff' w -> told (eff ++ eff') w.
Proof. intros H1 H2 b u e n [Hx|Hx]%elem_of_app; [by apply H1|by apply H2]. Qed.

Section client.
Context (C : libc).

Definition calm (p : prog Server.outcome) : Prop := returns (fun o => quiet (oc_effects o)) p.

Lemma calm_ret s r eff : quiet eff -> calm (Ret (Outcome s r eff)).
Proof using. exact id. Qed.

Lemma calm_call {R} (c : Calls.cmd R) k : (forall r, calm (k r)) -> calm (Call c k).
Proof using. exact id. Qed.

Lemma calm_bind {A} (p : prog A) f : (forall a, calm (f a)) -> calm (bind p f).
Proof using. apply returns_bind. Qed.

Ltac quiet :=
  unfold err, reply;
  repeat first [apply calm_ret; repeat constructor | apply calm_bind; intros ? | apply calm_call; intros ? | case_match].

Lemma command_quiet s cmd : handle_command C s cmd = cmd_book s cmd \/ calm (handle_command C s cmd).
Proof using.
  unfold handle_command.
  do 8 (case_match; [right; unfold cmd_register, cmd_login, cmd_logout, cmd_create_event, cmd_delete_event, cmd_list_events,
    cmd_view_event, cmd_view_seats; quiet|]).
  case_match; [by left|]. right.
  repeat (case_match; [unfold cmd_cancel, cmd_my_bookings, cmd_revenue, cmd_list_users, cmd_system_stats, cmd_help; quiet|]).
  quiet.
Qed.

Lemma cmd_book_keeps s cmd P : keeps P (cmd_book s cmd) (fun o => told (oc_effects o)).
Proof using.
  assert (Hq : forall P' r, keeps P' (Ret (Outcome s r [])) (fun o => told (oc_effects o))).
  { intros P' r w _. apply quiet_told. constructor. }
  unfold cmd_book, err, reply. case_match; [apply Hq|]. eapply keeps_bind; [apply booking_book_seats_keeps|].
  intros [b|rc]; [|case_match; apply Hq]. cbn [keeps oc_effects sold]. intros w Ht b' u e n Hx.
  apply elem_of_cons in Hx as [[=]|Hx]. apply list_elem_of_singleton in Hx as [= -> -> -> ->]. by eexists.
Qed.

Lemma client_line_keeps s l P : keeps P (client_line C s l) (fun x => told x.2).
Proof using.
  assert (Hq : forall P' (x : option session * bytes * list effect), quiet x.2 -> keeps P' (Ret x) (fun x => told x.2)).
  { intros P' x Hx w _. by apply quiet_told. }
  unfold client_line. destruct l as [text|]; [|by apply Hq; constructor]. case_match; [by apply Hq; constructor|].
  destruct (parse_command _) as [cmd|]; [|by apply Hq; repeat constructor].
  case_match; [by apply Hq; repeat constructor|]. case_match; [by apply Hq; repeat constructor|].
  apply (keeps_bind _ _ (fun o => told (oc_effects o))).
  - destruct (command_quiet s cmd) as [->|Hr]; [apply cmd_book_keeps|].
    eapply keeps_post; [|apply (keeps_returns _ _ _ (handle_command_ok (fun A p => forall P, keeps P p anything_goes) C s cmd P) Hr)].
    intros o w Ho. by apply quiet_told.
  - intros o w Ho. cbn [fst snd]. apply (told_app [StatRequests]); [apply quiet_told; repeat constructor|done].
Qed.

Lemma client_loop_keeps lines : forall s P, keeps P (client_loop C s lines) (fun x => told x.2).
Proof using.
  induction lines as [|l lines IH]; intros s P; cbn [client_loop]; [intros w _; by apply quiet_told; constructor|].
  eapply keeps_bind; [apply client_line_keeps|]. intros [[s' out] eff]. destruct s' as [s'|]; [|by intros w Hw].
  eapply (keeps_bind _ _ (fun x => adds (told x.2) (told eff))).
  - eapply keeps_weaken; [|exact (keeps_frame (told eff) _ _ (fun _ => True) (IH s' _))]. by intros w Hw.
  - intros [out' eff'] w [H1 H2]. by apply told_app.
Qed.
End client.

(** ** Runs *)

(** What is promised of a thread's answer, whatever its type. *)
Definition promise : Type := {A : Type & A} -> fact.

Definition no_promise : promise := fun _ _ => True.

(** A seat booking that succeeds has stored its booking, and a connection all those
    it has confirmed. *)
Definition promised (q : request) : promise :=
  match q with
  | BookSeats u e l => fun a w => forall b, a = existT (res Z) (inl b) -> ticket b u e l w
  | Client C s i => fun a w => forall out eff, a = @existT Type (fun A => A) (bytes * list effect)%type (out, eff) -> told eff w
  | _ => no_promise
  end.

Definition thread_keeps (Q : promise) (P : fact) (t : thread) : Prop :=
  match t with @Thread A p => keeps P p (fun a => Q (existT A a)) end.

(** Every thread knows something that is true and stays so, and from which it keeps
    the ledger and its promise. *)
Definition ledgered (qs : list promise) (s : system) : Prop :=
  ids_ok (sys_world s) /\
  Forall2 (fun Q t => exists P : fact, stable P /\ P (sys_world s) /\ thread_keeps Q P t) qs (sys_threads s).

Lemma ledgered_new w : ids_ok w -> ledgered [] (System w []).
Proof. intros Hw. split; [done|constructor]. Qed.

Lemma ledgered_sched may_fail qs s s' : sched may_fail s s' -> ledgered qs s -> ledgered qs s' /\ ledger (sys_world s) (sys_world s').
Proof.
  intros Hs [Hw Hts]. destruct Hs as [R A i w ts c k r w' Hi Hx]. cbn [sys_world sys_threads] in *.
  destruct (Forall2_lookup_r _ _ _ _ _ Hts Hi) as (Q & HQ & P & HP & HPw & Hg & Hk). fold (@keeps A) in Hk.
  assert (Hany : exec_any (@anything) w c r w') by (destruct Hx as [Hx|[_ Hx]]; [by left|by right]).
  destruct (call_ledger c P w r w' Hw HPw Hg Hany) as (Hw' & Hl & Hr). split; [|done]. split; [done|]. cbn [sys_world sys_threads].
  rewrite <- (list_insert_id qs i Q) by done. apply Forall2_insert.
  - eapply Forall2_impl; [exact Hts|]. intros Q' t (P' & HP' & HPw' & Hk'). exists P'. split; [done|]. split; [by apply (HP' w)|done].
  - exists (adds P (learned c r)). split; [apply adds_stable; [done|apply learned_stable]|]. split; [split; [by apply (HP w)|done]|]. apply Hk.
Qed.

Lemma serve_keeps q P : thread_keeps (promised q) P (serve q).
Proof.
  pose proof (serve_ok (fun A p => forall P, keeps P p anything_goes) q) as H. destruct q as [u e l| | | | | | | | |]; try exact (H P).
  - cbn [serve promised thread_keeps]. eapply keeps_post; [|apply booking_book_seats_keeps].
    intros a w Ha b E. apply inj_pair2 in E as ->. exact Ha.
  - cbn [serve promised thread_keeps]. eapply keeps_post; [|apply client_loop_keeps].
    intros a w Ha out eff E. apply inj_pair2 in E as ->. exact Ha.
Qed.

Lemma ledgered_arrives qs w ts Q t : ledgered qs (System w ts) -> thread_keeps Q (fun _ => True) t -> ledgered (qs ++ [Q]) (System w (ts ++ [t])).
Proof.
  intros [Hw Hts] Ht. split; [done|]. apply Forall2_app; [exact Hts|]. constructor; [|constructor]. by exists (fun _ => True).
Qed.

(** Along a run of any requests the world moves along the ledger. *)
Lemma ledgered_reaches may_fail s s' : reaches may_fail s s' -> forall qs, ledgered qs s ->
  (exists qs', ledgered (qs ++ qs') s') /\ ledger (sys_world s) (sys_world s').
Proof.
  induction 1 as [s|s1 s2 s3 Hs _ IH]; intros qs Hl; [split; [exists []; by rewrite app_nil_r|done]|].
  destruct Hs as [s1 s2 Hs|w ts q].
  - destruct (ledgered_sched _ _ _ _ Hs Hl) as [Hl2 Hw]. destruct (IH qs Hl2) as [Hq Hw']. split; [done|by etrans].
  - pose proof (ledgered_arrives qs w ts _ _ Hl (serve_keeps q _)) as Hl2. destruct (IH _ Hl2) as [[qs' Hq] Hw'].
    split; [|done]. exists (promised q :: qs'). by rewrite <- app_assoc in Hq.
Qed.

(** The promise of an answered thread has come true. *)
Lemma promise_kept qs w ts i Q A (a : A) : ledgered qs (System w ts) -> qs !! i = Some Q -> ts !! i = Some (Thread (Ret a)) -> Q (existT A a) w.
Proof. intros [_ Hts] HQ Hi. destruct (Forall2_lookup_lr _ _ _ _ _ _ Hts HQ Hi) as (P & _ & HP & Hk). by apply Hk. Qed.
