(* ===== verification/BookingLive.v ===== *)
(** * Every request is answered

    Threads wait for locks only, and every program asks for its locks in one order:
    the booking first, then seats by ascending id.  So whatever calls fail and
    whatever the schedule, some thread can always go on, and as programs are finite
    every request is answered. *)

From stdpp Require Import base tactics numbers list gmap relations sorting.
From Stdlib Require Import ZArith Lia Wellfounded.
From S2P Require Import Prelude Types Calls EventMgr Booking Threads.

#[local] Open Scope Z_scope.

(** ** Schedules *)

Definition child (t' t : thread) : Prop :=
  match t with
  | Thread (Ret _) => False
  | Thread (Call c k) => exists r, t' = Thread (k r)
  end.

Definition one_goes_on (ts' ts : list thread) : Prop :=
  exists i t t', ts !! i = Some t /\ child t' t /\ ts' = <[i := t']> ts.

Lemma child_wf t : Acc child t.
Proof.
  destruct t as [A p]. induction p as [a|R c k IH]; constructor; intros t'; cbn; [done|]. intros [r ->]. apply IH.
Qed.

Lemma one_goes_on_wf ts : Acc one_goes_on ts.
Proof.
  induction ts as [|t ts IH]; [constructor; intros ts' (i & t & t' & Hi & _); by rewrite lookup_nil in Hi|].
  revert ts IH. induction (child_wf t) as [t _ IHt]. intros ts Hts. induction Hts as [ts Hts IHts].
  constructor. intros ts' ([|i] & u & u' & Hi & Hc & ->); cbn in Hi |- *.
  - injection Hi as <-. by apply IHt.
  - apply IHts. by exists i, u, u'.
Qed.

Lemma sched_goes_on may_fail s s' : sched may_fail s s' -> one_goes_on (sys_threads s') (sys_threads s).
Proof.
  intros [R A i w ts c k r w' Hi Hx]. exists i, (Thread (Call c k)), (Thread (k r)).
  split; [done|]. split; [by exists r|done].
Qed.

(** ** The order of locks *)

Definition key_lt (k k' : Z * Z) : Prop := k'.1 < k.1 \/ (k'.1 = k.1 /\ k.2 < k'.2).
Definition key_le (k k' : Z * Z) : Prop := key_lt k k' \/ k = k'.
#[export] Instance key_lt_dec k k' : Decision (key_lt k k').
Proof. unfold key_lt. apply _. Defined.

Lemma key_lt_le_trans k k' k'' : key_lt k k' -> key_le k' k'' -> key_lt k k''.
Proof. destruct k, k', k''. unfold key_le, key_lt. cbn. intros H [H'|[= -> ->]]; lia. Qed.

(** The transaction of a thread and the locks it has asked for. *)
Definition held : Type := option Z * list (Z * Z).
Definition none_held : held := (None, []).

Definition order_rule (R : Type) (g : held) (c : cmd R) : (held -> R -> Prop) -> Prop :=
  match c in cmd R return (held -> R -> Prop) -> Prop with
  | Begin => fun K => g = none_held /\ forall t, K (if t =? INVALID_TXN_ID then none_held else (Some t, [])) t
  | Lock t tb id => fun K => g.1 = Some t /\ Forall (fun k => key_le k (tb, id)) g.2 /\
      K (Some t, (tb, id) :: g.2) 0 /\ K g (-1)
  | Commit t => fun K => g.1 = Some t /\ forall r, K none_held r
  | Abort t => fun K => g.1 = Some t /\ K none_held tt
  | _ => fun K => forall r, K g r
  end.

(** Every lock belongs to a thread that will release it. *)
Definition locks_owned (w : world) (gs : list held) : Prop :=
  forall k t, w_locks w !! k = Some t -> exists i g, gs !! i = Some g /\ g.1 = Some t /\ k ∈ g.2.

Abbreviation ordered := (safe order_rule (fun g => g = none_held)).

Lemma locks_owned_step w w' gs i g g' : locks_owned w gs -> gs !! i = Some g ->
  (forall k t, w_locks w' !! k = Some t ->
     (g'.1 = Some t /\ k ∈ g'.2) \/ (w_locks w !! k = Some t /\ (g.1 = Some t -> k ∈ g.2 -> g'.1 = Some t /\ k ∈ g'.2))) ->
  locks_owned w' (<[i := g']> gs).
Proof.
  intros HI Hi H k t Hk. assert (Hlt : (i < length gs)%nat) by (by apply lookup_lt_Some in Hi).
  destruct (H k t Hk) as [Hg'|[Hk0 Hg]]; [exists i, g'; by rewrite list_lookup_insert_eq|].
  destruct (HI k t Hk0) as (j & gj & Hj & Ht & Hin). destruct (decide (i = j)) as [<-|Hij].
  - assert (gj = g) as -> by congruence. exists i, g'. rewrite list_lookup_insert_eq by done. by destruct (Hg Ht Hin).
  - exists j, gj. by rewrite list_lookup_insert_ne.
Qed.

Lemma locks_owned_same w w' gs i g : locks_owned w gs -> gs !! i = Some g -> w_locks w' = w_locks w ->
  locks_owned w' (<[i := g]> gs).
Proof. intros HI Hi E. eapply locks_owned_step; eauto. intros k t. rewrite E. auto. Qed.

Lemma locks_owned_release w gs i g t : locks_owned w gs -> gs !! i = Some g -> g.1 = Some t ->
  locks_owned (release t w) (<[i := none_held]> gs).
Proof.
  intros HI Hi Ht. eapply locks_owned_step; eauto. intros k t' Hk. cbn in Hk.
  apply map_lookup_filter_Some in Hk as [Hk Hne]. cbn in Hne. right. split; [done|]. congruence.
Qed.

Lemma order_sound (may_fail : forall R, cmd R -> bool) R (c : cmd R) w gs i g K r w' :
  locks_owned w gs -> gs !! i = Some g -> order_rule R g c K -> exec_any may_fail w c r w' ->
  exists g', K g' r /\ locks_owned w' (<[i := g']> gs).
Proof.
  intros HI Hi HK Hx. pose proof (locks_owned_same w w' gs i g HI Hi) as Hsame.
  destruct c as [B T id|B T x|B T id x|B T id|B T f n| |t tb id|t|t|]; cbn [order_rule] in HK;
    try (exists g; split; [apply HK|apply Hsame]).
  - by destruct Hx as [[-> _]|[_ []]].
  - destruct Hx as [[_ ->]|[_ [_ ->]]]; apply locks_tput.
  - destruct Hx as [Hx|[_ [_ ->]]]; [|done]. cbn in Hx. case_match; destruct Hx as [_ ->]; [apply locks_tput|done].
  - destruct Hx as [Hx|[_ [_ ->]]]; [|done]. cbn in Hx. case_match; destruct Hx as [_ ->]; [apply locks_tput|done].
  - by destruct Hx as [[-> _]|[_ []]].
  - destruct HK as [-> HK]. eexists. split; [apply HK|]. destruct Hx as [Hx|[_ []]].
    assert (E : w_locks w' = w_locks w) by (by destruct Hx as [[_ ->]|[_ ->]]).
    eapply locks_owned_step; eauto. intros k t. rewrite E. by right.
  - destruct HK as (Ht & _ & H0 & H1). destruct Hx as [[-> Hx]|[_ [-> ->]]].
    + eexists. split; [apply H0|]. eapply locks_owned_step; eauto. intros k t'.
      destruct (w_locks w !! (tb, id)) as [o|] eqn:Hl.
      * destruct Hx as [-> ->]. intros Hk. right. split; [done|]. intros E Hin. cbn. split; [congruence|by right].
      * subst w'. cbn. intros [[<- <-]|[Hne Hk]]%lookup_insert_Some; [left; split; [done|by left]|].
        right. split; [done|]. intros E Hin. split; [congruence|by right].
    + exists g. split; [done|]. by apply Hsame.
  - destruct HK as [Ht HK]. eexists. split; [apply HK|].
    destruct Hx as [[_ ->]|[_ [_ ->]]]; by eapply locks_owned_release.
  - destruct HK as [Ht HK]. destruct Hx as [Hx|[_ []]]. cbn in Hx. subst w'. destruct r. eexists. split; [apply HK|].
    by eapply locks_owned_release.
  - destruct Hx as [Hx|[_ []]]. cbn in Hx. by subst w'.
Qed.

(** ** Progress *)

Section progress.
Context (may_fail : forall R, cmd R -> bool) (w : world) (ts : list thread) (gs : list held).
Context (HI : locks_owned w gs) (HF : Forall2 (safe_thread order_rule (fun g => g = none_held)) gs ts).

Definition can_step : Prop := exists s', sched may_fail (System w ts) s'.

(** Only a lock held by another transaction stops a thread. *)
Lemma call_steps {R A} i (c : cmd R) (k : R -> prog A) : ts !! i = Some (Thread (Call c k)) ->
  match c with Lock t tb id => w_locks w !! (tb, id) = None \/ w_locks w !! (tb, id) = Some t | _ => True end ->
  can_step.
Proof using.
  intros Hi Hc. assert (Hx : exists r w', call false 0 w c = Some (r, w')).
  { destruct c; cbn; try destruct (_ !! id); eauto.
    destruct Hc as [Hc|Hc]; rewrite Hc; [by eauto|]. rewrite Z.eqb_refl. by eauto. }
  destruct Hx as (r & w' & Hx). apply call_exec in Hx as [Hx|[? _]]; [|done].
  eexists. apply (sched_call may_fail i w ts c k r w' Hi). by left.
Qed.

Definition waiting_above (key : Z * Z) : nat := size (filter (fun kv => key_lt key kv.1) (w_locks w)).

Lemma waiting_above_lt k k' t : key_lt k k' -> w_locks w !! k' = Some t -> (waiting_above k' < waiting_above k)%nat.
Proof using.
  intros Hlt Hk. apply map_subset_size, map_subset_alt. split.
  - apply map_subseteq_spec. intros x o. rewrite !map_lookup_filter_Some. cbn. intros [Hx Hl]. split; [done|].
    eapply key_lt_le_trans; [done|by left].
  - exists k'. split.
    + apply map_lookup_filter_None. right. intros o _. cbn. unfold key_lt. lia.
    + exists t. rewrite map_lookup_filter_Some. done.
Qed.

(** A waiting thread waits for a lock whose holder asks for later locks only. *)
Lemma lock_steps n : forall i t tb id A (k : Z -> prog A), ts !! i = Some (Thread (Call (Lock t tb id) k)) ->
  (waiting_above (tb, id) < n)%nat -> can_step.
Proof using HI HF.
  induction n as [|n IH]; intros i t tb id A k Hi Hn; [lia|].
  destruct (w_locks w !! (tb, id)) as [o|] eqn:Hl; [|apply (call_steps i _ k Hi); by left].
  destruct (decide (o = t)) as [->|Hot]; [apply (call_steps i _ k Hi); by right|].
  destruct (HI _ _ Hl) as (j & g & Hj & Ho & Hin). destruct (Forall2_lookup_l _ _ _ _ _ HF Hj) as (u & Hu & Hs).
  destruct u as [B [b|R c q]]; cbn in Hs; [by subst g|].
  destruct c as [C T rid|C T x|C T rid x|C T rid|C T f m| |t' tb' id'|t'|t'|] eqn:Ec;
    try (by apply (call_steps j c q); subst c).
  destruct Hs as (Ht' & Hle & _). rewrite Forall_forall in Hle. specialize (Hle _ Hin).
  destruct (w_locks w !! (tb', id')) as [o'|] eqn:Hl'; [|apply (call_steps j _ q Hu); by left].
  destruct (decide (o' = t')) as [->|Hot']; [apply (call_steps j _ q Hu); by right|].
  destruct Hle as [Hlt|E]; [|congruence].
  apply (IH j t' tb' id' B q Hu). pose proof (waiting_above_lt _ _ _ Hlt Hl'). lia.
Qed.

Lemma progress : Forall answered ts \/ can_step.
Proof using HI HF.
  destruct (Forall_Exists_dec answered (fun t => match t with Thread (Ret _) => False | _ => True end)
              (fun t => match t with Thread (Ret a) => left (ex_intro _ a eq_refl) | _ => right I end) ts) as [Ha|Hn];
    [by left|right].
  apply Exists_exists in Hn as (t & Hin & Ht).
  apply list_elem_of_lookup in Hin as [i Hi]. destruct t as [A [a|R c k]]; [done|].
  destruct c as [C T rid|C T x|C T rid x|C T rid|C T f m| |t tb id|t|t|] eqn:Ec;
    try (by apply (call_steps i c k); subst c).
  eapply (lock_steps (1 + waiting_above (tb, id)) i t tb id A); [by rewrite Hi, Ec|lia].
Qed.
End progress.

(** ** The programs ask in order *)

Section programs.
Context (txn : Z).

(** All locks asked for so far come before [key]. *)
Definition below (key : Z * Z) (g : held) : Prop := g.1 = Some txn /\ Forall (fun k => key_le k key) g.2.

Lemma fail_ordered g rc : g.1 = Some txn -> ordered g (fail txn rc).
Proof. by intros Ht. Qed.

Lemma fail_rc_ordered g rc : g.1 = Some txn -> ordered g (fail_rc txn rc).
Proof. by intros Ht. Qed.

Lemma assign_seats_ordered user b l g : g.1 = Some txn -> ordered g (assign_seats txn user b l).
Proof.
  intros Ht. induction l as [|s l IH]; cbn [assign_seats safe order_rule].
  - split; [done|]. intros r. by case_match.
  - intros [j|e]; [|by apply fail_ordered]. intros [q|e]; [|by apply fail_ordered]. cbn. intros rc.
    case_bool_decide; [done|by apply fail_ordered].
Qed.

Lemma check_seats_ordered user ev price all l g : g.1 = Some txn -> ordered g (check_seats txn user ev price all l).
Proof.
  intros Ht. induction l as [|s l IH]; cbn [check_seats].
  - unfold create_booking. cbn. intros _ [b|e]; [by apply assign_seats_ordered|by apply fail_ordered].
  - cbn. intros [q|e]; [|by apply fail_ordered]. case_match; [by apply fail_ordered|].
    case_match; [by apply fail_ordered|done].
Qed.

Lemma below_cons tb x y g : below (tb, x) g -> x <= y -> below (tb, y) (Some txn, (tb, x) :: g.2).
Proof.
  intros [Ht Hg] Hxy. split; [done|]. cbn. constructor; [|eapply Forall_impl; [exact Hg|]].
  - unfold key_le, key_lt. cbn. destruct (decide (x = y)) as [->|]; [by right|left; lia].
  - intros [kt ki] [Hk|[= -> ->]]; unfold key_le, key_lt in *; cbn in *; [left; lia|].
    destruct (decide (x = y)) as [->|]; [by right|left; lia].
Qed.

Lemma lock_seats_ordered user ev price all l : forall g, g.1 = Some txn ->
  match l with [] => True | s :: _ => below (TABLE_SEATS, s) g end -> StronglySorted Z.le l ->
  ordered g (lock_seats txn user ev price all l).
Proof.
  induction l as [|s l IH]; intros g Ht Hb Hs; cbn [lock_seats]; [by apply check_seats_ordered|].
  inversion Hs as [|? ? Hs' Hle]; subst. cbn [safe order_rule]. destruct Hb as [_ Hg]. split; [done|]. split; [done|].
  split; [|by apply fail_ordered]. change (negb (0 =? 0)) with false. cbv iota. apply IH; [done| |done].
  destruct l as [|s' l]; [done|]. inversion Hle; subst. by apply below_cons.
Qed.

Lemma mark_cancelled_ordered b r g : g.1 = Some txn -> ordered g (mark_cancelled txn b r).
Proof.
  intros Ht. cbn. intros rc. case_match; [by apply fail_rc_ordered|]. cbn. split; [done|]. intros x. by case_match.
Qed.

Lemma release_seats_ordered b r l : forall g, g.1 = Some txn ->
  match l with [] => True | x :: _ => below (TABLE_SEATS, bs_seat_id x) g end ->
  StronglySorted (fun x y => bs_seat_id x <= bs_seat_id y) l -> ordered g (release_seats txn b r l).
Proof.
  induction l as [|s l IH]; intros g Ht Hb Hs; cbn [release_seats]; [by apply mark_cancelled_ordered|].
  inversion Hs as [|? ? Hs' Hle]; subst. cbn [safe order_rule]. destruct Hb as [_ Hg]. split; [done|]. split; [done|].
  split; [|by apply fail_rc_ordered]. change (negb (0 =? 0)) with false. cbv iota.
  assert (Hrest : ordered (Some txn, (TABLE_SEATS, bs_seat_id s) :: g.2) (release_seats txn b r l)).
  { apply IH; [done| |done]. destruct l as [|s' l]; [done|]. inversion Hle; subst. by apply below_cons. }
  intros [q|e]; [|done]. intros rc. destruct (negb (bool_decide (rc = ETP_OK))); [by apply fail_rc_ordered|done].
Qed.
End programs.

Lemma booking_book_seats_ordered user ev l : ordered none_held (booking_book_seats user ev l).
Proof.
  unfold booking_book_seats. do 3 (case_match; [done|]). cbn [safe order_rule]. intros [e|e]; [|done].
  case_match; [done|]. cbn [safe order_rule]. split; [done|]. intros t. case_match; [done|].
  apply lock_seats_ordered; [done| |].
  - destruct (exchange_sort id l) as [|s k]; [done|]. by split.
  - apply (exchange_sort_sorted id).
Qed.

Lemma booking_cancel_ordered b user : ordered none_held (booking_cancel b user).
Proof.
  unfold booking_cancel. cbn [safe order_rule]. split; [done|]. intros t. case_match; [done|].
  cbn [safe order_rule]. split; [done|]. split; [constructor|]. split; [|done].
  change (negb (0 =? 0)) with false. cbv iota. cbn [safe order_rule]. intros [r|e]; [|done].
  case_match; [done|]. case_match; [done|]. cbn [safe order_rule]. intros bs.
  apply release_seats_ordered; [done| |apply (exchange_sort_sorted bs_seat_id)].
  destruct (exchange_sort bs_seat_id bs) as [|s k]; [done|]. split; [done|]. cbn. constructor; [|constructor].
  left. left. done.
Qed.

Lemma order_rule_mono R g (c : cmd R) (K K' : held -> R -> Prop) :
  order_rule R g c K -> (forall g' r, K g' r -> K' g' r) -> order_rule R g c K'.
Proof. intros HK H. destruct c; cbn [order_rule] in *; intuition eauto. Qed.

#[export] Instance ordered_serves : Serves (fun A p => safe order_rule (fun g => g = none_held) none_held p).
Proof.
  constructor; try (by auto).
  - intros A B p f Hp Hf. eapply safe_bind; [exact order_rule_mono|exact Hp|]. intros g' a ->. apply Hf.
  - apply booking_book_seats_ordered.
  - apply booking_cancel_ordered.
Qed.

Lemma serve_ordered q : safe_thread order_rule (fun g => g = none_held) none_held (serve q).
Proof. apply (serve_ok (fun A p => safe order_rule (fun g => g = none_held) none_held p)). Qed.

(** ** The theorem *)

Definition all_answered (s : system) : Prop := Forall answered (sys_threads s).

(** What every reachable system keeps: every thread asks in order, and every lock is
    held by a thread that will release it. *)
Abbreviation in_order := (sys_inv order_rule (fun g => g = none_held) locks_owned).

Lemma in_order_start w ts : w_locks w = ∅ -> Forall (safe_thread order_rule (fun g => g = none_held) none_held) ts -> in_order (System w ts).
Proof.
  intros Hw Hts. exists (replicate (length ts) none_held). split.
  - intros k t Hk. cbn in Hk. by rewrite Hw, lookup_empty in Hk.
  - cbn [sys_threads]. induction Hts; [constructor|]. by constructor.
Qed.

Lemma in_order_sched may_fail s s' : sched may_fail s s' -> in_order s -> in_order s'.
Proof.
  apply (sys_inv_sched order_rule _ may_fail locks_owned).
  intros R c w gs i g K r w' HI Hi HK Hx. by apply (order_sound may_fail R c w gs i g K r w').
Qed.

Lemma in_order_reaches may_fail s s' : reaches may_fail s s' -> in_order s -> in_order s'.
Proof.
  apply (sys_inv_reaches order_rule _ may_fail locks_owned none_held); [| |apply serve_ordered].
  - intros R c w gs i g K r w' HI Hi HK Hx. by apply (order_sound may_fail R c w gs i g K r w').
  - intros w gs HI k t Hk. destruct (HI k t Hk) as (i & g & Hi & H). exists i, g. split; [|done].
    by apply lookup_app_l_Some.
Qed.

Lemma in_order_goes_on may_fail w ts : in_order (System w ts) -> Forall answered ts \/ exists s', sched may_fail (System w ts) s'.
Proof. intros (gs & HI & HF). by apply (progress may_fail w ts gs HI HF). Qed.

(** At rest no lock is held. *)
Lemma in_order_rest w ts : in_order (System w ts) -> Forall answered ts -> w_locks w = ∅.
Proof.
  intros (gs & HI & HF) Ha. apply map_eq. intros k. rewrite lookup_empty. destruct (w_locks w !! k) as [t|] eqn:Hk; [|done].
  destruct (HI k t Hk) as (i & g & Hi & Ht & _). destruct (Forall2_lookup_l _ _ _ _ _ HF Hi) as ([A p] & Hp & Hs).
  rewrite Forall_forall in Ha. destruct (Ha _ (list_elem_of_lookup_2 _ _ _ Hp)) as [a ->]. cbn in Hs. by rewrite Hs in Ht.
Qed.

Lemma ordered_reaches may_fail w s : w_locks w = ∅ -> reaches may_fail (System w []) s -> in_order s.
Proof. intros Hw Hr. eapply in_order_reaches; [exact Hr|]. by apply in_order_start. Qed.

Lemma ordered_inevitable may_fail s : in_order s -> inevitable (sched may_fail) all_answered s.
Proof.
  apply (inevitable_acc _ _ _ (fun s' s => one_goes_on (sys_threads s') (sys_threads s))).
  - intros s1 s2 HI Hst. split; [|by apply sched_goes_on in Hst]. by apply (in_order_sched may_fail s1).
  - intros [w ts] HI. by apply in_order_goes_on.
  - apply (Acc_inverse_image system (list thread) one_goes_on sys_threads). apply one_goes_on_wf.
Qed.

(** However the requests that have arrived, whole client connections included,
    got where they are, and whatever calls fail, every further schedule of their
    calls answers all of them after finitely many steps: no deadlock, because bookings and then seats are locked in
    ascending order of their ids, and no endless run. *)
Theorem requests_answered may_fail w s : w_locks w = ∅ -> reaches may_fail (System w []) s ->
  inevitable (sched may_fail) all_answered s.
Proof. intros Hw Hr. eapply ordered_inevitable, ordered_reaches; eauto. Qed.

(** Two users ask for the same two seats in opposite orders while a third cancels. *)
Lemma requests_answered_witness :
  w_locks venue = ∅ /\
  inevitable (sched (@anything)) all_answered
    (System venue [serve (BookSeats 7 1 [1; 2]); serve (BookSeats 8 1 [2; 1]); serve (CancelBooking 1 7)]).
Proof.
  split; [by vm_compute|]. apply (requests_answered (@anything) venue); [by vm_compute|].
  eapply rtc_l; [apply (step_request (@anything) venue [] (BookSeats 7 1 [1; 2]))|].
  eapply rtc_l; [apply (step_request (@anything) venue _ (BookSeats 8 1 [2; 1]))|].
  apply rtc_once, (step_request (@anything) venue [serve (BookSeats 7 1 [1; 2]); serve (BookSeats 8 1 [2; 1])] (CancelBooking 1 7)).
Defined.
