(* ===== verification/BookingSpec.v ===== *)
(** * What booking and cancelling do

    The functional behaviour of booking_engine.c for a request that runs alone: the
    error reported, or the tables afterwards.  Then what happens outside these
    bounds: a failing table update, and two requests at the same time. *)

From stdpp Require Import base tactics numbers list gmap sorting.
From Stdlib Require Import ZArith Lia.
From S2P Require Import Prelude Types Float32 Calls EventMgr Booking Threads BookingSafety.

#[local] Open Scope Z_scope.

(** ** The contract of booking *)

Definition booked (user_id : Z) (s : seat_record) : seat_record :=
  SeatRecord (s_seat_id s) (s_event_id s) (s_row_label s) (s_seat_number s) SEAT_BOOKED user_id (s_is_deleted s) (s_pad s).
Definition freed (s : seat_record) : seat_record :=
  SeatRecord (s_seat_id s) (s_event_id s) (s_row_label s) (s_seat_number s) SEAT_AVAILABLE 0 (s_is_deleted s) (s_pad s).

Definition seat_error (w : world) (event_id s : Z) : option etp_result_t :=
  match ts_map (w_seats w) !! s with
  | None => Some ETP_ERR_NOT_FOUND
  | Some r => if negb (s_event_id r =? event_id) then Some ETP_ERR_INVALID_ARG
              else if negb (s_status r =? SEAT_AVAILABLE) then Some ETP_ERR_SEAT_UNAVAIL else None
  end.

(** The error of the first seat that has one. *)
Fixpoint seats_error (w : world) (event_id : Z) (l : list Z) : option etp_result_t :=
  match l with
  | [] => None
  | s :: l' => match seat_error w event_id s with Some e => Some e | None => seats_error w event_id l' end
  end.

Definition book_error (w : world) (event_id : Z) (l : list Z) : option etp_result_t :=
  if bool_decide (1 <= Z.of_nat (length l) <= MAX_SEATS_PER_BOOKING /\ NoDup l /\ 0 ∉ l) then
    match ts_map (w_events w) !! event_id with
    | None => Some ETP_ERR_NOT_FOUND
    | Some e => if e_status e =? EVENT_ACTIVE then seats_error w event_id (exchange_sort id l) else Some ETP_ERR_GENERIC
    end
  else Some ETP_ERR_INVALID_ARG.

Definition event_price (w : world) (event_id : Z) : Z :=
  match ts_map (w_events w) !! event_id with Some e => e_price e | None => 0 end.

Definition booking_of (w : world) (user_id event_id : Z) (l : list Z) (now : Z) : booking_record :=
  {| b_booking_id := ts_next (w_bookings w); b_user_id := user_id; b_event_id := event_id;
     b_seat_count := Z.of_nat (length l); b_total_amount := f32_mul_int (event_price w event_id) (Z.of_nat (length l));
     b_status := BOOKING_CONFIRMED; b_booked_at := now; b_is_deleted := 0; b_pad := zeros 36 |}.

Definition add_junction (b : Z) (ts : tstate booking_seat_record) (s : Z) : tstate booking_seat_record :=
  TState (<[ts_next ts := BookingSeatRecord b s 0 (ts_next ts) (zeros 3)]> (ts_map ts)) (ts_next ts + 1).

(** [f] applied to the records of [l]. *)
Definition on_seats (f : seat_record -> seat_record) (l : list Z) (m m' : gmap Z seat_record) : Prop :=
  forall s, m' !! s = (if decide (s ∈ l) then f else id) <$> m !! s.

Record tables_same (w w' : world) : Prop := TablesSame {
  ts_users : w_users w' = w_users w; ts_events : w_events w' = w_events w; ts_seats : w_seats w' = w_seats w;
  ts_bookings : w_bookings w' = w_bookings w; ts_bseats : w_bseats w' = w_bseats w }.

(** ** Proof *)

(** One seat of step 4. *)
Definition take_seat (user_id b : Z) (w : world) (s : Z) : world :=
  match ts_map (w_seats w) !! s with
  | Some r => tupdate Seats s (booked user_id r) (tinsert BookingSeats (BookingSeatRecord b s 0 0 (zeros 3)) w)
  | None => w
  end.

Definition only_locks (txn : Z) (w : world) : Prop := map_Forall (fun _ t => t = txn) (w_locks w).

Lemma release_only txn w : only_locks txn w -> w_locks (release txn w) = ∅.
Proof.
  intros H. apply map_empty. intros k. cbn. apply map_lookup_filter_None. right. intros t Hk. cbn.
  specialize (H k t Hk). cbn in H. auto.
Qed.

Lemma assign_seats_alone now txn user b l : forall w, (forall s, s ∈ l -> is_Some (ts_map (w_seats w) !! s)) ->
  alone now w (assign_seats txn user b l) (fun r w' => r = inl b /\ w' = release txn (foldl (take_seat user b) w l)).
Proof.
  induction l as [|s l IH]; intros w Hl; cbn [assign_seats foldl]; [by vm_compute|].
  destruct (Hl s) as [r Hr]; [by left|].
  eapply alone_call; [done|]. cbn [call]. eapply alone_call; [done|].
  change (ts_map (tget Seats (tinsert BookingSeats (BookingSeatRecord b s 0 0 (zeros 3)) w))) with (ts_map (w_seats w)).
  rewrite Hr. eapply alone_call.
  { cbn [call]. change (ts_map (tget Seats (tinsert BookingSeats (BookingSeatRecord b s 0 0 (zeros 3)) w)))
      with (ts_map (w_seats w)). by rewrite Hr. }
  rewrite bool_decide_true by done. unfold take_seat at 2. rewrite Hr. apply IH.
  intros x Hx. cbn. apply lookup_insert_is_Some'. right. apply Hl. by right.
Qed.

Lemma take_seat_fields user b w s :
  w_locks (take_seat user b w s) = w_locks w /\ w_users (take_seat user b w s) = w_users w /\
  w_events (take_seat user b w s) = w_events w /\ w_bookings (take_seat user b w s) = w_bookings w.
Proof. unfold take_seat. by case_match. Qed.

Lemma take_seats_fields user b l : forall w,
  let w' := foldl (take_seat user b) w l in
  w_locks w' = w_locks w /\ w_users w' = w_users w /\ w_events w' = w_events w /\ w_bookings w' = w_bookings w.
Proof.
  induction l as [|s l IH]; intros w; cbn [foldl]; [done|]. destruct (IH (take_seat user b w s)) as (-> & -> & -> & ->).
  apply take_seat_fields.
Qed.

Lemma take_seats_seats user b l : forall w, NoDup l ->
  on_seats (booked user) l (ts_map (w_seats w)) (ts_map (w_seats (foldl (take_seat user b) w l))) /\
  ts_next (w_seats (foldl (take_seat user b) w l)) = ts_next (w_seats w).
Proof.
  induction l as [|s l IH]; intros w Hnd; cbn [foldl].
  - split; [|done]. intros x. by rewrite decide_False, option_fmap_id by (by intros ?%not_elem_of_nil).
  - apply NoDup_cons in Hnd as [Hns Hnd]. destruct (IH (take_seat user b w s) Hnd) as [H1 H2]. rewrite H2. split.
    + intros x. rewrite (H1 x). unfold take_seat. destruct (ts_map (w_seats w) !! s) as [r|] eqn:Hr; cbn.
      * destruct (decide (x = s)) as [->|Hx].
        -- rewrite lookup_insert_eq, decide_False, decide_True, Hr by (done || by left). done.
        -- rewrite lookup_insert_ne by done. f_equal. f_equal.
           destruct (decide (x ∈ l)), (decide (x ∈ s :: l)) as [?%elem_of_cons|?%not_elem_of_cons]; try done; tauto.
      * destruct (decide (x = s)) as [->|Hx]; [by rewrite Hr|].
        f_equal. destruct (decide (x ∈ l)), (decide (x ∈ s :: l)) as [?%elem_of_cons|?%not_elem_of_cons]; try done; tauto.
    + unfold take_seat. by case_match.
Qed.

Lemma take_seats_junctions user b l : forall w, (forall s, s ∈ l -> is_Some (ts_map (w_seats w) !! s)) ->
  w_bseats (foldl (take_seat user b) w l) = foldl (add_junction b) (w_bseats w) l.
Proof.
  induction l as [|s l IH]; intros w Hl; cbn [foldl]; [done|]. destruct (Hl s) as [r Hr]; [by left|].
  rewrite IH; unfold take_seat; rewrite Hr; [done|]. intros x Hx. cbn. apply lookup_insert_is_Some'. right.
  apply Hl. by right.
Qed.

Lemma fail_alone now txn rc w : alone now w (fail txn rc) (fun r w' => r = inr rc /\ w' = release txn w).
Proof. done. Qed.

(** Step 2 decides; then the booking goes on from the same world. *)
Lemma check_seats_alone now txn user ev price all l w Q :
  match seats_error w ev l with
  | Some e => Q (inr e) (release txn w)
  | None => alone now w (create_booking txn user ev price all) Q
  end -> alone now w (check_seats txn user ev price all l) Q.
Proof.
  induction l as [|s l IH]; cbn [check_seats seats_error]; [done|]. intros HQ.
  eapply alone_call; [done|]. cbn [tget]. unfold seat_error in HQ.
  destruct (ts_map (w_seats w) !! s) as [r|]; [|exact HQ].
  destruct (negb (s_event_id r =? ev)); [exact HQ|].
  destruct (negb (s_status r =? SEAT_AVAILABLE)); [exact HQ|]. by apply IH.
Qed.

Lemma lock_alone now w txn tb rid : only_locks txn w ->
  exists w', call false now w (Lock txn tb rid) = Some (0, w') /\ tables_same w w' /\ only_locks txn w'.
Proof.
  intros Hw. cbn [call]. destruct (w_locks w !! (tb, rid)) as [o|] eqn:Ho.
  - rewrite (Hw _ _ Ho : o = txn), Z.eqb_refl. by exists w.
  - eexists. split; [done|]. split; [done|]. apply map_Forall_insert_2; [done|exact Hw].
Qed.

Lemma lock_seats_alone now txn user ev price all l Q : forall w, only_locks txn w ->
  (forall w', tables_same w w' -> only_locks txn w' -> alone now w' (check_seats txn user ev price all all) Q) ->
  alone now w (lock_seats txn user ev price all l) Q.
Proof.
  induction l as [|s l IH]; intros w Hw HQ; cbn [lock_seats]; [by apply HQ|].
  destruct (lock_alone now w txn TABLE_SEATS s Hw) as (w1 & Hc & [S1 S2 S3 S4 S5] & Hw1). eapply alone_call; [exact Hc|]. apply IH; [done|].
  intros w' [T1 T2 T3 T4 T5] Hw'. apply HQ; [|done]. constructor; congruence.
Qed.

Lemma seats_error_none w ev l : seats_error w ev l = None -> forall s, s ∈ l -> is_Some (ts_map (w_seats w) !! s).
Proof.
  induction l as [|x l IH]; intros He s; [by intros ?%not_elem_of_nil|]. cbn [seats_error] in He.
  destruct (seat_error w ev x) eqn:Hx; [done|]. rewrite elem_of_cons. intros [->|Hs]; [|by apply IH].
  unfold seat_error in Hx. by destruct (ts_map (w_seats w) !! x).
Qed.

Lemma seats_error_same w w' ev l : tables_same w w' -> seats_error w' ev l = seats_error w ev l.
Proof.
  intros [_ _ E _ _]. induction l as [|s l IH]; cbn [seats_error]; [done|]. unfold seat_error. by rewrite E, IH.
Qed.

(** What a successful booking makes of the tables. *)
Record books (w : world) (user_id event_id : Z) (l : list Z) (now : Z) (w' : world) : Prop := Books {
  bk_bookings : w_bookings w' = TState (<[ts_next (w_bookings w) := booking_of w user_id event_id l now]> (ts_map (w_bookings w)))
                                       (ts_next (w_bookings w) + 1);
  bk_seats : on_seats (booked user_id) l (ts_map (w_seats w)) (ts_map (w_seats w'));
  bk_seats_next : ts_next (w_seats w') = ts_next (w_seats w);
  bk_bseats : w_bseats w' = foldl (add_junction (ts_next (w_bookings w))) (w_bseats w) (exchange_sort id l);
  bk_events : w_events w' = w_events w;
  bk_users : w_users w' = w_users w }.

Lemma on_seats_perm f l l' m m' : l ≡ₚ l' -> on_seats f l m m' -> on_seats f l' m m'.
Proof. intros Hp H s. rewrite (H s). f_equal. destruct (decide (s ∈ l)), (decide (s ∈ l')); try done; by rewrite Hp in *. Qed.

Lemma create_booking_alone now txn user ev l w w0 Q :
  tables_same w0 w -> only_locks txn w -> NoDup l -> Z.of_nat (length l) <= MAX_SEATS_PER_BOOKING ->
  seats_error w ev (exchange_sort id l) = None ->
  (forall w', books w0 user ev l now w' -> w_locks w' = ∅ -> Q (inl (ts_next (w_bookings w0))) w') ->
  alone now w (create_booking txn user ev (event_price w0 ev) (exchange_sort id l)) Q.
Proof.
  intros [T1 T2 T3 T4 T5] Hl Hnd Hlen He HQ. pose proof (exchange_sort_perm id l) as Hp.
  assert (Hex : forall s, s ∈ exchange_sort id l -> is_Some (ts_map (w_seats w) !! s)) by (by eapply seats_error_none).
  unfold create_booking. do 2 (eapply alone_call; [done|]).
  eapply alone_mono; [by apply assign_seats_alone|]. intros r w' [-> ->]. cbn [tget].
  rewrite <- T4 in HQ. set (b := ts_next (w_bookings w)) in *.
  set (w1 := tinsert Bookings _ w). assert (Hnd' : NoDup (exchange_sort id l)) by (by rewrite Hp).
  destruct (take_seats_fields user b (exchange_sort id l) w1) as (L & U & E & B).
  destruct (take_seats_seats user b (exchange_sort id l) w1 Hnd') as [S1 S2].
  pose proof (take_seats_junctions user b (exchange_sort id l) w1 Hex) as J.
  apply HQ; [constructor|].
  - cbn [release set_locks w_bookings]. rewrite B. unfold booking_of. rewrite <- T4. fold b.
    unfold w1. rewrite (Permutation_length Hp).
    assert (Hu : u16 (Z.of_nat (length l)) = Z.of_nat (length l)).
    { unfold MAX_SEATS_PER_BOOKING in Hlen. unfold wrap. rewrite Z.mod_small; lia. }
    rewrite Hu. reflexivity.
  - cbn [release set_locks w_seats]. rewrite <- T3. eapply on_seats_perm; [exact Hp|]. exact S1.
  - cbn [release set_locks w_seats]. rewrite <- T3. exact S2.
  - cbn [release set_locks w_bseats]. rewrite <- T4, <- T5. exact J.
  - cbn [release set_locks w_events]. by rewrite E, <- T2.
  - cbn [release set_locks w_users]. by rewrite U, <- T1.
  - apply release_only. unfold only_locks. rewrite L. exact Hl.
Qed.

Lemma book_arguments l :
  ((Z.of_nat (length l) <=? 0) = false /\ (MAX_SEATS_PER_BOOKING <? Z.of_nat (length l)) = false /\ seat_ids_ok [] l = true) <->
  (1 <= Z.of_nat (length l) <= MAX_SEATS_PER_BOOKING /\ NoDup l /\ 0 ∉ l).
Proof.
  rewrite Z.leb_gt, Z.ltb_ge, seat_ids_ok_spec. split.
  - intros (H1 & H2 & H3 & H4). split; [lia|]. split; [done|]. intros H0. by destruct (H3 0 H0).
  - intros (H1 & H2 & H3). split; [lia|]. split; [lia|]. split; [|done]. intros s Hs. split; [|apply not_elem_of_nil].
    by intros ->.
Qed.

Lemma book_spec now w user ev l Q : w_locks w = ∅ -> 0 < w_next_txn w ->
  (forall r w', w_locks w' = ∅ ->
    match book_error w ev l with
    | Some e => r = inr e /\ tables_same w w'
    | None => r = inl (ts_next (w_bookings w)) /\ books w user ev l now w'
    end -> Q r w') -> alone now w (booking_book_seats user ev l) Q.
Proof.
  intros Hl Hn HQ. unfold book_error in HQ. pose proof (book_arguments l) as Harg.
  assert (Hbad : forall e, book_error w ev l = Some e -> Q (inr e) w).
  { intros e He. apply HQ; [done|]. unfold book_error in He. by rewrite He. }
  unfold booking_book_seats, book_error in *. rewrite (bool_decide_ext _ _ (iff_sym Harg)) in *.
  case_bool_decide as Hd.
  - pose proof (proj1 Harg Hd) as (Hlen & Hnd & _). destruct Hd as (-> & -> & Hok). rewrite Hok. cbn [negb]. eapply alone_call; [done|]. cbn [tget].
    destruct (ts_map (w_events w) !! ev) as [e|] eqn:He; [|by apply Hbad].
    destruct (e_status e =? EVENT_ACTIVE); cbn [negb]; [|by apply Hbad].
    eapply alone_call; [done|]. destruct (w_next_txn w =? INVALID_TXN_ID) eqn:Hv; [unfold INVALID_TXN_ID in Hv; lia|].
    apply lock_seats_alone; [by unfold only_locks; cbn; rewrite Hl|].
    intros w1 T Hw1. assert (T' : tables_same w w1) by (destruct T; by constructor).
    assert (HR : forall e', seats_error w ev (exchange_sort id l) = Some e' -> Q (inr e') (release (w_next_txn w) w1)).
    { intros e' He'. apply HQ; [by apply release_only|]. rewrite He'. split; [done|]. destruct T'; by constructor. }
    apply check_seats_alone. rewrite (seats_error_same w w1) by done.
    destruct (seats_error w ev (exchange_sort id l)) as [e'|] eqn:Hs; [by apply HR|].
    replace (e_price e) with (event_price w ev) by (unfold event_price; by rewrite He).
    apply create_booking_alone; try done; [lia|by rewrite (seats_error_same w w1)|].
    intros w' Hb Hw'. by apply HQ.
  - destruct (Z.of_nat (length l) <=? 0); [by apply Hbad|].
    destruct (MAX_SEATS_PER_BOOKING <? Z.of_nat (length l)); [by apply Hbad|].
    destruct (seat_ids_ok [] l); [|by apply Hbad]. by destruct Hd.
Qed.

(** C11: a booking that runs alone either reports the error of [book_error] (bad
    argument, unknown or inactive event, or the first seat that is missing, of
    another event or taken) and leaves every table as it was, or returns the next
    booking id after writing one confirmed booking with the price of all its seats,
    one junction per seat in ascending order, and BOOKED with the user on exactly
    these seats; no lock is left behind. *)
Theorem book_alone now w user ev l : w_locks w = ∅ -> 0 < w_next_txn w ->
  alone now w (booking_book_seats user ev l) (fun r w' => w_locks w' = ∅ /\
    match book_error w ev l with
    | Some e => r = inr e /\ tables_same w w'
    | None => r = inl (ts_next (w_bookings w)) /\ books w user ev l now w'
    end).
Proof. intros Hl Hn. apply book_spec; auto. Qed.

(** The venue has no seat 5; seats 3 and 1 can be had. *)
Lemma book_alone_witness :
  w_locks venue = ∅ /\ 0 < w_next_txn venue /\
  book_error venue 1 [3; 5] = Some ETP_ERR_NOT_FOUND /\ book_error venue 1 [3; 1] = None /\
  alone 99 venue (booking_book_seats 7 1 [3; 1]) (fun r w' => w_locks w' = ∅ /\
    match book_error venue 1 [3; 1] with
    | Some e => r = inr e /\ tables_same venue w'
    | None => r = inl (ts_next (w_bookings venue)) /\ books venue 7 1 [3; 1] 99 w'
    end).
Proof.
  split; [by vm_compute|]. split; [by vm_compute|]. split; [by vm_compute|]. split; [by vm_compute|].
  apply (book_alone 99 venue 7 1 [3; 1]); by vm_compute.
Defined.

(** ** The contract of cancelling *)

Definition cancel_error (w : world) (b user_id : Z) : option etp_result_t :=
  match ts_map (w_bookings w) !! b with
  | None => Some ETP_ERR_NOT_FOUND
  | Some r => if negb (b_user_id r =? user_id) then Some ETP_ERR_AUTH
              else if negb (b_status r =? BOOKING_CONFIRMED) then Some ETP_ERR_GENERIC else None
  end.

(** The seats of a booking: of its first ten junctions. *)
Definition cancel_seats (w : world) (b : Z) : list Z :=
  bs_seat_id <$> take (Z.to_nat MAX_SEATS_PER_BOOKING) (filter (fun x => filter_booking_seats b x = true) (table_records BookingSeats w)).

Definition cancelled (r : booking_record) : booking_record :=
  BookingRecord (b_booking_id r) (b_user_id r) (b_event_id r) (b_seat_count r) (b_total_amount r)
    BOOKING_CANCELLED (b_booked_at r) (b_is_deleted r) (b_pad r).

Record cancels (w : world) (b : Z) (w' : world) : Prop := Cancels {
  cn_bookings : ts_map (w_bookings w') = alter cancelled b (ts_map (w_bookings w));
  cn_bookings_next : ts_next (w_bookings w') = ts_next (w_bookings w);
  cn_seats : on_seats freed (cancel_seats w b) (ts_map (w_seats w)) (ts_map (w_seats w'));
  cn_seats_next : ts_next (w_seats w') = ts_next (w_seats w);
  cn_bseats : w_bseats w' = w_bseats w;
  cn_events : w_events w' = w_events w;
  cn_users : w_users w' = w_users w }.

Lemma on_seats_nil f m : on_seats f [] m m.
Proof. intros s. by rewrite decide_False, option_fmap_id by apply not_elem_of_nil. Qed.

Lemma on_seats_cons f s l m m1 m' : (forall r, f (f r) = f r) ->
  on_seats f [s] m m1 -> on_seats f l m1 m' -> on_seats f (s :: l) m m'.
Proof.
  intros Hf H1 H2 x. rewrite (H2 x), (H1 x), <- option_fmap_compose. destruct (m !! x) as [r|]; [|done]. cbn. f_equal.
  destruct (decide (x ∈ [s])) as [H|H], (decide (x ∈ l)), (decide (x ∈ s :: l)) as [H'|H']; cbn; try done;
    rewrite list_elem_of_singleton in H; rewrite elem_of_cons in H'; tauto.
Qed.

Lemma on_seats_one w s r f : ts_map (w_seats w) !! s = Some r ->
  on_seats f [s] (ts_map (w_seats w)) (ts_map (w_seats (tupdate Seats s (f r) w))).
Proof.
  intros Hr x. cbn. destruct (decide (x ∈ [s])) as [H|H]; rewrite list_elem_of_singleton in H.
  - subst x. by rewrite lookup_insert_eq, Hr.
  - by rewrite lookup_insert_ne, option_fmap_id by congruence.
Qed.

Lemma on_seats_missing w s f : ts_map (w_seats w) !! s = None -> on_seats f [s] (ts_map (w_seats w)) (ts_map (w_seats w)).
Proof.
  intros Hr x. destruct (decide (x ∈ [s])) as [H|H]; [|by rewrite option_fmap_id].
  apply list_elem_of_singleton in H. subst. by rewrite Hr.
Qed.

(** Same tables except for the seats. *)
Record seats_only (w w' : world) : Prop := SeatsOnly {
  so_users : w_users w' = w_users w; so_events : w_events w' = w_events w;
  so_next : ts_next (w_seats w') = ts_next (w_seats w);
  so_bookings : w_bookings w' = w_bookings w; so_bseats : w_bseats w' = w_bseats w }.

Lemma release_seats_alone now txn b r l Q : forall w, only_locks txn w ->
  (forall w', seats_only w w' -> only_locks txn w' ->
     on_seats freed (bs_seat_id <$> l) (ts_map (w_seats w)) (ts_map (w_seats w')) ->
     alone now w' (mark_cancelled txn b r) Q) ->
  alone now w (release_seats txn b r l) Q.
Proof.
  induction l as [|bs l IH]; intros w Hw HQ; cbn [release_seats].
  { apply HQ; [done|done|apply on_seats_nil]. }
  destruct (lock_alone now w txn TABLE_SEATS (bs_seat_id bs) Hw) as (w1 & Hc & [U E Es B J] & Hw1).
  eapply alone_call; [exact Hc|]. rewrite <- Es in HQ. eapply alone_call; [done|]. cbn [tget].
  change (negb (0 =? 0)) with false. cbv iota.
  destruct (ts_map (w_seats w1) !! bs_seat_id bs) as [s|] eqn:Hs.
  - eapply alone_call; [cbn [call tget]; by rewrite Hs|].
    change (negb (bool_decide (ETP_OK = ETP_OK))) with false. cbv iota. apply IH; [exact Hw1|].
    intros w' [] Hw' Hon. cbn in *. apply HQ; [constructor; congruence|done|].
    eapply on_seats_cons; [done|by apply on_seats_one|exact Hon].
  - apply IH; [done|]. intros w' [] Hw' Hon. apply HQ; [constructor; congruence|done|].
    eapply on_seats_cons; [done|by apply on_seats_missing|exact Hon].
Qed.

Lemma cancel_spec now w b user Q : w_locks w = ∅ -> 0 < w_next_txn w ->
  (forall rc w', w_locks w' = ∅ ->
    match cancel_error w b user with
    | Some e => rc = e /\ tables_same w w'
    | None => rc = ETP_OK /\ cancels w b w'
    end -> Q rc w') -> alone now w (booking_cancel b user) Q.
Proof.
  intros Hl Hn HQ. unfold booking_cancel. eapply alone_call; [done|].
  destruct (w_next_txn w =? INVALID_TXN_ID) eqn:Hv; [unfold INVALID_TXN_ID in Hv; lia|].
  set (w0 := set_next_txn (w_next_txn w + 1) w).
  destruct (lock_alone now w0 (w_next_txn w) TABLE_BOOKINGS b) as (w1 & Hc & T & Hw1).
  { unfold only_locks. cbn. by rewrite Hl. }
  assert (T' : tables_same w w1) by (destruct T; by constructor). clear T.
  eapply alone_call; [exact Hc|]. change (negb (0 =? 0)) with false. cbv iota. eapply alone_call; [done|]. cbn [tget].
  assert (Hfail : forall e, cancel_error w b user = Some e -> alone now w1 (fail_rc (w_next_txn w) e) Q).
  { intros e He. apply HQ; [by apply release_only|]. rewrite He. split; [done|]. destruct T'; by constructor. }
  rewrite (ts_bookings _ _ T'). unfold cancel_error in *.
  destruct (ts_map (w_bookings w) !! b) as [r|] eqn:Hr; [|by apply Hfail].
  destruct (negb (b_user_id r =? user)); [by apply Hfail|].
  destruct (negb (b_status r =? BOOKING_CONFIRMED)); [by apply Hfail|].
  eapply alone_call; [done|]. apply release_seats_alone; [done|]. intros w2 S2 Hw2 Hon.
  assert (Hr2 : ts_map (w_bookings w2) !! b = Some r).
  { by rewrite (so_bookings _ _ S2), (ts_bookings _ _ T'). }
  eapply alone_call; [cbn [call tget]; by rewrite Hr2|].
  change (negb (bool_decide (ETP_OK = ETP_OK))) with false. cbv iota. eapply alone_call; [done|].
  apply HQ; [by apply (release_only _ (tupdate Bookings b _ w2))|]. split; [done|].
  destruct T' as [U1 E1 S1 B1 J1], S2 as [U2 E2 N2 B2 J2]. constructor; cbn; try congruence.
  - rewrite B2, B1. change (BookingRecord _ _ _ _ _ _ _ _ _) with (cancelled r). apply map_eq. intros x.
    destruct (decide (b = x)) as [<-|Hx]; [by rewrite lookup_insert_eq, lookup_alter_eq, Hr|].
    by rewrite lookup_insert_ne, lookup_alter_ne.
  - rewrite <- S1. eapply on_seats_perm; [|exact Hon]. unfold cancel_seats.
    rewrite (exchange_sort_perm bs_seat_id). unfold table_records. cbn [tget]. by rewrite J1.
Qed.

(** C13: cancelling alone reports an unknown booking, another user's booking or one
    that is not confirmed and changes nothing; otherwise it marks the booking, makes
    exactly the seats of its junctions available with no owner, and leaves no lock. *)
Theorem cancel_alone now w b user : w_locks w = ∅ -> 0 < w_next_txn w ->
  alone now w (booking_cancel b user) (fun rc w' => w_locks w' = ∅ /\
    match cancel_error w b user with
    | Some e => rc = e /\ tables_same w w'
    | None => rc = ETP_OK /\ cancels w b w'
    end).
Proof. intros Hl Hn. apply cancel_spec; auto. Qed.

(** The venue after user 7 has booked seats 1 and 3. *)
Definition sold : world :=
  match run (booking_book_seats 7 1 [3; 1]) no_faults 0 venue with Some (_, w) => w | None => venue end.

Lemma cancel_alone_witness :
  w_locks sold = ∅ /\ 0 < w_next_txn sold /\ cancel_error sold 1 8 = Some ETP_ERR_AUTH /\
  cancel_error sold 1 7 = None /\ cancel_seats sold 1 = [1; 3] /\
  alone 5 sold (booking_cancel 1 7) (fun rc w' => w_locks w' = ∅ /\
    match cancel_error sold 1 7 with
    | Some e => rc = e /\ tables_same sold w'
    | None => rc = ETP_OK /\ cancels sold 1 w'
    end).
Proof.
  split; [by vm_compute|]. split; [by vm_compute|]. split; [by vm_compute|]. split; [by vm_compute|].
  split; [by vm_compute|]. apply (cancel_alone 5 sold 1 7); by vm_compute.
Defined.

(** ** Booking and cancelling *)

Lemma call_next_txn {R} f now w (c : cmd R) r w' : call f now w c = Some (r, w') -> w_next_txn w <= w_next_txn w'.
Proof.
  destruct c as [B T id|B T x|B T id x|B T id|B T p n| |t tb id|t|t|]; cbn [call]; repeat case_match; intros [= <- <-];
    try done; try (by destruct T). cbn. lia.
Qed.

Lemma run_next_txn {A} (p : prog A) now : forall w a w', run p no_faults now w = Some (a, w') -> w_next_txn w <= w_next_txn w'.
Proof.
  induction p as [b|R c k IH]; intros w a w' Hr; cbn [run] in Hr; [by simplify_eq|].
  destruct (call (no_faults 0) now w c) as [[r w1]|] eqn:Hc; [|done].
  apply call_next_txn in Hc. apply IH in Hr. lia.
Qed.

Lemma alone_next_txn {A} (p : prog A) now w Q : alone now w p Q -> alone now w p (fun a w' => Q a w' /\ w_next_txn w <= w_next_txn w').
Proof.
  unfold alone. destruct (run p no_faults now w) as [[a w']|] eqn:E; [|done]. intros HQ. split; [done|].
  by apply run_next_txn in E.
Qed.

(** The seats of the junctions of booking [b]. *)
Definition seats_of (b : Z) (m : gmap Z booking_seat_record) : list Z :=
  bs_seat_id <$> filter (fun x => filter_booking_seats b x = true) (map_to_list m).*2.

Lemma seats_of_add b l : forall ts, (forall j, is_Some (ts_map ts !! j) -> j < ts_next ts) ->
  seats_of b (ts_map (foldl (add_junction b) ts l)) ≡ₚ l ++ seats_of b (ts_map ts).
Proof.
  induction l as [|s l IH]; intros ts Hf; cbn [foldl]; [done|]. rewrite IH.
  - assert (Hn : ts_map ts !! ts_next ts = None).
    { destruct (ts_map ts !! ts_next ts) eqn:E; [|done]. assert (ts_next ts < ts_next ts) by (apply Hf; by eexists). lia. }
    unfold seats_of, add_junction. cbn [ts_map]. rewrite map_to_list_insert by done. rewrite fmap_cons, filter_cons_True.
    + cbn [fst snd]. rewrite fmap_cons. cbn [bs_seat_id]. by rewrite <- Permutation_middle.
    + unfold filter_booking_seats. cbn. lia.
  - intros j. cbn. rewrite lookup_insert_is_Some'. intros [<-|Hj]; [lia|]. specialize (Hf j Hj). lia.
Qed.

Lemma cancel_seats_all w b l : seats_of b (ts_map (w_bseats w)) ≡ₚ l -> Z.of_nat (length l) <= MAX_SEATS_PER_BOOKING ->
  cancel_seats w b ≡ₚ l.
Proof.
  intros Hp Hl. set (L := filter (fun x => filter_booking_seats b x = true) (table_records BookingSeats w)).
  assert (HL : bs_seat_id <$> L ≡ₚ l).
  { rewrite <- Hp. unfold L, seats_of, table_records. by rewrite merge_sort_Permutation. }
  unfold cancel_seats. fold L. rewrite take_ge; [done|].
  apply Permutation_length in HL. rewrite length_fmap in HL. unfold MAX_SEATS_PER_BOOKING in *. lia.
Qed.

Lemma no_junctions_yet w : tables_ok w -> seats_of (ts_next (w_bookings w)) (ts_map (w_bseats w)) = [].
Proof.
  intros T. unfold seats_of. destruct (filter _ _) as [|x l] eqn:E; [done|].
  assert (Hx : x ∈ x :: l) by left. rewrite <- E in Hx. apply list_elem_of_filter in Hx as [Hf Hx].
  apply list_elem_of_fmap in Hx as ([j y] & -> & Hj). apply elem_of_map_to_list in Hj.
  unfold filter_booking_seats in Hf. cbn in Hf.
  destruct (ok_junction _ T (ts_next (w_bookings w)) (bs_seat_id y)) as [H%(ok_bookings _ T) _]; [|lia]. exists j, y. split; [done|]. split; [lia|done].
Qed.

Lemma seats_error_available w ev l : seats_error w ev l = None -> forall s, s ∈ l -> available w s.
Proof.
  induction l as [|x l IH]; intros He s; [by intros ?%not_elem_of_nil|]. cbn [seats_error] in He.
  destruct (seat_error w ev x) eqn:Hx; [done|]. rewrite elem_of_cons. intros [->|Hs]; [|by apply IH].
  unfold seat_error in Hx. destruct (ts_map (w_seats w) !! x) as [r|] eqn:Hr; [|done].
  destruct (negb (s_event_id r =? ev)); [done|]. destruct (s_status r =? SEAT_AVAILABLE) eqn:E; [|done].
  exists r. split; [done|lia].
Qed.

(** Seats on offer have no owner. *)
Definition unowned (w : world) : Prop :=
  map_Forall (fun _ r => s_status r = SEAT_AVAILABLE -> s_booked_by r = 0) (ts_map (w_seats w)).

Lemma freed_booked u r : s_status r = SEAT_AVAILABLE -> s_booked_by r = 0 -> freed (booked u r) = r.
Proof. destruct r. cbn. by intros -> ->. Qed.

Lemma freed_again w user l m : unowned w -> (forall s, s ∈ l -> available w s) ->
  on_seats (booked user) l (ts_map (w_seats w)) m -> forall m', on_seats freed l m m' -> m' = ts_map (w_seats w).
Proof.
  intros Hu Ha H1 m' H2. apply map_eq. intros s. rewrite (H2 s), (H1 s), <- option_fmap_compose.
  destruct (decide (s ∈ l)) as [Hs|]; [|by rewrite option_fmap_id]. destruct (Ha s Hs) as (r & Hr & Hst). rewrite Hr. cbn.
  f_equal. apply freed_booked; [done|]. by apply (Hu s r).
Qed.

(** C12: on consistent tables in which seats on offer have no owner, a booking that
    succeeds followed by its cancellation by the same user gives back exactly the
    seats table there was, and leaves the booking as cancelled and no lock. *)
Theorem book_cancel_roundtrip now now' w user ev l :
  tables_ok w -> unowned w -> w_locks w = ∅ -> 0 < w_next_txn w -> book_error w ev l = None ->
  alone now w (booking_book_seats user ev l) (fun r w1 =>
    exists b, r = inl b /\ alone now' w1 (booking_cancel b user) (fun rc w2 =>
      rc = ETP_OK /\ w_seats w2 = w_seats w /\ w_locks w2 = ∅ /\
      ts_map (w_bookings w2) = <[b := cancelled (booking_of w user ev l now)]> (ts_map (w_bookings w)))).
Proof.
  intros T Hu Hl Hn He. set (b := ts_next (w_bookings w)).
  eapply alone_mono; [apply alone_next_txn, (book_spec now w user ev l (fun r w' => w_locks w' = ∅ /\ r = inl b /\ books w user ev l now w'))|].
  - done.
  - done.
  - intros r w' Hw'. rewrite He. by intros [-> Hb].
  - intros r w1 [(Hl1 & -> & [B S N J E U]) Hn1]. exists b. split; [done|].
    assert (Hbk : ts_map (w_bookings w1) !! b = Some (booking_of w user ev l now)).
    { rewrite B. cbn [ts_map]. apply lookup_insert_eq. }
    apply cancel_spec; [done|lia|]. intros rc w2 Hl2. unfold cancel_error. rewrite Hbk. cbn [b_user_id b_status booking_of].
    rewrite !Z.eqb_refl. cbn [negb]. intros [-> [B2 N2 S2 SN2 J2 E2 U2]]. split; [done|].
    unfold book_error in He. case_bool_decide as Harg; [|done]. destruct Harg as (Hlen & Hnd & _).
    destruct (ts_map (w_events w) !! ev) as [e|]; [|done]. destruct (e_status e =? EVENT_ACTIVE); [|done].
    assert (Hp : exchange_sort id l ≡ₚ l) by apply (exchange_sort_perm id).
    assert (Hav : forall s, s ∈ l -> available w s).
    { intros s Hs. eapply seats_error_available; [done|]. by rewrite Hp. }
    assert (Hc : cancel_seats w1 b ≡ₚ l).
    { apply cancel_seats_all; [|lia]. unfold b. rewrite J, seats_of_add by apply (ok_bseats _ T).
      by rewrite (no_junctions_yet w T), app_nil_r. }
    split; [|split; [done|]].
    + assert (Hm : ts_map (w_seats w2) = ts_map (w_seats w)).
      { eapply freed_again; [done|exact Hav|exact S|]. by eapply on_seats_perm. }
      rewrite N in SN2. destruct (w_seats w2), (w_seats w). cbn in *. by subst.
    + rewrite B2, B. cbn [ts_map]. apply map_eq. intros x.
      destruct (decide (b = x)) as [<-|Hx]; [by rewrite lookup_alter_eq, !lookup_insert_eq|].
      by rewrite lookup_alter_ne, !lookup_insert_ne.
Qed.

Lemma book_cancel_roundtrip_witness :
  book_error venue 1 [3; 1] = None /\
  alone 99 venue (booking_book_seats 7 1 [3; 1]) (fun r w1 =>
    exists b, r = inl b /\ alone 100 w1 (booking_cancel b 7) (fun rc w2 =>
      rc = ETP_OK /\ w_seats w2 = w_seats venue /\ w_locks w2 = ∅ /\
      ts_map (w_bookings w2) = <[b := cancelled (booking_of venue 7 1 [3; 1] 99)]> (ts_map (w_bookings venue)))).
Proof.
  split; [by vm_compute|]. apply (book_cancel_roundtrip 99 100 venue 7 1 [3; 1]); try by vm_compute.
  - apply venue_consistent.
  - apply (bool_decide_unpack _). by vm_compute.
Defined.

(** ** Outside these bounds *)

(** A table update that fails inside a booking: the booking and its first junction
    stay, confirmed, while the request reports an error and the seat stays on
    offer; the next customer books the same seat.  Two bookings are then confirmed
    for seat 1. *)
Example failed_update_double_books :
  match run (booking_book_seats 7 1 [1]) (Nat.eqb 8) 0 venue with
  | Some (r, w) =>
      match run (booking_book_seats 8 1 [1]) no_faults 0 w with
      | Some (r', w') => (r, seat_state w 1, r', booking_state w' <$> [1; 2],
          (fun x => (bs_booking_id x, bs_seat_id x)) <$> table_records BookingSeats w')
      | None => (r, None, r, [], [])
      end
  | None => (inl 0, None, inl 0, [], [])
  end = (inr ETP_ERR_IO, Some (SEAT_AVAILABLE, 0), inl 2,
         [Some (BOOKING_CONFIRMED, 7); Some (BOOKING_CONFIRMED, 8)], [(1, 1); (2, 1)]).
Proof. vm_compute. reflexivity. Qed.

(** A table update that fails inside a cancellation, at the second seat: the first
    seat is on offer again although its booking is still confirmed. *)
Example failed_cancel_frees_seat :
  match run (booking_cancel 1 7) (Nat.eqb 9) 0 sold with
  | Some (rc, w) => (rc, seat_state w <$> [1; 3], booking_state w 1)
  | None => (ETP_OK, [], None)
  end = (ETP_ERR_IO, [Some (SEAT_AVAILABLE, 0); Some (SEAT_BOOKED, 7)], Some (BOOKING_CONFIRMED, 7)).
Proof. vm_compute. reflexivity. Qed.

(** A booking does not lock the record it inserts: its owner can cancel it before
    its seats are taken.  The booking then reports success, its seats are BOOKED,
    and the booking is cancelled: nothing can free these seats any more. *)
Example cancelled_while_booking :
  let start := System venue [serve (BookSeats 7 1 [1; 2]); serve (CancelBooking 1 7)] in
  let s := foldl (turn 0) start (replicate 8 0%nat ++ replicate 6 1%nat ++ replicate 7 0%nat) in
  (seat_state (sys_world s) <$> [1; 2], booking_state (sys_world s) 1,
   match sys_threads s with
   | [Thread (Ret _); Thread (Ret _)] => true
   | _ => false
   end,
   fst <$> run (booking_cancel 1 7) no_faults 0 (sys_world s)) =
  ([Some (SEAT_BOOKED, 7); Some (SEAT_BOOKED, 7)], Some (BOOKING_CANCELLED, 7), true, Some ETP_ERR_GENERIC).
Proof. vm_compute. reflexivity. Qed.
