(* ===== verification/PlatformRuns.v ===== *)
(** * Requests on the platform

    The threads of Threads.v over a platform instead of a world: a step is one call
    of one thread on bytes and pages, or the arrival of a request.  Every run of the
    platform is a run of the world it represents, with the same answers, so what is
    proved of worlds holds of the stored tables; and a call that can be made in the
    world can be made on the platform, so its requests are answered too. *)

From stdpp Require Import base tactics numbers list list_numbers gmap relations.
From Stdlib Require Import ZArith Lia Wellfounded.
From S2P Require Import Prelude Types Utils Page BTree Wal TxnManager TxnWorld BufferPool PageStore Table TableSpec TableHistory.
From S2P Require Import BTreeFile Calls Codec Platform Lifecycle EventMgr Booking Server Threads Conform BookingSafety BookingLive.

#[local] Open Scope Z_scope.

Record psystem (S I : Type) := PSystem { psy_platform : platform S I; psy_threads : list thread }.
Arguments PSystem {S I}. Arguments psy_platform {S I}. Arguments psy_threads {S I}.

Section steps.
Context {S I : Type} {P : PageOps S} {X : IndexStore I}.

(** One call of one thread. *)
Inductive psched : psystem S I -> psystem S I -> Prop :=
  | psched_call {R A} i o p ts (c : cmd R) (k : R -> prog A) r p' :
      ts !! i = Some (Thread (Call c k)) -> uint_ok 64 (os_now o) -> pcall o p c = Some (r, p') ->
      psched (PSystem p ts) (PSystem p' (<[i := Thread (k r)]> ts)).

Inductive pstep : psystem S I -> psystem S I -> Prop :=
  | pstep_call s s' : psched s s' -> pstep s s'
  | pstep_request p ts q : request_ok q -> pstep (PSystem p ts) (PSystem p (ts ++ [serve q])).
End steps.

(** The calls that can fail: commits, and when log writes may be cut short every
    call that writes the log. *)
Definition platform_fails (steady : bool) (R : Type) (c : cmd R) : bool :=
  match c with
  | Commit _ => true
  | Insert _ _ | Update _ _ _ | Delete _ _ => negb steady
  | _ => false
  end.

(** The token of a thread after a call. *)
Definition next_token {R} (g : txn_token) (c : cmd R) : R -> txn_token :=
  match c in cmd R return R -> txn_token with
  | Begin => fun t => if t =? INVALID_TXN_ID then None else Some (t, 0%nat)
  | Lock t _ _ => fun _ => (fun x => (t, Datatypes.S x.2)) <$> g
  | Commit _ | Abort _ => fun _ => None
  | _ => fun _ => g
  end.

Section simulation.
Context {S I : Type} {P : PageOps S} {L : PageLaws S} {X : IndexStore I}.
Implicit Types p : platform S I.

(** The transactions of the threads are open and their own. *)
Record tokens_ok (tm : txn_manager) (gs : list txn_token) : Prop := TokensOk {
  tk_open : forall i t n, gs !! i = Some (Some (t, n)) -> txn_open tm t n;
  tk_own : forall i j t n m, gs !! i = Some (Some (t, n)) -> gs !! j = Some (Some (t, m)) -> i = j }.

Lemma tokens_step tm tm' gs i g g' : tokens_ok tm gs -> gs !! i = Some g ->
  (forall t n, g' = Some (t, n) -> txn_open tm' t n /\ ((exists m, g = Some (t, m)) \/ forall m, ~ txn_open tm t m)) ->
  (forall j t n, j <> i -> gs !! j = Some (Some (t, n)) -> txn_open tm' t n) ->
  tokens_ok tm' (<[i := g']> gs).
Proof.
  intros [H1 H2] Hi Hg Ho. assert (Hlt : (i < length gs)%nat) by (by eapply lookup_lt_Some). constructor.
  - intros j t n [(<- & E & _)|[Hne Hj]]%list_lookup_insert_Some; [by apply Hg|]. by apply (Ho j).
  - assert (Hx : forall j t n m, j <> i -> g' = Some (t, n) -> gs !! j = Some (Some (t, m)) -> False).
    { intros j t n m Hne E Hj. destruct (Hg t n E) as [_ [[m' ->]|Hno]].
      - apply Hne. by apply (H2 j i t m m').
      - apply (Hno m). by apply (H1 j). }
    intros j j' t n m [(<- & E & _)|[Hne Hj]]%list_lookup_insert_Some [(<- & E' & _)|[Hne' Hj']]%list_lookup_insert_Some; try done.
    + exfalso. by apply (Hx j' t n m).
    + exfalso. by apply (Hx j t m n).
    + by apply (H2 j j' t n m).
Qed.

(** What a call gives back is what the contract promises. *)
Lemma result_ok {R} room o p w g (c : cmd R) K r p' w' : represents room p w -> 1 <= room -> contract R g c K ->
  (forall t n, g = Some (t, n) -> txn_open (pf_txn_mgr p) t n) -> uint_ok 64 (os_now o) ->
  pcall o p c = Some (r, p') -> exec w c r w' \/ (can_fail p c /\ exec_fault w c r w') ->
  K (next_token g c r) r.
Proof.
  intros Hrep Hroom HK Hg Hnow Hp Hx.
  destruct c as [R T id|R T x|R T id x|R T id|R T f n| |t tb id|t|t|]; cbn [contract next_token exec exec_fault can_fail] in *.
  - destruct Hx as [[_ ->]|[[] _]]. apply HK. intros x E. destruct (ts_map (tget T w) !! id) as [y|] eqn:Ey; [|done].
    injection E as ->. by apply (th_valid _ _ _ _ (rp_tables _ _ _ Hrep R T)).
  - apply HK. intros id ->. destruct Hx as [[[= ->] _]|[_ [? _]]]; [|done]. pose proof (next_range T _ _ _ Hrep). unfold uint_ok. lia.
  - apply HK.
  - apply HK.
  - destruct Hx as [(_ & recs & Hsc & ->)|[[] _]]. apply HK; [|rewrite length_take; lia].
    apply Forall_forall. intros x Hxx. destruct (scanned_in T w recs _ f x Hsc Hxx) as [_ [id Hid]].
    by apply (th_valid _ _ _ _ (rp_tables _ _ _ Hrep R T)) in Hid as [? _].
  - destruct HK as (_ & H0 & H1). destruct (Z.eqb_spec r INVALID_TXN_ID) as [->|Hne]; [done|].
    apply H1. by eapply begin_open.
  - destruct HK as (n & -> & Hn & HK). destruct Hx as [[-> _]|[Hf _]]; [done|].
    specialize (Hf n (Hg t n eq_refl)). lia.
  - apply HK.
  - destruct r. apply HK.
  - injection Hp as <- _. by apply HK.
Qed.

(** And the tokens stay right. *)
Lemma call_tokens {R} room o p w gs i g (c : cmd R) K r p' : represents room p w -> 1 <= room ->
  tokens_ok (pf_txn_mgr p) gs -> gs !! i = Some g -> contract R g c K -> pcall o p c = Some (r, p') ->
  tokens_ok (pf_txn_mgr p') (<[i := next_token g c r]> gs).
Proof.
  intros Hrep Hroom Htk Hi HK Hp.
  assert (Hsame : forall t n, g = Some (t, n) -> ~ ends c t -> txn_open (pf_txn_mgr p') t (n + locks_for c t)).
  { intros t n ->. apply (pcall_open room o p w c r p' t n Hrep Hroom Hp). by apply (tk_open _ _ Htk i). }
  apply (tokens_step (pf_txn_mgr p) _ gs i g _ Htk Hi).
  - intros t n. destruct c as [R T id|R T x|R T id x|R T id|R T f m| |t' tb id|t'|t'|]; cbn [next_token contract ends locks_for] in *;
      try done; try (intros E; split; [rewrite <- (Nat.add_0_r n); by apply Hsame; [|intros []]|left; by eexists]).
    + destruct (Z.eqb_spec r INVALID_TXN_ID); [done|]. intros [= -> <-].
      destruct (begin_open room o p w t p' Hrep Hroom Hp ltac:(done)) as (H1 & _ & H2). split; [done|by right].
    + destruct HK as (m & -> & _). cbn. intros [= <- <-]. split; [|by left; eexists].
      specialize (Hsame t' m eq_refl ltac:(intros [])). rewrite decide_True in Hsame by done. by rewrite Nat.add_1_r in Hsame.
  - intros j t n Hne Hj. assert (Hnot : forall m, g <> Some (t, m)).
    { intros m ->. apply Hne. by apply (tk_own _ _ Htk j i t n m). }
    assert (Hends : ~ ends c t).
    { destruct c; try (by intros []); cbn in *; intros ->; destruct HK as [[m Hm] _]; by apply (Hnot m). }
    pose proof (pcall_open room o p w c r p' t n Hrep Hroom Hp (tk_open _ _ Htk j t n Hj) Hends) as Ho.
    replace (locks_for c t) with 0%nat in Ho; [by rewrite Nat.add_0_r in Ho|].
    destruct c; try done. cbn in *. case_decide as E; [|done]. subst. destruct HK as (m & Hm & _). by destruct (Hnot m).
Qed.

(** The calls that failed are among those of [platform_fails]. *)
Lemma failed_call {R} steady p g (c : cmd R) K : (steady = true -> log_ready 1 p) -> contract R g c K ->
  (forall t n, g = Some (t, n) -> txn_open (pf_txn_mgr p) t n) -> can_fail p c -> platform_fails steady R c = true.
Proof.
  intros Hl HK Hg Hf. destruct c; cbn in *; try done; try (destruct steady; [by destruct Hf; apply Hl|done]).
  destruct HK as (n & -> & Hn & _). specialize (Hf n (Hg _ _ eq_refl)). lia.
Qed.

(** ** The simulation *)

Record simulates (steady : bool) (room : Z) (s : psystem S I) (w : world) (gs : list txn_token) : Prop := Simulates {
  sm_rep : represents room (psy_platform s) w;
  sm_log : steady = true -> log_ready (2 * room) (psy_platform s);
  sm_tokens : tokens_ok (pf_txn_mgr (psy_platform s)) gs;
  sm_threads : Forall2 thread_conforms gs (psy_threads s) }.

Lemma simulates_call steady room s s' w gs : simulates steady room s w gs -> 1 <= room -> psched s s' ->
  exists w' gs', sched (platform_fails steady) (System w (psy_threads s)) (System w' (psy_threads s')) /\
    simulates steady (room - 1) s' w' gs'.
Proof.
  intros [Hrep Hl Htk Hth] Hroom Hs. destruct Hs as [R A i o p ts c k r p' Hi Hnow Hp]; cbn [psy_platform psy_threads] in *.
  destruct (Forall2_lookup_r _ _ _ _ _ Hth Hi) as (g & Hg & Hc). cbn [thread_conforms conforms] in Hc.
  assert (Hok : call_ok c) by (destruct c; cbn [call_ok]; first [done|apply Hc]).
  assert (Hopen : forall t n, g = Some (t, n) -> txn_open (pf_txn_mgr p) t n) by (intros t n ->; by eapply tk_open).
  assert (Hl1 : steady = true -> log_ready 1 p) by (intros E; destruct (Hl E) as (? & ? & ?); split; [done|lia]).
  destruct (pcall_refines room o p w c r p' Hrep Hok Hroom Hp) as (w' & Hx & Hrep').
  pose proof (result_ok room o p w g c _ r p' w' Hrep Hroom Hc Hopen Hnow Hp Hx) as HK.
  exists w', (<[i := next_token g c r]> gs). split; [apply (sched_call _ i w ts c k r w' Hi)|].
  - destruct Hx as [Hx|[Hf Hx]]; [by left|right]. split; [by eapply failed_call|done].
  - constructor; cbn [psy_platform psy_threads]; [done| |exact (call_tokens room o p w gs i g c _ r p' Hrep Hroom Htk Hg Hc Hp)|by apply Forall2_insert].
    intros E. replace (2 * (room - 1)) with (2 * room - 2) by lia. by apply (pcall_log (2 * room) room o p w c r p'); [..|apply Hl|lia|].
Qed.

Lemma simulates_step steady room s s' w gs : simulates steady room s w gs -> 1 <= room -> pstep s s' ->
  exists w' gs', sys_step (platform_fails steady) (System w (psy_threads s)) (System w' (psy_threads s')) /\
    simulates steady (room - 1) s' w' gs'.
Proof.
  intros Hsim Hroom Hs. destruct Hs as [s s' Hs|p ts q Hq].
  { destruct (simulates_call steady room s s' w gs Hsim Hroom Hs) as (w' & gs' & H1 & H2). exists w', gs'. split; [by apply step_call|done]. }
  destruct Hsim as [Hrep Hl Htk Hth]. cbn [psy_platform psy_threads] in *.
  exists w, (gs ++ [None]). split; [apply step_request|]. constructor; cbn [psy_platform psy_threads].
  - eapply represents_room; [done|lia].
  - intros E. destruct (Hl E) as (? & ? & ?). split; [done|lia].
  - destruct Htk as [H1 H2]. assert (Hx : forall j (y : Z * nat), (gs ++ [None]) !! j = Some (Some y) -> gs !! j = Some (Some y)).
    { intros j y [Hj|(_ & Hj)]%lookup_app_Some; [done|]. by apply list_lookup_singleton_Some in Hj as [_ [=]]. }
    constructor; [intros j t n ?%Hx; eauto|intros j j' t n m ?%Hx ?%Hx; eauto].
  - apply Forall2_app; [done|]. constructor; [by apply serve_conforms|constructor].
Qed.

Lemma simulates_run steady n : forall room s s' w gs, simulates steady room s w gs -> nsteps pstep n s s' -> Z.of_nat n <= room ->
  exists w' gs', reaches (platform_fails steady) (System w (psy_threads s)) (System w' (psy_threads s')) /\
    simulates steady (room - Z.of_nat n) s' w' gs'.
Proof.
  induction n as [|n IH]; intros room s s' w gs Hsim Hn Hroom.
  - inversion Hn; subst. exists w, gs. split; [constructor|]. by rewrite Z.sub_0_r.
  - inversion Hn as [|? ? s1 ? Hs Hr]; subst. destruct (simulates_step steady room s s1 w gs Hsim ltac:(lia) Hs) as (w1 & gs1 & H1 & Hsim1).
    destruct (IH (room - 1) s1 s' w1 gs1 Hsim1 Hr ltac:(lia)) as (w2 & gs2 & H2 & Hsim2).
    exists w2, gs2. split; [by eapply rtc_l|]. replace (room - Z.of_nat (Datatypes.S n)) with (room - 1 - Z.of_nat n) by lia. done.
Qed.

Lemma simulates_threads steady room p w ts : represents room p w -> (steady = true -> log_ready (2 * room) p) ->
  Forall (thread_conforms None) ts -> simulates steady room (PSystem p ts) w (replicate (length ts) None).
Proof.
  intros Hrep Hl Hts. constructor; [done|done| |].
  - assert (Hg : forall i g, replicate (length ts) (None : txn_token) !! i = Some g -> g = None).
    { intros i g Hi. by apply lookup_replicate in Hi as [-> _]. }
    constructor; [intros i t n Hi; by apply Hg in Hi|intros i j t n m Hi; by apply Hg in Hi].
  - cbn [psy_threads]. clear Hl. induction Hts; [constructor|]. by constructor.
Qed.

Lemma simulates_start steady room p w : represents room p w -> (steady = true -> log_ready (2 * room) p) ->
  simulates steady room (PSystem p []) w [].
Proof. intros Hrep Hl. apply (simulates_threads steady room p w [] Hrep Hl). constructor. Qed.
End simulation.

(** ** Every request is answered *)

Section liveness.
Context {S I : Type} {P : PageOps S} {L : PageLaws S} {X : IndexStore I}.
Implicit Types p : platform S I.

(** A run of calls with their number. *)
Definition counted (x y : nat * psystem S I) : Prop := y.1 = Datatypes.S x.1 /\ psched x.2 y.2.

Record answering (steady : bool) (room : Z) (x : nat * psystem S I) : Prop := Answering {
  an_sim : exists w gs, simulates steady (room - Z.of_nat x.1) x.2 w gs /\ in_order (System w (psy_threads x.2)) }.

Lemma psched_goes_on s s' : psched s s' -> one_goes_on (psy_threads s') (psy_threads s).
Proof using. intros [R A i o p ts c k r p' Hi _ _]. exists i, (Thread (Call c k)), (Thread (k r)). split; [done|]. split; [by exists r|done]. Qed.

(** A thread that can go on in the world can go on on the platform. *)
Lemma sched_psched steady room p w ts s' : represents room p w -> sched (platform_fails steady) (System w ts) s' ->
  exists p1 ts', psched (PSystem p ts) (PSystem p1 ts').
Proof using L.
  intros Hrep Hs. inversion Hs as [R A i w0 ts0 c k r w' Hi Hx]; subst. set (o := Outside true 0).
  assert (Hgo : exec w c r w' \/ may_wait c = false) by (destruct Hx as [Hx|[Hf _]]; [by left|right; by destruct c]).
  destruct (pcall_goes room o p w c r w' Hrep Hgo) as [[r' p1] E]. eexists _, _. by apply (psched_call i o p ts c k r' p1 Hi).
Qed.

(** As long as the counters have room, the calls of the requests that have arrived
    come to an end, and never wait for each other for ever. *)
Lemma answers steady room x : answering steady room x ->
  inevitable counted (fun y => Forall answered (psy_threads y.2) \/ room <= Z.of_nat y.1) x.
Proof using L.
  set (Inv := fun y => answering steady room y \/ room <= Z.of_nat y.1). intros Hx. assert (HI : Inv x) by by left. clear Hx.
  apply (inevitable_acc _ _ Inv (fun y z => one_goes_on (psy_threads y.2) (psy_threads z.2))); [| | |exact HI].
  - intros [n s] [n' s'] Hn [E Hs]. cbn [fst snd] in *. split; [|by apply psched_goes_on].
    destruct Hn as [[(w & gs & Hsim & Ho)]|Hn]; [|right; cbn in *; lia]. cbn [fst snd] in *.
    destruct (decide (room <= Z.of_nat n')) as [|Hlt]; [by right|left].
    destruct (simulates_call steady _ s s' w gs Hsim ltac:(lia) Hs) as (w' & gs' & H1 & H2). constructor. exists w', gs'. cbn [fst snd].
    split; [by replace (room - Z.of_nat n') with (room - Z.of_nat n - 1) by lia|by eapply in_order_sched].
  - intros [n [p ts]] [[(w & gs & Hsim & Ho)]|Hn]; [|by left; right]. cbn [fst snd psy_threads] in *.
    destruct (in_order_goes_on (platform_fails steady) w ts Ho) as [Ha|[s' Hs']]; [by left; left|right].
    destruct (sched_psched steady _ p w ts s' (sm_rep _ _ _ _ _ Hsim) Hs') as (p1 & ts' & Hp). by exists (Datatypes.S n, PSystem p1 ts').
  - apply (Acc_inverse_image (nat * psystem S I) (list thread) one_goes_on (fun y => psy_threads y.2)). apply one_goes_on_wf.
Qed.
End liveness.

(** ** What a platform represents *)

Section represented.
Context {S I : Type} {P : PageOps S} {L : PageLaws S} {X : IndexStore I}.
Implicit Types p : platform S I.

(** A handle determines its map. *)
Lemma table_rep_fun (s : S) ids (t : table I) room room' M M' : table_rep s ids t room M -> table_rep s ids t room' M' -> M = M'.
Proof.
  intros (ps & H) (ps' & H'). assert (ps = ps') as <- by (pose proof (tp_pages _ _ _ _ _ _ H); pose proof (tp_pages _ _ _ _ _ _ H'); congruence).
  apply map_eq. intros k. apply option_eq. intros r.
  by rewrite (in_map _ _ _ _ (tp_indexed _ _ _ _ _ _ H)), (in_map _ _ _ _ (tp_indexed _ _ _ _ _ _ H')).
Qed.

Lemma table_holds_fun {R} (T : tbl R) room room' p ts ts' : table_holds T room p ts -> table_holds T room' p ts' -> ts = ts'.
Proof.
  intros [A1 A2 A3 A4] [B1 B2 B3 B4]. pose proof (table_rep_fun _ _ _ _ _ _ _ A2 B2) as E.
  destruct ts as [m n], ts' as [m' n']. cbn [ts_map ts_next] in *. f_equal; [|congruence].
  assert (Hdec : forall m : gmap Z R, (forall id x, m !! id = Some x -> valid T x /\ rec_key T x = id) ->
    decode T <$> (encode T <$> m) = m).
  { intros m0 Hv. apply map_eq. intros k. rewrite !lookup_fmap. destruct (m0 !! k) as [x|] eqn:Ex; [|done].
    cbn. f_equal. by apply decode_encode, (Hv k x). }
  by rewrite <- (Hdec m A4), <- (Hdec m' B4), E.
Qed.

(** The world is determined by the platform, up to the order its locks are named in. *)
Lemma represents_tables room room' p w w' : represents room p w -> represents room' p w' ->
  forall R (T : tbl R), tget T w = tget T w'.
Proof. intros H H' R T. exact (table_holds_fun T _ _ _ _ _ (rp_tables _ _ _ H R T) (rp_tables _ _ _ H' R T)). Qed.

Lemma consistent_tables w w' : (forall R (T : tbl R), tget T w = tget T w') -> consistent w -> consistent w'.
Proof.
  intros H [[S1 S2 S3 S4 S5] A]. pose proof (H _ Seats) as Es. pose proof (H _ Bookings) as Eb. pose proof (H _ BookingSeats) as Ej.
  cbn [tget] in *. unfold consistent, available, claims, confirmed, junction in *. split.
  - constructor; unfold claims, confirmed, junction in *; rewrite <- ?Es, <- ?Eb, <- ?Ej; done.
  - rewrite <- Es, <- Eb, <- Ej. done.
Qed.

Lemma claims_tables w w' b s : (forall R (T : tbl R), tget T w = tget T w') -> claims w' b s -> claims w b s.
Proof.
  intros H. pose proof (H _ Bookings) as Eb. pose proof (H _ BookingSeats) as Ej. cbn [tget] in *.
  unfold claims, confirmed, junction. by rewrite Eb, Ej.
Qed.
End represented.

Lemma reaches_more (f g : forall R, cmd R -> bool) s s' : (forall R c, f R c = true -> g R c = true) ->
  reaches f s s' -> reaches g s s'.
Proof.
  intros Hfg. induction 1 as [|s1 s2 s3 Hs _ IH]; [constructor|]. eapply rtc_l; [|exact IH].
  destruct Hs as [s1 s2 [R A i w ts c k r w' Hi [Hx|[Hf Hx]]]|w ts q]; [| |apply step_request].
  - apply step_call, (sched_call g i w ts c k r w' Hi). by left.
  - apply step_call, (sched_call g i w ts c k r w' Hi). right. split; [by apply Hfg|done].
Qed.

Section theorems.
Context {S I : Type} {P : PageOps S} {L : PageLaws S} {X : IndexStore I}.

(** C6: the platform refines the world of Calls.v.  From a platform that holds the
    tables of a world, run any number of requests, interleaved call by call, each
    call carried out on the data pages, the index, the log, the transaction slots
    and the lock table.  As long as no more calls are made than the counters leave
    room for, the same threads with the same answers are reached on the world, and
    the platform then holds exactly the tables and locks of the world reached.  The
    only calls that fail are commits and, if the log's writes may be cut short, the
    calls that write the log; a lock request never fails. *)
Theorem platform_refines_world steady room n (p : platform S I) w p' ts :
  represents room p w -> (steady = true -> log_ready (2 * room) p) ->
  nsteps pstep n (PSystem p []) (PSystem p' ts) -> Z.of_nat n <= room ->
  exists w', reaches (platform_fails steady) (System w []) (System w' ts) /\ represents (room - Z.of_nat n) p' w'.
Proof.
  intros Hrep Hl Hn Hroom. pose proof (simulates_start steady room p w Hrep Hl) as Hs.
  destruct (simulates_run steady n room _ _ w [] Hs Hn Hroom) as (w' & gs & Hr & Hs'). exists w'. split; [exact Hr|apply Hs'].
Qed.

(** No double booking on the stored pages.  Start the platform on consistent
    tables with a log whose writes are complete, and let any requests run,
    interleaved call by call.  Then the records on the data pages never make two
    different bookings confirmed for the same seat, and whenever all requests have
    been answered no seat of a confirmed booking is offered as available there. *)
Theorem stored_no_double_booking room n (p : platform S I) w p' ts room' w' :
  represents room p w -> consistent w -> log_ready (2 * room) p ->
  nsteps pstep n (PSystem p []) (PSystem p' ts) -> Z.of_nat n <= room ->
  represents room' p' w' ->
  (forall b b' s, claims w' b s -> claims w' b' s -> b = b') /\ (Forall answered ts -> consistent w').
Proof.
  intros Hrep Hw Hl Hn Hroom Hrep'. pose proof (simulates_start true room p w Hrep (fun _ => Hl)) as Hs.
  destruct (simulates_run true n room _ _ w [] Hs Hn Hroom) as (w1 & gs & Hr & Hs'). cbn [psy_threads psy_platform] in *.
  pose proof (represents_tables _ _ _ _ _ (sm_rep _ _ _ _ _ Hs') Hrep') as Htab.
  assert (Hr' : reaches BookingSafety.may_fail (System w []) (System w1 ts)).
  { eapply reaches_more; [|exact Hr]. intros R c. by destruct c. }
  pose proof (reaches_inv w _ Hw Hr') as HI. split.
  - destruct HI as (gs' & HI & _). intros b b' s H1%(claims_tables w1) H2%(claims_tables w1); [|done..].
    by apply (ok_unique _ (inv_tables _ _ HI) b b' s).
  - intros Ha. apply (consistent_tables w1); [done|]. by apply (all_answered_consistent (System w1 ts)).
Qed.
End theorems.

(** ** A new platform and one request *)

Lemma new_platform : exists (p : platform pool_store btree) w, represents 1000 p w /\ consistent w /\ log_ready 2000 p.
Proof.
  destruct (init_represents zero_pad ltac:(done) (fun id => id + 3) 1000 2000 [] no_files empty_world)
    as (p & st & w & _ & (Hre & _) & Hrep & _ & Hl); [split; intros; lia|constructor|lia|by apply no_files_hold|].
  exists p, w. split; [exact Hrep|]. split; [|by apply whole_ready].
  assert (Hm : forall R (T : tbl R), ts_map (tget T w) = ∅) by (intros R T; destruct (Hre R T) as [-> _]; by destruct T).
  apply consistent_new; [|apply (Hm _ Bookings)|apply (Hm _ BookingSeats)]. intros s. rewrite (Hm _ Seats : ts_map (w_seats w) = ∅), lookup_empty. by intros [].
Qed.

(** A request for event 7 arrives, and its lookup is made. *)
Lemma one_request (p : platform pool_store btree) : exists p' r,
  nsteps pstep 2 (PSystem p []) (PSystem p' [Thread (Ret r : prog (res event_record))]).
Proof.
  set (o := Outside true 0). assert (Ho : uint_ok 64 (os_now o)) by by vm_compute.
  destruct (pcall o p (Find Events 7)) as [[r p']|] eqn:E; [|by cbn [pcall] in E; destruct (table_op_on _ _ _)].
  pose proof (pstep_call _ _ (psched_call 0%nat o p [Thread (Call (Find Events 7) (fun r => Ret r))] _ _ r p' eq_refl Ho E)) as Hs.
  exists p', r. eapply nsteps_l; [exact (pstep_request p [] (GetEvent 7) ltac:(by vm_compute))|].
  eapply nsteps_l; [exact Hs|constructor].
Qed.

Lemma platform_refines_world_witness : exists (p p' : platform pool_store btree) w w' r,
  nsteps pstep 2 (PSystem p []) (PSystem p' [Thread (Ret r : prog (res event_record))]) /\
  reaches (platform_fails true) (System w []) (System w' [Thread (Ret r : prog (res event_record))]) /\ represents 998 p' w'.
Proof.
  destruct new_platform as (p & w & Hrep & _ & Hl). destruct (one_request p) as (p' & r & Hs).
  destruct (platform_refines_world true 1000 2 p w p' _ Hrep (fun _ => Hl) Hs ltac:(lia)) as (w' & Hr & Hrep').
  by exists p, p', w, w', r.
Defined.
