(* ===== verification/Restart.v ===== *)
(** * The server over several lives

    A life of the server is a start on the files of the data directory, the
    requests served, and a stop.  What the tables hold survives from life to life,
    and no seat is ever booked twice, not in one life and not across them. *)

From stdpp Require Import base tactics numbers list list_numbers gmap relations strings.
From Stdlib Require Import ZArith Lia.
From S2P Require Import Prelude Types Utils Page BTree BTreeFile Wal LockManager TxnManager TxnWorld BufferPool PageStore DataFiles.
From S2P Require Import Table TableSpec TableHistory Calls Codec Platform Lifecycle.
From S2P Require Import EventMgr Auth Booking Server Threads Conform BookingSafety Ledger BookingLive PlatformRuns.

#[local] Open Scope Z_scope.

(** ** Starting *)

(** A program run by itself; [os]: what its calls find around them. *)
Fixpoint run_alone {A} (os : list outside) (p : platform pool_store btree) (c : prog A) {struct c} : option (A * platform pool_store btree) :=
  match c with
  | Ret a => Some (a, p)
  | Call c k =>
      match os with
      | [] => None
      | o :: os' => match pcall o p c with Some (r, p') => run_alone os' p' (k r) | None => None end
      end
  end.

(** server_init: the files, then auth_bootstrap_admin. *)
Definition server_start (pad : record_ptr -> bytes) (fds : Z -> Z) (faults : list bool) (os : list outside) (st : storage)
    : option (platform pool_store btree * storage) :=
  match server_init pad fds faults [] st with
  | None => None
  | Some (p, st1) =>
      let '(p1, count) := table_op_on Users p TCount in
      match run_alone os p1 (auth_bootstrap_admin (match count with OInt n => n | _ => 0 end)) with
      | None => None
      | Some (_, p2) => Some (p2, st1)
      end
  end.

(** Stopping a server and starting it again on what it leaves. *)
Definition restart (pad pad' : record_ptr -> bytes) (fds : Z -> Z) (faults : list bool) (synced : bool)
    (p : platform pool_store btree) (st : storage) : option (platform pool_store btree * storage) :=
  server_init pad' fds faults [] (server_shutdown pad synced p st).

(** What a life needs of its surroundings: descriptors of their own for the data
    files, disk calls that work, padding bytes, a clock. *)
Record surroundings (pad : record_ptr -> bytes) (fds : Z -> Z) (faults : list bool) (os : list outside) : Prop := Surroundings {
  su_pad : forall r, length (pad r) = 2%nat;
  su_fds : fds_ok fds;
  su_faults : Forall (fun b => b = true) faults;
  su_clock : Forall (fun o => uint_ok 64 (os_now o)) os }.

(** A life: start, [n] calls and arrivals, every request answered, stop.  [cost]
    bounds the calls. *)
Inductive life : storage -> Z -> storage -> Prop :=
  | one_life pad fds faults os synced st p0 st1 n p ts :
      surroundings pad fds faults os -> server_start pad fds faults os st = Some (p0, st1) ->
      nsteps pstep n (PSystem p0 []) (PSystem p ts) -> Forall answered ts ->
      life st (Z.of_nat (length os + n) + 1) (server_shutdown pad synced p st1).

Inductive lives : storage -> Z -> storage -> Prop :=
  | lives_none st : lives st 0 st
  | lives_more st k st1 m st2 : life st k st1 -> lives st1 m st2 -> lives st (k + m) st2.

(** Log records set aside for a call and for a stop. *)
Definition LOG_SHARE : Z := 130.

(** Calls for which no counter of the storage layer runs out, starting from nothing. *)
Definition LIFETIME : Z := 2 ^ 32 - 2.

(** ** One run *)

Record running (st : storage) (room : Z) (s : psystem pool_store btree) (w : world) (gs : list txn_token) : Prop := Running {
  ru_sim : simulates true room s w gs;
  ru_index : index_files st (psy_platform s);
  ru_log : log_whole (LOG_SHARE * room) (psy_platform s) }.

Lemma running_threads st room p w ts : represents room p w -> index_files st p -> log_whole (LOG_SHARE * room) p ->
  Forall (thread_conforms None) ts -> running st room (PSystem p ts) w (replicate (length ts) None).
Proof.
  intros Hrep Hix Hl Hts. constructor; [|done|done]. apply simulates_threads; [done| |done]. intros _.
  destruct (whole_ready _ _ Hl) as (H1 & H2 & H3). unfold LOG_SHARE in H3. pose proof (rp_room _ _ _ Hrep). split; [done|]. lia.
Qed.

Lemma running_step st room s s' w gs : running st room s w gs -> 1 <= room -> pstep s s' ->
  exists w' gs', sys_step (platform_fails true) (System w (psy_threads s)) (System w' (psy_threads s')) /\
    running st (room - 1) s' w' gs'.
Proof.
  intros [Hsim Hix Hl] Hroom Hs. destruct (simulates_step true room s s' w gs Hsim Hroom Hs) as (w' & gs' & H1 & H2).
  exists w', gs'. split; [done|]. constructor; [done|..]; destruct Hs as [? ? [R A i o p ts c k r p' Hi Hnow Hp]|p ts q Hq];
    cbn [psy_platform psy_threads] in *; try done.
  - by eapply pcall_index.
  - destruct (Forall2_lookup_r _ _ _ _ _ (sm_threads _ _ _ _ _ Hsim) Hi) as (g & _ & Hc). cbn [thread_conforms conforms] in Hc.
    assert (Hok : call_ok c) by (destruct c; cbn [call_ok]; first [done|apply Hc]).
    eapply log_whole_less; [by apply (pcall_whole (LOG_SHARE * room) room o p w c r p' (sm_rep _ _ _ _ _ Hsim) Hok); [lia|exact Hl|unfold LOG_SHARE; lia|]|].
    unfold LOG_SHARE. lia.
  - eapply log_whole_less; [exact Hl|]. unfold LOG_SHARE. lia.
Qed.

Lemma running_run st n : forall room s s' w gs, running st room s w gs -> nsteps pstep n s s' -> Z.of_nat n <= room ->
  exists w' gs', reaches may_fail (System w (psy_threads s)) (System w' (psy_threads s')) /\
    running st (room - Z.of_nat n) s' w' gs'.
Proof.
  induction n as [|n IH]; intros room s s' w gs Hr Hn Hroom.
  - inversion Hn; subst. exists w, gs. split; [constructor|]. by rewrite Z.sub_0_r.
  - inversion Hn as [|? ? s1 ? Hs Hr']; subst. destruct (running_step st room s s1 w gs Hr ltac:(lia) Hs) as (w1 & gs1 & H1 & Hr1).
    destruct (IH (room - 1) s1 s' w1 gs1 Hr1 Hr' ltac:(lia)) as (w2 & gs2 & H2 & Hr2).
    exists w2, gs2. split; [|by replace (room - Z.of_nat (S n)) with (room - 1 - Z.of_nat n) by lia].
    etrans; [|exact H2]. apply (reaches_more (platform_fails true)); [by intros ? []|]. by apply rtc_once.
Qed.

(** A program run by itself is a run of one thread, beside threads that wait. *)
Lemma alone_steps {A} ts os : forall (p : platform pool_store btree) (c : prog A) a p', Forall (fun o => uint_ok 64 (os_now o)) os ->
  run_alone os p c = Some (a, p') ->
  exists n, (n <= length os)%nat /\ nsteps pstep n (PSystem p (ts ++ [Thread c])) (PSystem p' (ts ++ [Thread (Ret a)])).
Proof.
  induction os as [|o os IH]; intros p c a p' Hos Hr; destruct c as [x|R c k]; cbn [run_alone] in Hr; try done.
  - injection Hr as <- <-. exists 0%nat. split; [lia|constructor].
  - injection Hr as <- <-. exists 0%nat. split; [lia|constructor].
  - apply Forall_cons in Hos as [Ho Hos]. destruct (pcall o p c) as [[r p1]|] eqn:E; [|done].
    destruct (IH p1 (k r) a p' Hos Hr) as (n & Hn & Hs). exists (S n). cbn [length]. split; [lia|].
    eapply nsteps_l; [|exact Hs].
    replace (ts ++ [Thread (k r)]) with (<[length ts := Thread (k r)]> (ts ++ [Thread (Call c k)])).
    + apply pstep_call, (psched_call (length ts) o p _ c k r p1); [by apply list_lookup_middle|done|done].
    + rewrite <- (Nat.add_0_r (length ts)), insert_app_r. done.
Qed.

(** A request that arrives and is answered before anything else happens. *)
Lemma request_steps {A} ts os (p : platform pool_store btree) q (c : prog A) a p' : Forall (fun o => uint_ok 64 (os_now o)) os ->
  request_ok q -> serve q = Thread c -> run_alone os p c = Some (a, p') ->
  exists n, (n <= length os)%nat /\ nsteps pstep (S n) (PSystem p ts) (PSystem p' (ts ++ [Thread (Ret a)])).
Proof.
  intros Hos Hq Hc Hr. destruct (alone_steps ts os p c a p' Hos Hr) as (n & Hn & Hs). exists n. split; [done|].
  eapply nsteps_l; [|exact Hs]. rewrite <- Hc. by apply pstep_request.
Qed.

(** The count of accounts is a read of the users table: the platform still holds the world. *)
Lemma count_users st room (p : platform pool_store btree) w : represents room p w -> index_files st p -> log_whole (LOG_SHARE * room) p ->
  let '(p', _) := table_op_on Users p TCount in
  represents room p' w /\ index_files st p' /\ log_whole (LOG_SHARE * room) p'.
Proof.
  intros Hrep Hix Hl. pose proof (table_op_refines Users room p w TCount Hrep Logic.I (proj1 (rp_room _ _ _ Hrep))) as Ht.
  pose proof (op_index st Users p TCount Hix) as Hi. destruct (table_op_on Users p TCount) as [p' out].
  cbn [abs_step attempt fst snd ab_map ab_next next_after abs_of ab_wal ab_writes] in Ht. destruct Ht as (_ & Hr & Hw & Hws & _).
  specialize (Hr (tget Users w)). change (inserts [TCount]) with 0 in Hr. rewrite Z.sub_0_r in Hr.
  split; [|split; [exact Hi|]].
  - replace w with (tput Users (tget Users w) w) by by destruct w as [[] [] [] [] []]. apply Hr; try done.
    apply (th_valid _ _ _ _ (rp_tables _ _ _ Hrep _ Users)).
  - unfold log_whole. by rewrite Hw, Hws.
Qed.

Lemma bootstrap_serves (ok : forall A, prog A -> Prop) `{!Serves ok} count : ok _ (auth_bootstrap_admin count).
Proof.
  unfold auth_bootstrap_admin. destruct (0 <? count); [apply sv_ret|].
  apply sv_bind; [apply register_ok; apply _|]. intros []; apply sv_ret.
Qed.

(** What is consistent stays so through a restart. *)
Lemma reborn_consistent w w' : consistent w -> reborn w w' -> consistent w'.
Proof.
  intros [[S1 S2 S3 S4 S5] A] (Ht & _). destruct (Ht _ Seats) as [Es Ns], (Ht _ Bookings) as [Eb Nb], (Ht _ BookingSeats) as [Ej Nj].
  cbn [tget] in *. unfold next_ok in *. split.
  - constructor; unfold claims, confirmed, junction in *; rewrite ?Es, ?Eb, ?Ej; try done; [apply Ns|apply Nb|apply Nj].
  - intros s b. unfold available, claims, confirmed, junction in *. rewrite Es, Eb, Ej. apply A.
Qed.

(** Any run that began without threads is the run of a consistent world. *)
Lemma running_done st room s w gs room' : running st room s w gs -> 0 <= room' <= room -> running st room' (PSystem (psy_platform s) []) w [].
Proof.
  intros [Hsim Hix Hl] Hr. apply (running_threads st room' _ w []); [|done| |constructor].
  - eapply represents_room; [apply (sm_rep _ _ _ _ _ Hsim)|done].
  - eapply log_whole_less; [exact Hl|]. unfold LOG_SHARE. lia.
Qed.

(** And it stays so through a start, along the ledger. *)
Lemma reborn_ledger w w' : reborn w w' -> ids_ok w' /\ ledger w w'.
Proof.
  intros (Ht & _). split; [|apply ledger_same; intros R T; apply Ht].
  intros R T id. destruct (Ht R T) as [-> [_ Hn]]. apply Hn.
Qed.

(** The bootstrap as the only thread of a server. *)
Lemma bootstrap_ledgered w m : ids_ok w -> ledgered [no_promise] (System w [Thread (auth_bootstrap_admin m)]).
Proof.
  intros Hw. apply (ledgered_arrives [] w [] no_promise); [by apply ledgered_new|].
  exact (bootstrap_serves (fun A p => forall P, keeps P p anything_goes) m _).
Qed.

(** ** One life *)

Section life.
Context (pad : record_ptr -> bytes) (fds : Z -> Z) (faults : list bool) (os : list outside) (Hsu : surroundings pad fds faults os).

(** The world after a start: the records of the storage, and possibly the administrator. *)
Lemma start_runs room st w p st1 : storage_holds room (LOG_SHARE * room) st w -> consistent w ->
  server_start pad fds faults os st = Some (p, st1) -> Z.of_nat (length os) <= room ->
  exists w', consistent w' /\ w_locks w' = ∅ /\ running st1 (room - Z.of_nat (length os)) (PSystem p []) w' [] /\
    ids_ok w' /\ ledger w w'.
Proof using Hsu.
  intros Hst Hw Hstart Hroom. destruct Hsu as [Hpad Hfds Hfa Hos]. pose proof (sh_room _ _ _ _ Hst) as Hr.
  destruct (init_represents pad Hpad fds room (LOG_SHARE * room) faults st w Hfds Hfa ltac:(unfold LOG_SHARE; lia) Hst)
    as (p0 & st0 & w0 & Hinit & Hre & Hrep & Hix & Hl).
  unfold server_start in Hstart. rewrite Hinit in Hstart. pose proof (count_users st0 room p0 w0 Hrep Hix Hl) as Hc.
  destruct (table_op_on Users p0 TCount) as [p1 count]. destruct Hc as (Hrep1 & Hix1 & Hl1).
  match type of Hstart with context [auth_bootstrap_admin ?n] => set (m := n) in * end.
  destruct (run_alone os p1 (auth_bootstrap_admin m)) as [[a p2]|] eqn:Ea; [|done]. injection Hstart as <- <-.
  destruct (alone_steps [] os p1 _ a p2 Hos Ea) as (n & Hn & Hs).
  assert (Hb : thread_conforms None (Thread (auth_bootstrap_admin m))).
  { eapply conforms_mono; [apply bootstrap_conforms|]. by intros g x [-> _]. }
  assert (Hrun : running st0 room (PSystem p1 [Thread (auth_bootstrap_admin m)]) w0 [None]).
  { apply (running_threads st0 room p1 w0 [_]); try done. by constructor. }
  destruct (running_run st0 n room _ _ w0 _ Hrun Hs ltac:(lia)) as (w' & gs & Hreach & Hrun'). exists w'.
  assert (Hw0 : consistent w0) by (by apply (reborn_consistent w)).
  assert (Ha : Forall answered [Thread (Ret a)]) by (repeat constructor; by exists a).
  destruct (reborn_ledger w w0 Hre) as [Hids0 Hl0]. split; [|split; [|split]].
  - change w' with (sys_world (System w' [Thread (Ret a)])). apply all_answered_consistent; [|done].
    eapply reaches_keeps; [|exact Hreach]. apply consistent_threads; [done|]. constructor; [|constructor].
    apply (bootstrap_serves (fun A p => safe rule (fun g => g = idle) idle p)).
  - apply (in_order_rest w' [Thread (Ret a)]); [|done]. apply (in_order_reaches _ _ _ Hreach). apply in_order_start; [apply Hre|].
    constructor; [|constructor]. apply (bootstrap_serves (fun A p => safe order_rule (fun g => g = none_held) none_held p)).
  - apply (running_done st0 (room - Z.of_nat n) (PSystem p2 [Thread (Ret a)]) w' gs); [exact Hrun'|lia].
  - destruct (ledgered_reaches _ _ _ Hreach _ (bootstrap_ledgered w0 m Hids0)) as [(qs' & Hids & _) Hl']. split; [exact Hids|].
    etrans; [exact Hl0|exact Hl'].
Qed.
End life.

(** Requests served after a start. *)
Lemma served st room n p w p' ts : consistent w -> running st room (PSystem p []) w [] ->
  nsteps pstep n (PSystem p []) (PSystem p' ts) -> Z.of_nat n <= room ->
  exists w', represents (room - Z.of_nat n) p' w' /\ index_files st p' /\ log_whole (LOG_SHARE * (room - Z.of_nat n)) p' /\
    (forall b b' s, claims w' b s -> claims w' b' s -> b = b') /\ (Forall answered ts -> consistent w').
Proof.
  intros Hw Hrun Hs Hroom. destruct (running_run st n room _ _ w [] Hrun Hs Hroom) as (w' & gs & Hr & [Hsim Hix Hl]).
  cbn [psy_threads psy_platform] in *. exists w'. split; [apply (sm_rep _ _ _ _ _ Hsim)|]. split; [done|]. split; [done|].
  pose proof (reaches_inv w _ Hw Hr) as HI. split.
  - destruct HI as (gs' & HI & _). apply (ok_unique _ (inv_tables _ _ HI)).
  - intros Ha. by apply (all_answered_consistent (System w' ts)).
Qed.

(** A stop leaves the records in the files. *)
Lemma stop_holds pad room synced (p : platform pool_store btree) st w : (forall r, length (pad r) = 2%nat) -> 1 <= room ->
  represents room p w -> index_files st p -> log_whole (LOG_SHARE * room) p ->
  storage_holds (room - 1) (LOG_SHARE * (room - 1)) (server_shutdown pad synced p st) w.
Proof.
  intros Hpad Hroom Hrep Hix Hl.
  pose proof (shutdown_holds pad Hpad room (LOG_SHARE * room) synced p st w Hrep Hix Hl) as [H1 H2 H3].
  { change (Z.of_nat MAX_ACTIVE_TXNS) with 128. unfold LOG_SHARE. lia. }
  change (Z.of_nat MAX_ACTIVE_TXNS) with 128 in H3. constructor; [lia| |].
  - intros R T. destruct (H2 R T) as [A B C]. constructor; [|lia|done]. destruct (st_data _ !! _); [|done].
    destruct A as [A1 A2 A3 A4]. constructor; try done. lia.
  - destruct (st_wal _); [|unfold LOG_SHARE in *; lia]. destruct H3 as (next & ops & G1 & G2 & G3 & G4). exists next, ops.
    do 3 (split; [done|]). unfold LOG_SHARE in *. lia.
Qed.

Lemma life_holds st k st' room w : life st k st' -> storage_holds room (LOG_SHARE * room) st w -> consistent w -> k <= room ->
  exists w', storage_holds (room - k) (LOG_SHARE * (room - k)) st' w' /\ consistent w'.
Proof.
  intros Hlife Hst Hw Hk. destruct Hlife as [pad fds faults os synced st p0 st1 n p ts Hsu Hstart Hs Ha].
  destruct (start_runs pad fds faults os Hsu room st w p0 st1 Hst Hw Hstart ltac:(lia)) as (w1 & Hw1 & _ & Hrun & _).
  destruct (served st1 _ n p0 w1 p ts Hw1 Hrun Hs ltac:(lia)) as (w' & Hrep & Hix & Hl & _ & Hc). exists w'. split; [|auto].
  replace (room - (Z.of_nat (length os + n) + 1)) with (room - Z.of_nat (length os) - Z.of_nat n - 1) by lia.
  apply (stop_holds pad _ synced p st1 w'); [apply (su_pad _ _ _ _ Hsu)|lia|done..].
Qed.

Lemma lives_cost st k st' : lives st k st' -> 0 <= k.
Proof. induction 1 as [|st k st1 m st2 Hl _ IH]; [done|]. destruct Hl. lia. Qed.

Lemma lives_hold st k st' : lives st k st' -> forall room w, storage_holds room (LOG_SHARE * room) st w -> consistent w -> k <= room ->
  exists w', storage_holds (room - k) (LOG_SHARE * (room - k)) st' w' /\ consistent w'.
Proof.
  induction 1 as [st|st k st1 m st2 Hl Hls IH]; intros room w Hst Hw Hk.
  - exists w. by rewrite Z.sub_0_r.
  - pose proof (lives_cost _ _ _ Hls).
    destruct (life_holds st k st1 room w Hl Hst Hw ltac:(lia)) as (w1 & Hst1 & Hw1).
    destruct (IH (room - k) w1 Hst1 Hw1 ltac:(lia)) as (w2 & Hst2 & Hw2). exists w2. split; [|done].
    by replace (room - (k + m)) with (room - k - m) by lia.
Qed.

(** The bootstrap makes at most three calls, and none of them waits. *)
Lemma bootstrap_runs os (p : platform pool_store btree) count : (3 <= length os)%nat -> is_Some (run_alone os p (auth_bootstrap_admin count)).
Proof.
  intros Hos. destruct os as [|o1 [|o2 [|o3 os]]]; cbn [length] in Hos; try lia. unfold auth_bootstrap_admin.
  destruct (0 <? count); [by eexists|]. unfold auth_register.
  change ((Z.of_nat (length (lit "admin")) =? 0) || (MAX_USERNAME_LEN <? Z.of_nat (length (lit "admin")))) with false.
  change ((Z.of_nat (length (lit "admin123")) =? 0) || (MAX_PASSWORD_LEN <? Z.of_nat (length (lit "admin123")))) with false.
  cbn [bind run_alone pcall]. destruct (table_op_on Users p _) as [p1 out]. destruct (records Users out); [|by eexists].
  cbn [bind run_alone pcall]. destruct (table_op_on Users p1 _) as [p2 out2]. destruct (new_id out2); by eexists.
Qed.

Lemma start_succeeds pad fds faults os st room w : surroundings pad fds faults os -> (3 <= length os)%nat ->
  storage_holds room (LOG_SHARE * room) st w -> is_Some (server_start pad fds faults os st).
Proof.
  intros [Hpad Hfds Hfa _] Hos Hst. pose proof (sh_room _ _ _ _ Hst) as Hr. unfold server_start.
  destruct (init_represents pad Hpad fds room (LOG_SHARE * room) faults st w Hfds Hfa ltac:(unfold LOG_SHARE; lia) Hst) as (p0 & st0 & w0 & -> & _).
  destruct (table_op_on Users p0 TCount) as [p1 count].
  match goal with |- context [auth_bootstrap_admin ?n] => destruct (bootstrap_runs os p1 n Hos) as [[[] p2] ->] end. by eexists.
Qed.

Lemma new_directory : storage_holds LIFETIME (LOG_SHARE * LIFETIME) no_files empty_world /\ consistent empty_world.
Proof.
  split; [apply no_files_hold; by vm_compute|]. apply consistent_new; [|done|done]. intros s. cbn. rewrite lookup_empty. by intros [].
Qed.

(** ** The theorems *)

(** C1: no double booking, ever.  Take a new data directory and any number of lives
    of the server, each a start, any interleaving of requests until all are answered,
    and a stop; then start it once more and let requests run.  Then the data pages
    hold the records of a world, and in it no two different bookings are confirmed
    for the same seat; once all requests are answered no seat of a confirmed booking
    is offered as available.  The bound is on all calls of all lives together: no
    id, page or transaction number runs out. *)
Theorem no_double_booking_ever k st pad fds faults os p0 st1 n p ts :
  lives no_files k st -> surroundings pad fds faults os -> server_start pad fds faults os st = Some (p0, st1) ->
  nsteps pstep n (PSystem p0 []) (PSystem p ts) -> k + Z.of_nat (length os + n) <= LIFETIME ->
  (exists room w, represents room p w) /\
  forall room w, represents room p w ->
    (forall b b' s, claims w b s -> claims w b' s -> b = b') /\ (Forall answered ts -> consistent w).
Proof.
  intros Hlives Hsu Hstart Hs Hb. destruct new_directory as [Hst Hw].
  destruct (lives_hold _ _ _ Hlives LIFETIME empty_world Hst Hw ltac:(lia)) as (w1 & Hst1 & Hw1).
  destruct (start_runs pad fds faults os Hsu _ st w1 p0 st1 Hst1 Hw1 Hstart ltac:(lia)) as (w2 & Hw2 & _ & Hrun & _).
  destruct (served st1 _ n p0 w2 p ts Hw2 Hrun Hs ltac:(lia)) as (w' & Hrep & _ & _ & Hu & Hc).
  split; [by eexists _, w'|]. intros room w Hrep'. pose proof (represents_tables _ _ _ _ _ Hrep Hrep') as Htab. split.
  - intros b b' s H1%(claims_tables w') H2%(claims_tables w'); [|done..]. by apply (Hu b b' s).
  - intros Ha. apply (consistent_tables w'); auto.
Qed.

(** C7: every request is answered, ever.  Take a server started after any number of
    lives from a new data directory, at any moment of any run of requests, whole
    client connections included: whichever thread's call the platform carries out
    next, finitely many calls later all requests that have arrived are answered.  No
    booking waits for ever for the seat locks of another, and no call that does not
    ask for a lock ever waits; only the counters can run out first. *)
Theorem requests_answered_ever k st pad fds faults os p0 st1 n s :
  lives no_files k st -> surroundings pad fds faults os -> server_start pad fds faults os st = Some (p0, st1) ->
  nsteps pstep n (PSystem p0 []) s -> k + Z.of_nat (length os + n) <= LIFETIME ->
  inevitable counted (fun y => Forall answered (psy_threads y.2) \/ LIFETIME <= k + Z.of_nat (length os + y.1)) (n, s).
Proof.
  intros Hlives Hsu Hstart Hs Hb. destruct new_directory as [Hst Hw].
  destruct (lives_hold _ _ _ Hlives LIFETIME empty_world Hst Hw ltac:(lia)) as (w1 & Hst1 & Hw1).
  destruct (start_runs pad fds faults os Hsu _ st w1 p0 st1 Hst1 Hw1 Hstart ltac:(lia)) as (w2 & _ & Hlocks & Hrun & _).
  set (room := LIFETIME - k - Z.of_nat (length os)) in *.
  destruct (running_run st1 n room _ _ w2 [] Hrun Hs ltac:(lia)) as (w' & gs & Hr & [Hsim _ _]).
  apply (inevitable_mono _ (fun y => Forall answered (psy_threads y.2) \/ room <= Z.of_nat y.1)); [intros y [H|H]; [by left|right; lia]|].
  apply (answers true). constructor. exists w', gs. split; [exact Hsim|]. by eapply ordered_reaches.
Qed.

(** C10: a restart keeps every record.  Stop a server that represents a world, its log
    whole and its indexes dirty or as in their files, and start it again, perhaps
    under other descriptors: server_init succeeds, and the new server represents a
    world with exactly the same records in all five tables, id counters above every
    id in use and never above the old ones, no locks and no transactions; its log
    continues the old one. *)
Theorem restart_keeps_records pad pad' fds faults room n synced (p : platform pool_store btree) st w :
  (forall r, length (pad r) = 2%nat) -> (forall r, length (pad' r) = 2%nat) -> fds_ok fds -> Forall (fun b => b = true) faults ->
  represents room p w -> index_files st p -> log_whole n p -> Z.of_nat MAX_ACTIVE_TXNS <= n ->
  exists p' st' w', restart pad pad' fds faults synced p st = Some (p', st') /\
    reborn w w' /\ represents room p' w' /\ index_files st' p' /\ log_whole (n - Z.of_nat MAX_ACTIVE_TXNS) p'.
Proof.
  intros Hpad Hpad' Hfds Hfa Hrep Hix Hl Hn. unfold restart.
  apply (init_represents pad' Hpad' fds room (n - Z.of_nat MAX_ACTIVE_TXNS) faults _ w Hfds Hfa); [lia|].
  by apply shutdown_holds.
Qed.

(** C27: the server always comes up again.  After any number of lives from a new data
    directory the next start succeeds: the log is scanned, all five tables and
    indexes are opened, and the bootstrap of the administrator ends. *)
Theorem server_comes_up k st pad fds faults os :
  lives no_files k st -> surroundings pad fds faults os -> (3 <= length os)%nat -> k <= LIFETIME ->
  is_Some (server_start pad fds faults os st).
Proof.
  intros Hlives Hsu Hos Hk. destruct new_directory as [Hst Hw].
  destruct (lives_hold _ _ _ Hlives LIFETIME empty_world Hst Hw Hk) as (w1 & Hst1 & _). by eapply start_succeeds.
Qed.

(** ** Two lives *)

Definition data_fds (id : Z) : Z := id + 3.
Definition noon : outside := Outside true 1700000000.

Lemma clear_day n : surroundings zero_pad data_fds [] (replicate n noon).
Proof.
  constructor; [done| |constructor|by apply Forall_replicate; vm_compute].
  unfold data_fds. split; intros; lia.
Qed.

(** A new data directory, an event, and seats 1 and 2 booked by user 7. *)
Definition opening_night : option (res Z * platform pool_store btree * storage) :=
  match server_start zero_pad data_fds [] (replicate 3 noon) no_files with
  | None => None
  | Some (p, st) =>
      match run_alone (replicate 20 noon) p (event_mgr_create_event gig_name hall [] [] 3 2 2 1103626240) with
      | None => None
      | Some (_, p1) => (fun x => (x.1, x.2, st)) <$> run_alone (replicate 40 noon) p1 (booking_book_seats 7 1 [1; 2])
      end
  end.

(** After a stop and a start the booking is there, and its seats cannot be booked again. *)
Example booking_survives_restart :
  match opening_night with
  | None => None
  | Some (r, p, st) =>
      match server_start zero_pad data_fds [] (replicate 3 noon) (server_shutdown zero_pad true p st) with
      | None => None
      | Some (p1, _) =>
          match run_alone [noon] p1 (booking_get 1), run_alone (replicate 40 noon) p1 (booking_book_seats 8 1 [2; 3]) with
          | Some (inl b, _), Some (r', _) => Some (r, b_user_id b, b_seat_count b, b_status b, r')
          | _, _ => None
          end
      end
  end = Some (inl 1, 7, 2, BOOKING_CONFIRMED, inr ETP_ERR_SEAT_UNAVAIL).
Proof. vm_compute. reflexivity. Qed.

Lemma opening_runs : exists p st r1 p1 p2,
  server_start zero_pad data_fds [] (replicate 3 noon) no_files = Some (p, st) /\
  run_alone (replicate 20 noon) p (event_mgr_create_event gig_name hall [] [] 3 2 2 1103626240) = Some (r1, p1) /\
  run_alone (replicate 40 noon) p1 (booking_book_seats 7 1 [1; 2]) = Some (inl 1, p2).
Proof.
  assert (H : (fun x => x.1.1) <$> opening_night = Some (inl 1)) by (vm_compute; reflexivity). unfold opening_night in H.
  destruct (server_start _ _ _ _ _) as [[p st]|]; [|done].
  destruct (run_alone _ p _) as [[r1 p1]|] eqn:E1; [|done]. destruct (run_alone _ p1 _) as [[r p2]|] eqn:E2; [|done].
  cbn in H. injection H as ->. by exists p, st, r1, p1, p2.
Qed.

(** The data directory after the process is killed: the files as they are, nothing flushed. *)
Definition server_killed (p : platform pool_store btree) (st : storage) : storage :=
  Storage (fold_right (fun t => partial_alter (fun _ => d_files (en_store (pf_env p)).2 !! t_data_fd t) (t_id t)) (st_data st) (handles p))
    (st_index st) (Some (w_file (en_wal (pf_env p)))).

(** Killed instead of stopped, the server has forgotten the booking it confirmed: the
    log holds the record, but nothing replays it. *)
Example crash_forgets_booking :
  match opening_night with
  | None => None
  | Some (r, p, st) =>
      match server_start zero_pad data_fds [] (replicate 3 noon) (server_killed p st) with
      | None => None
      | Some (p1, _) =>
          match run_alone [noon] p1 (booking_get 1), wal_recover (en_wal (pf_env p1)) with
          | Some (b, _), Some recs =>
              Some (r, b, (fun x => (wh_table_id (wr_header x), wh_record_id (wr_header x))) <$> filter (fun x => wh_op_type (wr_header x) = WAL_INSERT) recs)
          | _, _ => None
          end
      end
  end = Some (inl 1, inr ETP_ERR_NOT_FOUND,
    [(TABLE_USERS, 1); (TABLE_EVENTS, 1); (TABLE_SEATS, 1); (TABLE_SEATS, 2); (TABLE_SEATS, 3); (TABLE_SEATS, 4);
     (TABLE_BOOKINGS, 1); (TABLE_BOOKING_SEATS, 1); (TABLE_BOOKING_SEATS, 2); (TABLE_USERS, 1)]).
Proof. vm_compute. reflexivity. Qed.

(** That evening as a run. *)
Lemma opening_steps : exists p0 st p1 n ts, server_start zero_pad data_fds [] (replicate 3 noon) no_files = Some (p0, st) /\
  nsteps pstep n (PSystem p0 []) (PSystem p1 ts) /\ Forall answered ts /\ (n <= 62)%nat.
Proof.
  destruct opening_runs as (p & st & r1 & p1 & p2 & E & E1 & E2).
  assert (Hos : forall n, Forall (fun o => uint_ok 64 (os_now o)) (replicate n noon)) by (intros n; apply clear_day).
  destruct (request_steps [] _ p (CreateEvent gig_name hall [] [] 3 2 2 1103626240) _ r1 p1 (Hos 20%nat)
    ltac:(cbn; split_and!; repeat constructor; by vm_compute) eq_refl E1) as (n1 & Hn1 & S1).
  destruct (request_steps [Thread (Ret r1)] _ p1 (BookSeats 7 1 [1; 2]) _ (inl 1) p2 (Hos 40%nat)
    ltac:(cbn; split_and!; repeat constructor; by vm_compute) eq_refl E2) as (n2 & Hn2 & S2).
  rewrite length_replicate in Hn1, Hn2. eexists p, st, p2, _, _. split; [exact E|].
  split; [exact (nsteps_trans _ _ _ _ _ S1 S2)|]. split; [repeat constructor; by eexists|]. lia.
Qed.

Lemma first_life : exists k st, lives no_files k st /\ 0 < k <= 70.
Proof.
  destruct opening_steps as (p0 & st & p & n & ts & E & Hs & Ha & Hn). pose proof (clear_day 3) as Hsu.
  eexists _, _. split; [eapply lives_more; [exact (one_life _ _ _ _ true _ _ _ _ _ _ Hsu E Hs Ha)|apply lives_none]|].
  cbn [length replicate]. lia.
Qed.

Lemma opening_platform : exists (p : platform pool_store btree) st w room, represents room p w /\ index_files st p /\
  log_whole (LOG_SHARE * room) p /\ 1000 < room.
Proof.
  destruct opening_steps as (p0 & st & p & n & ts & E & Hs & _ & Hn). destruct new_directory as [Hst Hw].
  destruct (start_runs _ _ _ _ (clear_day 3) LIFETIME no_files empty_world p0 st Hst Hw E) as (w1 & Hw1 & _ & Hrun & _);
    [cbn [length replicate]; unfold LIFETIME; lia|]. cbn [length replicate] in Hrun.
  destruct (served st _ n p0 w1 p ts Hw1 Hrun Hs) as (w & Hrep & Hix & Hl & _); [unfold LIFETIME; lia|].
  exists p, st, w. eexists. split; [exact Hrep|]. split; [exact Hix|]. split; [exact Hl|]. unfold LIFETIME. lia.
Qed.

Lemma no_double_booking_ever_witness : exists k st p0 st1, lives no_files k st /\ 0 < k /\
  server_start zero_pad data_fds [] (replicate 3 noon) st = Some (p0, st1) /\
  forall room w, represents room p0 w -> consistent w /\ forall b b' s, claims w b s -> claims w b' s -> b = b'.
Proof.
  destruct first_life as (k & st & Hl & Hk). destruct new_directory as [Hst Hw]. pose proof (clear_day 3) as Hsu.
  destruct (lives_hold _ _ _ Hl LIFETIME empty_world Hst Hw ltac:(unfold LIFETIME; lia)) as (w1 & Hst1 & _).
  destruct (start_succeeds _ _ _ _ st _ w1 Hsu ltac:(cbn; lia) Hst1) as [[p0 st1] E].
  exists k, st, p0, st1. split; [exact Hl|]. split; [lia|]. split; [exact E|].
  destruct (no_double_booking_ever k st _ _ _ _ p0 st1 0 p0 [] Hl Hsu E (nsteps_O _ _)) as [_ H].
  - cbn [length replicate]. unfold LIFETIME. lia.
  - intros room w Hr. destruct (H room w Hr) as [Hu Hc]. split; [by apply Hc|exact Hu].
Defined.

Lemma restart_keeps_records_witness : exists (p p' : platform pool_store btree) st st' w w',
  (exists room, represents room p w) /\
  restart zero_pad zero_pad (fun id => 9 - id) [] false p st = Some (p', st') /\
  reborn w w' /\ represents 1000 p' w'.
Proof.
  destruct opening_platform as (p & st & w & room & Hrep & Hix & Hl & Hroom).
  destruct (restart_keeps_records zero_pad zero_pad (fun id => 9 - id) [] room (LOG_SHARE * room) false p st w)
    as (p' & st' & w' & E & Hre & Hrep' & _); try done.
  - split; intros; lia.
  - change (Z.of_nat MAX_ACTIVE_TXNS) with 128. unfold LOG_SHARE. lia.
  - exists p, p', st, st', w, w'. split; [by exists room|]. split; [exact E|]. split; [exact Hre|].
    by apply (represents_room room); [|lia].
Defined.

Lemma server_comes_up_witness : exists k st, lives no_files k st /\ 0 < k /\
  is_Some (server_start zero_pad data_fds [] (replicate 5 noon) st).
Proof.
  destruct first_life as (k & st & Hl & Hk). exists k, st. split; [exact Hl|]. split; [lia|].
  apply (server_comes_up k st _ _ _ _ Hl (clear_day 5)); [cbn; lia|unfold LIFETIME; lia].
Defined.

(** A first life, another start, and two users who book the same seats in opposite orders. *)
Lemma requests_answered_ever_witness : exists k st (p0 : platform pool_store btree) st1, lives no_files k st /\ 0 < k /\
  server_start zero_pad data_fds [] (replicate 3 noon) st = Some (p0, st1) /\
  inevitable counted (fun y => Forall answered (psy_threads y.2) \/ LIFETIME <= k + Z.of_nat (3 + y.1))
    (2%nat, PSystem p0 [serve (BookSeats 7 1 [1; 2]); serve (BookSeats 8 1 [2; 1])]).
Proof.
  destruct first_life as (k & st & Hl & Hk). destruct new_directory as [Hst Hw]. pose proof (clear_day 3) as Hsu.
  destruct (lives_hold _ _ _ Hl LIFETIME empty_world Hst Hw ltac:(unfold LIFETIME; lia)) as (w1 & Hst1 & _).
  destruct (start_succeeds _ _ _ _ st _ w1 Hsu ltac:(cbn; lia) Hst1) as [[p0 st1] E].
  exists k, st, p0, st1. split; [exact Hl|]. split; [lia|]. split; [exact E|].
  assert (Hq : forall u l, uint_ok 32 u -> Forall (uint_ok 32) l -> request_ok (BookSeats u 1 l)).
  { intros u l H1 H2. cbn. split_and!; try done. }
  apply (requests_answered_ever k st _ _ _ _ p0 st1 2 _ Hl Hsu E).
  - eapply nsteps_l; [apply (pstep_request p0 [] (BookSeats 7 1 [1; 2]))|].
    + apply Hq; repeat constructor; by vm_compute.
    + eapply nsteps_l; [apply (pstep_request p0 _ (BookSeats 8 1 [2; 1]))|constructor]. apply Hq; repeat constructor; by vm_compute.
  - cbn [length replicate]. unfold LIFETIME. lia.
Defined.
