(* ===== verification/Tickets.v ===== *)
(** * Tickets and records over the whole history of a server

    A server with its data directory evolves by calls of its threads, by requests that
    arrive, and by a stop and a start once all requests are answered.  Along all of
    that its records move along the ledger of Ledger.v: a booking once confirmed to a
    client is found in every later state, with its user, event and seats. *)

From stdpp Require Import base tactics numbers list list_numbers gmap relations strings.
From Stdlib Require Import ZArith Lia Eqdep.
From S2P Require Import Prelude Types Utils Ipc Page BTree BTreeFile Wal LockManager TxnManager TxnWorld BufferPool PageStore DataFiles.
From S2P Require Import Table TableSpec TableHistory Calls Codec Platform Lifecycle.
From S2P Require Import EventMgr Auth Booking Server Threads Conform BookingSafety Ledger BookingLive PlatformRuns Restart.

#[local] Open Scope Z_scope.

(** ** How a server changes *)

(** The index files and the last data files written, and the running server. *)
Definition server : Type := storage * psystem pool_store btree.

(** A call or an arrival; or, when every request is answered, server_shutdown and
    the server_init of the next process.  The number bounds the calls made. *)
Inductive moves : server -> Z -> server -> Prop :=
  | move_step st s s' : pstep s s' -> moves (st, s) 1 (st, s')
  | move_restart pad pad' fds faults os synced st p ts p' st' :
      Forall answered ts -> (forall r, length (pad r) = 2%nat) -> surroundings pad' fds faults os ->
      server_start pad' fds faults os (server_shutdown pad synced p st) = Some (p', st') ->
      moves (st, PSystem p ts) (Z.of_nat (length os) + 1) (st', PSystem p' []).

Inductive evolves : server -> Z -> server -> Prop :=
  | evolves_none x : evolves x 0 x
  | evolves_more x k y m z : moves x k y -> evolves y m z -> evolves x (k + m) z.

(** The tables the server holds are those of [w]. *)
Definition holds (x : server) (w : world) : Prop := exists room, represents room (psy_platform x.2) w.

Lemma moves_cost x k y : moves x k y -> 1 <= k.
Proof. destruct 1; lia. Qed.

Lemma evolves_cost x k y : evolves x k y -> 0 <= k.
Proof. induction 1 as [|x k y m z Hm _ IH]; [done|]. apply moves_cost in Hm. lia. Qed.

Lemma evolves_trans x k y m z : evolves x k y -> evolves y m z -> evolves x (k + m) z.
Proof.
  induction 1 as [x|x k y k' z' Hm _ IH]; intros Hz; [by rewrite Z.add_0_l|]. rewrite <- Z.add_assoc. eapply evolves_more; [exact Hm|auto].
Qed.

Lemma evolves_run st n : forall s s', nsteps pstep n s s' -> evolves (st, s) (Z.of_nat n) (st, s').
Proof.
  induction n as [|n IH]; intros s s' Hn; inversion Hn as [|? ? s1 ? Hs Hr]; subst; [constructor|].
  replace (Z.of_nat (S n)) with (1 + Z.of_nat n) by lia. eapply evolves_more; [by apply move_step|by apply IH].
Qed.

(** ** What holds all along *)

Record alive (room : Z) (x : server) (w : world) (gs : list txn_token) (qs : list promise) : Prop := Alive {
  al_run : running x.1 room x.2 w gs;
  al_safe : sys_inv rule (fun g => g = idle) inv (System w (psy_threads x.2));
  al_ledger : ledgered qs (System w (psy_threads x.2)) }.

Lemma alive_holds room x w gs qs : alive room x w gs qs -> holds x w.
Proof. intros [[Hsim _ _] _ _]. exists room. apply (sm_rep _ _ _ _ _ Hsim). Qed.

(** The world held is determined up to its locks, so the ledger is. *)
Lemma holds_ledger x w w' : holds x w -> holds x w' -> ledger w w'.
Proof.
  intros [room Hr] [room' Hr']. apply ledger_same. intros R T. by rewrite (represents_tables _ _ _ _ _ Hr Hr' R T).
Qed.

Lemma alive_step room st s s' w gs qs : alive room (st, s) w gs qs -> 1 <= room -> pstep s s' ->
  exists w' gs' qs', alive (room - 1) (st, s') w' gs' (qs ++ qs') /\ ledger w w'.
Proof.
  intros [Hrun Hsafe Hl] Hroom Hs. cbn [fst snd] in *. destruct (running_step st room s s' w gs Hrun Hroom Hs) as (w' & gs' & Hx & Hrun').
  assert (Hr : reaches may_fail (System w (psy_threads s)) (System w' (psy_threads s'))).
  { apply (reaches_more (platform_fails true)); [by intros ? []|]. by apply rtc_once. }
  destruct (ledgered_reaches _ _ _ Hr qs Hl) as [[qs' Hl'] Hw]. exists w', gs', qs'. split; [|exact Hw].
  constructor; [exact Hrun'| |exact Hl']. by eapply reaches_keeps.
Qed.

(** An arrival changes nothing but the threads. *)
Lemma arrival_world may_fail w w' ts t : sys_step may_fail (System w ts) (System w' (ts ++ [t])) -> w' = w.
Proof.
  intros H. inversion H as [s1 s2 Hs|w0 ts0 q]; subst; [|done]. exfalso. inversion Hs as [R A i w0 ts0 c k r w1 Hi Hx E1 E2]; subst.
  assert (E : length (<[i:=Thread (k r)]> ts) = length (ts ++ [t])) by congruence. rewrite length_insert, length_app in E. cbn in E. lia.
Qed.

Lemma alive_arrives room st p ts w gs qs q : alive room (st, PSystem p ts) w gs qs -> 1 <= room -> request_ok q ->
  exists gs', alive (room - 1) (st, PSystem p (ts ++ [serve q])) w gs' (qs ++ [promised q]).
Proof.
  intros [Hrun Hsafe Hl] Hroom Hq. cbn [fst snd psy_threads] in *.
  destruct (running_step st room _ _ w gs Hrun Hroom (pstep_request p ts q Hq)) as (w' & gs' & Hx & Hrun').
  cbn [psy_threads] in *. pose proof (arrival_world _ _ _ _ _ Hx) as ->. exists gs'. constructor; [exact Hrun'| |].
  - eapply reaches_keeps; [exact Hsafe|]. apply rtc_once, step_request.
  - apply ledgered_arrives; [exact Hl|apply serve_keeps].
Qed.

Lemma alive_run n : forall room st s s' w gs qs, alive room (st, s) w gs qs -> nsteps pstep n s s' -> Z.of_nat n <= room ->
  exists w' gs' qs', alive (room - Z.of_nat n) (st, s') w' gs' (qs ++ qs') /\ ledger w w'.
Proof.
  induction n as [|n IH]; intros room st s s' w gs qs Ha Hn Hroom; inversion Hn as [|? ? s1 ? Hs Hr]; subst.
  - exists w, gs, []. rewrite app_nil_r, Z.sub_0_r. by split.
  - destruct (alive_step room st s s1 w gs qs Ha ltac:(lia) Hs) as (w1 & gs1 & qs1 & Ha1 & L1).
    destruct (IH _ st s1 s' w1 gs1 _ Ha1 Hr ltac:(lia)) as (w2 & gs2 & qs2 & Ha2 & L2). exists w2, gs2, (qs1 ++ qs2).
    rewrite app_assoc. replace (room - Z.of_nat (S n)) with (room - 1 - Z.of_nat n) by lia. split; [exact Ha2|by etrans].
Qed.

(** A start. *)
Lemma alive_start pad fds faults os room st w p st1 : surroundings pad fds faults os -> storage_holds room (LOG_SHARE * room) st w ->
  consistent w -> server_start pad fds faults os st = Some (p, st1) -> Z.of_nat (length os) <= room ->
  exists w', alive (room - Z.of_nat (length os)) (st1, PSystem p []) w' [] [] /\ ledger w w'.
Proof.
  intros Hsu Hst Hw Hstart Hroom.
  destruct (start_runs pad fds faults os Hsu room st w p st1 Hst Hw Hstart Hroom) as (w' & Hw' & _ & Hrun & Hids & Hl).
  exists w'. split; [|exact Hl]. constructor; [exact Hrun| |by apply ledgered_new]. apply consistent_threads; [exact Hw'|constructor].
Qed.

Lemma alive_new pad fds faults os p st : surroundings pad fds faults os -> server_start pad fds faults os no_files = Some (p, st) ->
  Z.of_nat (length os) <= LIFETIME -> exists w, alive (LIFETIME - Z.of_nat (length os)) (st, PSystem p []) w [] [].
Proof.
  intros Hsu Hstart Hos. destruct new_directory as [Hst Hw].
  destruct (alive_start pad fds faults os LIFETIME _ _ p st Hsu Hst Hw Hstart Hos) as (w & Ha & _). by exists w.
Qed.

Lemma alive_move room x k y w gs qs : moves x k y -> alive room x w gs qs -> k <= room ->
  exists w' gs' qs', alive (room - k) y w' gs' qs' /\ ledger w w'.
Proof.
  intros Hm Ha Hk. destruct Hm as [st s s' Hs|pad pad' fds faults os synced st p ts p' st' Hans Hpad Hsu Hstart].
  - destruct (alive_step room st s s' w gs qs Ha Hk Hs) as (w' & gs' & qs' & Ha' & L). by exists w', gs', (qs ++ qs').
  - destruct Ha as [[Hsim Hix Hlog] Hsafe _]. cbn [fst snd psy_platform psy_threads] in *.
    pose proof (stop_holds pad room synced p st w Hpad ltac:(lia) (sm_rep _ _ _ _ _ Hsim) Hix Hlog) as Hst.
    destruct (alive_start pad' fds faults os (room - 1) _ w p' st' Hsu Hst (all_answered_consistent _ Hsafe Hans) Hstart ltac:(lia))
      as (w' & Ha' & L). exists w', [], []. split; [|exact L].
    by replace (room - (Z.of_nat (length os) + 1)) with (room - 1 - Z.of_nat (length os)) by lia.
Qed.

Lemma alive_evolves x k y : evolves x k y -> forall room w gs qs, alive room x w gs qs -> k <= room ->
  exists w' gs' qs', alive (room - k) y w' gs' qs' /\ ledger w w'.
Proof.
  induction 1 as [x|x k y m z Hm Hms IH]; intros room w gs qs Ha Hk.
  - exists w, gs, qs. by rewrite Z.sub_0_r.
  - pose proof (evolves_cost _ _ _ Hms). destruct (alive_move room x k y w gs qs Hm Ha ltac:(lia)) as (w1 & gs1 & qs1 & Ha1 & L1).
    destruct (IH _ w1 gs1 qs1 Ha1 ltac:(lia)) as (w2 & gs2 & qs2 & Ha2 & L2). exists w2, gs2, qs2.
    replace (room - (k + m)) with (room - k - m) by lia. split; [exact Ha2|by etrans].
Qed.

(** What was promised of an answer was true when it was given, and its world has
    moved along the ledger since. *)
Lemma answer_stands {A} pad fds faults os p0 st0 k st p ts q n p1 ts1 (a : A) k' y :
  surroundings pad fds faults os -> server_start pad fds faults os no_files = Some (p0, st0) ->
  evolves (st0, PSystem p0 []) k (st, PSystem p ts) -> request_ok q ->
  nsteps pstep n (PSystem p (ts ++ [serve q])) (PSystem p1 ts1) -> ts1 !! length ts = Some (Thread (Ret a)) ->
  evolves (st, PSystem p1 ts1) k' y -> Z.of_nat (length os) + k + 1 + Z.of_nat n + k' <= LIFETIME ->
  exists w1 w2, promised q (existT A a) w1 /\ ledger w1 w2 /\ holds y w2 /\ tables_ok w2.
Proof.
  intros Hsu Hstart He Hq Hn Hi He' Hb. pose proof (evolves_cost _ _ _ He). pose proof (evolves_cost _ _ _ He').
  destruct (alive_new _ _ _ _ _ _ Hsu Hstart ltac:(lia)) as (w0 & A0).
  destruct (alive_evolves _ _ _ He _ _ _ _ A0 ltac:(lia)) as (w & gs & qs & Ha & _).
  destruct (alive_arrives _ _ _ _ _ _ _ q Ha ltac:(lia) Hq) as (gs1 & Ha1).
  destruct (alive_run _ _ _ _ _ _ _ _ Ha1 Hn ltac:(lia)) as (w1 & gs2 & qs2 & Ha2 & _).
  destruct (alive_evolves _ _ _ He' _ _ _ _ Ha2 ltac:(lia)) as (w2 & gs3 & qs3 & Ha3 & L).
  exists w1, w2. split; [|split; [exact L|split; [by eapply alive_holds|]]].
  - eapply promise_kept; [apply (al_ledger _ _ _ _ _ Ha2)| |exact Hi].
    rewrite <- app_assoc. replace (length ts) with (length qs); [by apply list_lookup_middle|].
    destruct (al_ledger _ _ _ _ _ Ha) as [_ Hf]. by apply Forall2_length in Hf.
  - destruct (al_safe _ _ _ _ _ Ha3) as (gs' & HI & _). apply (inv_tables _ _ HI).
Qed.

Lemma ticket_holds y w w' b u e l : holds y w -> holds y w' -> tables_ok w' -> ticket b u e l w' ->
  ticket b u e l w /\ forall s b', s ∈ l -> confirmed w b -> claims w b' s -> b' = b.
Proof.
  intros Hh Hh' Hok Ht. assert (Ht' : ticket b u e l w) by (apply (ticket_stable b u e l w'); [by apply (holds_ledger y)|done]).
  split; [exact Ht'|]. intros s b' Hs Hc Hb'. destruct Hh as [room Hr], Hh' as [room' Hr'].
  assert (Htab : forall R (T : tbl R), tget T w' = tget T w) by (intros R T; by apply (represents_tables room' room (psy_platform y.2))).
  destruct Ht' as (_ & _ & Hj). apply (ok_unique _ Hok b' b s); apply (claims_tables w' w); try done. split; [done|by apply Hj].
Qed.

(** ** The theorems *)

(** C2: a ticket stands.  Take a server begun on a new data directory, at any moment of
    its history, and let a request to book seats arrive.  Once it has been answered
    with a booking id, then at every later moment, in this life of the server or any
    later one, the tables hold that booking, for that user and event and number of
    seats, confirmed or cancelled, with all its seats; and as long as it is confirmed
    no other confirmed booking has any of them.  The bound is on all calls of the
    history. *)
Theorem ticket_stands pad fds faults os p0 st0 k st p ts u e l n p1 ts1 b k' y :
  surroundings pad fds faults os -> server_start pad fds faults os no_files = Some (p0, st0) ->
  evolves (st0, PSystem p0 []) k (st, PSystem p ts) -> request_ok (BookSeats u e l) ->
  nsteps pstep n (PSystem p (ts ++ [serve (BookSeats u e l)])) (PSystem p1 ts1) ->
  ts1 !! length ts = Some (Thread (Ret (inl b : res Z))) ->
  evolves (st, PSystem p1 ts1) k' y -> Z.of_nat (length os) + k + 1 + Z.of_nat n + k' <= LIFETIME ->
  (exists w, holds y w) /\
  forall w, holds y w -> ticket b u e l w /\ forall s b', s ∈ l -> confirmed w b -> claims w b' s -> b' = b.
Proof.
  intros Hsu Hstart He Hq Hn Hi He' Hb.
  destruct (answer_stands _ _ _ _ _ _ _ _ _ _ _ _ _ _ _ _ _ Hsu Hstart He Hq Hn Hi He' Hb) as (w1 & w2 & Hp & L & Hh & Hok).
  split; [by exists w2|]. intros w Hw. apply (ticket_holds y w w2); [done..|]. apply (ticket_stable _ _ _ _ w1); [exact L|by apply Hp].
Qed.

(** C3: a client's confirmations stand.  The same for a whole connection: for every
    booking the server has confirmed to its client - the notification that goes with
    the reply names the booking, the user, the event and the number of seats - the
    tables hold such a booking ever after, with that many seats, which are no other
    confirmed booking's as long as it is confirmed. *)
Theorem confirmations_stand pad fds faults os p0 st0 k st p ts C s i n p1 ts1 out eff k' y :
  surroundings pad fds faults os -> server_start pad fds faults os no_files = Some (p0, st0) ->
  evolves (st0, PSystem p0 []) k (st, PSystem p ts) -> request_ok (Client C s i) ->
  nsteps pstep n (PSystem p (ts ++ [serve (Client C s i)])) (PSystem p1 ts1) ->
  ts1 !! length ts = Some (Thread (Ret (out, eff) : prog (bytes * list effect))) ->
  evolves (st, PSystem p1 ts1) k' y -> Z.of_nat (length os) + k + 1 + Z.of_nat n + k' <= LIFETIME ->
  (exists w, holds y w) /\
  forall w b u e m, holds y w -> NotifyBooked b u e m ∈ eff -> exists l, Z.of_nat (length l) = m /\
    ticket b u e l w /\ forall s b', s ∈ l -> confirmed w b -> claims w b' s -> b' = b.
Proof.
  intros Hsu Hstart He Hq Hn Hi He' Hb.
  destruct (answer_stands _ _ _ _ _ _ _ _ _ _ _ _ _ _ _ _ _ Hsu Hstart He Hq Hn Hi He' Hb) as (w1 & w2 & Hp & L & Hh & Hok).
  split; [by exists w2|]. intros w b u e m Hw Hx. destruct (Hp out eff eq_refl b u e m Hx) as (l & Hl & Ht). exists l.
  split; [exact Hl|]. apply (ticket_holds y w w2); [done..|]. by apply (ticket_stable _ _ _ _ w1).
Qed.

(** C4: records are permanent.  Between any two moments in the history of a server
    begun on a new data directory, restarts included, the tables move along the
    ledger: no account and no seat assignment is changed or lost, every seat keeps its
    event, row and number, every booking keeps its user, event, seats, amount and
    time, and its status stays or becomes cancelled - a cancelled booking is never
    confirmed again. *)
Theorem records_permanent pad fds faults os p0 st0 k x k' y w w' :
  surroundings pad fds faults os -> server_start pad fds faults os no_files = Some (p0, st0) ->
  evolves (st0, PSystem p0 []) k x -> evolves x k' y -> Z.of_nat (length os) + k + k' <= LIFETIME ->
  holds x w -> holds y w' -> ledger w w'.
Proof.
  intros Hsu Hstart He He' Hb Hw Hw'. pose proof (evolves_cost _ _ _ He). pose proof (evolves_cost _ _ _ He').
  destruct (alive_new _ _ _ _ _ _ Hsu Hstart ltac:(lia)) as (w0 & A0).
  destruct (alive_evolves _ _ _ He _ _ _ _ A0 ltac:(lia)) as (w1 & gs1 & qs1 & A1 & _).
  destruct (alive_evolves _ _ _ He' _ _ _ _ A1 ltac:(lia)) as (w2 & gs2 & qs2 & A2 & L).
  etrans; [by apply (holds_ledger x w w1); [|by eapply alive_holds]|]. etrans; [exact L|].
  apply (holds_ledger y); [by eapply alive_holds|exact Hw'].
Qed.

(** ** One evening *)

(** A new server, an event, then one request by itself. *)
Definition evening {A} (c : prog A) : option (A * platform pool_store btree) :=
  match server_start zero_pad data_fds [] (replicate 3 noon) no_files with
  | None => None
  | Some (p, _) =>
      match run_alone (replicate 20 noon) p (event_mgr_create_event gig_name hall [] [] 3 2 2 1103626240) with
      | None => None
      | Some (_, p1) => run_alone (replicate 60 noon) p1 c
      end
  end.

(** A client who registers, logs in and books both seats of the first row. *)
Definition client_typed : bytes := lit "REGISTER bob secret" ++ [10] ++ lit "LOGIN bob secret" ++ [10] ++ lit "BOOK 1 1 2" ++ [10].

Example client_books : (fun x => x.1.2) <$> evening (client_handler no_libc (new_session 4) client_typed) =
  Some [StatRequests; StatRequests; StatRequests; StatBookings; NotifyBooked 1 2 1 2].
Proof. vm_compute. reflexivity. Qed.

Lemma client_runs : exists out, fst <$> evening (client_handler no_libc (new_session 4) client_typed) =
  Some (out, [StatRequests; StatRequests; StatRequests; StatBookings; NotifyBooked 1 2 1 2]).
Proof.
  pose proof client_books as H. revert H. generalize (evening (client_handler no_libc (new_session 4) client_typed)).
  intros [[[out eff] p]|]; [|done]. cbn [fmap option_fmap option_map fst snd]. intros [= ->]. by exists out.
Qed.

(** When every request is answered the server can be stopped and started again. *)
Lemma can_restart room st p ts w gs qs : alive room (st, PSystem p ts) w gs qs -> Forall answered ts -> 4 <= room ->
  exists y, moves (st, PSystem p ts) 4 y.
Proof.
  intros [[Hsim Hix Hlog] _ _] Hans Hroom. cbn [fst snd psy_platform psy_threads] in *. pose proof (clear_day 3) as Hsu.
  pose proof (stop_holds zero_pad room true p st w (su_pad _ _ _ _ Hsu) ltac:(lia) (sm_rep _ _ _ _ _ Hsim) Hix Hlog) as Hst.
  destruct (start_succeeds _ _ _ _ _ _ _ Hsu ltac:(cbn; lia) Hst) as [[p' st'] E].
  eexists. exact (move_restart zero_pad _ _ _ _ true st p ts p' st' Hans (su_pad _ _ _ _ Hsu) Hsu E).
Qed.

(** The evening as the history of a server, up to the start after it. *)
Lemma evening_history {A} (c : prog A) q (a : A) : serve q = Thread c -> request_ok q -> fst <$> evening c = Some a ->
  exists p0 st k p1 t n p2 k' y,
    server_start zero_pad data_fds [] (replicate 3 noon) no_files = Some (p0, st) /\
    evolves (st, PSystem p0 []) k (st, PSystem p1 [t]) /\
    nsteps pstep n (PSystem p1 ([t] ++ [serve q])) (PSystem p2 ([t] ++ [Thread (Ret a)])) /\
    evolves (st, PSystem p2 ([t] ++ [Thread (Ret a)])) k' y /\ 0 < k' /\ 3 + k + 1 + Z.of_nat n + k' <= LIFETIME.
Proof.
  intros Hc Hq H. unfold evening in H. destruct (server_start _ _ _ _ _) as [[p0 st]|] eqn:E0; [|done].
  destruct (run_alone (replicate 20 noon) p0 _) as [[r1 p1]|] eqn:E1; [|done].
  destruct (run_alone _ p1 c) as [[a' p2]|] eqn:E2; [|done]. injection H as ->.
  assert (Hos : forall n, Forall (fun o => uint_ok 64 (os_now o)) (replicate n noon)) by (intros n; apply clear_day).
  destruct (request_steps [] _ p0 (CreateEvent gig_name hall [] [] 3 2 2 1103626240) _ r1 p1 (Hos 20%nat)
    ltac:(cbn; split_and!; repeat constructor; by vm_compute) eq_refl E1) as (n1 & Hn1 & S1).
  destruct (alone_steps [Thread (Ret r1)] _ p1 c a p2 (Hos 60%nat) E2) as (n2 & Hn2 & S2).
  rewrite length_replicate in Hn1, Hn2. rewrite <- Hc in S2. cbn [app] in S1.
  destruct (alive_new _ _ _ _ _ _ (clear_day 3) E0) as (w0 & A0); [by vm_compute|]. cbn [length replicate] in A0.
  destruct (alive_run _ _ _ _ _ _ _ _ A0 S1) as (w1 & gs1 & qs1 & A1 & _); [unfold LIFETIME; lia|].
  destruct (alive_arrives _ _ _ _ _ _ _ q A1) as (gs2 & A2); [unfold LIFETIME; lia|exact Hq|].
  destruct (alive_run _ _ _ _ _ _ _ _ A2 S2) as (w3 & gs3 & qs3 & A3 & _); [unfold LIFETIME; lia|].
  destruct (can_restart _ _ _ _ _ _ _ A3) as (y & Hy); [repeat constructor; by eexists|unfold LIFETIME; lia|].
  exists p0, st, (Z.of_nat (S n1)), p1, (Thread (Ret r1)), n2, p2, 4, y. split; [reflexivity|]. split; [by apply evolves_run|].
  split; [exact S2|]. split; [exact (evolves_more _ 4 _ 0 _ Hy (evolves_none _))|]. unfold LIFETIME. lia.
Qed.

(** User 7 books seats 2 and 1; after the restart they are still booking 1. *)
Lemma ticket_stands_witness : exists x k y w, 0 < k /\ evolves x k y /\ holds y w /\ ticket 1 7 1 [2; 1] w.
Proof.
  assert (E : fst <$> evening (booking_book_seats 7 1 [2; 1]) = Some (inl 1)) by (vm_compute; reflexivity).
  assert (Hq : request_ok (BookSeats 7 1 [2; 1])) by (cbn; split_and!; repeat constructor; by vm_compute).
  destruct (evening_history _ (BookSeats 7 1 [2; 1]) _ eq_refl Hq E) as (p0 & st & k & p1 & t & n & p2 & k' & y & E0 & H1 & H2 & H3 & Hk & Hb).
  destruct (ticket_stands _ _ _ _ p0 st k st p1 [t] 7 1 [2; 1] n p2 _ 1 k' y (clear_day 3) E0 H1 Hq H2 eq_refl H3 Hb) as [[w Hw] H].
  eexists _, k', y, w. split; [exact Hk|]. split; [exact H3|]. split; [exact Hw|]. apply (H w Hw).
Defined.

(** The client of [client_typed] has booking 1 after the restart. *)
Lemma confirmations_stand_witness : exists x k y w l, 0 < k /\ evolves x k y /\ holds y w /\ length l = 2%nat /\ ticket 1 2 1 l w.
Proof.
  assert (Hq : request_ok (Client no_libc (new_session 4) client_typed)).
  { split; [intros b; by vm_compute|]. split; [by vm_compute|]. apply (bool_decide_unpack _). by vm_compute. }
  destruct client_runs as [out E]. destruct (evening_history _ (Client no_libc (new_session 4) client_typed) _ eq_refl Hq E) as
    (p0 & st & k & p1 & t & n & p2 & k' & y & E0 & H1 & H2 & H3 & Hk & Hb).
  destruct (confirmations_stand _ _ _ _ p0 st k st p1 [t] no_libc (new_session 4) client_typed n p2 _ out _ k' y
    (clear_day 3) E0 H1 Hq H2 eq_refl H3 Hb) as [[w Hw] H].
  destruct (H w 1 2 1 2 Hw) as (l & Hl & Ht & _); [rewrite !elem_of_cons; auto 10|].
  eexists _, k', y, w, l. split; [exact Hk|]. split; [exact H3|]. split; [exact Hw|]. split; [lia|exact Ht].
Defined.

(** From before the booking to after the restart. *)
Lemma records_permanent_witness : exists x k y w w', 0 < k /\ evolves x k y /\ holds x w /\ holds y w' /\ ledger w w'.
Proof.
  assert (E : fst <$> evening (booking_book_seats 7 1 [2; 1]) = Some (inl 1)) by (vm_compute; reflexivity).
  assert (Hq : request_ok (BookSeats 7 1 [2; 1])) by (cbn; split_and!; repeat constructor; by vm_compute).
  destruct (evening_history _ (BookSeats 7 1 [2; 1]) _ eq_refl Hq E) as (p0 & st & k & p1 & t & n & p2 & k' & y & E0 & H1 & H2 & H3 & Hk & Hb).
  pose proof (evolves_cost _ _ _ H1).
  destruct (alive_new _ _ _ _ _ _ (clear_day 3) E0) as (w0 & A0); [by vm_compute|]. cbn [length replicate] in A0.
  destruct (alive_evolves _ _ _ H1 _ _ _ _ A0) as (w1 & gs1 & qs1 & A1 & _); [lia|].
  destruct (alive_arrives _ _ _ _ _ _ _ _ A1 ltac:(lia) Hq) as (gs2 & A2).
  destruct (alive_run _ _ _ _ _ _ _ _ A2 H2 ltac:(lia)) as (w3 & gs3 & qs3 & A3 & _).
  destruct (alive_evolves _ _ _ H3 _ _ _ _ A3 ltac:(lia)) as (w4 & gs4 & qs4 & A4 & _).
  eexists _, k', y, w3, w4. split; [exact Hk|]. split; [exact H3|]. split; [by eapply alive_holds|]. split; [by eapply alive_holds|].
  eapply (records_permanent _ _ _ _ p0 st (k + (1 + Z.of_nat n)) _ k' y w3 w4 (clear_day 3) E0); [|exact H3| |by eapply alive_holds..].
  - eapply evolves_trans; [exact H1|]. eapply evolves_more; [|by apply evolves_run]. apply move_step. by apply pstep_request.
  - cbn [length replicate]. lia.
Defined.
