(* ===== verification/ThreadPool.v ===== *)
(** * Thread pool (server/network/thread_pool.c)

    The shared structure with its linked queue of heap nodes; what a worker, a
    submitter and the destroying thread do in one critical section, as functions;
    and the pool as a transition system of its threads.  A step is one critical
    section, from the mutex being taken to its release or to a wait, one task run
    to its end, or one creation or join of a worker.  Waits may end spuriously. *)

From stdpp Require Import base tactics numbers list gmap relations sorting.
From Stdlib Require Import ZArith Lia Wf_nat.
From S2P Require Import Prelude.

#[local] Open Scope Z_scope.

(** Tasks are functions [F] with an argument [V]. *)
Section pool.
Context {F V : Type}.
Context (oom : bool).   (** malloc may fail in thread_pool_submit *)

Record task_node := TaskNode { tn_function : F; tn_arg : V; tn_next : option positive }.
Record thread_pool := ThreadPool {
  tp_num_threads : Z; tp_queue_head : option positive; tp_queue_tail : option positive;
  tp_queue_size : Z; tp_max_queue_size : Z; tp_shutdown : Z }.

Abbreviation heap := (gmap positive task_node).

(** ** Critical sections *)

Inductive worker_result :=
  | WorkerWaits | WorkerExits | WorkerTakes (task : positive) (p : thread_pool) | WorkerFaults.

(** From [pthread_mutex_lock], or the return of the wait, in worker_thread. *)
Definition worker_section (p : thread_pool) (h : heap) : worker_result :=
  if (tp_queue_size p =? 0) && (tp_shutdown p =? 0) then WorkerWaits
  else if negb (tp_shutdown p =? 0) && (tp_queue_size p =? 0) then WorkerExits
  else match tp_queue_head p with
       | None => WorkerFaults
       | Some task =>
           match h !! task with
           | None => WorkerFaults
           | Some node =>
               let tail := match tn_next node with None => None | Some _ => tp_queue_tail p end in
               WorkerTakes task (ThreadPool (tp_num_threads p) (tn_next node) tail (tp_queue_size p - 1)
                                   (tp_max_queue_size p) (tp_shutdown p))
           end
       end.

Inductive submit_result := SubmitWaits | SubmitReturns (r : Z) (p : thread_pool) (h : heap) | SubmitFaults.

(** From [pthread_mutex_lock], or the return of the wait, in thread_pool_submit;
    [malloc] is the address malloc gives. *)
Definition submit_section (p : thread_pool) (h : heap) (malloc : option positive) (f : F) (v : V) : submit_result :=
  if (tp_max_queue_size p <=? tp_queue_size p) && (tp_shutdown p =? 0) then SubmitWaits
  else if negb (tp_shutdown p =? 0) then SubmitReturns (-1) p h
  else match malloc with
       | None => SubmitReturns (-1) p h
       | Some task =>
           let h := <[task := TaskNode f v None]> h in
           let enqueued head := ThreadPool (tp_num_threads p) head (Some task) (tp_queue_size p + 1)
                                  (tp_max_queue_size p) (tp_shutdown p) in
           match tp_queue_tail p with
           | Some tail =>
               match h !! tail with
               | None => SubmitFaults
               | Some t => SubmitReturns 0 (enqueued (tp_queue_head p))
                             (<[tail := TaskNode (tn_function t) (tn_arg t) (Some task)]> h)
               end
           | None => SubmitReturns 0 (enqueued (Some task)) h
           end
       end.

Definition begin_shutdown (p : thread_pool) : thread_pool :=
  ThreadPool (tp_num_threads p) (tp_queue_head p) (tp_queue_tail p) (tp_queue_size p) (tp_max_queue_size p) 1.

(** The tasks thread_pool_destroy frees at its end. *)
Fixpoint free_tasks (fuel : nat) (task : option positive) (h : heap) : heap :=
  match fuel, task with
  | S fuel', Some a => free_tasks fuel' (h !! a ≫= tn_next) (delete a h)
  | _, _ => h
  end.

Definition thread_pool_queue_size (p : option thread_pool) : Z := match p with Some p => tp_queue_size p | None => 0 end.
Definition thread_pool_thread_count (p : option thread_pool) : Z := match p with Some p => tp_num_threads p | None => 0 end.

(** ** Threads *)

Inductive worker := WReady | WWaiting | WRunning (task : positive) | WExited.
Inductive submitter := SReady (f : F) (v : V) | SWaiting (f : F) (v : V) | SReturned (r : Z).

Definition wake_worker (w : worker) : option worker := match w with WWaiting => Some WReady | _ => None end.
Definition wake_submitter (s : submitter) : option submitter := match s with SWaiting f v => Some (SReady f v) | _ => None end.

(** [pthread_cond_signal] wakes one waiting thread if there is one,
    [pthread_cond_broadcast] all. *)
Inductive signal {T} (wakes : T -> option T) : list T -> list T -> Prop :=
  | signal_none l : Forall (fun t => wakes t = None) l -> signal wakes l l
  | signal_one l i t t' : l !! i = Some t -> wakes t = Some t' -> signal wakes l (<[i := t']> l).
Definition broadcast {T} (wakes : T -> option T) (l : list T) : list T := (fun t => default t (wakes t)) <$> l.

(** thread_pool_create is creating workers, the pool is in use, thread_pool_destroy
    is joining worker [i], the pool is freed. *)
Inductive phase := Creating | Live | Joining (i : nat) | Destroyed.

Record machine := Machine {
  m_pool : thread_pool; m_heap : heap; m_workers : list worker; m_submitters : list submitter; m_phase : phase;
  m_accepted : list (F * V);   (** tasks whose submission returned 0, in order *)
  m_started : list (F * V);    (** tasks taken by workers, in order *)
  m_ran : list (F * V) }.      (** tasks run to their end *)

(** Arguments out of range give NULL at once; and so does failing to allocate. *)
Definition thread_pool_create (num_threads max_queue_size : Z) : option machine :=
  if (num_threads <=? 0) || (max_queue_size <=? 0) then None
  else Some (Machine (ThreadPool num_threads None None 0 max_queue_size 0) ∅ [] [] Creating [] [] []).

Inductive label :=
  | Works                                    (** a worker or the creating or joining thread goes on *)
  | Wakes                                    (** a wait ends spuriously *)
  | Calls (f : option F) (v : V)             (** a thread calls thread_pool_submit *)
  | Blocks                                   (** a submission waits *)
  | Returns (f : F) (v : V) (r : Z)          (** a submission returns *)
  | Finishes (task : positive) (f : F) (v : V)   (** a task returns *)
  | Destroys                                 (** a thread calls thread_pool_destroy *)
  | Frees.                                   (** thread_pool_destroy returns *)

Definition in_use (ph : phase) : Prop := match ph with Live | Joining _ => True | _ => False end.
Definition not_freed (ph : phase) : Prop := ph <> Destroyed.

Definition set_num_threads (n : Z) (p : thread_pool) : thread_pool :=
  ThreadPool n (tp_queue_head p) (tp_queue_tail p) (tp_queue_size p) (tp_max_queue_size p) (tp_shutdown p).

Inductive pool_step : label -> machine -> machine -> Prop :=
  | step_spawn p h ws ss a s r : Z.of_nat (length ws) < tp_num_threads p ->
      pool_step Works (Machine p h ws ss Creating a s r) (Machine p h (ws ++ [WReady]) ss Creating a s r)
  | step_spawn_fails p h ws ss a s r : Z.of_nat (length ws) < tp_num_threads p ->
      pool_step Works (Machine p h ws ss Creating a s r)
        (Machine (begin_shutdown (set_num_threads (Z.of_nat (length ws)) p)) h
           (broadcast wake_worker ws) (broadcast wake_submitter ss) (Joining 0) a s r)
  | step_created p h ws ss a s r : Z.of_nat (length ws) = tp_num_threads p ->
      pool_step Works (Machine p h ws ss Creating a s r) (Machine p h ws ss Live a s r)
  | step_worker_waits p h ws ss ph a s r i : ws !! i = Some WReady -> worker_section p h = WorkerWaits ->
      pool_step Works (Machine p h ws ss ph a s r) (Machine p h (<[i := WWaiting]> ws) ss ph a s r)
  | step_worker_exits p h ws ss ph a s r i : ws !! i = Some WReady -> worker_section p h = WorkerExits ->
      pool_step Works (Machine p h ws ss ph a s r) (Machine p h (<[i := WExited]> ws) ss ph a s r)
  | step_worker_takes p h ws ss ph a s r i task node p' ss' : ws !! i = Some WReady ->
      worker_section p h = WorkerTakes task p' -> h !! task = Some node -> signal wake_submitter ss ss' ->
      pool_step Works (Machine p h ws ss ph a s r)
        (Machine p' h (<[i := WRunning task]> ws) ss' ph a (s ++ [(tn_function node, tn_arg node)]) r)
  | step_task_finishes p h ws ss ph a s r i task node : ws !! i = Some (WRunning task) -> h !! task = Some node ->
      pool_step (Finishes task (tn_function node) (tn_arg node)) (Machine p h ws ss ph a s r)
        (Machine p (delete task h) (<[i := WReady]> ws) ss ph a s (r ++ [(tn_function node, tn_arg node)]))
  | step_submit_call p h ws ss ph a s r f v : in_use ph ->
      pool_step (Calls f v) (Machine p h ws ss ph a s r)
        (Machine p h ws (ss ++ [match f with Some f => SReady f v | None => SReturned (-1) end]) ph a s r)
  | step_submit_waits p h ws ss ph a s r i f v malloc : in_use ph -> ss !! i = Some (SReady f v) ->
      submit_section p h malloc f v = SubmitWaits ->
      pool_step Blocks (Machine p h ws ss ph a s r) (Machine p h ws (<[i := SWaiting f v]> ss) ph a s r)
  | step_submit_fails p h ws ss ph a s r i f v malloc e p' h' : in_use ph -> ss !! i = Some (SReady f v) ->
      submit_section p h malloc f v = SubmitReturns e p' h' -> e <> 0 -> (malloc = None -> oom = true) ->
      pool_step (Returns f v e) (Machine p h ws ss ph a s r) (Machine p' h' ws (<[i := SReturned e]> ss) ph a s r)
  | step_submit_done p h ws ss ph a s r i f v task p' h' ws' : in_use ph -> ss !! i = Some (SReady f v) ->
      h !! task = None -> submit_section p h (Some task) f v = SubmitReturns 0 p' h' -> signal wake_worker ws ws' ->
      pool_step (Returns f v 0) (Machine p h ws ss ph a s r)
        (Machine p' h' ws' (<[i := SReturned 0]> ss) ph (a ++ [(f, v)]) s r)
  | step_worker_wakes p h ws ss ph a s r i : ws !! i = Some WWaiting ->
      pool_step Wakes (Machine p h ws ss ph a s r) (Machine p h (<[i := WReady]> ws) ss ph a s r)
  | step_submitter_wakes p h ws ss ph a s r i f v : in_use ph -> ss !! i = Some (SWaiting f v) ->
      pool_step Wakes (Machine p h ws ss ph a s r) (Machine p h ws (<[i := SReady f v]> ss) ph a s r)
  | step_destroy p h ws ss a s r :
      pool_step Destroys (Machine p h ws ss Live a s r)
        (Machine (begin_shutdown p) h (broadcast wake_worker ws) (broadcast wake_submitter ss) (Joining 0) a s r)
  | step_join p h ws ss i a s r : Z.of_nat i < tp_num_threads p -> ws !! i = Some WExited ->
      pool_step Works (Machine p h ws ss (Joining i) a s r) (Machine p h ws ss (Joining (S i)) a s r)
  | step_free p h ws ss i a s r : Z.of_nat i = tp_num_threads p ->
      pool_step Frees (Machine p h ws ss (Joining i) a s r)
        (Machine p (free_tasks (size h) (tp_queue_head p) h) ws ss Destroyed a s r).

(** What the pool does by itself once it was called. *)
Definition own (l : label) : Prop := match l with Wakes | Calls _ _ | Destroys => False | _ => True end.
Definition pool_moves (m m' : machine) : Prop := exists l, pool_step l m m'.
Definition pool_runs (m m' : machine) : Prop := exists l, own l /\ pool_step l m m'.

Definition pool_reaches (n max : Z) (m : machine) : Prop :=
  exists m0, thread_pool_create n max = Some m0 /\ rtc pool_moves m0 m.

(** ** The queue in the heap *)

(** The nodes of [q] are linked from [p] in order. *)
Fixpoint chain (h : heap) (p : option positive) (q : list positive) : Prop :=
  match q with
  | [] => p = None
  | a :: q' => p = Some a /\ exists n, h !! a = Some n /\ chain h (tn_next n) q'
  end.

Lemma chain_other h h' p q : (forall a, a ∈ q -> h' !! a = h !! a) -> chain h p q -> chain h' p q.
Proof.
  revert p. induction q as [|a q IH]; intros p Hh Hc; [done|]. destruct Hc as (-> & n & Hn & Hc). split; [done|].
  exists n. rewrite Hh by (by left). split; [done|]. apply IH; [|done]. intros b Hb. apply Hh. by right.
Qed.

Lemma chain_dom h p q : chain h p q -> forall a, a ∈ q -> is_Some (h !! a).
Proof.
  revert p. induction q as [|b q IH]; intros p Hc a; [by intros ?%elem_of_nil|].
  destruct Hc as (_ & n & Hn & Hc). intros [->|Ha]%elem_of_cons; [by exists n|by eapply IH].
Qed.

Lemma chain_snoc h p q t nt task f v : chain h p (q ++ [t]) -> NoDup (q ++ [t]) -> h !! t = Some nt ->
  task ∉ q ++ [t] ->
  chain (<[t := TaskNode (tn_function nt) (tn_arg nt) (Some task)]> (<[task := TaskNode f v None]> h)) p ((q ++ [t]) ++ [task]).
Proof.
  revert p. induction q as [|b q IH]; intros p Hc Hnd Ht Hnin; cbn [app chain] in *.
  - destruct Hc as [-> _]. split; [done|]. eexists. split; [apply lookup_insert_eq|]. cbn. split; [done|].
    exists (TaskNode f v None). split; [|done]. rewrite lookup_insert_ne by (intros ->; apply Hnin; by left). apply lookup_insert_eq.
  - destruct Hc as (-> & n & Hn & Hc). apply NoDup_cons in Hnd as [Hb Hnd].
    assert (b <> t) by (intros ->; apply Hb, elem_of_app; right; by left).
    assert (b <> task) by (intros ->; apply Hnin; by left).
    split; [done|]. exists n. rewrite !lookup_insert_ne by done. split; [done|]. apply IH; try done.
    intros Hin. apply Hnin. by right.
Qed.

(** ** Tasks of nodes and of threads *)

Definition job_of (h : heap) (a : positive) : option (F * V) := (fun n => (tn_function n, tn_arg n)) <$> h !! a.
Definition jobs (h : heap) (q : list positive) : list (F * V) := omap (job_of h) q.

#[local] Arguments jobs : simpl never.

Lemma jobs_cons h a q j : job_of h a = Some j -> jobs h (a :: q) = j :: jobs h q.
Proof. intros E. unfold jobs. cbn. by rewrite E. Qed.

Lemma jobs_app h q1 q2 : jobs h (q1 ++ q2) = jobs h q1 ++ jobs h q2.
Proof. apply omap_app. Qed.

Lemma jobs_other h h' q : (forall a, a ∈ q -> job_of h' a = job_of h a) -> jobs h' q = jobs h q.
Proof.
  induction q as [|a q IH]; intros H; [done|]. unfold jobs in *. cbn. rewrite (H a) by (by left).
  rewrite IH by (intros b Hb; apply H; by right). done.
Qed.

Definition node_of (w : worker) : list positive := match w with WRunning a => [a] | _ => [] end.
Definition running (ws : list worker) : list positive := ws ≫= node_of.
#[local] Arguments running : simpl never.

Lemma running_insert ws i w w' : ws !! i = Some w ->
  running (<[i := w']> ws) ++ node_of w ≡ₚ running ws ++ node_of w'.
Proof.
  intros Hi. destruct (insert_split ws i w w' Hi) as (l1 & l2 & -> & ->). unfold running.
  rewrite !bind_app, !bind_cons. solve_Permutation.
Qed.

(** Waking does not change what a worker has taken. *)
Definition wakes_same {T X} (wakes : T -> option T) (g : T -> X) : Prop := forall t t', wakes t = Some t' -> g t' = g t.

Lemma signal_running ws ws' : signal wake_worker ws ws' -> running ws' ≡ₚ running ws.
Proof.
  intros [l H|l i t t' Hi Ht]; [done|]. pose proof (running_insert l i t t' Hi) as E.
  destruct t; try done. injection Ht as <-. cbn in E. by rewrite !app_nil_r in E.
Qed.

Lemma broadcast_running ws : running (broadcast wake_worker ws) = running ws.
Proof.
  induction ws as [|w ws IH]; [done|]. unfold running in *.
  change (broadcast wake_worker (w :: ws)) with (default w (wake_worker w) :: broadcast wake_worker ws).
  rewrite !bind_cons, IH. by destruct w.
Qed.

Lemma signal_nil {T} (wakes : T -> option T) l : signal wakes [] l -> l = [].
Proof. inversion 1 as [|? i ? ? Hi]; [done|]. by rewrite lookup_nil in Hi. Qed.

(** ** Waiting threads *)

Definition ready_w (w : worker) : nat := match w with WReady => 1 | _ => 0 end.
Definition ready_s (s : submitter) : nat := match s with SReady _ _ => 1 | _ => 0 end.
Definition waits_w (w : worker) : Prop := w = WWaiting.
Definition waits_s (s : submitter) : Prop := match s with SWaiting _ _ => True | _ => False end.

(** Some thread waits only if at least [need] threads are on their way to the mutex. *)
Definition awake {T} (waits : T -> Prop) (ready : T -> nat) (l : list T) (need : Z) : Prop :=
  Exists waits l -> need <= Z.of_nat (total ready l).

Lemma Exists_insert_other {T} (P : T -> Prop) l i x : Exists P (<[i := x]> l) -> ~ P x -> Exists P l.
Proof.
  intros (y & Hy & HP)%Exists_exists Hx. apply Exists_exists. exists y. split; [|done].
  apply list_elem_of_lookup in Hy as [j Hj]. apply list_lookup_insert_Some in Hj as [(_ & -> & _)|[_ Hj]]; [done|].
  by apply list_elem_of_lookup_2 in Hj.
Qed.

Lemma awake_insert {T} (waits : T -> Prop) (ready : T -> nat) l i x y need need' :
  awake waits ready l need -> l !! i = Some x -> ~ waits y -> Z.of_nat (ready x) + need' <= Z.of_nat (ready y) + need ->
  awake waits ready (<[i := y]> l) need'.
Proof.
  intros Ha Hi Hy Hn He. apply Exists_insert_other in He; [|done]. specialize (Ha He).
  pose proof (total_insert ready l i x y Hi). lia.
Qed.

Lemma awake_less {T} (waits : T -> Prop) (ready : T -> nat) l need need' :
  awake waits ready l need -> need' <= need -> awake waits ready l need'.
Proof. intros Ha Hn He. specialize (Ha He). lia. Qed.

Lemma Exists_snoc_other {T} (P : T -> Prop) l x : Exists P (l ++ [x]) -> ~ P x -> Exists P l.
Proof. intros [H|H]%Exists_app Hx; [done|]. by apply Exists_cons in H as [?|?%Exists_nil]. Qed.

Lemma awake_snoc {T} (waits : T -> Prop) (ready : T -> nat) l x need :
  awake waits ready l need -> ~ waits x -> awake waits ready (l ++ [x]) need.
Proof. intros Ha Hx He%Exists_snoc_other; [|done]. specialize (Ha He). rewrite total_app. lia. Qed.

(** A signal makes up for one more unit of work. *)
Lemma awake_signal {T} (wakes : T -> option T) (waits : T -> Prop) (ready : T -> nat) l l' need :
  (forall t, waits t -> exists t', wakes t = Some t') ->
  (forall t t', wakes t = Some t' -> ready t = 0%nat /\ ready t' = 1%nat /\ ~ waits t') ->
  signal wakes l l' -> awake waits ready l need -> awake waits ready l' (need + 1).
Proof.
  intros Hw Hr [l0 Hall|l0 i t t' Hi Ht] Ha.
  - intros (t & Hin & Ht)%Exists_exists. rewrite Forall_forall in Hall.
    destruct (Hw t Ht) as [t' E]. by rewrite (Hall t Hin) in E.
  - destruct (Hr t t' Ht) as (E & E' & Hn). eapply awake_insert; [exact Ha|exact Hi|done|]. rewrite E, E'. lia.
Qed.

Lemma awake_broadcast {T} (wakes : T -> option T) (waits : T -> Prop) (ready : T -> nat) l need :
  (forall t, waits t -> exists t', wakes t = Some t') -> (forall t t', wakes t = Some t' -> ~ waits t') ->
  awake waits ready (broadcast wakes l) need /\ ~ Exists waits (broadcast wakes l).
Proof.
  intros Hw Hn. assert (He : ~ Exists waits (broadcast wakes l)); [|split; [by intros H%He|done]].
  intros (t & Hin & Ht)%Exists_exists. apply list_elem_of_fmap in Hin as (u & -> & _).
  destruct (wakes u) as [u'|] eqn:E; cbn in Ht; [by apply (Hn u u')|]. destruct (Hw u Ht) as [u' E']. congruence.
Qed.

(** ** The invariant *)

Definition in_phase (p : thread_pool) (q : list positive) (ws : list worker) (ss : list submitter) (ph : phase) : Prop :=
  match ph with
  | Creating => 0 < tp_num_threads p /\ Z.of_nat (length ws) <= tp_num_threads p /\ tp_shutdown p = 0 /\ ss = []
  | Live => 0 < tp_num_threads p /\ Z.of_nat (length ws) = tp_num_threads p /\ tp_shutdown p = 0
  | Joining k => Z.of_nat (length ws) = tp_num_threads p /\ tp_shutdown p <> 0 /\ (k <= length ws)%nat /\
                 forall j, (j < k)%nat -> ws !! j = Some WExited
  | Destroyed => tp_shutdown p <> 0 /\ Forall (fun w => w = WExited) ws
  end.

Record pool_ok (q : list positive) (m : machine) : Prop := {
  ok_chain : chain (m_heap m) (tp_queue_head (m_pool m)) q;
  ok_tail : tp_queue_tail (m_pool m) = last q;
  ok_nodup : NoDup (q ++ running (m_workers m));
  ok_dom : forall a, is_Some (m_heap m !! a) <-> a ∈ q ++ running (m_workers m);
  ok_size : tp_queue_size (m_pool m) = Z.of_nat (length q);
  ok_max : Z.of_nat (length q) <= tp_max_queue_size (m_pool m) /\ 0 < tp_max_queue_size (m_pool m);
  ok_fifo : m_accepted m = m_started m ++ jobs (m_heap m) q;
  ok_once : m_started m ≡ₚ m_ran m ++ jobs (m_heap m) (running (m_workers m));
  ok_workers : awake waits_w ready_w (m_workers m) (Z.of_nat (length q));
  ok_submitters : oom = false -> awake waits_s ready_s (m_submitters m) (tp_max_queue_size (m_pool m) - Z.of_nat (length q));
  ok_shut : tp_shutdown (m_pool m) <> 0 -> ~ Exists waits_w (m_workers m) /\ ~ Exists waits_s (m_submitters m);
  ok_exited : WExited ∈ m_workers m -> tp_shutdown (m_pool m) <> 0 /\ q = [];
  ok_nobody : m_workers m = [] -> q = [];
  ok_phase : in_phase (m_pool m) q (m_workers m) (m_submitters m) (m_phase m) }.

Lemma create_ok n max m : thread_pool_create n max = Some m -> pool_ok [] m.
Proof.
  unfold thread_pool_create. destruct ((n <=? 0) || (max <=? 0)) eqn:E; [done|]. intros [= <-]. bool_to_prop.
  constructor; cbn; try done; try lia.
  1: constructor.
  1: intros a; rewrite lookup_empty, elem_of_nil; split; [by intros [x ?]|done].
  all: try by intros ?%Exists_nil.
  all: try by intros _ ?%Exists_nil.
  all: try by intros ?%elem_of_nil.
  all: repeat split; try done; lia.
Qed.

Lemma job_of_node h a n : h !! a = Some n -> job_of h a = Some (tn_function n, tn_arg n).
Proof. unfold job_of. by intros ->. Qed.

(** A change of one worker that takes and leaves no node. *)
Lemma worker_insert ws i w w' : ws !! i = Some w -> node_of w' = node_of w -> running (<[i := w']> ws) ≡ₚ running ws.
Proof. intros Hi E. pose proof (running_insert ws i w w' Hi) as H. rewrite E in H. by apply Permutation_app_inv_r in H. Qed.

Lemma jobs_perm h q q' : q ≡ₚ q' -> jobs h q ≡ₚ jobs h q'.
Proof. intros E. unfold jobs. by rewrite E. Qed.

Lemma head_of_chain h p q : chain h p q -> p = head q.
Proof. destruct q; [done|]. by intros [-> _]. Qed.

(** ** What the sections do in a good state *)

Lemma worker_section_spec q m : pool_ok q m ->
  worker_section (m_pool m) (m_heap m) =
  match q with
  | [] => if tp_shutdown (m_pool m) =? 0 then WorkerWaits else WorkerExits
  | a :: q' => WorkerTakes a (ThreadPool (tp_num_threads (m_pool m)) (head q') (last q') (Z.of_nat (length q'))
                                (tp_max_queue_size (m_pool m)) (tp_shutdown (m_pool m)))
  end.
Proof.
  intros H. unfold worker_section. rewrite (ok_size q m H). pose proof (ok_chain q m H) as Hc.
  destruct q as [|a q']; [by destruct (tp_shutdown (m_pool m) =? 0)|].
  destruct (Z.of_nat (length (a :: q')) =? 0) eqn:E; [cbn [length] in E; bool_to_prop; lia|].
  rewrite andb_false_l, andb_false_r. destruct Hc as (-> & n & Hn & Hc). rewrite Hn, (head_of_chain _ _ _ Hc), (ok_tail _ m H).
  f_equal. replace (Z.of_nat (length (a :: q')) - 1) with (Z.of_nat (length q')) by (cbn [length]; lia). by destruct q'.
Qed.

(** The heap with a node for the task appended to the queue. *)
Definition link (h : heap) (q : list positive) (task : positive) (f : F) (v : V) : heap :=
  let h := <[task := TaskNode f v None]> h in
  match last q with
  | Some t => match h !! t with
              | Some n => <[t := TaskNode (tn_function n) (tn_arg n) (Some task)]> h
              | None => h
              end
  | None => h
  end.

Lemma last_dom q m t : pool_ok q m -> last q = Some t -> is_Some (m_heap m !! t).
Proof.
  intros H Ht. apply (ok_dom q m H), elem_of_app. left. by apply last_Some_elem_of.
Qed.

Lemma submit_section_spec q m malloc f v : pool_ok q m -> (forall a, malloc = Some a -> m_heap m !! a = None) ->
  let p := m_pool m in
  submit_section p (m_heap m) malloc f v =
  if (tp_max_queue_size p <=? Z.of_nat (length q)) && (tp_shutdown p =? 0) then SubmitWaits
  else if negb (tp_shutdown p =? 0) then SubmitReturns (-1) p (m_heap m)
  else match malloc with
       | None => SubmitReturns (-1) p (m_heap m)
       | Some a => SubmitReturns 0 (ThreadPool (tp_num_threads p) (head (q ++ [a])) (Some a) (Z.of_nat (length (q ++ [a])))
                                      (tp_max_queue_size p) (tp_shutdown p)) (link (m_heap m) q a f v)
       end.
Proof.
  intros H Ha p. subst p. unfold submit_section, link. rewrite (ok_size q m H). repeat (case_match; [done|]).
  destruct malloc as [a|]; [|done]. rewrite (ok_tail q m H). pose proof (ok_chain q m H) as Hc. rewrite length_app.
  replace (Z.of_nat (length q) + 1) with (Z.of_nat (length q + length [a])) by (cbn; lia).
  destruct (last q) as [t|] eqn:Ht.
  - destruct (last_dom q m t H Ht) as [n Hn]. rewrite lookup_insert_ne, Hn by (intros ->; by rewrite (Ha t) in Hn).
    rewrite (head_of_chain _ _ _ Hc). by destruct q.
  - apply last_None in Ht as ->. done.
Qed.

Section linked.
Context (q : list positive) (m : machine) (a : positive) (f : F) (v : V).
Context (H : pool_ok q m) (Ha : m_heap m !! a = None).

Lemma fresh_notin : a ∉ q ++ running (m_workers m).
Proof using H Ha. intros Hin. apply (ok_dom q m H) in Hin as [n Hn]. congruence. Qed.

Lemma link_chain : chain (link (m_heap m) q a f v) (head (q ++ [a])) (q ++ [a]).
Proof using H Ha.
  pose proof (ok_chain q m H) as Hc. pose proof fresh_notin as Hnin. pose proof (ok_nodup q m H) as Hnd.
  apply NoDup_app in Hnd as (Hnd & _ & _). unfold link. destruct (last q) as [t|] eqn:Ht.
  - destruct (last_dom q m t H Ht) as [n Hn]. rewrite lookup_insert_ne, Hn by congruence.
    assert (a ∉ q) by (intros Hq; apply Hnin, elem_of_app; by left).
    apply last_Some in Ht as [q0 ->]. rewrite (head_of_chain _ _ _ Hc) in Hc.
    pose proof (chain_snoc _ _ q0 t n a f v Hc Hnd Hn) as Hs. destruct q0; by apply Hs.
  - apply last_None in Ht as ->. split; [done|]. exists (TaskNode f v None). by rewrite lookup_insert_eq.
Qed.

Lemma link_job b : job_of (link (m_heap m) q a f v) b = if decide (b = a) then Some (f, v) else job_of (m_heap m) b.
Proof using H Ha.
  unfold link, job_of. destruct (last q) as [t|] eqn:Ht.
  - destruct (last_dom q m t H Ht) as [n Hn]. assert (t <> a) by congruence. rewrite lookup_insert_ne, Hn by congruence.
    destruct (decide (b = a)) as [->|Hb]; [by rewrite lookup_insert_ne, lookup_insert_eq by done|].
    destruct (decide (b = t)) as [->|Hbt]; [by rewrite lookup_insert_eq, Hn|by rewrite !lookup_insert_ne by done].
  - destruct (decide (b = a)) as [->|Hb]; [by rewrite lookup_insert_eq|by rewrite lookup_insert_ne by done].
Qed.

Lemma link_jobs l : a ∉ l -> jobs (link (m_heap m) q a f v) l = jobs (m_heap m) l.
Proof using H Ha. intros Hl. apply jobs_other. intros b Hb. rewrite link_job. by rewrite decide_False by congruence. Qed.

Lemma link_dom b : is_Some (link (m_heap m) q a f v !! b) <-> b = a \/ is_Some (m_heap m !! b).
Proof using H Ha.
  pose proof (link_job b) as E. unfold job_of in E.
  destruct (link (m_heap m) q a f v !! b) as [n|], (decide (b = a)) as [->|Hb]; cbn in E; try done.
  - split; [by left|by eexists].
  - destruct (m_heap m !! b); [|done]. split; [by right|by eexists].
  - destruct (m_heap m !! b); [done|]. split; [by intros []|by intros [?|[]]].
Qed.
End linked.

(** ** Steps keep the invariant *)

Lemma exited_all ws ws' : length ws' = length ws -> (forall j, ws !! j = Some WExited -> ws' !! j = Some WExited) ->
  Forall (fun w => w = WExited) ws -> Forall (fun w => w = WExited) ws'.
Proof.
  intros Hl Hex Hall. apply Forall_lookup. intros j w Hj. assert (Hlt : (j < length ws)%nat) by (rewrite <- Hl; by apply lookup_lt_Some in Hj).
  apply lookup_lt_is_Some in Hlt as [x Hx]. pose proof (proj1 (Forall_lookup _ _) Hall j x Hx) as ->.
  rewrite (Hex j Hx) in Hj. congruence.
Qed.

(** Threads that move without touching the queue. *)
Lemma threads_ok q p h ws ws' ss ss' ph a s r : pool_ok q (Machine p h ws ss ph a s r) ->
  running ws' ≡ₚ running ws -> length ws' = length ws -> (forall j, ws !! j = Some WExited -> ws' !! j = Some WExited) ->
  awake waits_w ready_w ws' (Z.of_nat (length q)) ->
  (oom = false -> awake waits_s ready_s ss' (tp_max_queue_size p - Z.of_nat (length q))) ->
  (tp_shutdown p <> 0 -> ~ Exists waits_w ws' /\ ~ Exists waits_s ss') ->
  (WExited ∈ ws' -> tp_shutdown p <> 0 /\ q = []) -> (ph = Creating -> ss' = []) ->
  pool_ok q (Machine p h ws' ss' ph a s r).
Proof.
  intros [] Hr Hl Hex Haw Has Hsh Hx Hcr. cbn in *. constructor; cbn; try done.
  - by rewrite Hr.
  - intros b. by rewrite Hr.
  - rewrite ok_once0. apply Permutation_app_head. symmetry. by apply jobs_perm.
  - intros ->. apply ok_nobody0. by apply length_zero_iff_nil.
  - destruct ph; cbn in *; rewrite ?Hl; try done.
    + by destruct ok_phase0 as (? & ? & ? & _); auto.
    + destruct ok_phase0 as (? & ? & ? & Hj). repeat split; try done. intros j Hlt. by apply Hex, Hj.
    + destruct ok_phase0 as [? Hall]. split; [done|]. by apply (exited_all ws).
Qed.

Lemma exited_insert (ws : list worker) (i : nat) w w' : ws !! i = Some w -> w <> WExited ->
  forall j, ws !! j = Some WExited -> <[i := w']> ws !! j = Some WExited.
Proof. intros Hi Hw j Hj. rewrite list_lookup_insert_ne; [done|]. intros ->. congruence. Qed.

Lemma elem_insert {T} (l : list T) (i : nat) x y : y ∈ <[i := x]> l -> y = x \/ y ∈ l.
Proof.
  intros [j Hj]%list_elem_of_lookup. apply list_lookup_insert_Some in Hj as [(_ & -> & _)|[_ Hj]]; [by left|right].
  by apply list_elem_of_lookup_2 in Hj.
Qed.

(** One worker that moves without touching the queue. *)
Lemma worker_ok q p h ws ss ph a s r i w w' : pool_ok q (Machine p h ws ss ph a s r) -> ws !! i = Some w ->
  node_of w' = node_of w -> w <> WExited -> awake waits_w ready_w (<[i := w']> ws) (Z.of_nat (length q)) ->
  (w' = WWaiting -> tp_shutdown p = 0) -> (w' = WExited -> tp_shutdown p <> 0 /\ q = []) ->
  pool_ok q (Machine p h (<[i := w']> ws) ss ph a s r).
Proof.
  intros H Hi Hn Hw Haw Hwait Hexit. pose proof H as []. cbn in *.
  apply (threads_ok q p h ws _ ss ss); try done.
  - by apply (worker_insert ws i w w').
  - apply length_insert.
  - by apply (exited_insert ws i w).
  - intros Hs. destruct (ok_shut0 Hs). split; [|done]. intros He. apply Exists_insert_other in He; [done|]. auto.
  - intros [<-|Hin]%elem_insert; [by apply Hexit|by apply ok_exited0].
  - intros ->. apply ok_phase0.
Qed.

(** One submission that moves without touching the queue. *)
Lemma submitter_ok q p h ws ss ph a s r i x y : pool_ok q (Machine p h ws ss ph a s r) -> in_use ph -> ss !! i = Some x ->
  (oom = false -> awake waits_s ready_s (<[i := y]> ss) (tp_max_queue_size p - Z.of_nat (length q))) ->
  (waits_s y -> tp_shutdown p = 0) -> pool_ok q (Machine p h ws (<[i := y]> ss) ph a s r).
Proof.
  intros H Hu Hi Haw Hwait. pose proof H as []. cbn in *. apply (threads_ok q p h ws ws ss); try done.
  - intros Hs. destruct (ok_shut0 Hs). split; [done|]. intros He. apply Exists_insert_other in He; [done|]. auto.
  - by intros ->.
Qed.

Lemma takes_ok q p h ws ss ph a s r i b node ss' : pool_ok (b :: q) (Machine p h ws ss ph a s r) ->
  ws !! i = Some WReady -> h !! b = Some node -> signal wake_submitter ss ss' ->
  pool_ok q (Machine (ThreadPool (tp_num_threads p) (head q) (last q) (Z.of_nat (length q)) (tp_max_queue_size p) (tp_shutdown p))
               h (<[i := WRunning b]> ws) ss' ph a (s ++ [(tn_function node, tn_arg node)]) r).
Proof.
  intros H Hi Hb Hsig. pose proof H as []. cbn in *.
  pose proof (running_insert ws i WReady (WRunning b) Hi) as Hr. cbn in Hr. rewrite app_nil_r in Hr.
  assert (Hall : q ++ running (<[i := WRunning b]> ws) ≡ₚ b :: q ++ running ws) by (rewrite Hr; solve_Permutation).
  pose proof (job_of_node h b node Hb) as Hjob. destruct ok_chain0 as (_ & n & Hn & Hc).
  constructor; cbn; try done.
  - by rewrite <- (head_of_chain _ _ _ Hc).
  - by rewrite Hall.
  - intros c. by rewrite Hall.
  - lia.
  - by rewrite ok_fifo0, <- app_assoc, (jobs_cons _ _ _ _ Hjob).
  - by rewrite (jobs_perm _ _ _ Hr), jobs_app, app_assoc, ok_once0, (jobs_cons _ _ _ _ Hjob).
  - eapply awake_insert; [exact ok_workers0|exact Hi|done|cbn; lia].
  - intros Ho. eapply awake_less; [eapply (awake_signal wake_submitter)|]; [| |exact Hsig|exact (ok_submitters0 Ho)|lia].
    + by intros []; cbn; eauto.
    + intros [] t'; cbn; intros [= <-]; cbn; auto.
  - intros Hs. destruct (ok_shut0 Hs) as [Hw Hss]. split.
    + intros He. apply Exists_insert_other in He; done.
    + destruct Hsig as [|l j t t' Hj Ht]; [done|]. intros He. apply Exists_insert_other in He; [done|].
      destruct t; try done. cbn in Ht. injection Ht as <-. by intros [].
  - intros [?|Hin]%elem_insert; [done|]. destruct (ok_exited0 Hin). done.
  - intros E. apply (f_equal length) in E. rewrite length_insert in E. apply lookup_lt_Some in Hi. cbn in E. lia.
  - destruct ph; cbn in *; rewrite ?length_insert; try done.
    + destruct ok_phase0 as (? & ? & ? & ->). repeat split; try done. by apply signal_nil in Hsig.
    + destruct ok_phase0 as (? & ? & ? & Hj). repeat split; try done. intros j Hlt. apply (exited_insert ws i WReady); auto.
    + destruct ok_phase0 as [_ Hx]. pose proof (proj1 (Forall_lookup _ _) Hx _ _ Hi). done.
Qed.

Lemma finishes_ok q p h ws ss ph a s r i b node : pool_ok q (Machine p h ws ss ph a s r) ->
  ws !! i = Some (WRunning b) -> h !! b = Some node ->
  pool_ok q (Machine p (delete b h) (<[i := WReady]> ws) ss ph a s (r ++ [(tn_function node, tn_arg node)])).
Proof.
  intros H Hi Hb. pose proof H as []. cbn in *.
  pose proof (running_insert ws i (WRunning b) WReady Hi) as Hr. cbn in Hr. rewrite app_nil_r in Hr.
  assert (Hall : q ++ running ws ≡ₚ b :: q ++ running (<[i := WReady]> ws)) by (rewrite <- Hr; solve_Permutation).
  rewrite Hall in ok_nodup0. apply NoDup_cons in ok_nodup0 as [Hnin Hnd].
  assert (Hq : forall c, c ∈ q \/ c ∈ running (<[i := WReady]> ws) -> delete b h !! c = h !! c).
  { intros c Hc. apply lookup_delete_ne. intros ->. by apply Hnin, elem_of_app. }
  assert (Hjob : forall c, c ∈ q \/ c ∈ running (<[i := WReady]> ws) -> job_of (delete b h) c = job_of h c).
  { intros c Hc. unfold job_of. by rewrite Hq. }
  constructor; cbn; try done.
  - apply (chain_other h); auto.
  - intros c. destruct (decide (c = b)) as [->|Hcb].
    + rewrite lookup_delete_eq. split; [by intros []|done].
    + rewrite lookup_delete_ne, ok_dom0, Hall, elem_of_cons by done. split; [by intros [?|?]|by right].
  - rewrite (jobs_other h) by auto. done.
  - rewrite (jobs_other h) by auto. rewrite ok_once0, <- (jobs_perm _ _ _ Hr), jobs_app, (jobs_cons _ _ [] _ (job_of_node _ _ _ Hb)).
    change (jobs h []) with (@nil (F * V)). solve_Permutation.
  - eapply awake_insert; [exact ok_workers0|exact Hi|done|cbn; lia].
  - intros Hs. destruct (ok_shut0 Hs) as [Hw Hss]. split; [|done]. intros He. apply Exists_insert_other in He; done.
  - intros [?|Hin]%elem_insert; [done|]. by apply ok_exited0.
  - intros E. apply (f_equal length) in E. rewrite length_insert in E. apply lookup_lt_Some in Hi. cbn in E. lia.
  - destruct ph; cbn in *; rewrite ?length_insert; try done.
    + destruct ok_phase0 as (? & ? & ? & Hj). repeat split; try done. intros j Hlt. apply (exited_insert ws i (WRunning b)); auto.
    + destruct ok_phase0 as [_ Hx]. pose proof (proj1 (Forall_lookup _ _) Hx _ _ Hi). done.
Qed.

Lemma wake_worker_waits t : waits_w t -> exists t', wake_worker t = Some t'.
Proof. intros ->. by eexists. Qed.
Lemma wake_worker_ready t t' : wake_worker t = Some t' -> ready_w t = 0%nat /\ ready_w t' = 1%nat /\ ~ waits_w t'.
Proof. by destruct t; intros [= <-]. Qed.
Lemma wake_submitter_waits t : waits_s t -> exists t', wake_submitter t = Some t'.
Proof. destruct t; try done. by eexists. Qed.
Lemma wake_submitter_ready t t' : wake_submitter t = Some t' -> ready_s t = 0%nat /\ ready_s t' = 1%nat /\ ~ waits_s t'.
Proof. destruct t; intros [= <-]. cbn. auto. Qed.

Lemma signal_exited ws ws' : signal wake_worker ws ws' -> length ws' = length ws /\ (WExited ∈ ws' -> WExited ∈ ws) /\
  forall j, ws !! j = Some WExited -> ws' !! j = Some WExited.
Proof.
  intros [l H|l i t t' Hi Ht]; [done|]. rewrite length_insert. split; [done|].
  destruct t; try done. injection Ht as <-. split; [by intros [?|?]%elem_insert|].
  by apply (exited_insert l i WWaiting).
Qed.

Lemma submit_done_ok q p h ws ss ph a s r i b f v ws' : pool_ok q (Machine p h ws ss ph a s r) -> in_use ph ->
  ss !! i = Some (SReady f v) -> h !! b = None -> signal wake_worker ws ws' ->
  tp_shutdown p = 0 -> Z.of_nat (length q) < tp_max_queue_size p ->
  pool_ok (q ++ [b])
    (Machine (ThreadPool (tp_num_threads p) (head (q ++ [b])) (Some b) (Z.of_nat (length (q ++ [b]))) (tp_max_queue_size p) (tp_shutdown p))
       (link h q b f v) ws' (<[i := SReturned 0]> ss) ph (a ++ [(f, v)]) s r).
Proof.
  intros H Hu Hi Hb Hsig Hs Hq. pose proof H as []. cbn in *.
  pose proof (fresh_notin q _ b H Hb) as Hnin. cbn in Hnin.
  pose proof (signal_running _ _ Hsig) as Hr. destruct (signal_exited _ _ Hsig) as (Hl & Hx & Hj).
  assert (Hb' : (b ∉ q) /\ (b ∉ running ws')).
  { rewrite elem_of_app in Hnin. split; [|rewrite Hr]; tauto. }
  constructor; cbn; try done.
  - by apply (link_chain q _ b f v H Hb).
  - by rewrite last_snoc.
  - rewrite Hr, <- app_assoc. apply (NoDup_Permutation_proper _ _ (Permutation_middle q (running ws) b)). by constructor.
  - intros c. rewrite (link_dom q _ b f v H Hb), ok_dom0, Hr, !elem_of_app, elem_of_cons, elem_of_nil. cbn. tauto.
  - rewrite length_app. cbn. lia.
  - rewrite jobs_app, (link_jobs q _ b f v H Hb) by apply Hb'. cbn. rewrite ok_fifo0, <- !app_assoc. do 2 f_equal.
    erewrite jobs_cons; [done|]. rewrite (link_job q _ b f v H Hb). by rewrite decide_True.
  - rewrite (link_jobs q _ b f v H Hb) by apply Hb'. cbn. by rewrite ok_once0, (jobs_perm _ _ _ Hr).
  - rewrite length_app. replace (Z.of_nat (length q + length [b])) with (Z.of_nat (length q) + 1) by (cbn; lia).
    by apply (awake_signal wake_worker waits_w ready_w ws ws' _ wake_worker_waits wake_worker_ready).
  - intros Ho. rewrite length_app. eapply awake_insert; [exact (ok_submitters0 Ho)|exact Hi|by intros []|cbn; lia].
  - intros Hin. destruct (ok_exited0 (Hx Hin)). congruence.
  - intros ->. cbn in Hl. exfalso. destruct ph; try done; cbn in *; [lia|by destruct ok_phase0 as (_ & ? & _)].
  - destruct ph; cbn in *; rewrite ?Hl; try done. by destruct ok_phase0 as (_ & ? & _).
Qed.

Lemma broadcast_exited ws : WExited ∈ broadcast wake_worker ws -> WExited ∈ ws.
Proof. intros (w & E & Hw)%list_elem_of_fmap. by destruct w; cbn in E; simplify_eq. Qed.

(** The shutdown flag is set, everybody is woken, and joining begins. *)
Lemma shutdown_ok q p h ws ss ph a s r : pool_ok q (Machine p h ws ss ph a s r) -> tp_shutdown p = 0 ->
  pool_ok q (Machine (begin_shutdown (set_num_threads (Z.of_nat (length ws)) p)) h (broadcast wake_worker ws) (broadcast wake_submitter ss) (Joining 0) a s r).
Proof.
  intros [] Hs. cbn in *.
  pose proof (awake_broadcast wake_worker waits_w ready_w ws (Z.of_nat (length q)) wake_worker_waits
                (fun t t' E => proj2 (proj2 (wake_worker_ready t t' E)))) as [Ha He].
  pose proof (awake_broadcast wake_submitter waits_s ready_s ss (tp_max_queue_size p - Z.of_nat (length q)) wake_submitter_waits
                (fun t t' E => proj2 (proj2 (wake_submitter_ready t t' E)))) as [Ha' He'].
  constructor; cbn; rewrite ?broadcast_running; try done.
  - intros Hin%broadcast_exited. by destruct (ok_exited0 Hin).
  - intros E. apply ok_nobody0. by destruct ws.
  - unfold broadcast. rewrite length_fmap. repeat split; try done; lia.
Qed.

Lemma spawn_ok q p h ws ss a s r : pool_ok q (Machine p h ws ss Creating a s r) ->
  Z.of_nat (length ws) < tp_num_threads p -> pool_ok q (Machine p h (ws ++ [WReady]) ss Creating a s r).
Proof.
  intros [] Hn. cbn in *. assert (Hr : running (ws ++ [WReady]) = running ws) by (unfold running; rewrite bind_app; cbn; by rewrite app_nil_r).
  assert (Hin : forall w, w ∈ ws ++ [WReady] -> w = WReady \/ w ∈ ws).
  { intros w. rewrite elem_of_app, elem_of_cons, elem_of_nil. tauto. }
  constructor; cbn; rewrite ?Hr; try done.
  - by apply awake_snoc.
  - intros Hs. by destruct ok_phase0 as (_ & _ & ? & _).
  - intros Hx. destruct (Hin _ Hx) as [?|Hw]; [done|]. by apply ok_exited0.
  - by destruct ws.
  - rewrite length_app. cbn. destruct ok_phase0 as (? & ? & ? & ?). repeat split; try done. lia.
Qed.

Lemma free_nothing fuel h : free_tasks fuel None h = h.
Proof. by destruct fuel. Qed.

Lemma joined_exited (ws : list worker) (k : nat) : length ws = k ->
  (forall j, (j < k)%nat -> ws !! j = Some WExited) -> Forall (fun w => w = WExited) ws.
Proof.
  intros <- Hj. apply Forall_lookup. intros j w Hw. pose proof (lookup_lt_Some _ _ _ Hw). rewrite Hj in Hw by done. congruence.
Qed.

(** All workers have exited, so the queue is drained. *)
Lemma all_exited_drained q m : pool_ok q m -> Forall (fun w => w = WExited) (m_workers m) -> q = [] /\ running (m_workers m) = [].
Proof.
  intros [] Hall. destruct (m_workers m) as [|w ws] eqn:E; [by split; [apply ok_nobody0|]|].
  pose proof (Forall_inv Hall) as Hw. cbn in Hw. subst w. split; [apply ok_exited0; by left|].
  clear -Hall. induction Hall as [|w l -> _ IH]; [done|]. unfold running in *. cbn. done.
Qed.

Lemma section_waits q p h ws ss ph a s r : pool_ok q (Machine p h ws ss ph a s r) -> worker_section p h = WorkerWaits ->
  q = [] /\ tp_shutdown p = 0.
Proof.
  intros H E. pose proof (worker_section_spec q _ H) as E'. cbn in E'. rewrite E in E'. destruct q; [|done].
  destruct (tp_shutdown p =? 0) eqn:Es; [|done]. by bool_to_prop.
Qed.

Lemma section_exits q p h ws ss ph a s r : pool_ok q (Machine p h ws ss ph a s r) -> worker_section p h = WorkerExits ->
  tp_shutdown p <> 0 /\ q = [].
Proof.
  intros H E. pose proof (worker_section_spec q _ H) as E'. cbn in E'. rewrite E in E'. destruct q; [|done].
  destruct (tp_shutdown p =? 0) eqn:Es; [done|]. by bool_to_prop.
Qed.

Lemma section_takes q p h ws ss ph a s r b p' : pool_ok q (Machine p h ws ss ph a s r) -> worker_section p h = WorkerTakes b p' ->
  exists q', q = b :: q' /\
    p' = ThreadPool (tp_num_threads p) (head q') (last q') (Z.of_nat (length q')) (tp_max_queue_size p) (tp_shutdown p).
Proof.
  intros H E. pose proof (worker_section_spec q _ H) as E'. cbn in E'. rewrite E in E'.
  destruct q as [|c q']; [by destruct (tp_shutdown p =? 0)|]. injection E' as <- ->. by exists q'.
Qed.

Lemma worker_step_ok q p h ws ss ph a s r i p' : pool_ok q (Machine p h ws ss ph a s r) -> ws !! i = Some WReady ->
  (worker_section p h = WorkerWaits -> pool_ok q (Machine p h (<[i := WWaiting]> ws) ss ph a s r)) /\
  (worker_section p h = WorkerExits -> pool_ok q (Machine p h (<[i := WExited]> ws) ss ph a s r)) /\
  (forall b node ss', worker_section p h = WorkerTakes b p' -> h !! b = Some node -> signal wake_submitter ss ss' ->
     exists q', pool_ok q' (Machine p' h (<[i := WRunning b]> ws) ss' ph a (s ++ [(tn_function node, tn_arg node)]) r)).
Proof.
  intros H Hi. split; [|split].
  - intros E. destruct (section_waits _ _ _ _ _ _ _ _ _ H E) as [-> Hs].
    apply (worker_ok [] p h ws ss ph a s r i WReady); try done. intros _. cbn. lia.
  - intros E. destruct (section_exits _ _ _ _ _ _ _ _ _ H E) as [Hs ->].
    apply (worker_ok [] p h ws ss ph a s r i WReady); try done. intros _. cbn. lia.
  - intros b node ss' E Hb Hsig. destruct (section_takes _ _ _ _ _ _ _ _ _ _ _ H E) as (q' & -> & ->).
    exists q'. by apply (takes_ok q' p h ws ss).
Qed.

Lemma section_rejects p h b f v e p' h' : submit_section p h b f v = SubmitReturns e p' h' -> e <> 0 -> p' = p /\ h' = h.
Proof. intros E He. unfold submit_section in E. repeat case_match; by simplify_eq. Qed.

Lemma section_accepts q p h ws ss ph a s r b f v p' h' : pool_ok q (Machine p h ws ss ph a s r) -> h !! b = None ->
  submit_section p h (Some b) f v = SubmitReturns 0 p' h' ->
  tp_shutdown p = 0 /\ Z.of_nat (length q) < tp_max_queue_size p /\ h' = link h q b f v /\
  p' = ThreadPool (tp_num_threads p) (head (q ++ [b])) (Some b) (Z.of_nat (length (q ++ [b]))) (tp_max_queue_size p) (tp_shutdown p).
Proof.
  intros H Hb E. pose proof (submit_section_spec q _ (Some b) f v H) as E'. cbn in E'. rewrite E' in E by (by intros ? [= <-]).
  destruct (_ && _) eqn:Ec; [done|]. destruct (negb _) eqn:Es; [done|]. injection E as <- <-. bool_to_prop.
  destruct Ec as [Ec|Ec]; bool_to_prop; [repeat split; lia|done].
Qed.

Lemma submit_step_ok q p h ws ss ph a s r i f v : pool_ok q (Machine p h ws ss ph a s r) -> in_use ph ->
  ss !! i = Some (SReady f v) ->
  (forall b, submit_section p h b f v = SubmitWaits -> pool_ok q (Machine p h ws (<[i := SWaiting f v]> ss) ph a s r)) /\
  (forall b e p' h', submit_section p h b f v = SubmitReturns e p' h' -> e <> 0 -> (b = None -> oom = true) ->
     pool_ok q (Machine p' h' ws (<[i := SReturned e]> ss) ph a s r)) /\
  (forall b p' h' ws', h !! b = None -> submit_section p h (Some b) f v = SubmitReturns 0 p' h' -> signal wake_worker ws ws' ->
     exists q', pool_ok q' (Machine p' h' ws' (<[i := SReturned 0]> ss) ph (a ++ [(f, v)]) s r)).
Proof.
  intros H Hu Hi. pose proof (ok_submitters q _ H) as Hs. cbn in Hs. split; [|split].
  - intros b E. unfold submit_section in E. rewrite (ok_size q _ H : tp_queue_size p = _) in E.
    destruct (_ && _) eqn:Ec; [|by repeat case_match]. bool_to_prop.
    apply (submitter_ok q p h ws ss ph a s r i (SReady f v)); try done. intros _ _. lia.
  - intros b e p' h' E He Hoom.
    destruct (section_rejects _ _ _ _ _ _ _ _ E He) as [-> ->].
    apply (submitter_ok q p h ws ss ph a s r i (SReady f v)); try done. intros Ho Hw.
    apply Exists_insert_other in Hw; [|by intros []]. destruct (decide (tp_shutdown p = 0)) as [E0|Hn].
    + unfold submit_section in E. rewrite E0 in E. cbn in E. destruct b; [|by rewrite Hoom in Ho]. repeat case_match; by simplify_eq.
    + by destruct (ok_shut q _ H Hn).
  - intros b p' h' ws' Hb E Hsig.
    destruct (section_accepts _ _ _ _ _ _ _ _ _ _ _ _ _ _ H Hb E) as (Hs0 & Hq & -> & ->).
    exists (q ++ [b]). by apply (submit_done_ok q p h ws ss ph a s r i).
Qed.

Lemma submit_call_ok q p h ws ss ph a s r x : pool_ok q (Machine p h ws ss ph a s r) -> in_use ph -> ~ waits_s x ->
  pool_ok q (Machine p h ws (ss ++ [x]) ph a s r).
Proof.
  intros H Hu Hx. pose proof H as []. cbn in *. apply (threads_ok q p h ws ws ss); try done.
  - intros Ho. apply awake_snoc; auto.
  - intros Hs. destruct (ok_shut0 Hs). split; [done|]. by intros He%Exists_snoc_other.
  - by intros ->.
Qed.

Lemma step_ok l q m m' : pool_ok q m -> pool_step l m m' -> exists q', pool_ok q' m'.
Proof.
  intros H Hst.
  destruct Hst as [p h ws ss a s r Hn|p h ws ss a s r Hn|p h ws ss a s r Hn|p h ws ss ph a s r i Hi E|p h ws ss ph a s r i Hi E
    |p h ws ss ph a s r i b node p' ss' Hi E Hb Hsig|p h ws ss ph a s r i b node Hi Hb|p h ws ss ph a s r f v Hu
    |p h ws ss ph a s r i f v b Hu Hi E|p h ws ss ph a s r i f v b e p' h' Hu Hi E He Ho
    |p h ws ss ph a s r i f v b p' h' ws' Hu Hi Hb E Hsig|p h ws ss ph a s r i Hi|p h ws ss ph a s r i f v Hu Hi
    |p h ws ss a s r|p h ws ss i a s r Hn Hi|p h ws ss i a s r Hn].
  - exists q. by apply spawn_ok.
  - exists q. apply (shutdown_ok q p h ws ss Creating); [done|]. apply (ok_phase q _ H).
  - exists q. pose proof H as []. constructor; cbn in *; try done. by destruct ok_phase0 as (? & ? & ? & ?).
  - exists q. by apply (worker_step_ok q p h ws ss ph a s r i p).
  - exists q. by apply (worker_step_ok q p h ws ss ph a s r i p).
  - destruct (worker_step_ok q p h ws ss ph a s r i p' H Hi) as (_ & _ & Ht). by apply (Ht b node ss').
  - exists q. by apply (finishes_ok q p h ws ss ph a s r i b node).
  - exists q. apply submit_call_ok; [done|done|]. destruct f; by intros [].
  - exists q. by apply (submit_step_ok q p h ws ss ph a s r i f v H Hu Hi) with b.
  - exists q. by apply (submit_step_ok q p h ws ss ph a s r i f v H Hu Hi) with b.
  - destruct (submit_step_ok q p h ws ss ph a s r i f v H Hu Hi) as (_ & _ & Ht). by apply (Ht b).
  - exists q. apply (worker_ok q p h ws ss ph a s r i WWaiting); try done.
    eapply awake_insert; [exact (ok_workers q _ H)|exact Hi|done|cbn; lia].
  - exists q. apply (submitter_ok q p h ws ss ph a s r i (SWaiting f v)); try done. intros Ho.
    eapply awake_insert; [exact (ok_submitters q _ H Ho)|exact Hi|by intros []|cbn; lia].
  - exists q. pose proof (ok_phase q _ H) as (_ & E & Hs). cbn in E. 
    pose proof (shutdown_ok q p h ws ss Live a s r H Hs) as Ho. rewrite E in Ho. destruct p. exact Ho.
  - exists q. pose proof H as []. constructor; cbn in *; try done. destruct ok_phase0 as (? & ? & ? & Hj).
    repeat split; try done; [lia|]. intros j Hlt. destruct (decide (j = i)) as [->|?]; [done|]. apply Hj. lia.
  - exists q. pose proof (ok_phase q _ H) as (E & Hs & Hi & Hj). cbn in *.
    pose proof (joined_exited ws i ltac:(lia) Hj) as Hx. destruct (all_exited_drained q _ H Hx) as [-> _].
    pose proof H as []. cbn in *. rewrite ok_chain0, free_nothing. constructor; cbn; try done.
Qed.

Definition pool_inv (m : machine) : Prop := exists q, pool_ok q m.

Lemma pool_reaches_inv n max m : pool_reaches n max m -> pool_inv m.
Proof.
  intros (m0 & H0 & Hr). assert (H : pool_inv m0) by (exists []; by apply (create_ok n max)).
  clear H0. induction Hr as [|m1 m2 m3 [l Hst] _ IH]; [done|]. apply IH. destruct H as [q Hq]. by apply (step_ok l q m1).
Qed.

(** ** The pool gets through its work *)

Definition weight_w (w : worker) : nat := match w with WRunning _ => 2 | WReady => 1 | _ => 0 end.
Definition weight_s (x : submitter) : nat := match x with SReady _ _ => 5 | SWaiting _ _ => 4 | SReturned _ => 0 end.
Definition weight_ph (n workers : nat) (ph : phase) : nat :=
  match ph with Creating => 3 + 2 * n + 2 * (n - workers) | Live | Destroyed => 0 | Joining k => 1 + (n - k) end.

(** Steps left to take at most. *)
Definition work_left (m : machine) : nat :=
  3 * Z.to_nat (tp_queue_size (m_pool m)) + total weight_w (m_workers m) + total weight_s (m_submitters m) +
  weight_ph (Z.to_nat (tp_num_threads (m_pool m))) (length (m_workers m)) (m_phase m).

Lemma signal_weight {T} (wakes : T -> option T) (f : T -> nat) l l' :
  (forall t t', wakes t = Some t' -> f t' = S (f t)) -> signal wakes l l' -> (total f l' <= total f l + 1)%nat.
Proof.
  intros Hw [|l0 i t t' Hi Ht]; [lia|]. pose proof (total_insert f l0 i t t' Hi). rewrite (Hw _ _ Ht) in *. lia.
Qed.

Lemma broadcast_weight ws : (total weight_w (broadcast wake_worker ws) <= total weight_w ws + length ws)%nat.
Proof. induction ws as [|w ws IH]; [done|]. unfold total, broadcast in *. cbn in *. destruct w; cbn; lia. Qed.

Lemma wake_worker_weight t t' : wake_worker t = Some t' -> weight_w t' = S (weight_w t).
Proof. by destruct t; intros [= <-]. Qed.
Lemma wake_submitter_weight t t' : wake_submitter t = Some t' -> weight_s t' = S (weight_s t).
Proof. by destruct t; intros [= <-]. Qed.

Ltac weigh :=
  unfold work_left; cbn [m_pool m_workers m_submitters m_phase tp_queue_size tp_num_threads weight_ph begin_shutdown set_num_threads];
  rewrite ?length_insert;
  repeat match goal with
  | Hi : ?l !! ?i = Some ?x |- context [total ?f (<[?i := ?y]> ?l)] =>
      let E := fresh in pose proof (total_insert f l i x y Hi) as E; cbn [weight_w weight_s] in E;
      generalize dependent (total f (<[i := y]> l)); intros
  | Hs : signal wake_worker ?l ?l' |- context [total _ ?l'] =>
      apply (signal_weight _ weight_w _ _ wake_worker_weight) in Hs
  | Hs : signal wake_submitter ?l ?l' |- context [total _ ?l'] =>
      apply (signal_weight _ weight_s _ _ wake_submitter_weight) in Hs
  end.

Lemma runs_decrease q l m m' : pool_ok q m -> own l -> pool_step l m m' -> (work_left m' < work_left m)%nat.
Proof.
  intros H Hown Hst.
  destruct Hst as [p h ws ss a s r Hn|p h ws ss a s r Hn|p h ws ss a s r Hn|p h ws ss ph a s r i Hi E|p h ws ss ph a s r i Hi E
    |p h ws ss ph a s r i b node p' ss' Hi E Hb Hsig|p h ws ss ph a s r i b node Hi Hb|p h ws ss ph a s r f v Hu
    |p h ws ss ph a s r i f v b Hu Hi E|p h ws ss ph a s r i f v b e p' h' Hu Hi E He Ho
    |p h ws ss ph a s r i f v b p' h' ws' Hu Hi Hb E Hsig|p h ws ss ph a s r i Hi|p h ws ss ph a s r i f v Hu Hi
    |p h ws ss a s r|p h ws ss i a s r Hn Hi|p h ws ss i a s r Hn]; try done.
  - weigh. rewrite total_app, length_app. cbn. lia.
  - weigh. pose proof (ok_phase q _ H) as (_ & _ & _ & Hss). cbn in Hss. subst ss. pose proof (broadcast_weight ws). cbn. lia.
  - weigh. lia.
  - weigh. lia.
  - weigh. lia.
  - destruct (section_takes _ _ _ _ _ _ _ _ _ _ _ H E) as (q' & -> & ->). pose proof (ok_size _ _ H) as Hq.
    cbn in Hq. weigh. rewrite Hq. lia.
  - weigh. lia.
  - weigh. lia.
  - destruct (section_rejects _ _ _ _ _ _ _ _ E He) as [-> ->]. weigh. lia.
  - destruct (section_accepts _ _ _ _ _ _ _ _ _ _ _ _ _ _ H Hb E) as (_ & _ & _ & ->). pose proof (ok_size _ _ H) as Hq.
    cbn in Hq. pose proof (proj1 (signal_exited _ _ Hsig)) as Hl. weigh. rewrite Hq, Hl, length_app. cbn [length]. lia.
  - weigh. lia.
  - weigh. lia.
Qed.

(** ** Nobody is left waiting *)

Definition returned (x : submitter) : Prop := match x with SReturned _ => True | _ => False end.

(** Every accepted task has run, and no submission hangs unless malloc failed. *)
Definition all_served (m : machine) : Prop :=
  m_accepted m ≡ₚ m_ran m /\ (oom = false -> Forall returned (m_submitters m)).

Lemma signal_exists {T} (wakes : T -> option T) l : exists l', signal wakes l l'.
Proof.
  destruct (Forall_Exists_dec (fun t => wakes t = None) (fun t => exists t', wakes t = Some t')
              (fun t => match wakes t as o return {o = None} + {exists t', o = Some t'} with
                        | None => left eq_refl | Some x => right (ex_intro _ x eq_refl) end) l) as [H|H].
  - exists l. by constructor.
  - apply Exists_exists in H as (t & Hin & t' & Ht). apply list_elem_of_lookup in Hin as [i Hi]. eexists. by eapply signal_one.
Qed.

Section moves.
Context (q : list positive) (p : thread_pool) (h : heap) (ws : list worker) (ss : list submitter) (ph : phase) (a s r : list (F * V)).
Context (H : pool_ok q (Machine p h ws ss ph a s r)).
Let m := Machine p h ws ss ph a s r.

Lemma ready_worker_runs : total ready_w ws <> 0%nat -> exists m', pool_runs m m'.
Proof using H.
  intros (i & w & Hi & Hw)%total_pos. destruct w; try done. pose proof (worker_section_spec q _ H) as E. cbn in E.
  destruct q as [|b q'] eqn:Eq.
  - destruct (tp_shutdown p =? 0); eexists; exists Works; (split; [done|]);
      [by eapply step_worker_waits|by eapply step_worker_exits].
  - destruct (ok_chain _ _ H) as (_ & n & Hn & _). destruct (signal_exists wake_submitter ss) as [ss' Hss].
    eexists. exists Works. split; [done|]. by eapply step_worker_takes.
Qed.

Lemma running_worker_runs : running ws <> [] -> exists m', pool_runs m m'.
Proof using H.
  intros Hr. destruct (running ws) as [|b l] eqn:E; [done|]. assert (Hb : b ∈ running ws) by (rewrite E; by left).
  assert (Hn : is_Some (h !! b)) by (apply (ok_dom q _ H b), elem_of_app; by right). destruct Hn as [n Hn].
  apply list_elem_of_bind in Hb as (w & Hb & Hw). apply list_elem_of_lookup in Hw as [i Hi].
  destruct w; cbn in Hb; try by apply elem_of_nil in Hb. apply list_elem_of_singleton in Hb as ->.
  eexists. eexists. split; [|by eapply step_task_finishes]. done.
Qed.

Lemma ready_submitter_moves : in_use ph -> total ready_s ss <> 0%nat ->
  exists l m', match l with Blocks | Returns _ _ _ => True | _ => False end /\ pool_step l m m'.
Proof using H.
  intros Hu (i & x & Hi & Hx)%total_pos. destruct x as [f v| |]; try done.
  set (b := fresh (dom h)). assert (Hb : h !! b = None) by apply not_elem_of_dom, is_fresh.
  pose proof (submit_section_spec q _ (Some b) f v H) as E. cbn in E. specialize (E ltac:(by intros ? [= <-])).
  destruct (_ && _); [exists Blocks; eexists; split; [done|]; by eapply step_submit_waits|].
  destruct (negb _).
  - exists (Returns f v (-1)). eexists. split; [done|]. by eapply step_submit_fails.
  - destruct (signal_exists wake_worker ws) as [ws' Hws]. exists (Returns f v 0). eexists. split; [done|].
    by eapply step_submit_done.
Qed.

Lemma ready_submitter_runs : in_use ph -> total ready_s ss <> 0%nat -> exists m', pool_runs m m'.
Proof using H.
  intros Hu Hs. destruct (ready_submitter_moves Hu Hs) as (l & m' & Hl & Hst). exists m', l. split; [by destruct l|done].
Qed.
End moves.

Lemma drained_ran m : pool_ok [] m -> running (m_workers m) = [] -> m_accepted m ≡ₚ m_ran m.
Proof.
  intros H Hr. rewrite (ok_fifo _ _ H). rewrite app_nil_r, (ok_once _ _ H), Hr. by rewrite app_nil_r.
Qed.

Lemma nobody_waits_returned ss : total ready_s ss = 0%nat -> ~ Exists waits_s ss -> Forall returned ss.
Proof.
  intros Ht Hn. apply Forall_forall. intros x Hx. pose proof (total_zero ready_s ss Ht x Hx) as E.
  destruct x; [done| |done]. destruct Hn. apply Exists_exists. by eexists.
Qed.

Lemma live_progress q p h ws ss a s r : let m := Machine p h ws ss Live a s r in
  pool_ok q m -> all_served m \/ exists m', pool_runs m m'.
Proof.
  intros m H. destruct (decide (total ready_w ws = 0%nat)) as [Hw|Hw]; [|right; by eapply ready_worker_runs].
  destruct (decide (running ws = [])) as [Hr|Hr]; [|right; by eapply running_worker_runs].
  destruct (decide (total ready_s ss = 0%nat)) as [Hs|Hs]; [|right; by eapply ready_submitter_runs].
  left. pose proof (ok_phase _ _ H) as (Hn & Hl & Hsh). cbn in Hn, Hl, Hsh.
  assert (Hq : q = []).
  { destruct ws as [|w ws']; [by apply (ok_nobody _ _ H)|]. destruct w as [| |b|] eqn:E; try done.
    - pose proof (ok_workers _ _ H) as Ha. cbn [m_workers m] in Ha. specialize (Ha ltac:(by left)). rewrite Hw in Ha.
      destruct q; [done|]. cbn in Ha. lia.
    - apply (ok_exited _ _ H). by left. }
  subst q. split; [by apply drained_ran|]. intros Ho. apply nobody_waits_returned; [done|]. intros Hex.
  pose proof (ok_submitters _ _ H Ho Hex) as Hle. pose proof (ok_max _ _ H) as [_ Hm].
  change (m_submitters m) with ss in Hle. rewrite Hs in Hle. cbn [length] in Hle. lia.
Qed.

Definition torn_down (m : machine) : Prop := m_phase m = Destroyed /\ m_accepted m ≡ₚ m_ran m /\ m_heap m = ∅.

Lemma destroyed_torn_down q m : pool_ok q m -> m_phase m = Destroyed -> torn_down m.
Proof.
  intros H Hp. pose proof (ok_phase _ _ H) as Hph. rewrite Hp in Hph. destruct Hph as [_ Hx].
  destruct (all_exited_drained _ _ H Hx) as [-> Hr]. split; [done|]. split; [by apply drained_ran|].
  apply map_eq. intros b. rewrite lookup_empty. pose proof (ok_dom _ _ H b) as Hd. rewrite Hr in Hd. cbn in Hd.
  apply eq_None_not_Some. intros Hb%Hd. by apply elem_of_nil in Hb.
Qed.

Lemma joining_progress q p h ws ss k a s r : let m := Machine p h ws ss (Joining k) a s r in
  pool_ok q m -> exists m', pool_runs m m'.
Proof.
  intros m H. destruct (decide (total ready_w ws = 0%nat)) as [Hw|Hw]; [|by eapply ready_worker_runs].
  destruct (decide (running ws = [])) as [Hr|Hr]; [|by eapply running_worker_runs].
  pose proof (ok_phase _ _ H) as (Hn & Hsh & Hk & _). cbn in Hn, Hsh, Hk.
  destruct (decide (k < length ws)%nat) as [Hlt|Hge].
  - destruct (lookup_lt_is_Some_2 ws k Hlt) as [w Hi]. pose proof (list_elem_of_lookup_2 _ _ _ Hi) as Hin.
    pose proof (total_zero ready_w ws Hw w Hin) as E. destruct w as [| |b|]; [done| | |].
    + destruct (ok_shut _ _ H Hsh) as [Hnw _]. destruct Hnw. apply Exists_exists. by eexists.
    + exfalso. assert (Hb : b ∈ running ws); [|by rewrite Hr in Hb; apply elem_of_nil in Hb].
      unfold running. apply list_elem_of_bind. exists (WRunning b). split; [by left|done].
    + eexists. exists Works. split; [done|]. apply step_join; [lia|done].
  - eexists. exists Frees. split; [done|]. apply step_free. lia.
Qed.

Lemma own_phase l m m' : own l -> pool_step l m m' ->
  (m_phase m = Live -> m_phase m' = Live) /\
  (m_phase m = Destroyed \/ (exists k, m_phase m = Joining k) -> m_phase m' = Destroyed \/ (exists k, m_phase m' = Joining k)).
Proof.
  intros Ho Hst. destruct Hst; cbn; try done; split; intros Hp; try done; try (by eauto); try (by destruct Hp as [?|[? ?]]).
Qed.

Lemma runs_inv m m' : pool_inv m -> pool_runs m m' -> pool_inv m' /\ (work_left m' < work_left m)%nat.
Proof. intros [q H] (l & Ho & Hst). split; [by apply (step_ok l q m)|by apply (runs_decrease q l)]. Qed.

Lemma pool_runs_inevitable (P I : machine -> Prop) m :
  (forall m1 m2 l, own l -> pool_step l m1 m2 -> I m1 -> I m2) ->
  (forall m1, pool_inv m1 -> I m1 -> P m1 \/ exists m2, pool_runs m1 m2) ->
  pool_inv m -> I m -> inevitable pool_runs P m.
Proof.
  intros HI Hgo Hm Hi. apply (inevitable_acc _ _ (fun x => pool_inv x /\ I x) (ltof _ work_left)); [| | |done].
  - intros m1 m2 [H1 H2] Hst. destruct (runs_inv m1 m2 H1 Hst). split; [split; [done|]|done].
    destruct Hst as (l & Ho & Hst). by apply (HI m1 m2 l).
  - intros m1 [H1 H2]. by apply Hgo.
  - apply well_founded_ltof.
Qed.

(** ** What the users of the pool see of a step *)

(** The submitted tasks that have not returned yet, by their nodes. *)
Definition tasks (m : machine) : gmap positive (F * V) := (fun n => (tn_function n, tn_arg n)) <$> m_heap m.

#[local] Arguments tasks : simpl never.

Lemma lookup_tasks m b : tasks m !! b = job_of (m_heap m) b.
Proof. apply lookup_fmap. Qed.

Lemma queue_tasks q m : pool_ok q m -> tp_queue_size (m_pool m) <= Z.of_nat (size (tasks m)).
Proof.
  intros H. rewrite (ok_size _ _ H). pose proof (ok_nodup _ _ H) as Hnd. apply NoDup_app in Hnd as (Hnd & _ & _).
  unfold tasks. rewrite map_size_fmap, <- size_dom.
  rewrite <- (size_list_to_set (C := gset positive) q Hnd). apply inj_le, subseteq_size.
  intros b Hb%elem_of_list_to_set. apply elem_of_dom, (ok_dom _ _ H), elem_of_app. by left.
Qed.

Lemma step_tasks q l m m' : pool_ok q m -> pool_step l m m' ->
  match l with
  | Returns f v r => if r =? 0 then exists b, tasks m !! b = None /\ tasks m' = <[b := (f, v)]> (tasks m) else tasks m' = tasks m
  | Finishes b f v => tasks m !! b = Some (f, v) /\ tasks m' = delete b (tasks m)
  | _ => tasks m' = tasks m
  end.
Proof.
  intros H Hst.
  destruct Hst as [p h ws ss a s r Hn|p h ws ss a s r Hn|p h ws ss a s r Hn|p h ws ss ph a s r i Hi E|p h ws ss ph a s r i Hi E
    |p h ws ss ph a s r i b node p' ss' Hi E Hb Hsig|p h ws ss ph a s r i b node Hi Hb|p h ws ss ph a s r f v Hu
    |p h ws ss ph a s r i f v b Hu Hi E|p h ws ss ph a s r i f v b e p' h' Hu Hi E He Ho
    |p h ws ss ph a s r i f v b p' h' ws' Hu Hi Hb E Hsig|p h ws ss ph a s r i Hi|p h ws ss ph a s r i f v Hu Hi
    |p h ws ss a s r|p h ws ss i a s r Hn Hi|p h ws ss i a s r Hn]; try done.
  - rewrite lookup_tasks. cbn. split; [by apply job_of_node|]. unfold tasks. cbn. apply fmap_delete.
  - destruct (section_rejects _ _ _ _ _ _ _ _ E He) as [-> ->]. by rewrite (proj2 (Z.eqb_neq e 0) He).
  - destruct (section_accepts _ _ _ _ _ _ _ _ _ _ _ _ _ _ H Hb E) as (_ & _ & -> & _). cbn. exists b.
    rewrite lookup_tasks. unfold job_of at 1. cbn. rewrite Hb. split; [done|]. apply map_eq. intros c.
    rewrite lookup_tasks. cbn. pose proof (link_job q _ b f v H Hb c) as Hj. cbn in Hj. rewrite Hj.
    destruct (decide (c = b)) as [->|Hc]; [by rewrite lookup_insert_eq|by rewrite lookup_insert_ne, lookup_tasks].
  - pose proof (ok_phase _ _ H) as (El & Hs & Hk & Hj). cbn in *.
    pose proof (joined_exited ws i ltac:(lia) Hj) as Hx. destruct (all_exited_drained q _ H Hx) as [-> _].
    unfold tasks. cbn. pose proof (ok_chain _ _ H) as Hc. cbn in Hc. by rewrite Hc, free_nothing.
Qed.

(** Submitters nobody has to wake. *)
Definition none_waits (ss : list submitter) : Prop := Forall (fun x => wake_submitter x = None) ss.

Lemma none_waits_signal ss ss' : none_waits ss -> signal wake_submitter ss ss' -> ss' = ss.
Proof.
  intros Hn Hsig. destruct Hsig as [|l i t t' Hi Ht]; [done|]. pose proof (proj1 (Forall_lookup _ _) Hn i t Hi) as E. congruence.
Qed.

Lemma none_waits_broadcast ss : none_waits ss -> broadcast wake_submitter ss = ss.
Proof. induction 1 as [|x l E _ IH]; [done|]. unfold broadcast in *. cbn. by rewrite E, IH. Qed.

Lemma step_submitters l m m' : none_waits (m_submitters m) -> pool_step l m m' ->
  match l with
  | Calls f v => m_submitters m' = m_submitters m ++ [match f with Some f => SReady f v | None => SReturned (-1) end]
  | Blocks => tp_max_queue_size (m_pool m) <= tp_queue_size (m_pool m) /\ Exists (fun x => ready_s x = 1%nat) (m_submitters m)
  | Returns f v r => exists i, m_submitters m !! i = Some (SReady f v) /\ m_submitters m' = <[i := SReturned r]> (m_submitters m)
  | _ => m_submitters m' = m_submitters m
  end.
Proof.
  intros Hw Hst. destruct Hst; cbn in *; try done; try (by apply none_waits_broadcast); try (by eapply none_waits_signal); try (by eexists).
  - unfold submit_section in *. destruct (_ && _) eqn:E; [|by repeat case_match]. bool_to_prop. split; [done|].
    apply Exists_exists. eexists. split; [by eapply list_elem_of_lookup_2|done].
  - pose proof (proj1 (Forall_lookup _ _) Hw _ _ H0) as E. done.
Qed.

(** How the pool's phase moves. *)
Definition joining (ph : phase) : Prop := match ph with Joining _ => True | _ => False end.

Lemma step_phase l m m' : pool_step l m m' ->
  match l with
  | Destroys => m_phase m = Live /\ joining (m_phase m')
  | Frees => joining (m_phase m) /\ m_phase m' = Destroyed
  | _ => (m_phase m = Live -> m_phase m' = Live) /\ (joining (m_phase m) -> joining (m_phase m')) /\
         (m_phase m = Creating -> m_phase m' = Creating \/ m_phase m' = Live \/ joining (m_phase m')) /\
         (m_phase m = Destroyed -> m_phase m' = Destroyed)
  end.
Proof. intros Hst. destruct Hst; cbn; try done; repeat split; auto; by intros. Qed.

Lemma step_finishes b f v m m' : pool_step (Finishes b f v) m m' -> exists i, m_workers m !! i = Some (WRunning b).
Proof. intros Hst. inversion Hst; subst. by eexists. Qed.

Lemma step_workers l m m' : pool_step l m m' -> m_phase m <> Creating -> length (m_workers m') = length (m_workers m).
Proof.
  intros Hst Hph. destruct Hst; cbn in *; rewrite ?length_insert; try done.
  - by apply signal_exited.
  - unfold broadcast. apply length_fmap.
Qed.

(** What shutting the pool down adds to the work left. *)
Lemma destroys_work q m m' : pool_ok q m -> none_waits (m_submitters m) -> pool_step Destroys m m' ->
  (work_left m' <= work_left m + 2 * length (m_workers m) + 1)%nat.
Proof.
  intros H Hn Hst. inversion Hst; subst. pose proof (ok_phase _ _ H) as (_ & El & _). cbn in El.
  weigh. rewrite (none_waits_broadcast ss Hn). pose proof (broadcast_weight ws). lia.
Qed.

Lemma calls_work f v m m' : pool_step (Calls f v) m m' -> (work_left m' <= work_left m + 5)%nat.
Proof.
  intros Hst. inversion Hst; subst. weigh. rewrite total_app.
  destruct f as [f|]; [change (total weight_s [SReady f v]) with 5%nat|change (total weight_s [SReturned (-1)]) with 0%nat]; lia.
Qed.

Lemma step_constants l m m' : pool_step l m m' -> tp_max_queue_size (m_pool m') = tp_max_queue_size (m_pool m).
Proof.
  intros Hst. destruct Hst as [| | | | |? ? ? ? ? ? ? ? ? ? ? ? ? ? E| | | |? ? ? ? ? ? ? ? ? ? ? ? ? ? ? ? ? E|? ? ? ? ? ? ? ? ? ? ? ? ? ? ? ? ? ? E| | | | |]; cbn; try done.
  - unfold worker_section in E. repeat case_match; by simplify_eq.
  - unfold submit_section in E. repeat case_match; by simplify_eq.
  - unfold submit_section in E. repeat case_match; by simplify_eq.
Qed.
End pool.
Arguments thread_pool : clear implicits.
Arguments task_node : clear implicits.
Arguments machine : clear implicits.
Arguments label : clear implicits.
Arguments submitter : clear implicits.

(** ** The theorems *)

(** C32: whatever the workers, the submitters, the allocator and the destroying
    thread do and in whatever order, the queue holds as many nodes as its counter
    says and never more than its capacity, no critical section follows a null or
    freed pointer, and no running worker's task has been freed. *)
Theorem pool_never_faults {F V} oom n max (m : machine F V) : pool_reaches oom n max m ->
  0 <= tp_queue_size (m_pool m) <= tp_max_queue_size (m_pool m) /\
  (exists q, chain (m_heap m) (tp_queue_head (m_pool m)) q /\ Z.of_nat (length q) = tp_queue_size (m_pool m)) /\
  worker_section (m_pool m) (m_heap m) <> WorkerFaults /\
  (forall b f v, m_heap m !! b = None -> submit_section (m_pool m) (m_heap m) (Some b) f v <> SubmitFaults) /\
  (forall i b, m_workers m !! i = Some (WRunning b) -> is_Some (m_heap m !! b)).
Proof.
  intros [q H]%pool_reaches_inv. destruct (ok_max _ _ _ H). rewrite (ok_size _ _ _ H).
  split; [lia|]. split; [exists q; split; [apply (ok_chain _ _ _ H)|done]|]. split; [|split].
  - rewrite (worker_section_spec _ _ _ H). repeat case_match; done.
  - intros b f v Hb. rewrite (submit_section_spec _ _ _ (Some b) f v H) by (by intros ? [= <-]). repeat case_match; done.
  - intros i b Hi. apply (ok_dom _ _ _ H), elem_of_app. right. unfold running. apply list_elem_of_bind.
    exists (WRunning b). split; [by left|]. by apply list_elem_of_lookup_2 in Hi.
Qed.

(** C30: the tasks taken by workers are the accepted ones, in the order of their
    acceptance and none twice; those that have run were taken, and once
    thread_pool_destroy returns exactly the accepted tasks have run, each as often
    as it was accepted, and no task node is left allocated. *)
Theorem pool_tasks_once {F V} oom n max (m : machine F V) : pool_reaches oom n max m ->
  m_started m `prefix_of` m_accepted m /\ m_ran m ⊆+ m_started m /\ (m_phase m = Destroyed -> torn_down m).
Proof.
  intros [q H]%pool_reaches_inv. rewrite (ok_fifo _ _ _ H). split; [by eexists|].
  split; [rewrite (ok_once _ _ _ H); by apply submseteq_inserts_r|]. by apply (destroyed_torn_down oom q).
Qed.

(** C29: in a live pool no task and no submitter is forgotten: if no more calls come
    and no wait ends by itself, every schedule brings the pool, after finitely many steps, to a state where all
    accepted tasks have run and, unless malloc failed, every submission has
    returned.  No wake-up is lost. *)
Theorem pool_serves {F V} oom n max (m : machine F V) : pool_reaches oom n max m -> m_phase m = Live ->
  inevitable (pool_runs oom) (all_served oom) m.
Proof.
  intros Hr Hp. apply (pool_runs_inevitable oom _ (fun m => m_phase m = Live)); [| |by eapply pool_reaches_inv|done].
  - intros m1 m2 l Ho Hst. by apply (own_phase oom l).
  - intros [p h ws ss ph a s r] [q H] E. cbn in E. subst ph. by apply (live_progress oom q).
Qed.

(** thread_pool_destroy returns, whatever the other threads do: the workers
    drain the queue and exit, and are all joined. *)
Theorem pool_teardown {F V} oom n max (m : machine F V) i : pool_reaches oom n max m -> m_phase m = Joining i ->
  inevitable (pool_runs oom) torn_down m.
Proof.
  intros Hr Hp.
  apply (pool_runs_inevitable oom _ (fun m => m_phase m = Destroyed \/ exists k, m_phase m = Joining k));
    [| |by eapply pool_reaches_inv|by right; exists i].
  - intros m1 m2 l Ho Hst. by apply (own_phase oom l).
  - intros [p h ws ss ph a s r] [q H] [E|[k E]]; cbn in E; subst ph; [left; by apply (destroyed_torn_down oom q)|right].
    by apply (joining_progress oom q).
Qed.

(** ** A pool with one worker and room for one task *)

Tactic Notation "go" uconstr(c) := eapply rtc_l; [eexists; eapply c; try done; try reflexivity|cbn].
Ltac stop := apply rtc_refl.

(** Two submissions: the second waits for room. *)
Definition full_pool : machine Z Z :=
  Machine (ThreadPool 1 (Some 1%positive) (Some 1%positive) 1 1 0) {[ 1%positive := TaskNode 7 70 None ]} [WReady]
    [SReturned 0; SWaiting 8 80] Live [(7, 70)] [] [].

Lemma full_pool_reached oom : pool_reaches oom 1 1 full_pool.
Proof.
  eexists. split; [reflexivity|]. go step_spawn. go step_created. go (step_submit_call oom _ _ _ _ _ _ _ _ (Some 7) 70).
  go (step_submit_call oom _ _ _ _ _ _ _ _ (Some 8) 80).
  go (step_submit_done oom _ _ _ _ _ _ _ _ 0 7 70 1%positive). { by apply signal_none, Forall_singleton. }
  go (step_submit_waits oom _ _ _ _ _ _ _ _ 1 8 80 None). stop.
Qed.

Lemma pool_never_faults_witness : pool_reaches true 1 1 full_pool /\
  (forall b f v, m_heap full_pool !! b = None -> submit_section (m_pool full_pool) (m_heap full_pool) (Some b) f v <> SubmitFaults).
Proof. split; [apply full_pool_reached|]. apply (pool_never_faults true 1 1 full_pool (full_pool_reached true)). Defined.

Lemma pool_tasks_once_witness : pool_reaches true 1 1 full_pool /\ m_started full_pool `prefix_of` m_accepted full_pool.
Proof. split; [apply full_pool_reached|]. apply (pool_tasks_once true 1 1 full_pool (full_pool_reached true)). Defined.

Lemma pool_serves_witness : inevitable (pool_runs false) (all_served false) full_pool.
Proof. apply (pool_serves false 1 1 full_pool (full_pool_reached false)). reflexivity. Defined.

(** thread_pool_destroy has been called while the second submission waits. *)
Definition closing_pool : machine Z Z :=
  Machine (ThreadPool 1 (Some 1%positive) (Some 1%positive) 1 1 1) {[ 1%positive := TaskNode 7 70 None ]} [WReady]
    [SReturned 0; SReady 8 80] (Joining 0) [(7, 70)] [] [].

Lemma closing_pool_reached oom : pool_reaches oom 1 1 closing_pool.
Proof.
  destruct (full_pool_reached oom) as (m0 & E & Hr). exists m0. split; [done|]. etrans; [exact Hr|]. go step_destroy. stop.
Qed.

Lemma pool_teardown_witness : pool_reaches true 1 1 closing_pool /\ inevitable (pool_runs true) torn_down closing_pool.
Proof. split; [apply closing_pool_reached|]. apply (pool_teardown true 1 1 closing_pool 0 (closing_pool_reached true)). reflexivity. Defined.

(** thread_pool_destroy joins the workers but not the submitters it wakes: the pool,
    its mutex included, can be freed under a submission that waited for room. *)
Example freed_under_submitter : exists m, pool_reaches false 1 1 m /\
  m_phase m = Destroyed /\ m_submitters m = [SReturned 0; SReady (8 : Z) (80 : Z)].
Proof.
  destruct (closing_pool_reached false) as (m0 & E & Hr).
  exists (Machine (ThreadPool 1 None None 0 1 1) ∅ [WExited] [SReturned 0; SReady 8 80] Destroyed [(7, 70)] [(7, 70)] [(7, 70)]).
  split; [|by split]. exists m0. split; [done|]. etrans; [exact Hr|].
  go (step_worker_takes _ _ _ _ _ _ _ _ _ 0). { by apply signal_none, Forall_cons; split; [|apply Forall_singleton]. }
  go (step_task_finishes _ _ _ _ _ _ _ _ _ 0). go (step_worker_exits _ _ _ _ _ _ _ _ _ 0).
  go step_join. go step_free. stop.
Qed.

(** A submitter that was woken for a free place and whose malloc fails returns
    without waking the next one, which waits for room in an empty queue. *)
Definition hung_pool : machine Z Z :=
  Machine (ThreadPool 1 None None 0 1 0) ∅ [WWaiting] [SReturned 0; SReturned (-1); SWaiting 9 90] Live [(7, 70)] [(7, 70)] [(7, 70)].

Example submission_hangs_after_malloc_failure :
  pool_reaches true 1 1 hung_pool /\ forall m', ~ pool_runs true hung_pool m'.
Proof.
  split.
  - destruct (full_pool_reached true) as (m0 & E & Hr). exists m0. split; [done|]. etrans; [exact Hr|].
    go (step_submit_call _ _ _ _ _ _ _ _ _ (Some 9) 90). go (step_submit_waits _ _ _ _ _ _ _ _ _ 2 9 90 None).
    go (step_worker_takes _ _ _ _ _ _ _ _ _ 0). { by apply (signal_one _ _ 1 (SWaiting 8 80) (SReady 8 80)). }
    go (step_submit_fails _ _ _ _ _ _ _ _ _ 1 8 80 None). go (step_task_finishes _ _ _ _ _ _ _ _ _ 0).
    go (step_worker_waits _ _ _ _ _ _ _ _ _ 0). stop.
  - intros m' (l & Ho & Hst). inversion Hst; subst; try done;
      repeat match goal with
      | H : _ !! ?i = Some _ |- _ => destruct i as [|[|[|]]]; cbn in H; simplify_eq
      end.
Qed.
