(* ===== verification/TcpServer.v ===== *)
(** * TCP server (server/network/tcp_server.c)

    The listening thread of tcp_server_create, tcp_server_start, tcp_server_stop and
    tcp_server_destroy, together with the pool whose tasks are the connections.  A
    task is client_task_wrapper with its socket as argument: the handler, closing
    the socket, and releasing the connection slot.  A handler is one of Handler.v;
    here it only returns at some time, in Whole.v it runs. *)

From stdpp Require Import base tactics numbers list gmap relations.
From Stdlib Require Import ZArith Lia Wf_nat.
From S2P Require Import Prelude Types ThreadPool.

#[local] Open Scope Z_scope.

(** Where the listening thread is. *)
Inductive main_pc :=
  | MCreating                        (** in thread_pool_create *)
  | MCreated                         (** tcp_server_create has returned *)
  | MLoop                            (** at [while (server->running)] *)
  | MSem                             (** at sem_timedwait *)
  | MCheck                           (** at the second test of [running] *)
  | MAccept                          (** at accept *)
  | MClient (client_fd : Z)          (** at the malloc of the task argument *)
  | MSubmit (i : nat) (client_fd : Z)   (** in its [i]-th call of thread_pool_submit *)
  | MStopped                         (** tcp_server_start has returned *)
  | MJoining                         (** in thread_pool_destroy *)
  | MDone                            (** tcp_server_destroy has returned *)
  | MFailed.                         (** tcp_server_create has returned NULL *)

Record tcp_server := TcpServer {
  ts_pool : machine unit Z;
  ts_running : bool; ts_listening : bool;    (** [running]; the listening socket accepts *)
  ts_sem : Z;                                (** g_conn_semaphore *)
  ts_open : gset Z;                          (** open client sockets *)
  ts_closed : gset positive;                 (** tasks that have closed their socket *)
  ts_main : main_pc }.

Section server.
Context (oom : bool).

(** [None] is the result NULL before the pool is created: no handler, or socket,
    bind or listen failed. *)
Definition tcp_server_create (handler socket bind listen : bool) (num_threads : Z) : option tcp_server :=
  if negb handler || negb socket || negb bind || negb listen then None
  else pool ← thread_pool_create num_threads MAX_CONNECTIONS;
       Some (TcpServer pool false true 0 ∅ ∅ MCreating).

(** Steps of the pool that concern nobody else. *)
Definition quiet (l : label unit Z) : Prop := match l with Works | Blocks | Returns _ _ _ => True | _ => False end.

(** accept returns when a client connects, or when the socket was shut down. *)
Inductive tcp_step : tcp_server -> tcp_server -> Prop :=
  | tcp_pool l p p' r ls s o c pc : quiet l -> pool_step oom l p p' ->
      tcp_step (TcpServer p r ls s o c pc) (TcpServer p' r ls s o c pc)
  | tcp_created p r ls s o c : m_phase p = Live ->
      tcp_step (TcpServer p r ls s o c MCreating) (TcpServer p r ls MAX_CONNECTIONS o c MCreated)
  | tcp_create_fails p p' r ls s o c : pool_step oom Frees p p' ->
      tcp_step (TcpServer p r ls s o c MCreating) (TcpServer p' r false s o c MFailed)
  | tcp_start p r ls s o c : tcp_step (TcpServer p r ls s o c MCreated) (TcpServer p true ls s o c MLoop)
  | tcp_loop p r ls s o c :
      tcp_step (TcpServer p r ls s o c MLoop) (TcpServer p r ls s o c (if r then MSem else MStopped))
  | tcp_timeout p r ls s o c : tcp_step (TcpServer p r ls s o c MSem) (TcpServer p r ls s o c MLoop)
  | tcp_slot p r ls s o c : 0 < s -> tcp_step (TcpServer p r ls s o c MSem) (TcpServer p r ls (s - 1) o c MCheck)
  | tcp_check p ls s o c : tcp_step (TcpServer p true ls s o c MCheck) (TcpServer p true ls s o c MAccept)
  | tcp_check_stops p ls s o c : tcp_step (TcpServer p false ls s o c MCheck) (TcpServer p false ls (s + 1) o c MStopped)
  | tcp_accept_fails p r s o c : tcp_step (TcpServer p r false s o c MAccept) (TcpServer p r false (s + 1) o c MLoop)
  | tcp_accept p r s o c fd : fd ∉ o ->
      tcp_step (TcpServer p r true s o c MAccept) (TcpServer p r true s (o ∪ {[fd]}) c (MClient fd))
  | tcp_no_memory p r ls s o c fd : oom = true ->
      tcp_step (TcpServer p r ls s o c (MClient fd)) (TcpServer p r ls (s + 1) (o ∖ {[fd]}) c MLoop)
  | tcp_submit p p' r ls s o c fd : pool_step oom (Calls (Some tt) fd) p p' ->
      tcp_step (TcpServer p r ls s o c (MClient fd)) (TcpServer p' r ls s o c (MSubmit (length (m_submitters p)) fd))
  | tcp_submitted p r ls s o c i fd : m_submitters p !! i = Some (SReturned 0) ->
      tcp_step (TcpServer p r ls s o c (MSubmit i fd)) (TcpServer p r ls s o c MLoop)
  | tcp_submit_fails p r ls s o c i fd e : m_submitters p !! i = Some (SReturned e) -> e <> 0 ->
      tcp_step (TcpServer p r ls s o c (MSubmit i fd)) (TcpServer p r ls (s + 1) (o ∖ {[fd]}) c MLoop)
  | tcp_handler_returns p r ls s o c pc i b fd : m_workers p !! i = Some (WRunning b) -> tasks p !! b = Some (tt, fd) -> b ∉ c ->
      tcp_step (TcpServer p r ls s o c pc) (TcpServer p r ls s (o ∖ {[fd]}) (c ∪ {[b]}) pc)
  | tcp_task_returns p p' r ls s o c pc b fd : b ∈ c -> pool_step oom (Finishes b tt fd) p p' ->
      tcp_step (TcpServer p r ls s o c pc) (TcpServer p' r ls (s + 1) o (c ∖ {[b]}) pc)
  | tcp_destroy p p' r ls s o c : pool_step oom Destroys p p' ->
      tcp_step (TcpServer p r ls s o c MStopped) (TcpServer p' false false (s + 1) o c MJoining)
  | tcp_destroyed p p' r ls s o c : pool_step oom Frees p p' ->
      tcp_step (TcpServer p r ls s o c MJoining) (TcpServer p' r ls s o c MDone).

(** What happens to the server from outside: the signal handler of main.c, from when
    tcp_server_create has returned, accept failing on a socket that listens, and waits
    that end spuriously. *)
Inductive tcp_moves : tcp_server -> tcp_server -> Prop :=
  | moves_step s s' : tcp_step s s' -> tcp_moves s s'
  | moves_signal p r ls s o c pc : pc <> MCreating -> pc <> MFailed -> pc <> MDone ->
      tcp_moves (TcpServer p r ls s o c pc) (TcpServer p false false s o c pc)
  | moves_accept_fails p r ls s o c : tcp_moves (TcpServer p r ls s o c MAccept) (TcpServer p r ls (s + 1) o c MLoop)
  | moves_wakes p p' r ls s o c pc : pool_step oom Wakes p p' ->
      tcp_moves (TcpServer p r ls s o c pc) (TcpServer p' r ls s o c pc).

Definition tcp_reaches (n : Z) (s : tcp_server) : Prop :=
  exists s0, tcp_server_create true true true true n = Some s0 /\ rtc tcp_moves s0 s.

(** ** The invariant *)

(** The connection slot and the socket in the hands of the listening thread. *)
Definition handed_over (ss : list (submitter unit Z)) (i : nat) : bool :=
  match ss !! i with Some (SReturned r) => r =? 0 | _ => false end.
Definition main_slots (pc : main_pc) (ss : list (submitter unit Z)) : Z :=
  match pc with
  | MCheck | MAccept | MClient _ => 1
  | MSubmit i _ => if handed_over ss i then 0 else 1
  | _ => 0
  end.
Definition main_sockets (pc : main_pc) (ss : list (submitter unit Z)) : list Z :=
  match pc with
  | MClient fd => [fd]
  | MSubmit i fd => if handed_over ss i then [] else [fd]
  | _ => []
  end.

(** The tasks whose socket is still open, with their sockets. *)
Definition served (p : machine unit Z) (c : gset positive) : gmap positive Z :=
  snd <$> filter (fun kv => kv.1 ∉ c) (tasks p).

(** The slots there are: one more after tcp_server_stop. *)
Definition slots (pc : main_pc) : Z :=
  match pc with MCreating | MFailed => 0 | MJoining | MDone => MAX_CONNECTIONS + 1 | _ => MAX_CONNECTIONS end.

Definition main_phase (pc : main_pc) (ph : phase) : Prop :=
  match pc with
  | MCreating => ph = Creating \/ ph = Live \/ joining ph
  | MJoining => joining ph
  | MDone | MFailed => ph = Destroyed
  | _ => ph = Live
  end.

(** A server told to stop has its listening socket shut down, and stops only then. *)
Definition told_to_stop (pc : main_pc) (running listening : bool) : Prop :=
  match pc with
  | MCreating | MCreated | MFailed => True
  | MStopped | MJoining | MDone => running = false /\ listening = false
  | _ => running = false -> listening = false
  end.

Record tcp_ok (s : tcp_server) : Prop := {
  tk_pool : pool_inv oom (ts_pool s);
  tk_max : tp_max_queue_size (m_pool (ts_pool s)) = MAX_CONNECTIONS;
  tk_slots : ts_sem s + main_slots (ts_main s) (m_submitters (ts_pool s)) + Z.of_nat (size (tasks (ts_pool s))) = slots (ts_main s);
  tk_sem : (match ts_main s with MJoining | MDone => 1 | _ => 0 end) <= ts_sem s;
  tk_sockets : main_sockets (ts_main s) (m_submitters (ts_pool s)) ++ (map_to_list (served (ts_pool s) (ts_closed s))).*2
               ≡ₚ elements (ts_open s);
  tk_closed : ts_closed s ⊆ dom (tasks (ts_pool s));
  tk_none_waits : none_waits (m_submitters (ts_pool s));
  tk_submission : forall i f fd, m_submitters (ts_pool s) !! i = Some (SReady f fd) -> ts_main s = MSubmit i fd;
  tk_latest : forall i fd, ts_main s = MSubmit i fd ->
     exists x, m_submitters (ts_pool s) !! i = Some x /\ (x = SReady tt fd \/ exists r, x = SReturned r);
  tk_phase : main_phase (ts_main s) (m_phase (ts_pool s));
  tk_told : told_to_stop (ts_main s) (ts_running s) (ts_listening s) }.

(** ** Tasks and their sockets *)

Lemma lookup_served p c b fd : served p c !! b = Some fd <-> (b ∉ c) /\ exists u, tasks p !! b = Some (u, fd).
Proof.
  unfold served. rewrite lookup_fmap, fmap_Some. setoid_rewrite map_lookup_filter_Some. cbn. split.
  - intros ([u x] & [Hb Hc] & ->). split; [done|]. by exists u.
  - intros [Hc [u Hb]]. by exists (u, fd).
Qed.

Lemma served_ext p p' c c' : (forall b fd, served p' c' !! b = Some fd <-> served p c !! b = Some fd) -> served p' c' = served p c.
Proof. intros H. apply map_eq. intros b. apply option_eq. intros fd. apply H. Qed.

Lemma served_same p p' c : tasks p' = tasks p -> served p' c = served p c.
Proof. unfold served. by intros ->. Qed.

Lemma served_add p p' c b fd : c ⊆ dom (tasks p) -> tasks p !! b = None -> tasks p' = <[b := (tt, fd)]> (tasks p) ->
  served p c !! b = None /\ served p' c = <[b := fd]> (served p c).
Proof.
  intros Hc Hb E. assert (Hn : b ∉ c) by (intros Hin; apply Hc, elem_of_dom in Hin as [? ?]; congruence).
  split; [unfold served; rewrite lookup_fmap; apply fmap_None, map_lookup_filter_None; by left|].
  unfold served. rewrite E, map_filter_insert_True by done. apply fmap_insert.
Qed.

Lemma served_close p c b fd : tasks p !! b = Some (tt, fd) -> b ∉ c ->
  served p c !! b = Some fd /\ served p (c ∪ {[b]}) = delete b (served p c).
Proof.
  intros Hb Hc. split; [apply lookup_served; by eauto|]. apply map_eq. intros x. apply option_eq. intros y.
  rewrite lookup_delete_Some, !lookup_served, not_elem_of_union, not_elem_of_singleton. firstorder.
Qed.

Lemma served_end p p' c b : b ∈ c -> tasks p' = delete b (tasks p) -> served p' (c ∖ {[b]}) = served p c.
Proof.
  intros Hc E. apply map_eq. intros x. apply option_eq. intros y. rewrite !lookup_served, E.
  setoid_rewrite lookup_delete_Some. destruct (decide (x = b)) as [->|Hx]; [firstorder|]. set_solver.
Qed.

Lemma open_add (o : gset Z) fd l : fd ∉ o -> l ≡ₚ elements o -> fd :: l ≡ₚ elements (o ∪ {[fd]}).
Proof. intros Hn Hl. rewrite (comm_L (∪) o), elements_union_singleton by done. by rewrite Hl. Qed.

Lemma open_remove (o : gset Z) fd l : fd :: l ≡ₚ elements o -> l ≡ₚ elements (o ∖ {[fd]}).
Proof.
  intros Hl. assert (Hin : fd ∈ o) by (apply elem_of_elements; rewrite <- Hl; by left).
  apply (Permutation_cons_inv (a := fd)). rewrite Hl.
  assert (E : o = {[fd]} ∪ (o ∖ {[fd]})) by (apply leibniz_equiv; intros x; destruct (decide (x = fd)); set_solver).
  rewrite E at 1. rewrite elements_union_singleton by set_solver. done.
Qed.

(** ** Steps keep the invariant *)

Lemma handed_over_ready ss i f v : ss !! i = Some (SReady f v) -> handed_over ss i = false.
Proof. unfold handed_over. by intros ->. Qed.

Lemma handed_over_returned ss i r : ss !! i = Some (SReturned r) -> handed_over ss i = (r =? 0).
Proof. unfold handed_over. by intros ->. Qed.

Lemma tcp_never_blocks s p' : tcp_ok s -> ~ pool_step oom Blocks (ts_pool s) p'.
Proof.
  intros H Hst. destruct (tk_pool s H) as [q Hq].
  destruct (step_submitters oom Blocks _ _ (tk_none_waits s H) Hst) as [Hfull (x & Hx & Hr)%Exists_exists].
  apply list_elem_of_lookup in Hx as [i Hi]. destruct x as [f v| |]; try done.
  pose proof (tk_submission s H i f v Hi) as Hpc. pose proof (tk_slots s H) as Hs. pose proof (tk_sem s H) as H0.
  rewrite Hpc in Hs, H0. cbn in Hs, H0. rewrite (handed_over_ready _ _ _ _ Hi) in Hs.
  pose proof (queue_tasks oom q _ Hq). rewrite (tk_max s H) in Hfull. lia.
Qed.

Definition phase_kept (ph ph' : phase) : Prop :=
  (ph = Live -> ph' = Live) /\ (joining ph -> joining ph') /\
  (ph = Creating -> ph' = Creating \/ ph' = Live \/ joining ph') /\ (ph = Destroyed -> ph' = Destroyed).

Lemma main_phase_kept pc ph ph' : phase_kept ph ph' -> main_phase pc ph -> main_phase pc ph'.
Proof. intros (H1 & H2 & H3 & H4). destruct pc; cbn; auto. intros [E|[E|E]]; auto. Qed.

Implicit Types (p : machine unit Z).

(** The pool moved, but neither tasks nor submissions came or went. *)
Lemma same_ok p p' r ls s o c pc : tcp_ok (TcpServer p r ls s o c pc) -> pool_inv oom p' ->
  tp_max_queue_size (m_pool p') = tp_max_queue_size (m_pool p) -> tasks p' = tasks p ->
  m_submitters p' = m_submitters p -> phase_kept (m_phase p) (m_phase p') -> tcp_ok (TcpServer p' r ls s o c pc).
Proof.
  intros [] Hp Hm Ht Hs Hph. constructor; cbn in *; rewrite ?Hs, ?Hm, ?Ht, ?(served_same _ _ _ Ht); try done.
  by eapply main_phase_kept.
Qed.

Lemma pool_inv_step l (p p' : machine unit Z) : pool_inv oom p -> pool_step oom l p p' -> pool_inv oom p'.
Proof. intros [q H] Hst. by apply (step_ok oom l q p). Qed.

(** The submission of the listening thread returns. *)
Lemma returns_ok p p' r ls s o c pc fd e : tcp_ok (TcpServer p r ls s o c pc) -> pool_step oom (Returns tt fd e) p p' ->
  tcp_ok (TcpServer p' r ls s o c pc).
Proof.
  intros H Hst. pose proof H as []. cbn in *. destruct tk_pool0 as [q Hq].
  destruct (step_submitters oom _ _ _ tk_none_waits0 Hst) as (i & Hi & Hs).
  pose proof (tk_submission0 i tt fd Hi) as ->. pose proof (step_tasks oom q _ _ _ Hq Hst) as Ht. cbn in Ht.
  assert (Hlt : (i < length (m_submitters p))%nat) by (by apply lookup_lt_Some in Hi).
  assert (Hnew : m_submitters p' !! i = Some (SReturned e)) by (rewrite Hs; by apply list_lookup_insert_eq).
  cbn in tk_slots0, tk_sockets0. rewrite (handed_over_ready _ _ _ _ Hi) in tk_slots0, tk_sockets0.
  assert (Hh : handed_over (m_submitters p') i = (e =? 0)) by (unfold handed_over; by rewrite Hnew).
  constructor; cbn [ts_pool ts_main ts_sem ts_open ts_closed main_slots main_sockets slots main_phase] in *; rewrite ?Hh.
  - by eapply pool_inv_step; [eexists|].
  - by rewrite (step_constants oom _ _ _ Hst).
  - destruct (e =? 0); [|by rewrite Ht]. destruct Ht as (b & Hb & ->). rewrite map_size_insert_None by done. lia.
  - done.
  - destruct (e =? 0); [|by rewrite (served_same _ _ _ Ht)]. destruct Ht as (b & Hb & Ht).
    destruct (served_add p p' c b fd tk_closed0 Hb Ht) as [Hn ->]. by rewrite map_to_list_insert.
  - destruct (e =? 0); [|by rewrite Ht]. destruct Ht as (b & _ & ->). rewrite dom_insert_L. set_solver.
  - rewrite Hs. by apply Forall_insert.
  - intros j f v Hj. rewrite Hs in Hj. apply list_lookup_insert_Some in Hj as [(_ & ? & _)|[Hij Hj]]; [done|].
    apply tk_submission0 in Hj. congruence.
  - intros j fd' [= <- <-]. exists (SReturned e). split; [done|]. right. by eexists.
  - pose proof (step_phase oom _ _ _ Hst) as (Hp & _). auto.
  - exact tk_told0.
Qed.

Lemma calm_ok l p p' r ls s o c pc : tcp_ok (TcpServer p r ls s o c pc) -> l = Works \/ l = Wakes -> pool_step oom l p p' ->
  tcp_ok (TcpServer p' r ls s o c pc).
Proof.
  intros H Hl Hst. destruct (tk_pool _ H) as [q Hq]. apply (same_ok p); [done|eapply pool_inv_step; [by eexists|done]| | | |].
  - apply (step_constants oom _ _ _ Hst).
  - pose proof (step_tasks oom q _ _ _ Hq Hst). by destruct Hl as [-> | ->].
  - pose proof (step_submitters oom _ _ _ (tk_none_waits _ H) Hst). by destruct Hl as [-> | ->].
  - pose proof (step_phase oom _ _ _ Hst). by destruct Hl as [-> | ->].
Qed.

Lemma quiet_ok l p p' r ls s o c pc : tcp_ok (TcpServer p r ls s o c pc) -> quiet l -> pool_step oom l p p' ->
  tcp_ok (TcpServer p' r ls s o c pc).
Proof.
  intros H Hl Hst. destruct l as [| | | |[] fd e| | |]; try done.
  - apply (calm_ok Works p); auto.
  - by destruct (tcp_never_blocks _ p' H).
  - by apply (returns_ok p p' r ls s o c pc fd e).
Qed.

(** While the listening thread is not in thread_pool_submit nothing is submitted. *)
Lemma idle_submitters s : tcp_ok s -> (match ts_main s with
    MSubmit i _ => exists r, m_submitters (ts_pool s) !! i = Some (SReturned r) | _ => True end) ->
  forall i f fd, m_submitters (ts_pool s) !! i <> Some (SReady f fd).
Proof.
  intros H Hpc i f fd Hi. pose proof (tk_submission s H i f fd Hi) as E. rewrite E in Hpc. destruct Hpc as [r Hr]. congruence.
Qed.

(** The listening thread moves by itself. *)
Lemma main_ok p r r' ls ls' s s' o o' c pc pc' : tcp_ok (TcpServer p r ls s o c pc) ->
  s' + main_slots pc' (m_submitters p) - slots pc' = s + main_slots pc (m_submitters p) - slots pc ->
  (match pc' with MJoining | MDone => 1 | _ => 0 end) <= s' ->
  main_sockets pc' (m_submitters p) ++ (map_to_list (served p c)).*2 ≡ₚ elements o' ->
  (match pc with MSubmit i _ => exists r, m_submitters p !! i = Some (SReturned r) | _ => True end) ->
  match pc' with MSubmit _ _ => False | _ => True end -> main_phase pc' (m_phase p) -> told_to_stop pc' r' ls' ->
  tcp_ok (TcpServer p r' ls' s' o' c pc').
Proof.
  intros H Hs H0 Hk Hsub Hn Hph Htold. pose proof (idle_submitters _ H Hsub) as Hidle. destruct H.
  constructor; cbn in *; try done; [lia| |by intros i fd ->]. intros i f fd Hi. by apply Hidle in Hi.
Qed.

Lemma submit_ok p p' r ls s o c fd : tcp_ok (TcpServer p r ls s o c (MClient fd)) -> pool_step oom (Calls (Some tt) fd) p p' ->
  tcp_ok (TcpServer p' r ls s o c (MSubmit (length (m_submitters p)) fd)).
Proof.
  intros H Hst. pose proof H as []. cbn in *. destruct tk_pool0 as [q Hq].
  pose proof (step_submitters oom _ _ _ tk_none_waits0 Hst) as Hs. cbn in Hs.
  pose proof (step_tasks oom q _ _ _ Hq Hst) as Ht. cbn in Ht. pose proof (idle_submitters _ H I) as Hidle. cbn in Hidle.
  assert (Hnew : m_submitters p' !! length (m_submitters p) = Some (SReady tt fd)).
  { rewrite Hs. by rewrite list_lookup_middle. }
  constructor; cbn; rewrite ?(handed_over_ready _ _ _ _ Hnew), ?Ht, ?(served_same _ _ _ Ht); try done.
  - eapply pool_inv_step; [by eexists|done].
  - by rewrite (step_constants oom _ _ _ Hst).
  - rewrite Hs. apply Forall_app. split; [done|]. by apply Forall_singleton.
  - intros i f fd' Hi. rewrite Hs in Hi. apply lookup_app_Some in Hi as [Hi|[Hle Hi]]; [by apply Hidle in Hi|].
    destruct (i - length (m_submitters p))%nat as [|n] eqn:E; cbn in Hi; simplify_eq. f_equal. lia.
  - intros i fd' [= <- <-]. exists (SReady tt fd). split; [done|]. by left.
  - pose proof (step_phase oom _ _ _ Hst) as (Hp & _). auto.
Qed.

Lemma handler_ok p r ls s o c pc b fd : tcp_ok (TcpServer p r ls s o c pc) -> tasks p !! b = Some (tt, fd) -> b ∉ c ->
  tcp_ok (TcpServer p r ls s (o ∖ {[fd]}) (c ∪ {[b]}) pc).
Proof.
  intros [] Hb Hc. destruct (served_close p c b fd Hb Hc) as [Hl E]. constructor; cbn in *; try done.
  - rewrite E. apply open_remove. rewrite <- tk_sockets0, <- (map_to_list_delete _ _ _ Hl). cbn. solve_Permutation.
  - assert (b ∈ dom (tasks p)) by (by apply elem_of_dom). set_solver.
Qed.

Lemma task_ok p p' r ls s o c pc b fd : tcp_ok (TcpServer p r ls s o c pc) -> b ∈ c -> pool_step oom (Finishes b tt fd) p p' ->
  tcp_ok (TcpServer p' r ls (s + 1) o (c ∖ {[b]}) pc).
Proof.
  intros [] Hb Hst. cbn in *. destruct tk_pool0 as [q Hq].
  pose proof (step_submitters oom _ _ _ tk_none_waits0 Hst) as Hs. destruct (step_tasks oom q _ _ _ Hq Hst) as [Hf Ht].
  constructor; cbn; rewrite ?Hs, ?(served_end p p' c b Hb Ht); try done.
  - eapply pool_inv_step; [by eexists|done].
  - by rewrite (step_constants oom _ _ _ Hst).
  - rewrite Ht, map_size_delete_Some by (by eexists).
    assert (size (tasks p) <> 0%nat) by (intros E%map_size_empty_inv; by rewrite E in Hf). lia.
  - destruct pc; lia.
  - rewrite Ht, dom_delete_L. set_solver.
  - eapply main_phase_kept; [|done]. apply (step_phase oom _ _ _ Hst).
Qed.

Lemma free_ok p p' r ls ls' s o c pc pc' : tcp_ok (TcpServer p r ls s o c pc) -> pool_step oom Frees p p' ->
  (pc = MCreating /\ pc' = MFailed) \/ (pc = MJoining /\ pc' = MDone /\ ls' = ls) -> tcp_ok (TcpServer p' r ls' s o c pc').
Proof.
  intros [] Hst Hpc. cbn in *. destruct tk_pool0 as [q Hq]. pose proof (step_tasks oom q _ _ _ Hq Hst) as Ht. cbn in Ht.
  pose proof (step_submitters oom _ _ _ tk_none_waits0 Hst) as Hs. cbn in Hs.
  destruct (step_phase oom _ _ _ Hst) as [_ Hph].
  destruct Hpc as [[-> ->]|(-> & -> & ->)]; constructor; cbn in *; rewrite ?Hs, ?Ht, ?(served_same _ _ _ Ht); try done;
    try (by eapply pool_inv_step; [eexists|]); try (by rewrite (step_constants oom _ _ _ Hst));
    intros i f fd Hi; by apply tk_submission0 in Hi.
Qed.

Lemma destroy_ok p p' r ls s o c : tcp_ok (TcpServer p r ls s o c MStopped) -> pool_step oom Destroys p p' ->
  tcp_ok (TcpServer p' false false (s + 1) o c MJoining).
Proof.
  intros [] Hst. cbn in *. destruct tk_pool0 as [q Hq]. pose proof (step_tasks oom q _ _ _ Hq Hst) as Ht. cbn in Ht.
  pose proof (step_submitters oom _ _ _ tk_none_waits0 Hst) as Hs. cbn in Hs.
  destruct (step_phase oom _ _ _ Hst) as [_ Hph].
  constructor; cbn; rewrite ?Hs, ?Ht, ?(served_same _ _ _ Ht); try done; try lia.
  - eapply pool_inv_step; [by eexists|done].
  - by rewrite (step_constants oom _ _ _ Hst).
  - intros i f fd Hi. by apply tk_submission0 in Hi.
Qed.

Lemma tcp_step_ok s s' : tcp_ok s -> tcp_step s s' -> tcp_ok s'.
Proof.
  intros H Hst. destruct Hst as [| | |p r ls s o c|p [] ls s o c|p r ls s o c|p r ls s o c|p ls s o c|p ls s o c|p r ls s o c
    |p r s o c fd Hfd|p r ls s o c fd Ho| |p r ls s o c i fd Hi|p r ls s o c i fd e Hi He| | | |];
    try (by apply (quiet_ok l p)); try (by apply (submit_ok p)); try (by apply handler_ok);
    try (by apply (task_ok p p' r ls s o c pc b fd)); try (by apply (destroy_ok p p' r ls));
    try (by eapply (free_ok p); [done|done|auto]);
    try (by eapply main_ok; [exact H|..]; pose proof H as []; cbn in *; try lia; try done; auto).
  - eapply main_ok; [exact H|..]; pose proof H as []; cbn in *; try lia; try done; auto. by apply open_add.
  - eapply main_ok; [exact H|..]; pose proof H as []; cbn in *; try lia; try done; auto. by apply open_remove.
  - pose proof (handed_over_returned _ _ _ Hi) as Hh.
    eapply main_ok; [exact H|..]; pose proof H as []; cbn in *; rewrite Hh in *; try lia; try done. by eexists.
  - pose proof (handed_over_returned _ _ _ Hi) as Hh. rewrite (proj2 (Z.eqb_neq e 0) He) in Hh.
    eapply main_ok; [exact H|..]; pose proof H as []; cbn in *; rewrite Hh in *; try lia; try done; [by apply open_remove|by eexists].
Qed.

Lemma tcp_moves_ok s s' : tcp_ok s -> tcp_moves s s' -> tcp_ok s'.
Proof.
  intros H Hm. destruct Hm as [s1 s2 Hst|p r ls s1 o c pc ? ? ?|p r ls s1 o c|p p' r ls s1 o c pc Hst]; [by apply (tcp_step_ok s1)|..].
  - destruct H. constructor; try done. by destruct pc.
  - eapply main_ok; [exact H|..]; pose proof H as []; cbn in *; try lia; try done.
  - apply (calm_ok Wakes p); auto.
Qed.

Lemma tcp_reaches_ok n s : tcp_reaches n s -> tcp_ok s.
Proof.
  intros (s0 & E & Hr). assert (H : tcp_ok s0).
  { unfold tcp_server_create in E. cbn in E. destruct (thread_pool_create n MAX_CONNECTIONS) as [p|] eqn:Ep; [|done].
    injection E as <-. pose proof (create_ok oom n MAX_CONNECTIONS p Ep) as Hp. unfold thread_pool_create in Ep.
    destruct ((n <=? 0) || (MAX_CONNECTIONS <=? 0)); [done|]. injection Ep as <-.
    constructor; cbn; try done; [by exists []|constructor|by left]. }
  clear E. induction Hr as [|s1 s2 s3 Hst _ IH]; [done|]. by apply IH, (tcp_moves_ok s1).
Qed.

(** ** Counting *)

Lemma tcp_served_size s : tcp_ok s -> size (ts_open s) =
  (length (main_sockets (ts_main s) (m_submitters (ts_pool s))) + size (served (ts_pool s) (ts_closed s)))%nat /\
  (size (served (ts_pool s) (ts_closed s)) <= size (tasks (ts_pool s)))%nat.
Proof.
  intros H. split.
  - unfold size at 1, set_size. cbn. rewrite <- (tk_sockets s H), length_app, length_fmap. by rewrite length_map_to_list.
  - unfold served. rewrite map_size_fmap. apply map_subseteq_size, map_filter_subseteq.
Qed.

Lemma slots_held pc ss : Z.of_nat (length (main_sockets pc ss)) <= main_slots pc ss <= 1.
Proof. destruct pc; cbn; try lia. destruct (handed_over ss i); cbn; lia. Qed.

Lemma slots_le pc : slots pc <= MAX_CONNECTIONS + match pc with MJoining | MDone => 1 | _ => 0 end.
Proof. destruct pc; cbn; unfold MAX_CONNECTIONS; lia. Qed.

(** ** Shutting down *)

Definition weight_main (n : nat) (pc : main_pc) : nat :=
  match pc with
  | MCreating | MCreated | MDone | MFailed => 0
  | MJoining => 1
  | MStopped => 4 * n + 4
  | MLoop => 4 * n + 5
  | MSubmit _ _ => 4 * n + 6
  | MClient _ => 4 * n + 17
  | MAccept => 4 * n + 18
  | MCheck => 4 * n + 19
  | MSem => 4 * n + 20
  end.

Definition shutdown_left (s : tcp_server) : nat :=
  2 * work_left (ts_pool s) + size (served (ts_pool s) (ts_closed s)) + weight_main (length (m_workers (ts_pool s))) (ts_main s).

(** The server was told to stop after it had started. *)
Definition stopping (s : tcp_server) : Prop :=
  ts_running s = false /\ match ts_main s with MCreating | MCreated | MFailed => False | _ => True end.

Lemma stopping_phase s : tcp_ok s -> stopping s -> m_phase (ts_pool s) <> Creating.
Proof. intros H [_ Hs]. pose proof (tk_phase s H) as Hp. by destruct (ts_main s); cbn in Hp; intros E; rewrite E in Hp. Qed.

Lemma served_returns p p' r ls s o c pc fd e : tcp_ok (TcpServer p r ls s o c pc) -> pool_step oom (Returns tt fd e) p p' ->
  (size (served p' c) <= size (served p c) + 1)%nat.
Proof.
  intros H Hst. destruct (tk_pool _ H) as [q Hq]. cbn in Hq. pose proof (step_tasks oom q _ _ _ Hq Hst) as Ht. cbn in Ht.
  destruct (e =? 0); [|rewrite (served_same _ _ _ Ht); lia]. destruct Ht as (b & Hb & Ht).
  destruct (served_add p p' c b fd (tk_closed _ H) Hb Ht) as [Hn ->]. rewrite map_size_insert_None by done. lia.
Qed.

Lemma quiet_decrease l p p' r ls s o c pc : tcp_ok (TcpServer p r ls s o c pc) -> quiet l -> pool_step oom l p p' ->
  (2 * work_left p' + size (served p' c) < 2 * work_left p + size (served p c))%nat.
Proof.
  intros H Hl Hst. destruct (tk_pool _ H) as [q Hq]. cbn in Hq.
  assert (Ho : own l) by by destruct l. pose proof (runs_decrease oom q l p p' Hq Ho Hst) as Hw.
  assert (size (served p' c) <= size (served p c) + 1)%nat; [|lia].
  destruct l as [| | | |[] fd e| | |]; try done; try (by eapply served_returns);
    pose proof (step_tasks oom q _ _ _ Hq Hst) as Ht; cbn in Ht; rewrite (served_same _ _ _ Ht); lia.
Qed.

Lemma shutdown_decreases s s' : tcp_ok s -> stopping s -> tcp_step s s' -> (shutdown_left s' < shutdown_left s)%nat.
Proof.
  intros H Hs Hst. pose proof (stopping_phase s H Hs) as Hph. destruct Hs as [Hr Hpc]. destruct (tk_pool s H) as [q Hq].
  destruct Hst as [l p p' r ls s o c pc Hl Hst|p r ls s o c Hp|p p' r ls s o c Hst|p r ls s o c|p r ls s o c|p r ls s o c
    |p r ls s o c|p ls s o c|p ls s o c|p r ls s o c
    |p r s o c fd Hfd|p r ls s o c fd Ho|p p' r ls s o c fd Hst|p r ls s o c i fd Hi|p r ls s o c i fd e Hi He
    |p r ls s o c pc i b fd Hi Hb Hc|p p' r ls s o c pc b fd Hb Hst|p p' r ls s o c Hst|p p' r ls s o c Hst];
    cbn in Hr, Hpc, Hph, Hq; try done; unfold shutdown_left; cbn [ts_pool ts_closed ts_main weight_main]; try lia.
  - pose proof (quiet_decrease l p p' r ls s o c pc H Hl Hst). rewrite (step_workers oom _ _ _ Hst Hph). lia.
  - subst r. cbn. lia.
  - pose proof (calls_work oom _ _ _ _ Hst). pose proof (step_tasks oom q _ _ _ Hq Hst) as Ht. cbn in Ht.
    rewrite (served_same _ _ _ Ht), (step_workers oom _ _ _ Hst Hph). lia.
  - destruct (served_close p c b fd Hb Hc) as [Hl ->]. rewrite map_size_delete_Some by (by eexists).
    assert (size (served p c) <> 0%nat) by (intros E%map_size_empty_inv; by rewrite E in Hl). lia.
  - pose proof (runs_decrease oom q (Finishes b tt fd) p p' Hq I Hst). destruct (step_tasks oom q _ _ _ Hq Hst) as [_ Ht].
    rewrite (served_end p p' c b Hb Ht), (step_workers oom _ _ _ Hst Hph). lia.
  - pose proof (destroys_work oom q p p' Hq (tk_none_waits _ H) Hst). pose proof (step_tasks oom q _ _ _ Hq Hst) as Ht. cbn in Ht.
    rewrite (served_same _ _ _ Ht). cbn in *. lia.
  - pose proof (runs_decrease oom q Frees p p' Hq I Hst). pose proof (step_tasks oom q _ _ _ Hq Hst) as Ht. cbn in Ht.
    rewrite (served_same _ _ _ Ht). lia.
Qed.

Lemma stopping_step s s' : stopping s -> tcp_step s s' -> stopping s'.
Proof. intros [Hr Hpc] Hst. by destruct Hst; cbn in *; try done; subst. Qed.

(** A connection that runs can go on: its handler returns, or its slot is released. *)
Lemma task_goes_on p p' r ls s o c pc b fd : tcp_ok (TcpServer p r ls s o c pc) -> pool_step oom (Finishes b tt fd) p p' ->
  exists s', tcp_step (TcpServer p r ls s o c pc) s'.
Proof.
  intros H Hst. destruct (tk_pool _ H) as [q Hq]. destruct (step_tasks oom q _ _ _ Hq Hst) as [Hb _].
  destruct (step_finishes oom _ _ _ _ _ Hst) as [i Hi]. destruct (decide (b ∈ c)) as [Hc|Hc].
  - eexists. by eapply tcp_task_returns.
  - eexists. by eapply tcp_handler_returns.
Qed.

Lemma submission_goes_on p r ls s o c i fd : let st := TcpServer p r ls s o c (MSubmit i fd) in
  tcp_ok st -> exists s', tcp_step st s'.
Proof.
  intros st H. destruct (tk_latest _ H i fd eq_refl) as (x & Hi & [->|[e ->]]); cbn in Hi.
  - destruct (tk_pool _ H) as [q Hq]. pose proof (tk_phase _ H) as Hph. cbn in Hq, Hph.
    destruct p as [po h ws ss ph a st' rn]. cbn in Hph, Hi. subst ph.
    destruct (ready_submitter_moves oom q po h ws ss Live a st' rn Hq I) as (l & p' & Hl & Hst).
    + intros E. pose proof (total_zero ready_s ss E _ (list_elem_of_lookup_2 _ _ _ Hi)) as E'. done.
    + eexists. apply (tcp_pool l); [by destruct l|exact Hst].
  - destruct (decide (e = 0)) as [->|He]; eexists; [by apply tcp_submitted|by apply (tcp_submit_fails p r ls s o c i fd e)].
Qed.

Lemma shutdown_goes_on s : tcp_ok s -> stopping s -> ts_main s = MDone \/ exists s', tcp_step s s'.
Proof.
  intros H [Hr Hpc]. destruct s as [p r ls s o c pc]. cbn in Hr, Hpc. subst r. destruct (tk_pool _ H) as [q Hq].
  pose proof (tk_phase _ H) as Hph. cbn in Hq, Hph.
  destruct pc as [| | | | | |fd|i fd| | | |]; try done; [right..|by left].
  - eexists. apply tcp_loop.
  - eexists. apply tcp_timeout.
  - eexists. apply tcp_check_stops.
  - pose proof (tk_told _ H eq_refl) as E. cbn in E. subst ls. eexists. apply tcp_accept_fails.
  - destruct p as [po h ws ss ph a st' rn]. cbn in Hph. subst ph. eexists. apply tcp_submit. by apply step_submit_call.
  - by apply submission_goes_on.
  - destruct p as [po h ws ss ph a st' rn]. cbn in Hph. subst ph. eexists. apply tcp_destroy. apply step_destroy.
  - destruct p as [po h ws ss ph a st' rn]. cbn in Hph. destruct ph as [| |k|]; try done.
    destruct (joining_progress oom q po h ws ss k a st' rn Hq) as (p' & l & Hl & Hst).
    destruct l as [| | | | |b [] fd| |]; try done; try (by eexists; eapply tcp_pool; [|exact Hst]).
    + by eapply task_goes_on.
    + eexists. by apply tcp_destroyed.
Qed.

Lemma gone_empty s : tcp_ok s -> ts_main s = MDone \/ ts_main s = MFailed -> ts_open s = ∅ /\ torn_down (ts_pool s).
Proof.
  intros H Hd. destruct (tk_pool s H) as [q Hq]. pose proof (tk_phase s H) as Hph.
  assert (Hg : torn_down (ts_pool s)) by (apply (destroyed_torn_down oom q); [done|by destruct Hd as [E|E]; rewrite E in Hph]).
  split; [|done]. destruct Hg as (_ & _ & Hh). pose proof (tk_sockets s H) as Hk.
  assert (E : served (ts_pool s) (ts_closed s) = ∅).
  { apply map_eq. intros b. rewrite lookup_empty. apply eq_None_not_Some. intros [fd [_ [u Hb]]%lookup_served].
    rewrite lookup_tasks, Hh in Hb. done. }
  rewrite E, map_to_list_empty in Hk. apply leibniz_equiv, elements_empty_inv, Permutation_nil_r. rewrite <- Hk.
  by destruct Hd as [E'|E']; rewrite E'.
Qed.
End server.

(** ** The theorems *)

(** C31: at any time at most MAX_CONNECTIONS client sockets are open and at most
    that many connections are queued or served (so the session table, which is as
    long, has a place for each), and the listening thread never has to wait in
    thread_pool_submit: the semaphore holds it back first. *)
Theorem connections_bounded oom n s : tcp_reaches oom n s ->
  Z.of_nat (size (ts_open s)) <= MAX_CONNECTIONS /\ Z.of_nat (size (tasks (ts_pool s))) <= MAX_CONNECTIONS /\
  forall p', ~ pool_step oom Blocks (ts_pool s) p'.
Proof.
  intros H%tcp_reaches_ok. pose proof (tcp_served_size oom s H) as [Ho Hle].
  pose proof (tk_slots _ s H) as Hs. pose proof (tk_sem _ s H) as H0. pose proof (slots_held (ts_main s) (m_submitters (ts_pool s))) as Hm.
  pose proof (slots_le (ts_main s)).
  split; [|split; [|intros p'; by apply tcp_never_blocks]]; lia.
Qed.

(** Every open client socket belongs to the listening thread or to exactly one
    connection that has not closed it yet; and when tcp_server_destroy has returned
    (or tcp_server_create has failed) no socket is open and every accepted
    connection has been served. *)
Theorem sockets_owned oom n s : tcp_reaches oom n s ->
  main_sockets (ts_main s) (m_submitters (ts_pool s)) ++ (map_to_list (served (ts_pool s) (ts_closed s))).*2
    ≡ₚ elements (ts_open s) /\
  (ts_main s = MDone \/ ts_main s = MFailed -> ts_open s = ∅ /\ torn_down (ts_pool s)).
Proof. intros H%tcp_reaches_ok. split; [apply (tk_sockets _ s H)|by apply (gone_empty oom)]. Qed.

(** Once the signal handler has told a started server to stop, every schedule of
    its threads ends with tcp_server_destroy returned, all workers joined, all
    accepted connections served and all their sockets closed, provided handlers
    return. *)
Theorem shutdown_completes oom n s : tcp_reaches oom n s -> stopping s ->
  inevitable (tcp_step oom) (fun s' => ts_main s' = MDone /\ ts_open s' = ∅ /\ torn_down (ts_pool s')) s.
Proof.
  intros Hr%tcp_reaches_ok Hs. apply (inevitable_acc _ _ (fun x => tcp_ok oom x /\ stopping x) (ltof _ shutdown_left)); [| | |done].
  - intros s1 s2 [H1 H2] Hst. split; [|by apply (shutdown_decreases oom)].
    split; [by apply (tcp_step_ok oom s1)|by apply (stopping_step oom s1)].
  - intros s1 [H1 H2]. destruct (shutdown_goes_on oom s1 H1 H2) as [E|E]; [left|by right].
    split; [done|]. apply (gone_empty oom); auto.
  - apply well_founded_ltof.
Qed.

(** ** A server with one worker and one client *)

Tactic Notation "act" uconstr(c) := eapply rtc_l; [apply moves_step; eapply c; try done; try reflexivity|cbn].
Tactic Notation "pool" uconstr(c) := eapply rtc_l; [apply moves_step; eapply tcp_pool; [|eapply c; try done; try reflexivity]; try done|cbn].

(** The worker serves the client with socket 5 while the listening thread is back at
    the head of its loop. *)
Definition serving_pool : machine unit Z :=
  Machine (ThreadPool 1 None None 0 MAX_CONNECTIONS 0) {[ 1%positive := TaskNode tt 5 None ]} [WRunning 1] [SReturned 0]
    Live [(tt, 5)] [(tt, 5)] [].
Definition serving : tcp_server := TcpServer serving_pool true true (MAX_CONNECTIONS - 1) (∅ ∪ {[5]}) ∅ MLoop.
Definition serving_stopped : tcp_server := TcpServer serving_pool false false (MAX_CONNECTIONS - 1) (∅ ∪ {[5]}) ∅ MLoop.

Lemma serving_reached oom : tcp_reaches oom 1 serving.
Proof.
  eexists. split; [reflexivity|].
  pool step_spawn. pool step_created. act tcp_created. act tcp_start. act tcp_loop. act tcp_slot. act tcp_check.
  act (tcp_accept _ _ _ _ _ _ 5). act tcp_submit. { by apply step_submit_call. } cbn.
  pool (step_submit_done _ _ _ _ _ _ _ _ _ 0 tt 5 1%positive). { by apply signal_none, Forall_singleton. }
  act tcp_submitted. pool (step_worker_takes _ _ _ _ _ _ _ _ _ 0). { by apply signal_none, Forall_singleton. }
  stop.
Qed.

Lemma connections_bounded_witness : tcp_reaches true 1 serving /\ Z.of_nat (size (ts_open serving)) <= MAX_CONNECTIONS.
Proof. split; [apply serving_reached|]. apply (connections_bounded true 1 serving (serving_reached true)). Defined.

Lemma sockets_owned_witness : tcp_reaches true 1 serving /\
  main_sockets (ts_main serving) (m_submitters (ts_pool serving)) ++ (map_to_list (served (ts_pool serving) (ts_closed serving))).*2
    ≡ₚ elements (ts_open serving).
Proof. split; [apply serving_reached|]. apply (sockets_owned true 1 serving (serving_reached true)). Defined.

Lemma serving_stopped_reached oom : tcp_reaches oom 1 serving_stopped.
Proof.
  destruct (serving_reached oom) as (s0 & E & Hr). exists s0. split; [done|]. etrans; [exact Hr|].
  apply rtc_once. by apply moves_signal.
Qed.

Lemma shutdown_completes_witness : (tcp_reaches true 1 serving_stopped /\ stopping serving_stopped) /\
  inevitable (tcp_step true) (fun s' => ts_main s' = MDone /\ ts_open s' = ∅ /\ torn_down (ts_pool s')) serving_stopped.
Proof.
  split; [split; [apply serving_stopped_reached|by split]|].
  apply (shutdown_completes true 1 serving_stopped (serving_stopped_reached true)). by split.
Defined.

(** A signal between tcp_server_create and tcp_server_start is forgotten: the server
    runs, with a listening socket that accepts nobody. *)
Example early_signal_lost : exists s, tcp_reaches false 1 s /\ ts_running s = true /\ ts_listening s = false /\ ts_main s = MLoop.
Proof.
  eexists. split; [|split; [|split]]; [eexists; split; [reflexivity|]| | |].
  1: pool step_spawn; pool step_created; act tcp_created. 1: eapply rtc_l; [by apply moves_signal|]. 1: act tcp_start; stop.
  all: done.
Qed.
