(* ===== verification/Handler.v ===== *)
(** * The handler of a connection (client_handler of server/main.c)

    Server.v gives the program of a connection for all that will be read from its
    client.  Here the client is not known in advance: the worker thread sends, waits
    in read() for the next byte, times out after a second, looks at g_shutdown at
    the head of both loops, and runs the command of a line call by call.  Whatever
    has been read so far, the handler is Server.v's program for every input that may
    still come, which is how runs of handlers are runs of programs. *)

From stdpp Require Import base tactics numbers list strings.
From Stdlib Require Import ZArith Lia.
From S2P Require Import Prelude Types Utils Ipc Calls Auth Server Threads Conform Connections.

#[local] Open Scope Z_scope.

(** Where the thread of a connection is in client_handler. *)
Inductive stage :=
  | HLoops                                            (** at [while (!g_shutdown)] of the command loop *)
  | HTests (used : bytes) (overflow : bool)           (** at [while (!g_shutdown)] of read_command_line *)
  | HReads (used : bytes) (overflow : bool)           (** in read() *)
  | HRuns (p : prog (option session * bytes * list effect))   (** carrying out a line *)
  | HSends (out : bytes) (last : option (bytes * list effect)) (** in send_all; [last] if it returns after that *)
  | HEnds (r : bytes * list effect).                  (** client_handler has returned *)

(** The handler with its session, what its earlier lines have sent and counted, the
    latest first, and its stage. *)
Record handler := Handler {
  hr_libc : libc; hr_session : session; hr_done : list (bytes * list effect); hr_stage : stage }.

Definition no_memory : bytes := lit "ERROR Server out of memory" ++ [10].

(** The start for the descriptor [fd]: the session is created and the banner goes out;
    or the session table is full, or there is no memory for the response buffer. *)
Inductive begins (fd : Z) : handler -> Prop :=
  | begins_session C s slot now : request_ok (Client C s []) -> s = touch now (session_init slot fd) ->
      begins fd (Handler C s [] (HSends banner None))
  | begins_refused C s out : request_ok (Client C s []) -> out = server_full \/ out = banner ++ no_memory ->
      begins fd (Handler C s [] (HSends out (Some ([], [])))).

(** The two tests of g_shutdown. *)
Definition at_loop (g_shutdown : bool) : stage := if g_shutdown then HEnds ([], []) else HTests [] false.
Definition at_test (g_shutdown : bool) (used : bytes) (overflow : bool) : stage :=
  if g_shutdown then HEnds ([], []) else HReads used overflow.

(** What read_command_line makes of a byte. *)
Definition take_byte (C : libc) (s : session) (used : bytes) (overflow : bool) (ch : Z) : stage :=
  if ch =? 10 then HRuns (client_line C s (if overflow then BadLine else Line used))
  else if (length used + 1 <? Z.to_nat MAX_CMD_LENGTH)%nat then HTests (used ++ [ch]) (overflow || (ch =? 0))
  else HTests used true.

(** Steps of the thread by itself, calls apart.  SO_RCVTIMEO ends a read() and
    SO_SNDTIMEO a write() to a client that does nothing for a second, a read() then
    being tried again and the rest of what was to be sent being given up. *)
Inductive handler_step (g_shutdown : bool) : handler -> handler -> Prop :=
  | handler_loops C s d : handler_step g_shutdown (Handler C s d HLoops) (Handler C s d (at_loop g_shutdown))
  | handler_tests C s d used ov : handler_step g_shutdown (Handler C s d (HTests used ov)) (Handler C s d (at_test g_shutdown used ov))
  | handler_times_out C s d used ov : handler_step g_shutdown (Handler C s d (HReads used ov)) (Handler C s d (HTests used ov))
  | handler_answers C s d s' out eff :
      handler_step g_shutdown (Handler C s d (HRuns (Ret (Some s', out, eff)))) (Handler C s' ((out, eff) :: d) (HSends out None))
  | handler_quits C s d out eff :
      handler_step g_shutdown (Handler C s d (HRuns (Ret (None, out, eff)))) (Handler C s d (HSends out (Some (out, eff))))
  | handler_gives_up C s d out last k : (0 < k <= length out)%nat ->
      handler_step g_shutdown (Handler C s d (HSends out last)) (Handler C s d (HSends (drop k out) last))
  | handler_sent C s d : handler_step g_shutdown (Handler C s d (HSends [] None)) (Handler C s d HLoops)
  | handler_said C s d r : handler_step g_shutdown (Handler C s d (HSends [] (Some r))) (Handler C s d (HEnds r)).

(** What the client does: the next of its bytes is there to be read, it has gone, or it
    takes some of what is sent. *)
Inductive client_acts : handler -> handler -> Prop :=
  | client_types C s d used ov ch : byte_ok ch -> client_acts (Handler C s d (HReads used ov)) (Handler C s d (take_byte C s used ov ch))
  | client_gone C s d used ov : client_acts (Handler C s d (HReads used ov)) (Handler C s d (HEnds ([], [])))
  | client_takes C s d out last k : (0 < k <= length out)%nat ->
      client_acts (Handler C s d (HSends out last)) (Handler C s d (HSends (drop k out) last)).

Definition ended (h : handler) : Prop := exists r, hr_stage h = HEnds r.

(** ** The lines of an input that is read byte by byte *)

Lemma read_rest cap : forall input used ov l rest, read_command_line input used ov cap = Some (l, rest) ->
  (length rest < length input)%nat.
Proof.
  induction input as [|c input IH]; intros used ov l rest; cbn [read_command_line length]; [done|].
  case_match; [intros [= _ <-]; lia|]. case_match; intros Hr; apply IH in Hr; lia.
Qed.

Lemma read_lines_fuel n : forall input m, (length input <= n)%nat -> (length input <= m)%nat -> read_lines n input = read_lines m input.
Proof.
  induction n as [|n IH]; intros input m Hn Hm.
  - destruct input; [|cbn in Hn; lia]. by destruct m.
  - destruct m as [|m]; [destruct input; [done|cbn in Hm; lia]|]. cbn [read_lines].
    destruct (read_command_line _ _ _ _) as [[l rest]|] eqn:E; [|done]. apply read_rest in E. f_equal. apply IH; lia.
Qed.

(** The lines still to come when [used] and [overflow] have been read. *)
Definition lines_from (used : bytes) (overflow : bool) (input : bytes) : list line :=
  match read_command_line input used overflow (Z.to_nat MAX_CMD_LENGTH) with
  | None => []
  | Some (l, rest) => l :: command_lines rest
  end.

Lemma command_lines_from input : command_lines input = lines_from [] false input.
Proof.
  unfold command_lines, lines_from. destruct input as [|c input]; [done|]. change (length (c :: input)) with (S (length input)).
  cbn [read_lines]. destruct (read_command_line _ _ _ _) as [[l rest]|] eqn:E; [|done]. apply read_rest in E.
  f_equal. apply read_lines_fuel; cbn [length] in E; lia.
Qed.

(** ** The program a handler is in the middle of *)

(** The program of all lines from the program of the latest. *)
Fixpoint wrap (d : list (bytes * list effect)) (p : prog (bytes * list effect)) : prog (bytes * list effect) :=
  match d with
  | [] => p
  | x :: d' => wrap d' (bind p (fun '(out', eff') => Ret (x.1 ++ out', x.2 ++ eff')))
  end.

Lemma wrap_call d : forall R (c : cmd R) k, wrap d (Call c k) = Call c (fun r => wrap d (k r)).
Proof. induction d as [|x d IH]; intros R c k; [done|]. cbn [wrap bind]. apply IH. Qed.

Lemma wrap_ret d : forall r, exists r', wrap d (Ret r) = Ret r'.
Proof. induction d as [|x d IH]; intros [out eff]; cbn [wrap bind]; [by eexists|apply IH]. Qed.

(** The rest of the command loop, the [lines] being those to come. *)
Definition after_line (C : libc) (lines : list line) : option session * bytes * list effect -> prog (bytes * list effect) :=
  fun '(s', out, eff) =>
    match s' with
    | None => Ret (out, eff)
    | Some s' => bind (client_loop C s' lines) (fun '(out', eff') => Ret (out ++ out', eff ++ eff'))
    end.

(** What remains of client_handler's program if [input] is all that will be read. *)
Definition remains (input : bytes) (h : handler) : thread :=
  let C := hr_libc h in
  let s := hr_session h in
  Thread (wrap (hr_done h)
    match hr_stage h with
    | HLoops | HSends _ None => client_loop C s (command_lines input)
    | HTests used ov | HReads used ov => client_loop C s (lines_from used ov input)
    | HRuns p => bind p (after_line C (command_lines input))
    | HSends _ (Some r) | HEnds r => Ret r
    end).

(** A connection starts as a request. *)
Lemma begins_serves fd h input : begins fd h -> Forall byte_ok input -> exists q, request_ok q /\ serve q = remains input h.
Proof.
  intros [C s slot now (HC & Hs & _) _|C s out Hq _] Hi.
  - by exists (Client C s input).
  - by exists (Client C s []).
Qed.

(** Whatever will be read after a step, something could have been read before it. *)
Lemma handler_step_remains g h h' input : handler_step g h h' -> Forall byte_ok input ->
  exists input0, Forall byte_ok input0 /\ remains input0 h = remains input h'.
Proof.
  intros [C s d|C s d used ov| | | | | |] Hi; try (by exists input).
  - destruct g; [by exists []|]. exists input. split; [done|]. unfold remains. cbn. by rewrite command_lines_from.
  - destruct g; [by exists []|by exists input].
Qed.

Lemma take_byte_remains C s d used ov ch input :
  remains (ch :: input) (Handler C s d (HReads used ov)) = remains input (Handler C s d (take_byte C s used ov ch)).
Proof.
  unfold remains, take_byte, lines_from. cbn [hr_libc hr_session hr_done hr_stage read_command_line].
  destruct (ch =? 10); [done|]. by destruct (length used + 1 <? Z.to_nat MAX_CMD_LENGTH)%nat.
Qed.

Lemma client_acts_remains h h' input : client_acts h h' -> Forall byte_ok input ->
  exists input0, Forall byte_ok input0 /\ remains input0 h = remains input h'.
Proof.
  intros [C s d used ov ch Hc|C s d used ov|C s d out last k Hk] Hi.
  - exists (ch :: input). split; [by constructor|apply take_byte_remains].
  - exists []. by split.
  - exists input. by split.
Qed.

(** A call of the line is a call of the program. *)
Lemma call_remains C s d R (c : cmd R) k input : exists f : R -> prog (bytes * list effect),
  remains input (Handler C s d (HRuns (Call c k))) = Thread (Call c f) /\
  forall r, Thread (f r) = remains input (Handler C s d (HRuns (k r))).
Proof.
  eexists. split; [|intros r; reflexivity]. unfold remains. cbn [hr_libc hr_session hr_done hr_stage bind]. by rewrite wrap_call.
Qed.

(** If nothing more is read, only the line in hand makes calls. *)
Definition calls (h : handler) : Prop := match hr_stage h with HRuns (Call _ _) => True | _ => False end.

Lemma quiet_remains h : calls h \/ answered (remains [] h).
Proof.
  assert (H : forall d r, answered (Thread (wrap d (Ret r)))) by (intros d r; destruct (wrap_ret d r) as [r' E]; exists r'; exact E).
  destruct h as [C s d [|used ov|used ov|[[[[s'|] out] eff]|R c k]|out [r|]|r]]; try (by left); right; apply H || apply (H (_ :: d)).
Qed.

Lemma ended_remains input h : ended h -> answered (remains input h).
Proof. destruct h as [C s d st]. intros [r E]. cbn in E. subst st. destruct (wrap_ret d r) as [r' E]. exists r'. exact E. Qed.

(** ** A handler told to stop comes to its end *)

(** Stages on the way to the end once g_shutdown is set. *)
Definition stages_left (h : handler) : nat :=
  match hr_stage h with HReads _ _ => 4 | HRuns _ => 3 | HSends _ _ => 2 | HLoops | HTests _ _ => 1 | HEnds _ => 0 end.
Definition unsent (h : handler) : nat := match hr_stage h with HSends out _ => length out | _ => 0 end.

Definition nearer (h' h : handler) : Prop :=
  (stages_left h' < stages_left h)%nat \/ (stages_left h' = stages_left h /\ (unsent h' < unsent h)%nat).

Lemma handler_nearer h h' : handler_step true h h' -> nearer h' h.
Proof.
  intros []; unfold nearer, stages_left, unsent, at_loop, at_test; cbn; try lia. right. rewrite length_drop. lia.
Qed.

Lemma client_nearer h h' : client_acts h h' -> nearer h' h.
Proof.
  intros [C s d used ov ch _| |]; unfold nearer, stages_left, unsent, take_byte; cbn; try lia.
  - left. repeat case_match; simplify_eq; lia.
  - right. rewrite length_drop. lia.
Qed.

(** It goes on without its client, unless it waits for a call or has ended. *)
Lemma handler_goes_on g h : ended h \/ calls h \/ exists h', handler_step g h h'.
Proof.
  destruct h as [C s d [|used ov|used ov|[[[[s'|] out] eff]|R c k]|[|c out] last|r]]; try (right; right; eexists; by constructor).
  - right. by left.
  - right. right. destruct last as [r|]; eexists; by constructor.
  - right. right. exists (Handler C s d (HSends (drop 1 (c :: out)) last)). constructor. cbn. lia.
  - left. by exists r.
Qed.

Lemma ended_stays g h h' : ended h -> handler_step g h h' \/ client_acts h h' -> False.
Proof. destruct h as [C s d st]. intros [r E] [H|H]; cbn in E; subst st; inversion H. Qed.
