(* ===== verification/Whole.v ===== *)
(** * The whole server

    In TcpServer.v a handler returns at some time; PlatformRuns.v runs connections
    without sockets and workers.  Here both are one machine: a worker that takes a
    task begins a handler of Handler.v, whose calls are made on the platform and
    interleave with the steps of the listening thread, the pool and the other
    handlers; clients type, read and hang up when they like; and the signal handler
    sets g_shutdown and stops the listening socket.  Every run of the machine is a run
    of both parts, and the assumption each makes about the other holds: handlers
    return, and at the end all requests are answered. *)

From stdpp Require Import base tactics numbers list gmap relations.
From Stdlib Require Import ZArith Lia Wf_nat Relation_Operators Lexicographic_Product Inverse_Image.
From S2P Require Import Prelude Types Utils BTree BTreeFile Wal PageStore DataFiles TxnManager TxnWorld Table TableSpec Calls Codec Platform Lifecycle.
From S2P Require Import Auth Server Threads Conform BookingSafety Ledger BookingLive PlatformRuns Restart.
From S2P Require Import ThreadPool TcpServer Connections Handler.

#[local] Open Scope Z_scope.

(** The listening thread and the pool, the platform, the handlers in the order they
    began, which handler is that of which task, g_shutdown, and the calls made. *)
Record whole := Whole {
  wh_tcp : tcp_server;
  wh_platform : platform pool_store btree;
  wh_handlers : list handler;
  wh_tasks : gmap positive nat;
  wh_shutdown : bool;
  wh_calls : nat }.

Section whole.
Context (oom : bool).

(** Steps of the server's own threads. *)
Inductive whole_step : whole -> whole -> Prop :=
  | whole_tcp t t' p hs m g n : tcp_step oom t t' -> ts_closed t' ⊆ ts_closed t ->
      whole_step (Whole t p hs m g n) (Whole t' p hs m g n)
  | whole_begins t p hs m g n i b fd h : m_workers (ts_pool t) !! i = Some (WRunning b) -> tasks (ts_pool t) !! b = Some (tt, fd) ->
      b ∉ ts_closed t -> m !! b = None -> begins fd h ->
      whole_step (Whole t p hs m g n) (Whole t p (hs ++ [h]) (<[b := length hs]> m) g (S n))
  | whole_handler t p hs m g n j h h' : hs !! j = Some h -> handler_step g h h' ->
      whole_step (Whole t p hs m g n) (Whole t p (<[j := h']> hs) m g n)
  | whole_call {R} t p p' hs m g n j C s d (c : cmd R) k o r : hs !! j = Some (Handler C s d (HRuns (Call c k))) ->
      uint_ok 64 (os_now o) -> pcall o p c = Some (r, p') ->
      whole_step (Whole t p hs m g n) (Whole t p' (<[j := Handler C s d (HRuns (k r))]> hs) m g (S n))
  | whole_returns p r ls sm o c pc pf hs m g n i b fd j h : m_workers p !! i = Some (WRunning b) -> tasks p !! b = Some (tt, fd) -> b ∉ c ->
      m !! b = Some j -> hs !! j = Some h -> ended h ->
      whole_step (Whole (TcpServer p r ls sm o c pc) pf hs m g n)
                 (Whole (TcpServer p r ls sm (o ∖ {[fd]}) (c ∪ {[b]}) pc) pf hs (delete b m) g n).

(** With what the clients do. *)
Inductive whole_acts : whole -> whole -> Prop :=
  | whole_own x y : whole_step x y -> whole_acts x y
  | whole_client t p hs m g n j h h' : hs !! j = Some h -> client_acts h h' ->
      whole_acts (Whole t p hs m g n) (Whole t p (<[j := h']> hs) m g n).

(** From outside come signals, whose handler first sets g_shutdown and then stops
    the server it finds, and what TcpServer.v names. *)
Inductive whole_moves : whole -> whole -> Prop :=
  | whole_moves_acts x y : whole_acts x y -> whole_moves x y
  | whole_signal t p hs m g n : whole_moves (Whole t p hs m g n) (Whole t p hs m true n)
  | whole_outside t t' p hs m g n : tcp_moves oom t t' -> ts_closed t' ⊆ ts_closed t ->
      (ts_running t' = false -> ts_running t = false \/ g = true) ->
      whole_moves (Whole t p hs m g n) (Whole t' p hs m g n).

(** From a platform that has started, with [workers] threads. *)
Definition whole_reaches (workers : Z) (p0 : platform pool_store btree) (x : whole) : Prop :=
  exists t0, tcp_server_create true true true true workers = Some t0 /\ rtc whole_moves (Whole t0 p0 [] ∅ false 0) x.

(** ** The network side *)

Lemma whole_net x y : whole_moves x y -> rtc (tcp_moves oom) (wh_tcp x) (wh_tcp y).
Proof.
  intros [x' y' [x0 y0 Hs|]| |t t' p hs m g n Hm _ _]; try constructor; [|by apply rtc_once].
  destruct Hs as [t t' p hs m g n Hst _| | | |p r ls sm o c pc pf hs m g n i b fd j h Hi Hb Hc _ _ _]; try constructor.
  - by apply rtc_once, moves_step.
  - by eapply rtc_once, moves_step, tcp_handler_returns.
Qed.

Lemma tcp_run_ok t t' : tcp_ok oom t -> rtc (tcp_moves oom) t t' -> tcp_ok oom t'.
Proof. intros H Ht. induction Ht as [|t1 t2 t3 Hm _ IH]; [done|]. by apply IH, (tcp_moves_ok oom t1). Qed.

(** ** The requests *)

(** Whatever the handlers will have read, the run so far is a run of their requests. *)
Definition runs_from (p0 : platform pool_store btree) (x : whole) : Prop :=
  forall inputs, length inputs = length (wh_handlers x) -> Forall (Forall byte_ok) inputs ->
  nsteps pstep (wh_calls x) (PSystem p0 []) (PSystem (wh_platform x) (zip_with remains inputs (wh_handlers x))).

Lemma remains_update inputs hs j h h' : hs !! j = Some h -> length inputs = length hs -> Forall (Forall byte_ok) inputs ->
  (forall i, Forall byte_ok i -> exists i0, Forall byte_ok i0 /\ remains i0 h = remains i h') ->
  exists inputs0, length inputs0 = length hs /\ Forall (Forall byte_ok) inputs0 /\
    zip_with remains inputs (<[j := h']> hs) = zip_with remains inputs0 hs.
Proof.
  intros Hj Hl Hi Hr. destruct (lookup_lt_is_Some_2 inputs j) as [i Ei]; [rewrite Hl; by eapply lookup_lt_Some|].
  destruct (Hr i) as (i0 & Hi0 & E); [by eapply Forall_lookup_1|]. exists (<[j := i0]> inputs).
  split; [by rewrite length_insert|]. split; [by apply Forall_insert|].
  rewrite <- (list_insert_id inputs j i) at 1 by done. rewrite <- (list_insert_id hs j h) at 2 by done.
  by rewrite <- !insert_zip_with, E.
Qed.

Lemma runs_update p0 t t' p hs m g g' n j h h' : hs !! j = Some h ->
  (forall i, Forall byte_ok i -> exists i0, Forall byte_ok i0 /\ remains i0 h = remains i h') ->
  runs_from p0 (Whole t p hs m g n) -> runs_from p0 (Whole t' p (<[j := h']> hs) m g' n).
Proof.
  intros Hj Hr Hx inputs Hl Hi. cbn [wh_handlers wh_platform wh_calls] in *. rewrite length_insert in Hl.
  destruct (remains_update inputs hs j h h' Hj Hl Hi Hr) as (inputs0 & Hl0 & Hi0 & ->). by apply Hx.
Qed.

Lemma runs_begin p0 t p hs m m' g n fd h : begins fd h ->
  runs_from p0 (Whole t p hs m g n) -> runs_from p0 (Whole t p (hs ++ [h]) m' g (S n)).
Proof.
  intros Hh Hx inputs Hl Hi. cbn [wh_handlers wh_platform wh_calls] in *. rewrite length_app in Hl. cbn [length] in Hl.
  destruct inputs as [|input inputs _] using rev_ind; [cbn in Hl; lia|]. rewrite length_app in Hl. cbn [length] in Hl.
  apply Forall_app in Hi as [Hi [Hin _]%Forall_cons]. rewrite zip_with_app by (cbn in Hl; lia). cbn [zip_with].
  destruct (begins_serves fd h input Hh Hin) as (q & Hq & <-). eapply nsteps_r; [apply Hx; [by apply Nat.add_cancel_r in Hl|done]|]. by apply pstep_request.
Qed.

Lemma runs_call {R} p0 t p p' hs m g n j C s d (c : cmd R) k o r : hs !! j = Some (Handler C s d (HRuns (Call c k))) ->
  uint_ok 64 (os_now o) -> pcall o p c = Some (r, p') ->
  runs_from p0 (Whole t p hs m g n) -> runs_from p0 (Whole t p' (<[j := Handler C s d (HRuns (k r))]> hs) m g (S n)).
Proof.
  intros Hj Ho Hp Hx inputs Hl Hi. cbn [wh_handlers wh_platform wh_calls] in *. rewrite length_insert in Hl.
  destruct (lookup_lt_is_Some_2 inputs j) as [i Ei]; [rewrite Hl; by eapply lookup_lt_Some|].
  destruct (call_remains C s d R c k i) as (f & E1 & E2). eapply nsteps_r; [by apply Hx|].
  rewrite <- (list_insert_id inputs j i) at 2 by done. rewrite <- insert_zip_with, <- E2. apply pstep_call, (psched_call j o p _ c f r p'); [|done..].
  apply lookup_zip_with_Some. by exists i, (Handler C s d (HRuns (Call c k))).
Qed.

Lemma runs_moves p0 x y : whole_moves x y -> runs_from p0 x -> runs_from p0 y.
Proof.
  intros [x' y' [x0 y0 Hs|t p hs m g n j h h' Hj Ha]|t p hs m g n|t t' p hs m g n Hm _ _]; try done.
  - destruct Hs as [t t' p hs m g n Hst _|t p hs m g n i b fd h _ _ _ _ Hh|t p hs m g n j h h' Hj Hh|R t p p' hs m g n j C s d c k o r Hj Ho Hp|]; try done.
    + by apply (runs_begin p0 t p hs m _ g n fd).
    + apply (runs_update p0 t t p hs m g g n j h h' Hj). intros i. by apply (handler_step_remains g).
    + by apply (runs_call p0 t p p' hs m g n j C s d c k o r).
  - apply (runs_update p0 t t p hs m g g n j h h' Hj). intros i. by apply client_acts_remains.
Qed.

(** ** Handlers and tasks *)

(** A handler belongs to a task whose socket is open until it has ended. *)
Record handlers_ok (x : whole) : Prop := HandlersOk {
  hd_task : forall b j, wh_tasks x !! b = Some j ->
    is_Some (tasks (ts_pool (wh_tcp x)) !! b) /\ (b ∉ ts_closed (wh_tcp x)) /\ is_Some (wh_handlers x !! j);
  hd_handler : forall j h, wh_handlers x !! j = Some h -> ended h \/ exists b, wh_tasks x !! b = Some j }.

(** The task of an open socket stays when anything but its handler moves. *)
Lemma pool_step_stays l (p p' : machine unit Z) b v : pool_inv oom p -> pool_step oom l p p' -> match l with Finishes b' _ _ => b' <> b | _ => True end ->
  tasks p !! b = Some v -> tasks p' !! b = Some v.
Proof.
  intros [q Hq] Hst Hl Hb. pose proof (step_tasks oom q _ _ _ Hq Hst) as Ht. destruct l as [| | | |f v' e|b' f v'| |]; try by rewrite Ht.
  - destruct (e =? 0); [|by rewrite Ht]. destruct Ht as (b' & Hb' & ->). rewrite lookup_insert_ne; [done|]. intros ->. congruence.
  - destruct Ht as [_ ->]. by rewrite lookup_delete_ne.
Qed.

Lemma task_stays t t' b v : tcp_ok oom t -> tcp_moves oom t t' -> tasks (ts_pool t) !! b = Some v -> b ∉ ts_closed t ->
  tasks (ts_pool t') !! b = Some v.
Proof.
  intros H Hm Hb Hc. pose proof (tk_pool _ _ H) as Hp.
  destruct Hm as [t t' Hst|p r ls s o c pc _ _ _|p r ls s o c|p p' r ls s o c pc Hst]; try done.
  - destruct Hst as [l p p' r ls s o c pc Hl Hst| |p p' r ls s o c Hst| | | | | | | | | |p p' r ls s o c fd Hst| | | |p p' r ls s o c pc b' fd Hb' Hst
      |p p' r ls s o c Hst|p p' r ls s o c Hst]; cbn [ts_pool ts_closed] in *; try done; apply (pool_step_stays _ p p' b v Hp Hst); try done.
    + by destruct l.
    + by intros ->.
  - by apply (pool_step_stays Wakes p p' b v Hp Hst).
Qed.

Lemma handlers_tcp t t' p hs m g n : tcp_ok oom t -> tcp_moves oom t t' -> ts_closed t' ⊆ ts_closed t ->
  handlers_ok (Whole t p hs m g n) -> handlers_ok (Whole t' p hs m g n).
Proof.
  intros H Hm Hc [H1 H2]. constructor; cbn in *; [|exact H2]. intros b j Hb. destruct (H1 b j Hb) as ([v Hv] & Hn & Hj).
  split; [exists v; by apply (task_stays t t' b v)|]. split; [|done]. intros Hin. by apply Hn, Hc.
Qed.

Lemma handlers_update t p p' hs m g n n' j h h' : hs !! j = Some h -> ~ ended h ->
  handlers_ok (Whole t p hs m g n) -> handlers_ok (Whole t p' (<[j := h']> hs) m g n').
Proof.
  intros Hj Hh [H1 H2]. constructor; cbn in *.
  - intros b j' Hb. destruct (H1 b j' Hb) as (? & ? & Hs). split; [done|]. split; [done|]. by rewrite list_lookup_insert_is_Some.
  - intros j' h0 [(<- & _ & _)|[Hne Hj']]%list_lookup_insert_Some; [right; by destruct (H2 j h Hj)|by apply (H2 j')].
Qed.

Lemma handlers_moves x y : tcp_ok oom (wh_tcp x) -> handlers_ok x -> whole_moves x y -> handlers_ok y.
Proof.
  intros H Hh Hm. destruct Hm as [x y [x0 y0 Hs|t p hs m g n j h h' Hj Ha]|t p hs m g n|t t' p hs m g n Hm Hc _].
  2: { apply (handlers_update t p p hs m g n n j h h' Hj); [|done]. intros He. eapply (ended_stays g); [exact He|by right]. }
  2: { by destruct Hh. }
  2: { by apply (handlers_tcp t). }
  destruct Hs as [t t' p hs m g n Hst Hc|t p hs m g n i b fd h Hi Hb Hc Hn _|t p hs m g n j h h' Hj Hs|R t p p' hs m g n j C s d c k o r Hj _ _
    |p r ls sm o c pc pf hs m g n i b fd j h Hi Hb Hc Hj Hh' He].
  - apply (handlers_tcp t); [done|by apply moves_step|done..].
  - destruct Hh as [H1 H2]. constructor; cbn in *.
    + intros b' j [[<- <-]|[Hne Hb']]%lookup_insert_Some.
      * split; [by eexists|]. split; [done|]. rewrite list_lookup_middle by done. by eexists.
      * destruct (H1 b' j Hb') as (? & ? & [h' Hh']). split; [done|]. split; [done|]. exists h'. by apply lookup_app_l_Some.
    + intros j h' [Hj|[Hle Hj]]%lookup_app_Some.
      * destruct (H2 j h' Hj) as [|[b' Hb']]; [by left|right]. exists b'. rewrite lookup_insert_ne; [done|]. intros <-. congruence.
      * right. exists b. apply list_lookup_singleton_Some in Hj as [E _]. rewrite lookup_insert_eq. f_equal. lia.
  - apply (handlers_update t p p hs m g n n j h h' Hj); [|done]. intros He. eapply (ended_stays g); [exact He|by left].
  - apply (handlers_update t p p' hs m g n (S n) j _ _ Hj); [|done]. by intros [? [=]].
  - destruct Hh as [H1 H2]. constructor; cbn in *.
    + intros b' j' [Hne Hb']%lookup_delete_Some. destruct (H1 b' j' Hb') as (? & ? & ?). split; [done|]. split; [|done].
      rewrite not_elem_of_union, not_elem_of_singleton. done.
    + intros j' h0 Hj'. destruct (H2 j' h0 Hj') as [|[b' Hb']]; [by left|]. destruct (decide (b = b')) as [<-|Hne].
      * left. assert (j' = j) as -> by congruence. by assert (h0 = h) as -> by congruence.
      * right. exists b'. by rewrite lookup_delete_ne.
Qed.

(** ** g_shutdown *)

Definition started (pc : main_pc) : Prop := match pc with MCreating | MCreated | MFailed => False | _ => True end.

(** A server that runs no longer was stopped by the signal handler. *)
Definition flagged (g : bool) (t : tcp_server) : Prop := started (ts_main t) -> ts_running t = false -> g = true.

Lemma flagged_step g t t' : tcp_ok oom t -> tcp_step oom t t' -> flagged g t -> flagged g t'.
Proof.
  intros H Hst Hf. pose proof (tk_told _ _ H) as Ht. unfold flagged in *. destruct Hst; cbn in *; auto; try done.
  intros _ _. apply Hf; [done|]. by destruct Ht.
Qed.

Lemma flagged_outside g t t' : tcp_ok oom t -> tcp_moves oom t t' -> (ts_running t' = false -> ts_running t = false \/ g = true) ->
  flagged g t -> flagged g t'.
Proof.
  intros H Hm Hr Hf. destruct Hm as [t t' Hst|p r ls s o c pc _ _ _|p r ls s o c|p p' r ls s o c pc _]; [by apply (flagged_step g t)|..].
  all: intros Hs Ho; destruct (Hr Ho) as [E|E]; [by apply Hf|exact E].
Qed.

Lemma flagged_moves x y : tcp_ok oom (wh_tcp x) -> whole_moves x y -> flagged (wh_shutdown x) (wh_tcp x) -> flagged (wh_shutdown y) (wh_tcp y).
Proof.
  intros H Hm Hf. destruct Hm as [x y [x0 y0 Hs|]|t p hs m g n|t t' p hs m g n Hm _ Hr]; [|exact Hf|by intros ? ?|].
  - destruct Hs as [t t' p hs m g n Hst _| | | |]; [|exact Hf..]. by apply (flagged_step g t).
  - by apply (flagged_outside g t).
Qed.

(** ** All of it *)

Record whole_ok (p0 : platform pool_store btree) (x : whole) : Prop := WholeOk {
  wk_tcp : tcp_ok oom (wh_tcp x);
  wk_runs : runs_from p0 x;
  wk_handlers : handlers_ok x;
  wk_flag : flagged (wh_shutdown x) (wh_tcp x) }.

Lemma whole_ok_moves p0 x y : whole_ok p0 x -> whole_moves x y -> whole_ok p0 y.
Proof.
  intros [H1 H2 H3 H4] Hm. constructor; [eapply tcp_run_ok; [exact H1|by apply whole_net]|by apply (runs_moves p0 x)|by apply (handlers_moves x)|by apply (flagged_moves x)].
Qed.

Lemma whole_reaches_ok workers p0 x : whole_reaches workers p0 x -> whole_ok p0 x.
Proof.
  intros (t0 & E & Hr). assert (H : whole_ok p0 (Whole t0 p0 [] ∅ false 0)).
  { constructor; cbn.
    - apply (tcp_reaches_ok oom workers). exists t0. split; [done|constructor].
    - intros [|] Hl _; [constructor|done].
    - constructor; cbn; intros; [by rewrite lookup_empty in *|done].
    - unfold tcp_server_create in E. cbn in E. destruct (thread_pool_create _ _); [|done]. injection E as <-. by intros []. }
  clear E. induction Hr as [|x y z Hm _ IH]; [done|]. by apply IH, (whole_ok_moves p0 x).
Qed.

(** When tcp_server_destroy has returned every handler has ended. *)
Lemma done_ended p0 x : whole_ok p0 x -> ts_main (wh_tcp x) = MDone ->
  ts_open (wh_tcp x) = ∅ /\ torn_down (ts_pool (wh_tcp x)) /\ Forall ended (wh_handlers x).
Proof.
  intros [H1 _ H3 _] Hd. destruct (gone_empty oom _ H1 (or_introl Hd)) as [Ho Ht]. split; [done|]. split; [done|].
  apply Forall_lookup. intros j h Hj. destruct (hd_handler x H3 j h Hj) as [|[b Hb]]; [done|].
  destruct (hd_task x H3 b j Hb) as ([v Hv] & _). destruct Ht as (_ & _ & E). rewrite lookup_tasks, E in Hv. done.
Qed.

(** The requests if nothing more is read. *)
Lemma runs_remains p0 x : runs_from p0 x -> nsteps pstep (wh_calls x) (PSystem p0 []) (PSystem (wh_platform x) (remains [] <$> wh_handlers x)).
Proof.
  intros H. pose proof (H (replicate (length (wh_handlers x)) []) (length_replicate _ _) (Forall_replicate _ _ _ (Forall_nil_2 _))) as Hr.
  by rewrite zip_with_replicate_l in Hr.
Qed.

(** ** Stopping *)

(** From [p0] there is room for so many calls, the threads never wait for each other
    for ever, and what can be called in the world can be called on the platform. *)
Definition good_for (room : Z) (p0 : platform pool_store btree) : Prop :=
  forall n p ts, nsteps pstep n (PSystem p0 []) (PSystem p ts) -> Z.of_nat n <= room ->
  exists r w gs, simulates true r (PSystem p ts) w gs /\ in_order (System w ts).

Definition callable (p : platform pool_store btree) (t : thread) : Prop :=
  match t with
  | Thread (Call c _) => exists o r p', uint_ok 64 (os_now o) /\ pcall o p c = Some (r, p')
  | Thread (Ret _) => False
  end.

(** As long as some program is not at its end some call can be made. *)
Lemma some_callable room p0 n p ts : good_for room p0 -> nsteps pstep n (PSystem p0 []) (PSystem p ts) -> Z.of_nat n <= room ->
  Forall answered ts \/ exists j t, ts !! j = Some t /\ callable p t.
Proof.
  intros Hg Hn Hr. destruct (Hg n p ts Hn Hr) as (r & w & gs & Hsim & Ho).
  destruct (in_order_goes_on (platform_fails true) w ts Ho) as [Ha|[s' Hs']]; [by left|right].
  destruct (sched_psched true _ p w ts s' (sm_rep _ _ _ _ _ Hsim) Hs') as (p1 & ts' & Hp).
  inversion Hp as [R A j o p2 ts2 c k r' p' Hj Hnow Hc]; subst. exists j, (Thread (Call c k)). split; [done|]. by exists o, r', p1.
Qed.

Lemma callable_calls t p hs m g n j h : hs !! j = Some h -> callable p (remains [] h) ->
  exists y, whole_step (Whole t p hs m g n) y.
Proof.
  intros Hj Hc. destruct (quiet_remains h) as [Hcalls|Ha].
  - destruct h as [C s d [| | |[|R c k]| |]]; try done. destruct (call_remains C s d R c k []) as (f & E & _).
    rewrite E in Hc. destruct Hc as (o & r & p' & Ho & Hp). eexists. by apply (whole_call t p p' hs m g n j C s d c k o r).
  - exfalso. destruct (remains [] h) as [A [b|R c k]]; [done|]. by destruct Ha.
Qed.

Lemma handlers_go_on room p0 x j h : good_for room p0 -> whole_ok p0 x -> Z.of_nat (wh_calls x) <= room ->
  wh_handlers x !! j = Some h -> ended h \/ exists y, whole_step x y.
Proof.
  intros Hg Hx Hr Hj. destruct (handler_goes_on (wh_shutdown x) h) as [He|[Hc|[h' Hh]]]; [by left|right..].
  - pose proof (runs_remains p0 x (wk_runs _ _ Hx)) as Hn. destruct x as [t p hs m g n]. cbn in *.
    destruct (some_callable room p0 n p _ Hg Hn Hr) as [Ha|(i & th & Hi & Hcall)].
    + exfalso. assert (Hh : answered (remains [] h)) by (rewrite Forall_fmap, Forall_lookup in Ha; exact (Ha j h Hj)).
      destruct h as [C s d [| | |[|R c k]| |]]; try done. destruct (call_remains C s d R c k []) as (f & E & _). rewrite E in Hh. by destruct Hh.
    + apply list_lookup_fmap_Some in Hi as (h0 & -> & Hi). by apply (callable_calls t p hs m g n i h0).
  - destruct x as [t p hs m g n]. eexists. by apply (whole_handler t p hs m g n j h h').
Qed.

(** A new connection is always possible. *)
Lemma some_connection fd : exists h, begins fd h.
Proof.
  exists (Handler no_libc (new_session fd) [] (HSends banner None)). apply (begins_session fd _ _ (Session (-1) 0 0 (zeros 32) 0 false) 0); [|done].
  split; [intros b; by vm_compute|]. split; [by vm_compute|constructor].
Qed.

Record ending (p0 : platform pool_store btree) (x : whole) : Prop := Ending {
  en_ok : whole_ok p0 x;
  en_stop : stopping (wh_tcp x) }.

Lemma ending_shutdown p0 x : ending p0 x -> wh_shutdown x = true.
Proof. intros [[_ _ _ Hf] [Hr Hs]]. by apply Hf. Qed.

Lemma ending_goes_on room p0 x : good_for room p0 -> ending p0 x ->
  (ts_main (wh_tcp x) = MDone \/ room <= Z.of_nat (wh_calls x)) \/ exists y, whole_step x y.
Proof.
  intros Hg [Hx Hstop]. pose proof (wk_tcp _ _ Hx) as H1. pose proof (wk_handlers _ _ Hx) as H2.
  destruct (decide (room <= Z.of_nat (wh_calls x))) as [|Hroom]; [by left; right|].
  destruct (shutdown_goes_on oom _ H1 Hstop) as [E|[t' Hst]]; [by left; left|right].
  pose proof (handlers_go_on room p0 x) as Hgo. destruct x as [t p hs m g n]. cbn [wh_tcp wh_handlers wh_calls] in *.
  destruct (decide (ts_closed t' ⊆ ts_closed t)) as [Hc|Hc]; [eexists; by apply whole_tcp|].
  assert (Hret : exists p r ls sm o c pc i b fd, t = TcpServer p r ls sm o c pc /\ m_workers p !! i = Some (WRunning b) /\
    tasks p !! b = Some (tt, fd) /\ b ∉ c).
  { destruct Hst; cbn in Hc; try done; [by eexists _, _, _, _, _, _, _, _, _, _|]. destruct Hc. set_solver. }
  destruct Hret as (tp & r & ls & sm & o & c & pc & i & b & fd & -> & Hi & Hb & Hbc). clear Hst Hc.
  destruct (m !! b) as [j|] eqn:Hj.
  - destruct (hd_task _ H2 b j Hj) as (_ & _ & [h Hh]). cbn in Hh.
    destruct (Hgo j h Hg Hx ltac:(lia) Hh) as [He|Hex]; [|exact Hex]. eexists. by apply (whole_returns tp r ls sm o c pc p hs m g n i b fd j h).
  - destruct (some_connection fd) as [h Hh]. eexists. by apply (whole_begins (TcpServer tp r ls sm o c pc) p hs m g n i b fd h).
Qed.

(** Connections that have not begun. *)
Definition unbegun (x : whole) : nat :=
  size (filter (fun kv => wh_tasks x !! kv.1 = None) (served (ts_pool (wh_tcp x)) (ts_closed (wh_tcp x)))).

(** What is left: of the listening thread and the pool, of the connections not begun, of
    the handlers' stages, of what they send, and of the calls. *)
Definition left_over (x : whole) : nat * (nat * (nat * (nat * list thread))) :=
  (shutdown_left (wh_tcp x), (unbegun x, (total stages_left (wh_handlers x), (total unsent (wh_handlers x), remains [] <$> wh_handlers x)))).

Definition comes_down (x y : whole) : Prop :=
  slexprod nat _ lt (slexprod nat _ lt (slexprod nat _ lt (slexprod nat (list thread) lt one_goes_on))) (left_over x) (left_over y).

Lemma comes_down_wf : well_founded comes_down.
Proof.
  apply (wf_inverse_image whole _ _ left_over). do 4 (apply wf_slexprod; [exact lt_wf|]). exact one_goes_on_wf.
Qed.

(** One handler is nearer to its end. *)
Lemma nearer_comes_down t p hs m g n j h h' : hs !! j = Some h -> nearer h' h ->
  comes_down (Whole t p (<[j := h']> hs) m g n) (Whole t p hs m g n).
Proof.
  intros Hj Hn. pose proof (total_insert stages_left hs j h h' Hj) as E1. pose proof (total_insert unsent hs j h h' Hj) as E2.
  unfold comes_down, left_over, unbegun. cbn [wh_tcp wh_tasks wh_handlers]. apply right_slex, right_slex.
  destruct Hn as [Hs|[Hs Hu]]; [apply left_slex; lia|].
  replace (total stages_left (<[j := h']> hs)) with (total stages_left hs) by lia. apply right_slex, left_slex. lia.
Qed.

Lemma begin_comes_down t p hs m g n b fd h : tasks (ts_pool t) !! b = Some (tt, fd) -> b ∉ ts_closed t -> m !! b = None ->
  comes_down (Whole t p (hs ++ [h]) (<[b := length hs]> m) g (S n)) (Whole t p hs m g n).
Proof.
  intros Hb Hc Hm. unfold comes_down, left_over. cbn [wh_tcp wh_tasks wh_handlers]. apply right_slex, left_slex.
  unfold unbegun. cbn [wh_tcp wh_tasks].
  assert (Hsv : served (ts_pool t) (ts_closed t) !! b = Some fd) by (apply lookup_served; eauto). set (sv := served _ _) in *.
  assert (E : filter (fun kv : positive * Z => <[b := length hs]> m !! kv.1 = None) sv = delete b (filter (fun kv => m !! kv.1 = None) sv)).
  { apply map_eq. intros b'. apply option_eq. intros v. rewrite lookup_delete_Some, !map_lookup_filter_Some. cbn [fst].
    destruct (decide (b = b')) as [<-|Hne]; [rewrite lookup_insert_eq; naive_solver|rewrite lookup_insert_ne by done; naive_solver]. }
  rewrite E. assert (Hin : filter (fun kv => m !! kv.1 = None) sv !! b = Some fd) by by apply map_lookup_filter_Some.
  rewrite map_size_delete_Some by (by eexists).
  assert (size (filter (fun kv => m !! kv.1 = None) sv) <> 0%nat) by (intros E0%map_size_empty_inv; by rewrite E0, lookup_empty in Hin). lia.
Qed.

Lemma call_comes_down {R} t p p' hs m g n j C s d (c : cmd R) k r : hs !! j = Some (Handler C s d (HRuns (Call c k))) ->
  comes_down (Whole t p' (<[j := Handler C s d (HRuns (k r))]> hs) m g (S n)) (Whole t p hs m g n).
Proof.
  intros Hj. set (h' := Handler C s d (HRuns (k r))).
  pose proof (total_insert stages_left hs j _ h' Hj) as E1. pose proof (total_insert unsent hs j _ h' Hj) as E2. cbn in E1, E2.
  unfold comes_down, left_over, unbegun. cbn [wh_tcp wh_tasks wh_handlers].
  replace (total stages_left (<[j := h']> hs)) with (total stages_left hs) by lia.
  replace (total unsent (<[j := h']> hs)) with (total unsent hs) by lia. do 4 apply right_slex.
  destruct (call_remains C s d R c k []) as (f & F1 & F2). exists j, (Thread (Call c f)), (remains [] h').
  split; [by rewrite list_lookup_fmap, Hj, <- F1|]. split; [|by rewrite list_fmap_insert]. exists r. symmetry. apply F2.
Qed.

Lemma acts_come_down p0 x y : ending p0 x -> whole_acts x y -> comes_down y x.
Proof.
  intros Hx Hs. pose proof (ending_shutdown p0 x Hx) as Hg. destruct Hx as [[H1 _ _ _] H3].
  destruct Hs as [x y Hs|t p hs m g n j h h' Hj Ha]; [|by eapply nearer_comes_down, client_nearer].
  destruct Hs as [t t' p hs m g n Hst _|t p hs m g n i b fd h _ Hb Hc Hn _|t p hs m g n j h h' Hj Hs|R t p p' hs m g n j C s d c k o r Hj _ _
    |p r ls sm o c pc pf hs m g n i b fd j h Hi Hb Hc _ _ _]; cbn [wh_tcp wh_shutdown] in *.
  - apply left_slex. by apply (shutdown_decreases oom).
  - by eapply begin_comes_down.
  - subst g. by eapply nearer_comes_down, handler_nearer.
  - by eapply call_comes_down.
  - apply left_slex. apply (shutdown_decreases oom); [done|done|]. by eapply tcp_handler_returns.
Qed.

Lemma ending_acts p0 x y : ending p0 x -> whole_acts x y -> ending p0 y.
Proof.
  intros [H1 H2] Hs. constructor; [by apply (whole_ok_moves p0 x), whole_moves_acts|].
  destruct Hs as [x y [t t' p hs m g n Hst _| | | |]|]; try done. by apply (stopping_step oom t).
Qed.

Lemma ending_ends room p0 x : good_for room p0 -> ending p0 x ->
  inevitable_by whole_step whole_acts (fun y => (ts_main (wh_tcp y) = MDone /\ ts_open (wh_tcp y) = ∅ /\ torn_down (ts_pool (wh_tcp y)) /\
    Forall ended (wh_handlers y)) \/ room <= Z.of_nat (wh_calls y)) x.
Proof.
  intros Hg Hx. apply (inevitable_by_acc _ _ _ (ending p0) comes_down); [| |apply comes_down_wf|exact Hx].
  - intros y z Hy Hs. split; [by apply (ending_acts p0 y)|by apply (acts_come_down p0)].
  - intros y Hy. destruct (ending_goes_on room p0 y Hg Hy) as [[Hd|Hr]|Hex]; [left; left|by left; right|by right].
    split; [done|]. by apply (done_ended p0); [apply Hy|].
Qed.
End whole.

(** ** The theorems *)

(** A server started after any number of lives has room for the rest of a lifetime. *)
Lemma start_good k st pad fds faults os p0 st1 :
  lives no_files k st -> surroundings pad fds faults os -> server_start pad fds faults os st = Some (p0, st1) ->
  k + Z.of_nat (length os) <= LIFETIME -> good_for (LIFETIME - k - Z.of_nat (length os)) p0.
Proof.
  intros Hlives Hsu Hstart Hb n p ts Hs Hn. destruct new_directory as [Hst Hw].
  destruct (lives_hold _ _ _ Hlives LIFETIME empty_world Hst Hw ltac:(lia)) as (w1 & Hst1 & Hw1).
  destruct (start_runs pad fds faults os Hsu _ st w1 p0 st1 Hst1 Hw1 Hstart ltac:(lia)) as (w2 & _ & Hlocks & Hrun & _).
  destruct (running_run st1 _ _ _ _ w2 [] Hrun Hs Hn) as (w' & gs & Hr & [Hsim _ _]).
  eexists _, w', gs. split; [exact Hsim|]. by eapply ordered_reaches.
Qed.

(** C8: the whole server shuts down.  Take a server started after any number of lives
    and run with its listening thread, its workers and any clients; once the signal
    handler has told it to stop, its own threads come, in every schedule, to the
    point where every handler has returned, every socket is closed, the workers are
    joined, and tcp_server_destroy has returned; only the counters can run out
    first.  No client has to do anything for that, whatever it may do in between:
    a read() or write() that waits for it times out, the loops test g_shutdown, and
    accept() fails because the listening socket is shut down.  That handlers return is
    not assumed either: a worker runs the calls of its lines on the platform. *)
Theorem whole_shutdown oom workers k st pad fds faults os p0 st1 x :
  lives no_files k st -> surroundings pad fds faults os -> server_start pad fds faults os st = Some (p0, st1) ->
  whole_reaches oom workers p0 x -> k + Z.of_nat (length os + wh_calls x) <= LIFETIME -> stopping (wh_tcp x) ->
  inevitable_by (whole_step oom) (whole_acts oom) (fun y => (ts_main (wh_tcp y) = MDone /\ ts_open (wh_tcp y) = ∅ /\
    torn_down (ts_pool (wh_tcp y)) /\ Forall ended (wh_handlers y)) \/ LIFETIME <= k + Z.of_nat (length os + wh_calls y)) x.
Proof.
  intros Hlives Hsu Hstart Hx Hb Hstop. pose proof (start_good _ _ _ _ _ _ _ _ Hlives Hsu Hstart ltac:(lia)) as Hg.
  eapply inevitable_by_mono; [|apply (ending_ends oom _ p0 x Hg); constructor; [by apply (whole_reaches_ok oom workers)|done]].
  intros y [H|H]; [by left|right; lia].
Qed.

(** C9: a run of the whole server is a life.  When tcp_server_destroy has returned,
    however the listening thread, the workers and the clients were interleaved, no
    socket is open and every handler that began has ended; so server_shutdown
    leaves a storage that one more life has led to, a run of the requests that arrived
    with all of them answered, for which all that holds of lives holds. *)
Theorem whole_life oom workers st pad fds faults os synced p0 st1 x :
  surroundings pad fds faults os -> server_start pad fds faults os st = Some (p0, st1) ->
  whole_reaches oom workers p0 x -> ts_main (wh_tcp x) = MDone ->
  ts_open (wh_tcp x) = ∅ /\ Forall ended (wh_handlers x) /\
  (forall inputs, length inputs = length (wh_handlers x) -> Forall answered (zip_with remains inputs (wh_handlers x))) /\
  life st (Z.of_nat (length os + wh_calls x) + 1) (server_shutdown pad synced (wh_platform x) st1).
Proof.
  intros Hsu Hstart Hx%whole_reaches_ok Hd. destruct (done_ended oom p0 x Hx Hd) as (Ho & _ & He). split; [exact Ho|]. split; [exact He|].
  split.
  - intros inputs _. apply Forall_lookup. intros j t (i & h & -> & _ & Hh)%lookup_zip_with_Some.
    apply ended_remains. by eapply Forall_lookup_1.
  - eapply (one_life pad fds faults os synced); [exact Hsu|exact Hstart|apply (runs_remains p0 x), Hx|].
    apply Forall_fmap. eapply Forall_impl; [exact He|]. intros h. apply ended_remains.
Qed.

(** ** A client that does nothing, a signal, and the end *)

Tactic Notation "net" uconstr(c) :=
  eapply rtc_l; [apply whole_moves_acts, whole_own, whole_tcp; [eapply c; try done; try reflexivity|try reflexivity]|cbn].
Tactic Notation "work" uconstr(c) :=
  eapply rtc_l; [apply whole_moves_acts, whole_own, whole_tcp; [eapply tcp_pool; [|eapply c; try done; try reflexivity]; try done|try reflexivity]|cbn].
Tactic Notation "handle" uconstr(c) :=
  eapply rtc_l; [apply whole_moves_acts, whole_own; eapply (whole_handler _ _ _ _ _ _ _ 0); [reflexivity|eapply c]|cbn [list_insert insert]].

(** The client on socket 5 has read the banner and types nothing; its handler waits in
    read() when the signal arrives. *)
Definition caller (st : stage) : handler := Handler no_libc (new_session 5) [] st.
Definition called (p0 : platform pool_store btree) : whole :=
  Whole serving_stopped p0 [caller (HReads [] false)] (<[1%positive := 0%nat]> ∅) true 1.

Lemma client_reads C s d out last : (0 < length out)%nat -> client_acts (Handler C s d (HSends out last)) (Handler C s d (HSends [] last)).
Proof. intros H. pose proof (client_takes C s d out last (length out) ltac:(lia)) as Ht. by rewrite drop_all in Ht. Qed.

Lemma caller_begins : begins 5 (caller (HSends banner None)).
Proof.
  apply (begins_session 5 _ _ (Session (-1) 0 0 (zeros 32) 0 false) 0); [|done].
  split; [intros b; by vm_compute|]. split; [by vm_compute|constructor].
Qed.

Lemma called_reached oom p0 : whole_reaches oom 1 p0 (called p0).
Proof.
  eexists. split; [reflexivity|]. unfold called, serving_stopped, serving_pool.
  work step_spawn. work step_created. net tcp_created. net tcp_start. net tcp_loop. net tcp_slot. net tcp_check.
  net (tcp_accept _ _ _ _ _ _ 5). net tcp_submit. { by apply step_submit_call. } cbn.
  work (step_submit_done _ _ _ _ _ _ _ _ _ 0 tt 5 1%positive). { by apply signal_none, Forall_singleton. }
  net tcp_submitted. work (step_worker_takes _ _ _ _ _ _ _ _ _ 0). { by apply signal_none, Forall_singleton. }
  eapply rtc_l. { apply whole_moves_acts, whole_own, (whole_begins oom serving p0 [] ∅ false 0 0 1%positive 5 (caller (HSends banner None)) eq_refl eq_refl); [done|done|apply caller_begins]. }
  eapply rtc_l. { apply whole_moves_acts. eapply (whole_client oom serving p0 _ _ false 1 0); [reflexivity|]. apply client_reads. vm_compute. lia. }
  cbn [list_insert insert app length].
  handle handler_sent. handle handler_loops. handle handler_tests. cbn [at_loop at_test].
  eapply rtc_l; [apply whole_signal|].
  apply rtc_once, (whole_outside oom serving serving_stopped); [|done|by right]. apply (moves_signal oom serving_pool); discriminate.
Qed.

(** The listening thread leaves its loop, the read() times out, the handler returns,
    the worker exits and is joined. *)
Lemma evening_over oom p0 : exists x, whole_reaches oom 1 p0 x /\ ts_main (wh_tcp x) = MDone /\ wh_calls x = 1%nat /\
  wh_platform x = p0 /\ wh_handlers x = [caller (HEnds ([], []))].
Proof.
  destruct (called_reached oom p0) as (t0 & E & Hr). eexists. split.
  - exists t0. split; [exact E|]. etrans; [exact Hr|]. unfold called, serving_stopped, serving_pool.
    net tcp_loop. net tcp_destroy. { apply step_destroy. } cbn.
    handle handler_times_out. handle handler_tests. cbn [at_test].
    eapply rtc_l.
    { apply whole_moves_acts, whole_own. eapply (whole_returns oom _ _ _ _ _ _ _ _ _ _ _ _ 0 1%positive 5 0); try done. by eexists. }
    net (tcp_task_returns _ _ _ _ _ _ _ _ _ 1%positive 5). { by apply (step_task_finishes _ _ _ _ _ _ _ _ _ 0 1%positive (TaskNode tt 5 None)). } { cbn. set_solver. } cbn.
    work (step_worker_exits _ _ _ _ _ _ _ _ _ 0). work step_join.
    net tcp_destroyed. { by apply step_free. } apply rtc_refl.
  - by split_and!.
Qed.

(** A second life. *)
Lemma second_start : exists k st (p0 : platform pool_store btree) st1, lives no_files k st /\ 0 < k <= 70 /\
  server_start zero_pad data_fds [] (replicate 3 noon) st = Some (p0, st1).
Proof.
  destruct first_life as (k & st & Hl & Hk). destruct new_directory as [Hst Hw].
  destruct (lives_hold _ _ _ Hl LIFETIME empty_world Hst Hw ltac:(unfold LIFETIME; lia)) as (w1 & Hst1 & _).
  destruct (start_succeeds _ _ _ _ st _ w1 (clear_day 3) ltac:(cbn; lia) Hst1) as [[p0 st1] E].
  by exists k, st, p0, st1.
Qed.

Lemma whole_shutdown_witness : exists k st (p0 : platform pool_store btree) st1, lives no_files k st /\ 0 < k /\
  server_start zero_pad data_fds [] (replicate 3 noon) st = Some (p0, st1) /\
  inevitable_by (whole_step true) (whole_acts true) (fun y => (ts_main (wh_tcp y) = MDone /\ ts_open (wh_tcp y) = ∅ /\
    torn_down (ts_pool (wh_tcp y)) /\ Forall ended (wh_handlers y)) \/ LIFETIME <= k + Z.of_nat (3 + wh_calls y)) (called p0).
Proof.
  destruct second_start as (k & st & p0 & st1 & Hl & Hk & E). exists k, st, p0, st1.
  split; [exact Hl|]. split; [lia|]. split; [exact E|].
  apply (whole_shutdown true 1 k st zero_pad data_fds [] (replicate 3 noon) p0 st1 (called p0) Hl (clear_day 3) E (called_reached true p0)).
  - cbn [length replicate called wh_calls]. unfold LIFETIME. lia.
  - by split.
Defined.

Lemma whole_life_witness : exists k st (p0 : platform pool_store btree) st1, lives no_files k st /\ 0 < k /\
  server_start zero_pad data_fds [] (replicate 3 noon) st = Some (p0, st1) /\ life st 5 (server_shutdown zero_pad true p0 st1).
Proof.
  destruct second_start as (k & st & p0 & st1 & Hl & Hk & E). exists k, st, p0, st1.
  split; [exact Hl|]. split; [lia|]. split; [exact E|]. destruct (evening_over true p0) as (x & Hx & Hd & Hn & Hp & _).
  destruct (whole_life true 1 st zero_pad data_fds [] (replicate 3 noon) true p0 st1 x (clear_day 3) E Hx Hd) as (_ & _ & _ & Hlife).
  rewrite Hn, Hp in Hlife. exact Hlife.
Defined.
